(* ===== verification/_CoqProject ===== *)
-Q . S2P
Prelude.v
Crc32.v
Protocol.v
KernelApi.v
Device.v
Kfifo.v
Watchdog.v
Chrdev.v
DriverMain.v
DriverInv.v
DriverSpec.v
DriverSim.v
DriverRefine.v
DriverProps.v
DriverSteps.v
Debugfs.v
Firmware.v
FirmwareTasks.v
FirmwareRx.v
FirmwareSpec.v
FirmwareInv.v
FirmwareRounds.v
FirmwareProps.v
EndToEnd.v
Ebpf.v
EbpfReport.v
EbpfHist.v
EbpfSpec.v
EbpfCycles.v
EbpfProps.v
EbpfOverlap.v
Supervisor.v
Framing.v
SupervisorLoop.v
SupervisorInv.v
SupervisorProps.v
Logger.v
LoggerSpec.v
Csv.v
Replay.v
ReplaySpec.v
ReplayProps.v
Linkd.v
LinkdProps.v
Bridge.v
BridgeProps.v
Safetyctl.v
SafetyctlProps.v
Cli.v
CliSpec.v
CliProps.v
SupervisorTimer.v
TimerProps.v
Descriptors.v
DescriptorsProps.v
TracerReport.v
TracerSpec.v
Doubles.v
TracerProps.v
DeviceClient.v
System.v
Recovery.v
TraceLayout.v
LinkdRun.v
Offline.v
LinkdLog.v
