(* ===== verification/Prelude.v ===== *)
(** * Real-Time Safety Co-Processor Supervisor: verification library

    This library models the C and C++ code of the repository - wire protocol,
    Linux kernel driver, Zephyr firmware, eBPF tracer, supervisor daemon, link
    daemon, host bridge and command line tool - as executable definitions, and
    proves what makes each part correct, alone and together.

    ** The program

    A co-processor ([zephyr/safety_copro_firmware]) watches a process and sends
    framed messages (heartbeat, telemetry, faults, acknowledgements) over a UART.
    A link daemon ([userspace/safety-linkd]) carries the bytes into a Linux driver
    ([linux/drivers/safety_copro]) through an ioctl; the driver validates frames,
    queues them for the supervisor daemon ([userspace/safety-supervisord], by
    [read] and [poll]) and runs a heartbeat
    watchdog that, when it expires, synthesizes a FAULT_EVENT frame and schedules
    a recovery work.  The supervisor writes COMMAND frames, which the link daemon
    pops and sends to the firmware; it keeps a health state machine, a recovery
    worker and a log that can be replayed.  [userspace/safetyctl] issues single
    commands, and on the host a bridge ([bridge]) joins two serial lines and
    injects faults.  An eBPF program ([ebpf]) hooks the driver's
    tracepoints and reports latencies and fault cycles.  All ends share
    [include/safety_protocol.h] byte for byte.

    ** Files

    - [Prelude]: fixed-width arithmetic ([u8] .. [u64] are reductions modulo
      2^w), little-endian byte images, record updates, and the model of
      concurrency below.
    - [Crc32], [Protocol]: [safety_protocol.h].  A frame is a [list Z] of bytes,
      a packed struct a record with its byte image ([header_bytes] and
      [header_of_bytes], [command_bytes] ...).
    - [KernelApi]: the Linux services the driver calls (kfifo, hrtimer, work
      queue, clock, current CPU), as the class [KernelApi] with laws [KernelOk]
      and the instance [KernelApi.Sim].
    - [Device] ([safety_copro.h], [_percpu.c], [_trace.h]), [Kfifo] ([_kfifo.c]),
      [Watchdog] ([_timer.c], [_workqueue.c]), [Chrdev] ([_chrdev.c],
      [_ioctl.h]), [DriverMain] ([_main.c]), [Debugfs] ([_debugfs.c], with the
      printed text): the driver.  [struct safety_copro_dev] is the record
      [safety_copro_dev]; the world adds a clock and the log of tracepoints and
      wake-ups.
    - [DriverInv] (invariant of all interleavings), [DriverSpec] (what one run of
      each operation does), [DriverSim] (a concrete device), [DriverRefine] (two
      bounded queues as abstract machine), [DriverProps], [DriverSteps] (each
      critical section of an entry point as one operation on the queues or none,
      and so any schedule of threads as a sequence of operations).
    - [Firmware] ([safety_app.h], [safety_protocol.c]), [FirmwareTasks] (the four
      tasks and [main.c]), [FirmwareRx] (the receiver as an automaton on frames),
      [FirmwareSpec], [FirmwareInv], [FirmwareRounds], [FirmwareProps].  The
      Zephyr services are the class [ZephyrApi].
    - [EndToEnd]: firmware and driver joined by the byte stream.
    - [Ebpf] ([safety_trace.bpf.c]) and [EbpfReport] ([safety_trace_user.c]), with
      [EbpfHist] (a histogram against its samples), [EbpfSpec] (abstract trace and
      simulation), [EbpfCycles], [EbpfProps], [EbpfOverlap] (handlers that run at
      the same time on several CPUs).  Kernel maps, ring buffer and clock
      are the class [BpfApi].  [TraceLayout]: the bytes of a tracepoint's record as
      [safety_copro_trace.h] lays them out and as the tracer's structs read them.
    - [Supervisor] ([protocol.cpp], [health_state_machine.cpp], the framer of the
      link daemon) with [Framing] (what a stream of bytes is cut into);
      [SupervisorLoop] ([event_loop.cpp], [recovery_worker.cpp]: two threads on the
      world [sv]; clock and writes are the class [SvEnv]), [SupervisorInv],
      [SupervisorProps].
    - [Logger] ([logger_worker.cpp] and the readers of [replay_mode.cpp]) with
      [LoggerSpec] and [Csv] (fields of a line); [Replay] ([run_replay], and
      [run_mock] of [main.cpp]) with [ReplaySpec] (abstract replay of events) and
      [ReplayProps]; [Offline] (both modes from [main] on, on the files of a disk).
    - [Linkd] (both transfers of [safety-linkd/main.cpp] on the driver's ioctls) and
      [LinkdProps]; [LinkdRun] (its main loop as one thread among all others in the
      driver, and the relay it implements), [LinkdLog] (its report); [Bridge]
      ([fault_injector.cpp], [pty_bridge.cpp]) and
      [BridgeProps]; [Safetyctl] ([commands.cpp], [main.cpp]) and [SafetyctlProps].
    - [Cli] (the option parsers of the supervisor, the link daemon, the bridge
      and the tracer, a module each, with [std::stoul], [atoi] and [strtol]) with
      [CliSpec] (tables of options) and [CliProps].
    - [DeviceClient] ([device_client.cpp] on the driver of [Chrdev]); [System]:
      firmware, bridge, link daemon, driver and supervisor as one line; [Recovery]:
      a recovery that runs along it.
    - [SupervisorTimer] (waiting times and end of [EventLoop::run], the timer of
      [arm_heartbeat_timer]) with [TimerProps]; [Descriptors] ([UniqueFd] of
      [device_client.h], [Fd] of the link daemon, and every program's start-up
      and return on a set of open descriptors) with [DescriptorsProps].
    - [TracerReport] (text of the report files, polling loop and [main] of
      [safety_trace_user.c]) with [TracerSpec], [Doubles] (the binary64 division
      and rounding that the reports print) and [TracerProps].

    ** How code is modelled

    A thread is a [prog W A], a sequence of atomic actions on the shared state
    [W]; [run] executes it alone, and [pool_reach] is reachability under any
    interleaving of any number of threads.  Everything under one spinlock, mutex
    or irq-off section is one action ([atomic]); accesses outside a lock are
    actions of their own, so races of the code are races of the model.  [safe I
    Q p] says every action of [p] keeps [I]; [pool_invariant] lifts it to all
    interleavings.  Kernel objects are parameters with the documented laws only.
    User memory is an argument ([None] when the copy faults).  Error codes are
    the negative integers of the code.  The driver's per-CPU counters are read
    and cleared without a lock, one access after the other ([percpu_clear],
    [percpu_read]).  The link daemon calls the driver from its own thread: any
    action of any other thread may fall between two of its own ([threads], [exec]
    for a given schedule, [finish] for the rest of its run).  eBPF handlers are
    such programs: one at a time runs on a CPU, so that an update of a per-CPU
    map is one action, and [rely] says what a handler needs while others run.  A
    lookup in a hash map gives a pointer, and what is behind it is read later
    ([bpf_deref]); C leaves open whether [bpf_ktime_get_ns() - *p] reads the
    clock or the memory first, so [since] does either, by a parameter.

    ** What is proved

    - Protocol: pack/validate round trip; validation accepts exactly frames;
      bursts of up to four payload bytes and any checksum change are detected; the
      byte-wise CRC equals the bit-serial register.
    - Driver: an invariant of every interleaving of all entry points from any
      successful start-up; the two clients see exactly two bounded FIFO queues;
      every outcome of a received frame; watchdog, recovery work, statistics,
      ioctl errors, timeline file, clean start-up failure and removal.
    - Firmware: an invariant of every interleaving of tasks and interrupts (whole
      valid frames on the wire, no buffer overrun, bounded queue); the receiver
      delivers exactly the frames of the stream; each command is answered once;
      faults are reported once per edge; telemetry stays in range; a race between
      fault monitor and command handler that leaves the firmware silent.
    - Together: a heartbeat sent by the firmware feeds the driver's watchdog; a
      command written by the supervisor reaches the firmware and is answered; and
      the whole line: whatever the bridge drops or corrupts, each heartbeat that
      arrives is answered once, and the answers come back to the firmware; a
      recovery succeeds on the firmware, while the daemon has already given up.
    - Tracer: its structs match the driver's tracepoints; the report is exact for
      events handled one after the other while fewer calls and wakeups are open
      than the maps hold; when handlers overlap it summarises differences of clock
      readings, those of the system calls in order as long as each thread's
      handlers follow one another; percentiles are bucket bounds; fault cycles
      are the windows between timeouts; the driver's own recovery report is taken for
      a restored heartbeat; every field of the CSV file can be read back and every
      line of the Markdown file is that of an abstract report, printed times and
      means are correctly rounded, and [main] returns, writes and releases on
      every path exactly what its outcome says.
    - Supervisor: frames do not depend on how the stream is cut; every frame is
      answered once; a recovery fails at once, a deadline is never waited for, the
      driver's own report strands the daemon, and heartbeats wear out after 65536
      sequence numbers.
    - Log: every field is read back; the logger loses nothing and stops; replay
      refines an abstract replay of the events; it makes the transitions of mock
      mode, except the last if the last heartbeat ended a gap - from the command
      lines to the files and all printed numbers - and never reaches a terminal
      state.
    - Transport: the main loop of the link daemon is a relay between the UART and
      the driver's two queues, whatever other threads do there between any two of
      its critical sections; what the UART delivers is
      what the supervisor assembles; the supervisor's ACKs come back as NACKs; the
      bridge is transparent without faults, and with them the receiver sees exactly
      the configured ones, as its log says; what [safetyctl] reaches.
    - Start-up: what the option parsers accept is well-formed and every
      well-formed configuration can be written, as the help texts say; which
      heartbeat time an option text gives; the event loop ends when the duration is
      over, it is stopped or waiting fails, and not before; no object of the two
      descriptor classes and no program leaks a descriptor or closes one twice,
      however its system calls turn out.

    ** Bounds and fuel

    Endless task loops run for any number of rounds ([n], universally
    quantified).  [safety_read_wait] takes the results of its sleeps as a list of
    any length, [write_all] and [rx_loop] those of their system calls.
    [fault_cycles] has fuel and is proved with as much as there are events, which
    is enough; the framers have one round per byte and one more, and
    [assemble_fuel] shows that more gives the same.  [tx_loop] ends when its fuel
    exceeds the number of frames it finds, so [linkd_loop] needs more than were
    queued and others write while it runs: at most one per step of theirs.  [loop_timed] and [trace_loop] take one
    entry per round, of any number; the bound on rounds is in the theorem.  The CRC loops are structural.  Queue
    depth, number of CPUs and timeouts are parameters; the timeline ring has its
    64 entries.

    ** Not modelled

    Signal handlers (they clear a flag; the value each round reads is an
    argument), the terminal settings of the UART and the making of the report
    directory (system calls with an outcome), the help text of the tracer, what
    live mode, the daemons and the tracer print on standard output, and messages
    on standard error; [safety_open] and [safety_release] (no state);
    devicetree and build files, tests and scripts. *)

From stdpp Require Export base list numbers strings pretty.

#[export] Set Default Goal Selector "!".
#[global] Open Scope Z_scope.

(** ** Fixed-width unsigned integers

    A [w]-bit unsigned integer of the C code is a [Z]; conversion to the type
    (and so every unsigned overflow) is written out as a reduction modulo
    [2^w]. *)

Definition u8 (x : Z) : Z := x mod 2 ^ 8.
Definition u16 (x : Z) : Z := x mod 2 ^ 16.
Definition u32 (x : Z) : Z := x mod 2 ^ 32.
Definition u64 (x : Z) : Z := x mod 2 ^ 64.

Definition is_u8 (x : Z) : Prop := 0 <= x < 2 ^ 8.
Definition is_u16 (x : Z) : Prop := 0 <= x < 2 ^ 16.
Definition is_u32 (x : Z) : Prop := 0 <= x < 2 ^ 32.
Definition is_u64 (x : Z) : Prop := 0 <= x < 2 ^ 64.

#[global] Arguments is_u8 _ /.
#[global] Arguments is_u16 _ /.
#[global] Arguments is_u32 _ /.
#[global] Arguments is_u64 _ /.

Create HintDb safety discriminated.

Lemma u8_range x : is_u8 (u8 x).
Proof. apply Z.mod_pos_bound; lia. Qed.
Lemma u16_range x : is_u16 (u16 x).
Proof. apply Z.mod_pos_bound; lia. Qed.
Lemma u32_range x : is_u32 (u32 x).
Proof. apply Z.mod_pos_bound; lia. Qed.
Lemma u64_range x : is_u64 (u64 x).
Proof. apply Z.mod_pos_bound; lia. Qed.
#[export] Hint Resolve u8_range u16_range u32_range u64_range : safety.

Lemma u8_small x : is_u8 x -> u8 x = x.
Proof. apply Z.mod_small. Qed.
Lemma u16_small x : is_u16 x -> u16 x = x.
Proof. apply Z.mod_small. Qed.
Lemma u32_small x : is_u32 x -> u32 x = x.
Proof. apply Z.mod_small. Qed.
Lemma u64_small x : is_u64 x -> u64 x = x.
Proof. apply Z.mod_small. Qed.

Lemma u32_add_u32_l x y : u32 (u32 x + y) = u32 (x + y).
Proof. unfold u32. by rewrite Zplus_mod_idemp_l. Qed.
Lemma u32_add_u32_r x y : u32 (x + u32 y) = u32 (x + y).
Proof. unfold u32. by rewrite Zplus_mod_idemp_r. Qed.
Lemma u64_add_u64_l x y : u64 (u64 x + y) = u64 (x + y).
Proof. unfold u64. by rewrite Zplus_mod_idemp_l. Qed.
Lemma u64_add_u64_r x y : u64 (x + u64 y) = u64 (x + y).
Proof. unfold u64. by rewrite Zplus_mod_idemp_r. Qed.

(** ** Text *)

(** The text before a character. *)
Fixpoint until (c : Ascii.ascii) (s : string) : string :=
  match s with
  | String c' s => if decide (c = c') then EmptyString else String c' (until c s)
  | EmptyString => EmptyString
  end.

(** ** Bytes and little-endian integers

    A byte buffer is a [list Z] whose elements are bytes.  All three ends of
    the system are little-endian, and a packed C struct is the concatenation
    of the little-endian images of its fields. *)

Definition bytes_ok (l : list Z) : Prop := Forall is_u8 l.

Fixpoint le_bytes (n : nat) (x : Z) : list Z :=
  match n with
  | O => []
  | S n => x mod 2 ^ 8 :: le_bytes n (x / 2 ^ 8)
  end.

Fixpoint le_value (l : list Z) : Z :=
  match l with
  | [] => 0
  | b :: l => b + 2 ^ 8 * le_value l
  end.

Lemma le_value_cons b l : le_value (b :: l) = b + 2 ^ 8 * le_value l.
Proof. done. Qed.

Lemma length_le_bytes n x : length (le_bytes n x) = n.
Proof. revert x; induction n; intros x; simpl; auto. Qed.

Lemma bytes_ok_le_bytes n x : bytes_ok (le_bytes n x).
Proof.
  revert x; induction n as [|n IH]; intros x; constructor.
  - apply Z.mod_pos_bound; lia.
  - apply IH.
Qed.

Lemma le_value_le_bytes n x : le_value (le_bytes n x) = x mod 2 ^ (8 * Z.of_nat n).
Proof.
  revert x; induction n as [|n IH]; intros x.
  - simpl. by rewrite Z.mod_1_r.
  - cbn [le_bytes le_value]. rewrite IH.
    replace (8 * Z.of_nat (S n)) with (8 + 8 * Z.of_nat n) by lia.
    rewrite Z.pow_add_r by lia.
    rewrite Z.rem_mul_r by (try apply Z.pow_pos_nonneg; lia). done.
Qed.

Lemma le_value_range l :
  bytes_ok l -> 0 <= le_value l < 2 ^ (8 * Z.of_nat (length l)).
Proof.
  induction 1 as [|b l Hb Hl IH]; [simpl; lia|].
  cbn [le_value length].
  replace (8 * Z.of_nat (S (length l))) with (8 + 8 * Z.of_nat (length l)) by lia.
  rewrite Z.pow_add_r by lia. simpl in Hb. nia.
Qed.

Lemma le_bytes_le_value l : bytes_ok l -> le_bytes (length l) (le_value l) = l.
Proof.
  induction 1 as [|b l Hb Hl IH]; [done|].
  cbn [le_value length le_bytes]. simpl in Hb. f_equal.
  - rewrite (Z.mul_comm (2 ^ 8)), Z_mod_plus_full, Z.mod_small; lia.
  - rewrite (Z.mul_comm (2 ^ 8)), Z.div_add, Z.div_small, Z.add_0_l by lia. done.
Qed.

Lemma le_value_inj l1 l2 :
  bytes_ok l1 -> bytes_ok l2 -> length l1 = length l2 ->
  le_value l1 = le_value l2 -> l1 = l2.
Proof.
  intros H1 H2 Hlen Hv.
  rewrite <- (le_bytes_le_value l1), <- (le_bytes_le_value l2), Hlen, Hv; done.
Qed.

Lemma bytes_ok_app l1 l2 : bytes_ok (l1 ++ l2) <-> bytes_ok l1 /\ bytes_ok l2.
Proof. apply Forall_app. Qed.

Lemma bytes_ok_take n l : bytes_ok l -> bytes_ok (take n l).
Proof. apply Forall_take. Qed.
Lemma bytes_ok_drop n l : bytes_ok l -> bytes_ok (drop n l).
Proof. apply Forall_drop. Qed.
#[export] Hint Resolve bytes_ok_le_bytes bytes_ok_take bytes_ok_drop : safety.

#[global] Arguments le_bytes : simpl never.
#[global] Arguments le_value : simpl never.

(** [memcpy(dst + off, src, len)] on a buffer that is long enough. *)
Definition overwrite (off : nat) (src dst : list Z) : list Z :=
  take off dst ++ src ++ drop (off + length src) dst.

Lemma length_overwrite off src dst :
  (off + length src <= length dst)%nat ->
  length (overwrite off src dst) = length dst.
Proof.
  intros H. unfold overwrite.
  rewrite !length_app, length_take, length_drop. lia.
Qed.

(** ** Record update

    [r <| f := v |>] is the C assignment [r.f = v], and [r <| f ::= g |>] is
    [r.f = g(r.f)].  A record type declares how to rebuild itself from its own
    projections ([Rebuild]); the setter of each field is derived from that. *)

Class Rebuild (R : Type) := rebuild : R -> R.
Class Update {R T : Type} (proj : R -> T) := update : (T -> T) -> R -> R.
#[global] Hint Mode Update - - ! : typeclass_instances.

Ltac derive_update :=
  match goal with
  | |- @Update ?R ?T ?proj =>
      let f := fresh "f" in
      let r := fresh "r" in
      refine (fun (f : T -> T) (r : R) => _);
      let inst := eval hnf in (@rebuild R _) in
      let body := eval cbv beta in (inst r) in
      match eval pattern (proj r) in body with
      | ?F _ => let res := eval cbv beta in (F (f (proj r))) in exact res
      end
  end.

Declare Scope record_scope.
Notation "r <| f := v |>" := (update (proj := f) (fun _ => v) r)
  (at level 1, f at level 200, v at level 200, left associativity) : record_scope.
Notation "r <| f ::= g |>" := (update (proj := f) g r)
  (at level 1, f at level 200, g at level 200, left associativity) : record_scope.
#[global] Open Scope record_scope.

(** ** Programs with critical sections

    [st W A] is code that runs under a lock (or with interrupts off): a state
    transformer that nothing interleaves with.  [prog W A] is a thread: a
    sequence of such atomic actions on the shared world [W], each of which may
    be separated from the next by steps of other threads. *)

Definition st (W A : Type) : Type := W -> A * W.

#[global] Instance st_ret W : MRet (st W) := fun A a w => (a, w).
#[global] Instance st_bind W : MBind (st W) :=
  fun A B f m w => f (m w).1 (m w).2.

Definition st_get {W} : st W W := fun w => (w, w).
Definition st_modify {W} (f : W -> W) : st W unit := fun w => (tt, f w).

Inductive prog (W : Type) (A : Type) : Type :=
| Done (a : A)
| Atomic (B : Type) (act : st W B) (k : B -> prog W A).
#[global] Arguments Done {W A} a.
#[global] Arguments Atomic {W A B} act k.

Fixpoint prog_bind {W A B} (f : A -> prog W B) (p : prog W A) : prog W B :=
  match p with
  | Done a => f a
  | Atomic act k => Atomic act (fun b => prog_bind f (k b))
  end.

#[global] Instance prog_ret W : MRet (prog W) := fun A a => Done a.
#[global] Instance prog_mbind W : MBind (prog W) := fun A B => prog_bind.

Definition atomic {W A} (act : st W A) : prog W A := Atomic act Done.

(** The execution of one thread with nothing in between. *)
Fixpoint run {W A} (p : prog W A) (w : W) : A * W :=
  match p with
  | Done a => (a, w)
  | Atomic act k => run (k (act w).1) (act w).2
  end.

Section Programs.
Context {W : Type}.
Implicit Types (w : W) (I : W -> Prop).

Lemma run_bind {A B} (p : prog W A) (f : A -> prog W B) w :
  run (p ≫= f) w = run (f (run p w).1) (run p w).2.
Proof. revert w; induction p as [a|B' act k IH]; intros w; [done|apply IH]. Qed.

Lemma run_ret {A} (a : A) w : run (mret a : prog W A) w = (a, w).
Proof. done. Qed.

Lemma run_atomic {A} (act : st W A) w : run (atomic act) w = act w.
Proof. unfold atomic; simpl. by destruct (act w). Qed.

Lemma run_if {A} (b : bool) (p q : prog W A) w :
  run (if b then p else q) w = if b then run p w else run q w.
Proof. by destruct b. Qed.

(** [safe I Q p]: every atomic action of [p] preserves the shared invariant
    [I], whatever the other threads do in between as long as they preserve it
    too, and [p] ends with a result that satisfies [Q]. *)
Fixpoint safe {A} I (Q : A -> Prop) (p : prog W A) : Prop :=
  match p with
  | Done a => Q a
  | Atomic act k => forall w, I w -> I (act w).2 /\ safe I Q (k (act w).1)
  end.

Lemma safe_ret {A} I (Q : A -> Prop) a : Q a -> safe I Q (mret a).
Proof. done. Qed.

Lemma safe_bind {A B} I (Q : A -> Prop) (R : B -> Prop) p f :
  safe I Q p -> (forall a, Q a -> safe I R (f a)) -> safe I R (p ≫= f).
Proof.
  intros Hp Hf. induction p as [a|B' act k IH]; [by apply Hf|].
  intros w Hw. destruct (Hp w Hw) as [HI Hk]. split; [done|by apply IH].
Qed.

Lemma safe_atomic {A} I (Q : A -> Prop) (act : st W A) :
  (forall w, I w -> I (act w).2 /\ Q (act w).1) -> safe I Q (atomic act).
Proof. intros H w Hw. by apply H. Qed.

Lemma safe_mono {A} I (Q R : A -> Prop) p :
  (forall a, Q a -> R a) -> safe I Q p -> safe I R p.
Proof.
  intros HQR Hp. induction p as [a|B act k IH]; [by apply HQR|].
  intros w Hw. destruct (Hp w Hw). by auto.
Qed.

Lemma safe_if {A} I (Q : A -> Prop) (b : bool) p q :
  (b = true -> safe I Q p) -> (b = false -> safe I Q q) ->
  safe I Q (if b then p else q).
Proof. destruct b; auto. Qed.

Lemma safe_run {A} I (Q : A -> Prop) p w :
  safe I Q p -> I w -> I (run p w).2 /\ Q (run p w).1.
Proof.
  revert w; induction p as [a|B act k IH]; intros w Hp Hw; [done|].
  destruct (Hp w Hw) as [HI Hk]. by apply IH.
Qed.

(** A pool of threads: any thread may take its next atomic step, and a new
    thread may start whenever [entry] allows its program. *)
Inductive pool_step (entry : prog W unit -> Prop) :
  list (prog W unit) * W -> list (prog W unit) * W -> Prop :=
| pool_start p ts w : entry p -> pool_step entry (ts, w) (ts ++ [p], w)
| pool_act i B (act : st W B) k ts w :
    ts !! i = Some (Atomic act k) ->
    pool_step entry (ts, w) (<[i := k (act w).1]> ts, (act w).2).

Inductive pool_reach (entry : prog W unit -> Prop) (w0 : W) :
  list (prog W unit) * W -> Prop :=
| reach_init : pool_reach entry w0 ([], w0)
| reach_step c c' :
    pool_reach entry w0 c -> pool_step entry c c' -> pool_reach entry w0 c'.

(** If every program that may start is safe for [I], then [I] holds in every
    state any interleaving of any number of threads can reach. *)
Lemma pool_invariant entry I w0 c :
  I w0 -> (forall p, entry p -> safe I (fun _ => True) p) ->
  pool_reach entry w0 c ->
  I c.2 /\ Forall (safe I (fun _ => True)) c.1.
Proof.
  intros H0 Hentry. induction 1 as [|c c' _ [IHI IHts] Hstep]; [done|].
  destruct Hstep as [p ts w Hp|i B act k ts w Hi]; simpl in *.
  - split; [done|]. apply Forall_app; auto.
  - pose proof (Forall_lookup_1 _ _ _ _ IHts Hi) as Hs.
    destruct (Hs w IHI) as [HI Hk]. split; [done|].
    by apply Forall_insert.
Qed.

(** Executing a given schedule: thread [i] takes its next atomic action. *)
Definition step_thread {A} (c : list (prog W A) * W) (i : nat) : list (prog W A) * W :=
  match c.1 !! i with
  | Some (Atomic act k) => (<[i := k (act c.2).1]> c.1, (act c.2).2)
  | _ => c
  end.

Definition exec {A} (sched : list nat) (c : list (prog W A) * W) : list (prog W A) * W :=
  foldl step_thread c sched.

Lemma exec_reach entry w0 sched c :
  pool_reach entry w0 c -> pool_reach entry w0 (exec sched c).
Proof.
  revert c. induction sched as [|i sched IH]; intros c Hc; [done|].
  apply IH. unfold step_thread. destruct c as [ts w]. cbn [fst snd].
  destruct (ts !! i) as [[a|B act k]|] eqn:Hi; [done| |done].
  eapply reach_step; [done|]. by constructor.
Qed.

Lemma spawn_reach entry w0 ps :
  Forall entry ps -> pool_reach entry w0 (ps, w0).
Proof.
  intros Hps. assert (forall ts, pool_reach entry w0 (ts, w0) ->
    pool_reach entry w0 (ts ++ ps, w0)) as H; [|apply (H []), reach_init].
  induction Hps as [|p ps Hp _ IH]; intros ts Hts; [by rewrite app_nil_r|].
  change (p :: ps) with ([p] ++ ps). rewrite app_assoc. apply IH.
  eapply reach_step; [done|]. by constructor.
Qed.

End Programs.

(** Threads that rely on what they read staying true.  A thread belongs to an
    owner [o]; [rely o w p] says that from [w] on every action of [p] keeps the
    invariant [I] - which may count the actions - and does to the world what an
    owner [o] may do ([G o]), as long as the others move it along [R o] only. *)
Section Rely.
Context {W O : Type} (I : nat -> W -> Prop) (R G : O -> W -> W -> Prop) `{!forall o, PreOrder (R o)}.
Context (I_idle : forall n w, I n w -> I (S n) w).

Fixpoint rely {A} (o : O) (w0 : W) (p : prog W A) : Prop :=
  match p with
  | Done _ => True
  | Atomic act k => forall n w, R o w0 w -> I n w ->
      I (S n) (act w).2 /\ G o w (act w).2 /\ rely o (act w).2 (k (act w).1)
  end.

Lemma rely_later {A} o w0 w1 (p : prog W A) : R o w0 w1 -> rely o w0 p -> rely o w1 p.
Proof. destruct p as [a|B act k]; [done|]. intros H01 Hp n w H1. apply Hp. by etrans. Qed.

(** A thread that has not begun relies on nothing yet. *)
Definition relying {A} (sched : list nat) (os : list O) (c : list (prog W A) * W) : Prop :=
  forall i o p, os !! i = Some o -> c.1 !! i = Some p ->
    (i ∉ sched -> forall w, rely o w p) /\ rely o c.2 p.

Lemma relying_step {A} sched os n (c : list (prog W A) * W) j :
  I n c.2 -> length os = length c.1 -> relying sched os c ->
  (forall i oi oj p, os !! i = Some oi -> os !! j = Some oj -> i <> j -> i ∈ sched -> c.1 !! i = Some p ->
     (exists a, p = Done a) \/ (forall w w', G oj w w' -> R oi w w')) ->
  I (S n) (step_thread c j).2 /\ relying (sched ++ [j]) os (step_thread c j).
Proof.
  destruct c as [ts w]. cbn [fst snd]. intros Hw Hl Hr Hx. unfold step_thread. cbn [fst snd].
  assert (forall i, ~ (i ∈ sched ++ [j]) -> ~ (i ∈ sched) /\ i <> j) as Hin
    by (intros i; rewrite elem_of_app, list_elem_of_singleton; tauto).
  assert (relying (sched ++ [j]) os (ts, w)) as Hidle.
  { intros i o p Ho Hp. destruct (Hr i o p Ho Hp) as [H1 H2]. split; [|done]. intros Hi. by apply H1, Hin. }
  destruct (ts !! j) as [[a|B act k]|] eqn:Hj; [by split; [apply I_idle|]| |by split; [apply I_idle|]].
  destruct (lookup_lt_is_Some_2 os j) as [oj Hoj]; [rewrite Hl; by eapply lookup_lt_Some|].
  destruct (proj2 (Hr j oj _ Hoj Hj) n w) as (H1 & H2 & H3); [done|done|]. split; [done|].
  intros i o p Ho Hp. cbn [fst snd] in *. destruct (decide (i = j)) as [->|Hne].
  { rewrite list_lookup_insert_eq in Hp by by eapply lookup_lt_Some. injection Hp as <-.
    replace o with oj by congruence. split; [|done]. intros Hi. by apply Hin in Hi as []. }
  rewrite list_lookup_insert_ne in Hp by done. destruct (Hr i o p Ho Hp) as [H4 H5].
  split; [intros Hi; by apply H4, Hin|]. destruct (decide (i ∈ sched)) as [Hi|Hi]; [|by apply H4].
  destruct (Hx i o oj p) as [[a ->]|HR]; try done. by eapply rely_later, H5; apply HR.
Qed.

(** When a thread takes a step, each other one that has begun is done or may
    rely on the step. *)
Lemma rely_exec {A} os (ts : list (prog W A)) n w sched :
  I n w -> length os = length ts ->
  (forall i o p, os !! i = Some o -> ts !! i = Some p -> forall w, rely o w p) ->
  (forall m i j oi oj p, sched !! m = Some j -> os !! i = Some oi -> os !! j = Some oj -> i <> j ->
     i ∈ take m sched -> (exec (take m sched) (ts, w)).1 !! i = Some p ->
     (exists a, p = Done a) \/ (forall w w', G oj w w' -> R oi w w')) ->
  I (length sched + n)%nat (exec sched (ts, w)).2.
Proof.
  intros Hw Hl Hts Hx.
  assert (I (length sched + n)%nat (exec sched (ts, w)).2 /\ length os = length (exec sched (ts, w)).1 /\
          relying sched os (exec sched (ts, w))) as Hall; [|apply Hall].
  induction sched as [|j sched IH] using rev_ind.
  { split_and!; [done|done|]. intros i o p Ho Hp. split; [|by eapply Hts]. intros _. by eapply Hts. }
  destruct IH as (H1 & H2 & H3).
  { intros m i j' oi oj p Hm. assert (m < length sched)%nat as Hlt by by eapply lookup_lt_Some.
    specialize (Hx m i j' oi oj p). rewrite take_app_le in Hx by lia. apply Hx. by rewrite lookup_app_l. }
  unfold exec in *. rewrite foldl_app, length_app. cbn [foldl length]. rewrite Nat.add_1_r.
  destruct (relying_step sched os (length sched + n) (foldl step_thread (ts, w) sched) j) as [H4 H5]; [done..| |].
  - intros i oi oj p Hoi Hoj Hne Hi Hp. apply (Hx (length sched) i j oi oj p); try done.
    + by rewrite lookup_app_r, Nat.sub_diag.
    + by rewrite take_app_length.
    + by rewrite take_app_length.
  - split_and!; [done| |done]. rewrite H2. unfold step_thread. repeat case_match; [done| |done].
    cbn. by rewrite length_insert.
Qed.

End Rely.

#[export] Hint Resolve safe_ret : safety.
Create Rewrite HintDb run.
#[export] Hint Rewrite @run_bind @run_ret @run_atomic : run.

(** [step_run] evaluates one thread symbolically. *)
Ltac step_run := repeat (autorewrite with run; cbn [fst snd]).

(** Case analysis on the boolean tests of the code. *)
Ltac case_test :=
  match goal with
  | |- context [if ?b then _ else _] =>
      match type of b with
      | bool => let E := fresh "E" in destruct b eqn:E
      end
  | H : context [if ?b then _ else _] |- _ =>
      match type of b with
      | bool => let E := fresh "E" in destruct b eqn:E
      end
  end.

(** ** Invariant-preserving critical sections *)

Section Sections.
Context {W : Type} (I : W -> Prop).

(** [stsafe I Q act]: from a state that satisfies [I] the critical section
    reaches one that does, with a result that satisfies [Q]. *)
Definition stsafe {A} (Q : A -> Prop) (act : st W A) : Prop :=
  forall w, I w -> I (act w).2 /\ Q (act w).1.

Lemma stsafe_ret {A} (Q : A -> Prop) a : Q a -> stsafe Q (mret a).
Proof. by intros H w Hw. Qed.

Lemma stsafe_bind {A B} (Q : A -> Prop) (R : B -> Prop) m f :
  stsafe Q m -> (forall a, Q a -> stsafe R (f a)) -> stsafe R (m ≫= f).
Proof. intros Hm Hf w Hw. destruct (Hm w Hw) as [HI HQ]. by apply Hf. Qed.

Lemma safe_st {A} (Q : A -> Prop) act : stsafe Q act -> safe I Q (atomic act).
Proof. apply safe_atomic. Qed.

(** Sequencing when the intermediate result does not matter. *)
Lemma safe_seq {A B} (R : B -> Prop) (p : prog W A) f :
  safe I (fun _ => True) p -> (forall a, safe I R (f a)) -> safe I R (p ≫= f).
Proof. intros Hp Hf. eapply safe_bind; [exact Hp|]. intros a _. apply Hf. Qed.

Lemma stsafe_seq {A B} (R : B -> Prop) (m : st W A) f :
  stsafe (fun _ => True) m -> (forall a, stsafe R (f a)) -> stsafe R (m ≫= f).
Proof. intros Hp Hf. eapply stsafe_bind; [exact Hp|]. intros a _. apply Hf. Qed.

End Sections.

Lemma safe_weaken {W A} (I : W -> Prop) (Q : A -> Prop) (p : prog W A) :
  safe I Q p -> safe I (fun _ => True) p.
Proof. apply safe_mono. done. Qed.
