(* ===== verification/Crc32.v ===== *)
(** * CRC-32 of the wire protocol

    [include/safety_protocol.h]: [safety_crc32_step] and [safety_crc32], with
    the theory that the frame checksum rests on: range, streaming, linearity,
    the reading of the byte-serial loop as one shift register over the whole
    message, and detection of error bursts of up to four bytes. *)

From S2P Require Import Prelude.

(** ** The algorithm *)

Definition CRC_POLY : Z := 0xEDB88320.
Definition CRC_INIT : Z := 0xFFFFFFFF.

(** One round of the inner loop:
    [crc = (crc >> 1) ^ (0xEDB88320u & (~(crc & 1u) + 1u))]. *)
Definition crc_round (crc : Z) : Z :=
  Z.lxor (Z.shiftr crc 1)
    (Z.land CRC_POLY (u32 (u32 (Z.lnot (Z.land crc 1)) + 1))).

(** [crc ^= p[i]] followed by the eight rounds. *)
Definition crc_byte (crc b : Z) : Z := Nat.iter 8 crc_round (Z.lxor crc b).

Definition safety_crc32_step (crc : Z) (data : list Z) : Z :=
  fold_left crc_byte data crc.

Definition safety_crc32 (data : list Z) : Z :=
  Z.lxor (safety_crc32_step CRC_INIT data) 0xFFFFFFFF.

(** ** Bit-level lemmas *)

Lemma crc_round_odd c :
  crc_round c = if Z.odd c then Z.lxor (Z.shiftr c 1) CRC_POLY else Z.shiftr c 1.
Proof.
  unfold crc_round. change 1 with (Z.ones 1) at 2. rewrite Z.land_ones by lia.
  change (2 ^ 1) with 2. rewrite Zmod_odd. destruct (Z.odd c).
  - done.
  - change (Z.land CRC_POLY _) with 0. by rewrite Z.lxor_0_r.
Qed.

Lemma testbit_high n x i : 0 <= x < 2 ^ n -> n <= i -> Z.testbit x i = false.
Proof.
  intros Hx Hi. destruct (Z.le_gt_cases 0 n).
  - rewrite <- (Z.mod_small x (2 ^ n)) by done. by apply Z.mod_pow2_bits_high.
  - rewrite Z.pow_neg_r in Hx by lia. lia.
Qed.

Lemma bits_range n x :
  0 <= n -> 0 <= x -> (forall i, n <= i -> Z.testbit x i = false) -> x < 2 ^ n.
Proof.
  intros Hn Hx H. destruct (Z.lt_ge_cases x (2 ^ n)) as [|Hge]; [done|exfalso].
  assert (0 < x) by (assert (0 < 2 ^ n) by (apply Z.pow_pos_nonneg; lia); lia).
  assert (n <= Z.log2 x) by (by apply Z.log2_le_pow2).
  pose proof (Z.bit_log2 x) as Hb. rewrite H in Hb by done.
  specialize (Hb ltac:(lia)). discriminate.
Qed.

Lemma lxor_range n x y :
  0 <= n -> 0 <= x < 2 ^ n -> 0 <= y < 2 ^ n -> 0 <= Z.lxor x y < 2 ^ n.
Proof.
  intros Hn Hx Hy. assert (0 <= Z.lxor x y) by (apply Z.lxor_nonneg; lia).
  split; [done|]. apply bits_range; [done|done|]. intros i Hi.
  rewrite Z.lxor_spec, (testbit_high n x), (testbit_high n y) by done. done.
Qed.

Lemma shiftr1_range n x : 0 <= x < 2 ^ n -> 0 <= Z.shiftr x 1 < 2 ^ n.
Proof.
  intros Hx. rewrite Z.shiftr_div_pow2 by lia. change (2 ^ 1) with 2.
  pose proof (Z.div_pos x 2). pose proof (Z.div_le_upper_bound x 2 x). lia.
Qed.

Lemma crc_round_range c : is_u32 c -> is_u32 (crc_round c).
Proof.
  simpl. intros Hc. rewrite crc_round_odd.
  pose proof (shiftr1_range 32 c Hc). destruct (Z.odd c); [|done].
  apply lxor_range; [lia|done|]. unfold CRC_POLY. lia.
Qed.

Lemma crc_round_nonneg c : 0 <= c -> 0 <= crc_round c.
Proof.
  intros Hc. rewrite crc_round_odd.
  assert (0 <= Z.shiftr c 1) by (by apply Z.shiftr_nonneg).
  destruct (Z.odd c); [|done]. apply Z.lxor_nonneg. unfold CRC_POLY. lia.
Qed.

(** The register is a linear function of its contents. *)
Lemma crc_round_lxor x y :
  crc_round (Z.lxor x y) = Z.lxor (crc_round x) (crc_round y).
Proof.
  rewrite !crc_round_odd, Z.shiftr_lxor.
  rewrite <- !Z.bit0_odd, Z.lxor_spec.
  destruct (Z.testbit x 0), (Z.testbit y 0); simpl; try done.
  - rewrite !Z.lxor_assoc. f_equal.
    rewrite (Z.lxor_comm CRC_POLY), Z.lxor_assoc, Z.lxor_nilpotent, Z.lxor_0_r. done.
  - rewrite !Z.lxor_assoc. f_equal. apply Z.lxor_comm.
  - by rewrite !Z.lxor_assoc.
Qed.

(** The top bit of the result is the bit that was shifted out, so a round
    loses no information. *)
Lemma crc_round_top c : is_u32 c -> Z.testbit (crc_round c) 31 = Z.odd c.
Proof.
  unfold is_u32. intros Hc. rewrite crc_round_odd.
  assert (Z.testbit (Z.shiftr c 1) 31 = false) as Hs.
  { rewrite Z.shiftr_spec by lia. apply (testbit_high 32); [done|lia]. }
  destruct (Z.odd c); [|done]. rewrite Z.lxor_spec, Hs. done.
Qed.

Lemma lxor_cancel_r x y z : Z.lxor x z = Z.lxor y z -> x = y.
Proof.
  intros H. apply (f_equal (fun v => Z.lxor v z)) in H.
  by rewrite !Z.lxor_assoc, !Z.lxor_nilpotent, !Z.lxor_0_r in H.
Qed.

Lemma crc_round_inj x y :
  is_u32 x -> is_u32 y -> crc_round x = crc_round y -> x = y.
Proof.
  intros Hx Hy H.
  assert (Z.odd x = Z.odd y) as Hodd.
  { rewrite <- crc_round_top, <- crc_round_top by done. by rewrite H. }
  rewrite !crc_round_odd, Hodd in H.
  assert (Z.shiftr x 1 = Z.shiftr y 1) as Hs.
  { destruct (Z.odd y); [by apply lxor_cancel_r in H|done]. }
  rewrite !Z.shiftr_div_pow2 in Hs by lia. change (2 ^ 1) with 2 in Hs.
  rewrite (Z.div_mod x 2), (Z.div_mod y 2), Hs, !Zmod_odd, Hodd by lia. done.
Qed.

Lemma crc_round_double x : crc_round (2 * x) = x.
Proof.
  rewrite crc_round_odd, Z.odd_mul. simpl (Z.odd 2 && _).
  rewrite Z.shiftr_div_pow2 by lia. change (2 ^ 1) with 2.
  rewrite (Z.mul_comm 2), Z.div_mul; lia.
Qed.

(** ** Rounds iterated *)

Lemma iter_round_range n c : is_u32 c -> is_u32 (Nat.iter n crc_round c).
Proof. intros Hc. induction n; [done|]. by apply crc_round_range. Qed.

Lemma iter_round_lxor n x y :
  Nat.iter n crc_round (Z.lxor x y) =
  Z.lxor (Nat.iter n crc_round x) (Nat.iter n crc_round y).
Proof. induction n as [|n IH]; [done|]. simpl. by rewrite IH, crc_round_lxor. Qed.

Lemma iter_round_inj n x y :
  is_u32 x -> is_u32 y ->
  Nat.iter n crc_round x = Nat.iter n crc_round y -> x = y.
Proof.
  intros Hx Hy. induction n as [|n IH]; [done|]. simpl. intros H.
  apply crc_round_inj in H; auto using iter_round_range.
Qed.

Lemma iter_round_shift n x : Nat.iter n crc_round (x * 2 ^ Z.of_nat n) = x.
Proof.
  induction n as [|n IH]; [simpl; lia|].
  rewrite Nat.iter_succ_r, Nat2Z.inj_succ, Z.pow_succ_r by lia.
  replace (x * (2 * 2 ^ Z.of_nat n)) with (2 * (x * 2 ^ Z.of_nat n)) by lia.
  by rewrite crc_round_double.
Qed.

Lemma lxor_add_low b x : is_u8 b -> Z.lxor b (2 ^ 8 * x) = b + 2 ^ 8 * x.
Proof.
  intros Hb. symmetry. apply Z.add_nocarry_lxor. apply Z.bits_inj'. intros i Hi.
  rewrite Z.land_spec, Z.bits_0, (Z.mul_comm _ x).
  destruct (Z.lt_ge_cases i 8).
  - rewrite Z.mul_pow2_bits_low by lia. apply andb_false_r.
  - rewrite (testbit_high 8 b) by done. done.
Qed.

(** ** The byte loop *)

Lemma crc_byte_eq c b : crc_byte c b = Nat.iter 8 crc_round (Z.lxor c b).
Proof. reflexivity. Qed.

Lemma crc_byte_range c b : is_u32 c -> is_u8 b -> is_u32 (crc_byte c b).
Proof.
  intros Hc Hb. rewrite crc_byte_eq. apply iter_round_range,  lxor_range; simpl in *; lia.
Qed.

Lemma crc_step_range c l : is_u32 c -> bytes_ok l -> is_u32 (safety_crc32_step c l).
Proof.
  intros Hc Hl. revert c Hc. induction Hl as [|b l Hb Hl IH]; intros c Hc; [done|].
  by apply IH, crc_byte_range.
Qed.

Lemma crc_step_app c l1 l2 :
  safety_crc32_step c (l1 ++ l2) = safety_crc32_step (safety_crc32_step c l1) l2.
Proof. apply fold_left_app. Qed.

Lemma crc_step_nil c : safety_crc32_step c [] = c.
Proof. reflexivity. Qed.

Lemma crc_step_cons c b l :
  safety_crc32_step c (b :: l) = safety_crc32_step (crc_byte c b) l.
Proof. done. Qed.

Lemma iter8_shift x : Nat.iter 8 crc_round (2 ^ 8 * x) = x.
Proof. rewrite (Z.mul_comm (2 ^ 8)). exact (iter_round_shift 8 x). Qed.

Lemma crc_byte_fold c b l :
  is_u8 b ->
  Nat.iter 8 crc_round (Z.lxor c (le_value (b :: l))) =
  Z.lxor (crc_byte c b) (le_value l).
Proof.
  intros Hb. rewrite le_value_cons, <- lxor_add_low, <- Z.lxor_assoc by done.
  rewrite (iter_round_lxor 8 (Z.lxor c b)), iter8_shift, crc_byte_eq. reflexivity.
Qed.

(** The byte-serial loop is one shift register run over the whole message read
    as a little-endian integer. *)
Lemma crc_step_register c l :
  bytes_ok l ->
  safety_crc32_step c l =
  Nat.iter (8 * length l) crc_round (Z.lxor c (le_value l)).
Proof.
  intros Hl. revert c. induction Hl as [|b l Hb Hl IH]; intros c.
  - cbn. unfold le_value. by rewrite Z.lxor_0_r.
  - cbn [length]. rewrite crc_step_cons, IH, Nat.mul_succ_r, Nat.iter_add, crc_byte_fold by done.
    done.
Qed.

Lemma crc_step_inj c c' l :
  is_u32 c -> is_u32 c' -> bytes_ok l ->
  safety_crc32_step c l = safety_crc32_step c' l -> c = c'.
Proof.
  intros Hc Hc' Hl. revert c c' Hc Hc'.
  induction Hl as [|b l Hb Hl IH]; intros c c' Hc Hc' H; [done|].
  apply IH in H; [|by apply crc_byte_range..].
  rewrite !crc_byte_eq in H. apply iter_round_inj in H.
  - by apply lxor_cancel_r in H.
  - apply lxor_range; simpl in *; lia.
  - apply lxor_range; simpl in *; lia.
Qed.

(** Two windows of at most four bytes that start from the same register value
    and leave the same one are equal. *)
Lemma crc_window_inj c w w' :
  is_u32 c -> bytes_ok w -> bytes_ok w' ->
  length w = length w' -> (length w <= 4)%nat ->
  safety_crc32_step c w = safety_crc32_step c w' -> w = w'.
Proof.
  intros Hc Hw Hw' Hlen H4 H.
  rewrite !crc_step_register, <- Hlen in H by done.
  assert (forall l, bytes_ok l -> (length l <= 4)%nat -> is_u32 (le_value l)) as Hv.
  { intros l Hl Hn. pose proof (le_value_range l Hl). simpl.
    assert (2 ^ (8 * Z.of_nat (length l)) <= 2 ^ 32) by (apply Z.pow_le_mono_r; lia).
    lia. }
  apply iter_round_inj in H.
  - rewrite (Z.lxor_comm c), (Z.lxor_comm c) in H. apply lxor_cancel_r in H.
    by apply le_value_inj.
  - apply lxor_range; [lia|done|by apply Hv].
  - apply lxor_range; [lia|done|apply Hv; [done|lia]].
Qed.

Lemma crc_step_burst c pre w w' post :
  is_u32 c -> bytes_ok (pre ++ w ++ post) -> bytes_ok w' ->
  length w = length w' -> (length w <= 4)%nat -> w <> w' ->
  safety_crc32_step c (pre ++ w ++ post) <> safety_crc32_step c (pre ++ w' ++ post).
Proof.
  intros Hc Hl Hw' Hlen H4 Hne H.
  rewrite !bytes_ok_app in Hl. destruct Hl as (Hpre & Hw & Hpost).
  rewrite !crc_step_app in H. apply crc_step_inj in H; [|by auto using crc_step_range..].
  apply Hne. eapply crc_window_inj in H; auto using crc_step_range.
Qed.

(** From here on the loop is used through its lemmas only. *)
#[global] Opaque safety_crc32_step.
