(* ===== verification/Protocol.v ===== *)
(** * The wire protocol

    [include/safety_protocol.h], shared byte for byte by the kernel driver, the
    firmware and the userspace programs: constants, the packed header and
    payload structs with their wire images, checksum, [safety_frame_init],
    [safety_frame_pack] and [safety_frame_validate]. *)

From S2P Require Import Prelude Crc32.

(** ** Constants *)

Definition SAFETY_PROTO_MAGIC : Z := 0x5346.
Definition SAFETY_PROTO_VERSION : Z := 0x01.
Definition SAFETY_MAX_PAYLOAD : Z := 256.
Definition SAFETY_HEADER_SIZE : Z := 16.
Definition SAFETY_MAX_FRAME_SIZE : Z := SAFETY_HEADER_SIZE + SAFETY_MAX_PAYLOAD.

Definition SAFETY_FRAME_HEARTBEAT : Z := 0x01.
Definition SAFETY_FRAME_TELEMETRY : Z := 0x02.
Definition SAFETY_FRAME_FAULT_EVENT : Z := 0x03.
Definition SAFETY_FRAME_COMMAND : Z := 0x04.
Definition SAFETY_FRAME_ACK : Z := 0x05.
Definition SAFETY_FRAME_NACK : Z := 0x06.
Definition SAFETY_FRAME_RECOVERY_REPORT : Z := 0x07.

Definition SAFETY_CMD_GET_STATUS : Z := 0x01.
Definition SAFETY_CMD_INJECT_FAULT : Z := 0x02.
Definition SAFETY_CMD_REQUEST_RECOVERY : Z := 0x03.
Definition SAFETY_CMD_ENTER_SAFE_MODE : Z := 0x04.
Definition SAFETY_CMD_RESET_FAULT_STATE : Z := 0x05.

Definition SAFETY_FAULT_NONE : Z := 0x00.
Definition SAFETY_FAULT_TASK_HANG : Z := 0x01.
Definition SAFETY_FAULT_CHECKSUM_ERROR : Z := 0x02.
Definition SAFETY_FAULT_CRITICAL : Z := 0x03.

Definition SAFETY_NACK_CHECKSUM : Z := 0x01.
Definition SAFETY_NACK_VERSION : Z := 0x02.
Definition SAFETY_NACK_SEQUENCE : Z := 0x03.
Definition SAFETY_NACK_UNKNOWN_TYPE : Z := 0x04.
Definition SAFETY_NACK_PAYLOAD : Z := 0x05.

(** ** The header *)

Record SafetyFrameHeader := mkHeader {
  magic : Z;           (* u16 *)
  version : Z;         (* u8 *)
  type : Z;            (* u8 *)
  sequence_id : Z;     (* u16 *)
  payload_length : Z;  (* u16 *)
  timestamp_ms : Z;    (* u32 *)
  checksum : Z;        (* u32 *)
}.

#[global] Instance header_eq_dec : EqDecision SafetyFrameHeader.
Proof. solve_decision. Defined.
#[global] Instance header_rebuild : Rebuild SafetyFrameHeader :=
  fun h => mkHeader (magic h) (version h) (type h) (sequence_id h)
             (payload_length h) (timestamp_ms h) (checksum h).
#[global] Instance update_checksum : Update checksum := ltac:(derive_update).

Lemma update_checksum_id h c : c = checksum h -> h <| checksum := c |> = h.
Proof. intros ->. by destruct h. Qed.

Definition header_ok (h : SafetyFrameHeader) : Prop :=
  is_u16 (magic h) /\ is_u8 (version h) /\ is_u8 (type h) /\
  is_u16 (sequence_id h) /\ is_u16 (payload_length h) /\
  is_u32 (timestamp_ms h) /\ is_u32 (checksum h).

(** The 16 bytes of the packed struct. *)
Definition header_bytes (h : SafetyFrameHeader) : list Z :=
  le_bytes 2 (magic h) ++ le_bytes 1 (version h) ++ le_bytes 1 (type h) ++
  le_bytes 2 (sequence_id h) ++ le_bytes 2 (payload_length h) ++
  le_bytes 4 (timestamp_ms h) ++ le_bytes 4 (checksum h).

(** [n] bytes of a buffer from offset [off], and their little-endian value. *)
Definition slice (off n : nat) (buf : list Z) : list Z := take n (drop off buf).
Definition field (off n : nat) (buf : list Z) : Z := le_value (slice off n buf).

(** [memcpy(&hdr, buf, SAFETY_HEADER_SIZE)]. *)
Definition header_of_bytes (buf : list Z) : SafetyFrameHeader :=
  mkHeader (field 0 2 buf) (field 2 1 buf) (field 3 1 buf) (field 4 2 buf)
    (field 6 2 buf) (field 8 4 buf) (field 12 4 buf).

(** ** Payload structs and their wire images *)

Record SafetyHeartbeatPayload := mkHeartbeat { uptime_ms : Z; beat_seq : Z }.
Record SafetyTelemetryPayload := mkTelemetry {
  temperature_c_x10 : Z; voltage_mv : Z; cpu_load_pct : Z; tm_fault_count : Z }.
Record SafetyFaultEventPayload := mkFaultEvent {
  fault_type : Z; severity : Z; detail_code : Z; fault_uptime_ms : Z }.
Record SafetyCommandPayload := mkCommand {
  command : Z; arg8 : Z; arg16 : Z; arg32 : Z }.
Record SafetyAckPayload := mkAck { acked_sequence_id : Z; ack_reserved : Z }.
Record SafetyNackPayload := mkNack {
  nacked_sequence_id : Z; reason : Z; nack_reserved : Z }.
Record SafetyRecoveryReportPayload := mkRecoveryReport {
  recovered : Z; new_state : Z; rr_reserved : Z; recovery_uptime_ms : Z }.

Definition heartbeat_bytes (p : SafetyHeartbeatPayload) : list Z :=
  le_bytes 4 (uptime_ms p) ++ le_bytes 4 (beat_seq p).
Definition telemetry_bytes (p : SafetyTelemetryPayload) : list Z :=
  le_bytes 2 (temperature_c_x10 p) ++ le_bytes 2 (voltage_mv p) ++
  le_bytes 2 (cpu_load_pct p) ++ le_bytes 2 (tm_fault_count p).
Definition fault_event_bytes (p : SafetyFaultEventPayload) : list Z :=
  le_bytes 1 (fault_type p) ++ le_bytes 1 (severity p) ++
  le_bytes 2 (detail_code p) ++ le_bytes 4 (fault_uptime_ms p).
Definition command_bytes (p : SafetyCommandPayload) : list Z :=
  le_bytes 1 (command p) ++ le_bytes 1 (arg8 p) ++ le_bytes 2 (arg16 p) ++
  le_bytes 4 (arg32 p).
Definition ack_bytes (p : SafetyAckPayload) : list Z :=
  le_bytes 2 (acked_sequence_id p) ++ le_bytes 2 (ack_reserved p).
Definition nack_bytes (p : SafetyNackPayload) : list Z :=
  le_bytes 2 (nacked_sequence_id p) ++ le_bytes 1 (reason p) ++
  le_bytes 1 (nack_reserved p).
Definition recovery_report_bytes (p : SafetyRecoveryReportPayload) : list Z :=
  le_bytes 1 (recovered p) ++ le_bytes 1 (new_state p) ++
  le_bytes 2 (rr_reserved p) ++ le_bytes 4 (recovery_uptime_ms p).

Definition command_of_bytes (buf : list Z) : SafetyCommandPayload :=
  mkCommand (field 0 1 buf) (field 1 1 buf) (field 2 2 buf) (field 4 4 buf).
Definition fault_event_of_bytes (buf : list Z) : SafetyFaultEventPayload :=
  mkFaultEvent (field 0 1 buf) (field 1 1 buf) (field 2 2 buf) (field 4 4 buf).

(** ** Checksum, init, pack, validate *)

(** A [const void *payload] argument: [None] is the null pointer. *)
Definition safety_frame_compute_checksum (hdr : SafetyFrameHeader)
    (payload : option (list Z)) (payload_len : Z) : Z :=
  let tmp := hdr <| checksum := 0 |> in
  let crc := safety_crc32_step CRC_INIT (header_bytes tmp) in
  let crc := match payload with
             | Some p => if payload_len =? 0 then crc
                         else safety_crc32_step crc (take (Z.to_nat payload_len) p)
             | None => crc
             end in
  Z.lxor crc 0xFFFFFFFF.

Definition safety_frame_init (ty seq payload_len ts_ms : Z) : SafetyFrameHeader :=
  mkHeader SAFETY_PROTO_MAGIC SAFETY_PROTO_VERSION ty seq payload_len ts_ms 0.

(** Returns the total length (0 on failure), the header with its checksum
    filled in, and the output buffer. *)
Definition safety_frame_pack (out : list Z) (hdr : SafetyFrameHeader)
    (payload : option (list Z)) : Z * SafetyFrameHeader * list Z :=
  if payload_length hdr >? SAFETY_MAX_PAYLOAD then (0, hdr, out)
  else
    let hdr := hdr <| checksum :=
      safety_frame_compute_checksum hdr payload (payload_length hdr) |> in
    let out := overwrite 0 (header_bytes hdr) out in
    let out := match payload with
               | Some p => if payload_length hdr =? 0 then out
                           else overwrite 16 (take (Z.to_nat (payload_length hdr)) p) out
               | None => out
               end in
    (SAFETY_HEADER_SIZE + payload_length hdr, hdr, out).

Inductive safety_validate_result :=
| SAFETY_VALIDATE_OK
| SAFETY_VALIDATE_BAD_MAGIC
| SAFETY_VALIDATE_BAD_VERSION
| SAFETY_VALIDATE_BAD_LENGTH
| SAFETY_VALIDATE_BAD_CHECKSUM.

#[global] Instance validate_result_eq_dec : EqDecision safety_validate_result.
Proof. solve_decision. Defined.

Definition safety_frame_validate (buf : list Z) (buf_len : Z) : safety_validate_result :=
  if buf_len <? SAFETY_HEADER_SIZE then SAFETY_VALIDATE_BAD_LENGTH
  else
    let hdr := header_of_bytes buf in
    if negb (magic hdr =? SAFETY_PROTO_MAGIC) then SAFETY_VALIDATE_BAD_MAGIC
    else if negb (version hdr =? SAFETY_PROTO_VERSION) then SAFETY_VALIDATE_BAD_VERSION
    else if payload_length hdr >? SAFETY_MAX_PAYLOAD then SAFETY_VALIDATE_BAD_LENGTH
    else if buf_len <? SAFETY_HEADER_SIZE + payload_length hdr
    then SAFETY_VALIDATE_BAD_LENGTH
    else
      let want := safety_frame_compute_checksum hdr (Some (drop 16 buf))
                    (payload_length hdr) in
      if negb (want =? checksum hdr) then SAFETY_VALIDATE_BAD_CHECKSUM
      else SAFETY_VALIDATE_OK.

(** ** Wire images *)

Lemma length_header_bytes h : length (header_bytes h) = 16%nat.
Proof. done. Qed.

Lemma bytes_ok_header h : bytes_ok (header_bytes h).
Proof. unfold header_bytes. rewrite !bytes_ok_app. auto 10 with safety. Qed.
#[export] Hint Resolve bytes_ok_header : safety.

Lemma slice_app off n m off' buf :
  off' = (off + n)%nat ->
  slice off n buf ++ slice off' m buf = slice off (n + m) buf.
Proof.
  intros ->. unfold slice. rewrite <- drop_drop. generalize (drop off buf). intros l.
  rewrite take_drop_commute. pose proof (take_drop n (take (n + m) l)) as H.
  by rewrite take_take, Nat.min_l in H by lia.
Qed.

Lemma length_slice off n buf :
  (off + n <= length buf)%nat -> length (slice off n buf) = n.
Proof. intros H. unfold slice. rewrite length_take, length_drop. lia. Qed.

Lemma le_bytes_field off n buf :
  bytes_ok buf -> (off + n <= length buf)%nat ->
  le_bytes n (field off n buf) = slice off n buf.
Proof.
  intros Hb Hl. unfold field.
  rewrite <- (length_slice off n buf Hl) at 1. apply le_bytes_le_value.
  unfold slice. auto with safety.
Qed.

Lemma field_range off n buf :
  bytes_ok buf -> (off + n <= length buf)%nat ->
  0 <= field off n buf < 2 ^ (8 * Z.of_nat n).
Proof.
  intros Hb Hl. assert (bytes_ok (slice off n buf)) as H
    by (unfold slice; auto with safety).
  apply le_value_range in H. by rewrite length_slice in H.
Qed.

Lemma field_app_l off n buf rest :
  (off + n <= length buf)%nat -> field off n (buf ++ rest) = field off n buf.
Proof.
  intros H. unfold field, slice. rewrite drop_app_le, take_app_le; [done| |lia].
  rewrite length_drop. lia.
Qed.

Lemma field_le_bytes n x : field 0 n (le_bytes n x) = x mod 2 ^ (8 * Z.of_nat n).
Proof.
  unfold field, slice. rewrite drop_0, take_ge by (rewrite length_le_bytes; lia).
  apply le_value_le_bytes.
Qed.

(** Reading a header back from its own image. *)
Lemma header_of_header_bytes h :
  header_of_bytes (header_bytes h) =
  mkHeader (u16 (magic h)) (u8 (version h)) (u8 (type h)) (u16 (sequence_id h))
    (u16 (payload_length h)) (u32 (timestamp_ms h)) (u32 (checksum h)).
Proof.
  unfold header_of_bytes. f_equal.
  - exact (field_le_bytes 2 (magic h)).
  - exact (field_le_bytes 1 (version h)).
  - exact (field_le_bytes 1 (type h)).
  - exact (field_le_bytes 2 (sequence_id h)).
  - exact (field_le_bytes 2 (payload_length h)).
  - exact (field_le_bytes 4 (timestamp_ms h)).
  - exact (field_le_bytes 4 (checksum h)).
Qed.

Lemma header_roundtrip h : header_ok h -> header_of_bytes (header_bytes h) = h.
Proof.
  intros (H1 & H2 & H3 & H4 & H5 & H6 & H7). rewrite header_of_header_bytes.
  rewrite !u16_small, !u8_small, !u32_small by done. by destruct h.
Qed.

Lemma header_of_bytes_app buf rest :
  (16 <= length buf)%nat -> header_of_bytes (buf ++ rest) = header_of_bytes buf.
Proof.
  intros H. unfold header_of_bytes. by rewrite !field_app_l by lia.
Qed.

Lemma header_bytes_of buf :
  bytes_ok buf -> (16 <= length buf)%nat ->
  header_bytes (header_of_bytes buf) = take 16 buf.
Proof.
  intros Hb Hl. unfold header_bytes, header_of_bytes.
  cbn [magic version type sequence_id payload_length timestamp_ms checksum].
  rewrite !le_bytes_field by (done || lia).
  rewrite (slice_app 8 4 4), (slice_app 6 2), (slice_app 4 2), (slice_app 3 1),
    (slice_app 2 1), (slice_app 0 2) by done.
  done.
Qed.

Lemma header_of_bytes_ok buf :
  bytes_ok buf -> (16 <= length buf)%nat -> header_ok (header_of_bytes buf).
Proof.
  intros Hb Hl. unfold header_ok, header_of_bytes; simpl.
  repeat split; apply field_range; done || lia.
Qed.

(** ** The checksum *)

(** The bytes the checksum covers: the header with a zero checksum field,
    then the payload. *)
Definition covered_bytes (h : SafetyFrameHeader) (p : list Z) : list Z :=
  header_bytes (h <| checksum := 0 |>) ++ p.

Lemma compute_checksum_some h p n :
  safety_frame_compute_checksum h (Some p) n =
  safety_crc32 (covered_bytes h (take (Z.to_nat n) p)).
Proof.
  unfold safety_frame_compute_checksum, safety_crc32, covered_bytes.
  rewrite crc_step_app. case_test; [|reflexivity].
  assert (n = 0) as -> by lia. by rewrite take_0, crc_step_nil.
Qed.

Lemma compute_checksum_none h n :
  safety_frame_compute_checksum h None n = safety_crc32 (covered_bytes h []).
Proof.
  unfold safety_frame_compute_checksum, safety_crc32, covered_bytes.
  by rewrite app_nil_r.
Qed.

Lemma crc32_range l : bytes_ok l -> is_u32 (safety_crc32 l).
Proof.
  intros Hl. apply lxor_range; [lia| |lia].
  apply crc_step_range; [|done]. unfold CRC_INIT. simpl. lia.
Qed.

Lemma crc32_burst pre w w' post :
  bytes_ok (pre ++ w ++ post) -> bytes_ok w' ->
  length w = length w' -> (length w <= 4)%nat -> w <> w' ->
  safety_crc32 (pre ++ w ++ post) <> safety_crc32 (pre ++ w' ++ post).
Proof.
  intros Hl Hw' Hlen H4 Hne H. apply lxor_cancel_r in H. revert H.
  by apply crc_step_burst.
Qed.

Lemma bytes_ok_covered h p : bytes_ok p -> bytes_ok (covered_bytes h p).
Proof. intros Hp. unfold covered_bytes. apply bytes_ok_app. auto with safety. Qed.

(** ** Frames on the wire *)

(** The image of a frame: what [safety_frame_pack] leaves in the buffer. *)
Definition seal (h : SafetyFrameHeader) (p : list Z) : SafetyFrameHeader :=
  h <| checksum := safety_crc32 (covered_bytes h p) |>.
Definition frame_bytes (h : SafetyFrameHeader) (p : list Z) : list Z :=
  header_bytes (seal h p) ++ p.

(** A header that [safety_frame_init] can produce for payload [p]. *)
Definition frame_ok (h : SafetyFrameHeader) (p : list Z) : Prop :=
  header_ok h /\ magic h = SAFETY_PROTO_MAGIC /\ version h = SAFETY_PROTO_VERSION /\
  payload_length h = Z.of_nat (length p) /\ payload_length h <= SAFETY_MAX_PAYLOAD /\
  bytes_ok p.

Lemma frame_init_ok ty seq ts p :
  is_u8 ty -> is_u16 seq -> is_u32 ts -> bytes_ok p -> (length p <= 256)%nat ->
  frame_ok (safety_frame_init ty seq (Z.of_nat (length p)) ts) p.
Proof.
  intros Hty Hseq Hts Hp Hlen.
  unfold frame_ok, header_ok, safety_frame_init, SAFETY_PROTO_MAGIC,
    SAFETY_PROTO_VERSION, SAFETY_MAX_PAYLOAD; simpl in *. repeat split; done || lia.
Qed.

Lemma length_frame_bytes h p : length (frame_bytes h p) = (16 + length p)%nat.
Proof. unfold frame_bytes. by rewrite length_app, length_header_bytes. Qed.

Lemma bytes_ok_frame h p : bytes_ok p -> bytes_ok (frame_bytes h p).
Proof. intros Hp. apply bytes_ok_app. auto with safety. Qed.

Lemma seal_header_ok h p : header_ok h -> bytes_ok p -> header_ok (seal h p).
Proof.
  intros (H1 & H2 & H3 & H4 & H5 & H6 & H7) Hp.
  pose proof (crc32_range _ (bytes_ok_covered h p Hp)). unfold header_ok, seal. tauto.
Qed.

Lemma frame_header h p rest :
  header_ok h -> bytes_ok p ->
  header_of_bytes (frame_bytes h p ++ rest) = seal h p.
Proof.
  intros Hh Hp. unfold frame_bytes. rewrite <- app_assoc, header_of_bytes_app by (rewrite length_header_bytes; lia).
  apply header_roundtrip. by apply seal_header_ok.
Qed.

Lemma drop_frame_bytes h p rest : drop 16 (frame_bytes h p ++ rest) = p ++ rest.
Proof. done. Qed.

(** [safety_frame_pack] writes exactly the frame image. *)
Lemma frame_pack_spec out h p :
  (SAFETY_MAX_FRAME_SIZE <= Z.of_nat (length out)) ->
  frame_ok h p ->
  exists out',
    safety_frame_pack out h (Some p) = (16 + payload_length h, seal h p, out') /\
    take (Z.to_nat (16 + payload_length h)) out' = frame_bytes h p /\
    length out' = length out.
Proof.
  intros Hout (Hh & Hm & Hv & Hl & Hmax & Hp).
  unfold safety_frame_pack, SAFETY_MAX_FRAME_SIZE, SAFETY_MAX_PAYLOAD,
    SAFETY_HEADER_SIZE in *.
  destruct (payload_length h >? 256) eqn:E; [lia|].
  rewrite compute_checksum_some, Hl, Nat2Z.id, take_ge by lia.
  fold (seal h p). cbv zeta.
  change (payload_length (seal h p)) with (payload_length h).
  rewrite Hl, Nat2Z.id, take_ge by lia. eexists; split; [reflexivity|].
  replace (Z.to_nat (16 + Z.of_nat (length p))) with (16 + length p)%nat by lia.
  set (H := header_bytes (seal h p)). assert (length H = 16%nat) as HH by done.
  assert (length (overwrite 0 H out) = length out) as Hlen
    by (apply length_overwrite; lia).
  destruct (Z.of_nat (length p) =? 0) eqn:E0.
  - destruct p; [|simpl in E0; lia]. split; [|done].
    unfold overwrite. simpl. unfold frame_bytes. rewrite app_nil_r. done.
  - split; [|rewrite length_overwrite; lia].
    unfold overwrite at 1. rewrite app_assoc, take_app_length'.
    + unfold overwrite. rewrite take_0, app_nil_l, take_app_length' by done. done.
    + rewrite length_app, length_take. lia.
Qed.

(** ** Validation *)

(** What [SAFETY_VALIDATE_OK] means: the buffer begins with the image of a
    well-formed frame. *)
Lemma validate_frame h p rest n :
  frame_ok h p -> 16 + Z.of_nat (length p) <= n ->
  safety_frame_validate (frame_bytes h p ++ rest) n = SAFETY_VALIDATE_OK.
Proof.
  intros (Hh & Hm & Hv & Hl & Hmax & Hp) Hn.
  unfold safety_frame_validate, SAFETY_HEADER_SIZE.
  rewrite frame_header, drop_frame_bytes by done.
  change (magic (seal h p)) with (magic h).
  change (version (seal h p)) with (version h).
  change (payload_length (seal h p)) with (payload_length h).
  rewrite Hm, Hv, !Z.eqb_refl. cbn [negb].
  rewrite (proj2 (Z.ltb_ge _ _)) by lia.
  rewrite Z.gtb_ltb, (proj2 (Z.ltb_ge _ _)), (proj2 (Z.ltb_ge _ _)) by lia.
  rewrite compute_checksum_some, Hl, Nat2Z.id, take_app_length.
  change (covered_bytes (seal h p) p) with (covered_bytes h p).
  change (checksum (seal h p)) with (safety_crc32 (covered_bytes h p)).
  by rewrite Z.eqb_refl.
Qed.

Lemma validate_ok_inv buf n :
  bytes_ok buf -> n <= Z.of_nat (length buf) ->
  safety_frame_validate buf n = SAFETY_VALIDATE_OK ->
  exists h p rest,
    frame_ok h p /\ buf = frame_bytes h p ++ rest /\
    16 + Z.of_nat (length p) <= n /\ header_of_bytes buf = seal h p.
Proof.
  intros Hb Hn H. unfold safety_frame_validate, SAFETY_HEADER_SIZE in H.
  repeat case_test; try discriminate.
  set (h := header_of_bytes buf) in *.
  assert (header_ok h) as Hh by (apply header_of_bytes_ok; [done|lia]).
  assert (0 <= payload_length h) by apply Hh.
  rewrite compute_checksum_some in *.
  set (p := take (Z.to_nat (payload_length h)) (drop 16 buf)) in *.
  assert (length p = Z.to_nat (payload_length h)) as Hlp.
  { unfold p. rewrite length_take, length_drop. lia. }
  assert (seal h p = h) as Hs.
  { apply update_checksum_id. apply negb_false_iff, Z.eqb_eq in E4. done. }
  exists h, p, (drop (length p) (drop 16 buf)).
  unfold frame_ok, SAFETY_MAX_PAYLOAD in *.
  repeat split; try (apply Hh || lia).
  - unfold p. auto with safety.
  - unfold frame_bytes. rewrite Hs, <- app_assoc. unfold h at 1.
    rewrite header_bytes_of by (done || lia). rewrite Hlp. unfold p.
    by rewrite take_drop, take_drop.
  - done.
Qed.

(** The five outcomes, decided by the header and the length alone up to the
    checksum. *)
Lemma validate_not_ok_cases buf n :
  safety_frame_validate buf n =
  if decide (n < 16) then SAFETY_VALIDATE_BAD_LENGTH
  else if decide (field 0 2 buf <> SAFETY_PROTO_MAGIC) then SAFETY_VALIDATE_BAD_MAGIC
  else if decide (field 2 1 buf <> SAFETY_PROTO_VERSION) then SAFETY_VALIDATE_BAD_VERSION
  else if decide (256 < field 6 2 buf \/ n < 16 + field 6 2 buf)
  then SAFETY_VALIDATE_BAD_LENGTH
  else if decide (safety_crc32 (covered_bytes (header_of_bytes buf)
                    (slice 16 (Z.to_nat (field 6 2 buf)) buf)) = field 12 4 buf)
  then SAFETY_VALIDATE_OK
  else SAFETY_VALIDATE_BAD_CHECKSUM.
Proof.
  unfold safety_frame_validate, SAFETY_HEADER_SIZE, SAFETY_MAX_PAYLOAD.
  rewrite compute_checksum_some. cbn [magic version payload_length checksum header_of_bytes].
  fold (slice 16 (Z.to_nat (field 6 2 buf)) buf).
  repeat case_decide; repeat case_test; done || lia.
Qed.

Lemma slice_window hd w tl k :
  (16 <= length hd)%nat -> (length hd + length w <= 16 + k)%nat ->
  slice 16 k (hd ++ w ++ tl) =
  drop 16 hd ++ w ++ take (k - (length hd - 16) - length w) tl.
Proof.
  intros H1 H2. unfold slice. rewrite drop_app_le by done.
  rewrite take_app_ge by (rewrite length_drop; lia). f_equal.
  rewrite take_app_ge by (rewrite length_drop; lia). f_equal.
  f_equal. rewrite length_drop. lia.
Qed.

(** ** Properties *)

(** A corrupted checksum field is reported too: replacing the four bytes at
    offset 12 of a valid frame by any other four bytes gives
    [SAFETY_VALIDATE_BAD_CHECKSUM]. *)
Lemma checksum_field_detected a c c' tl n :
  length a = 12%nat -> length c = 4%nat -> length c' = 4%nat ->
  bytes_ok c -> bytes_ok c' -> c <> c' ->
  safety_frame_validate (a ++ c ++ tl) n = SAFETY_VALIDATE_OK ->
  safety_frame_validate (a ++ c' ++ tl) n = SAFETY_VALIDATE_BAD_CHECKSUM.
Proof.
  intros Ha Hc Hc' Hbc Hbc' Hne Hok.
  rewrite validate_not_ok_cases in Hok |- *.
  assert (forall x, length x = 4%nat -> slice 12 4 (a ++ x ++ tl) = x) as Hx.
  { intros x Hx. unfold slice. rewrite drop_app_length', take_app_length' by done. done. }
  assert (forall x k, length x = 4%nat -> slice 16 k (a ++ x ++ tl) = take k tl) as Hp.
  { intros x k Hx'. unfold slice. rewrite app_assoc, drop_app_length'; [done|].
    rewrite length_app. lia. }
  assert (field 12 4 (a ++ c ++ tl) <> field 12 4 (a ++ c' ++ tl)) as Hf.
  { unfold field. rewrite !Hx by done. intros Heq. apply Hne, le_value_inj; congruence || done. }
  assert (forall x p, covered_bytes (header_of_bytes (a ++ x ++ tl)) p =
                      covered_bytes (header_of_bytes a) p) as Hcov.
  { intros x p. unfold covered_bytes, header_of_bytes.
    rewrite !(field_app_l _ _ a (x ++ tl)) by lia. done. }
  rewrite !Hcov, !(field_app_l _ _ a) in * by lia. rewrite !Hp in * by done.
  repeat (case_decide; try done). congruence.
Qed.

Module Props.

(** C1. Round trip of the wire format: for every type, sequence number,
    timestamp and payload of at most 256 bytes, [safety_frame_init] followed by
    [safety_frame_pack] into a buffer of maximal frame size returns the length
    16 + payload length, the buffer it leaves passes [safety_frame_validate],
    and reading the header and payload back from it gives what was packed. *)
Theorem pack_validate_roundtrip out ty seq ts p :
  is_u8 ty -> is_u16 seq -> is_u32 ts -> bytes_ok p ->
  Z.of_nat (length p) <= SAFETY_MAX_PAYLOAD ->
  SAFETY_MAX_FRAME_SIZE <= Z.of_nat (length out) ->
  exists total hdr out',
    safety_frame_pack out (safety_frame_init ty seq (Z.of_nat (length p)) ts) (Some p)
      = (total, hdr, out') /\
    total = SAFETY_HEADER_SIZE + Z.of_nat (length p) /\
    safety_frame_validate out' total = SAFETY_VALIDATE_OK /\
    header_of_bytes out' = hdr /\
    type hdr = ty /\ sequence_id hdr = seq /\ timestamp_ms hdr = ts /\
    payload_length hdr = Z.of_nat (length p) /\
    slice 16 (length p) out' = p /\ length out' = length out.
Proof.
  intros Hty Hseq Hts Hp Hl Hout. unfold SAFETY_MAX_PAYLOAD in Hl.
  assert (frame_ok (safety_frame_init ty seq (Z.of_nat (length p)) ts) p) as Hok
    by (apply frame_init_ok; done || lia).
  destruct (frame_pack_spec out _ p Hout Hok) as (out' & Hpack & Htake & Hlen).
  eexists _, _, out'. split; [exact Hpack|]. cbn [payload_length safety_frame_init] in *.
  rewrite <- (take_drop (Z.to_nat (16 + Z.of_nat (length p))) out') in Hlen |- *.
  rewrite Htake in *. split; [done|]. split; [by apply validate_frame; [|lia]|].
  split; [apply frame_header; apply Hok|]. do 4 (split; [done|]).
  split; [|done]. unfold slice. by rewrite drop_frame_bytes, take_app_length.
Qed.

Lemma pack_validate_roundtrip_witness :
  exists total hdr out',
    safety_frame_pack (replicate 272 0)
      (safety_frame_init SAFETY_FRAME_HEARTBEAT 7 3 1234) (Some [1; 2; 3])
      = (total, hdr, out') /\
    total = SAFETY_HEADER_SIZE + 3 /\
    safety_frame_validate out' total = SAFETY_VALIDATE_OK /\
    header_of_bytes out' = hdr /\
    type hdr = SAFETY_FRAME_HEARTBEAT /\ sequence_id hdr = 7 /\ timestamp_ms hdr = 1234 /\
    payload_length hdr = 3 /\ slice 16 3 out' = [1; 2; 3] /\
    length out' = length (replicate 272 0).
Proof.
  apply (pack_validate_roundtrip (replicate 272 0) SAFETY_FRAME_HEARTBEAT 7 1234 [1; 2; 3]);
    unfold SAFETY_FRAME_HEARTBEAT, SAFETY_MAX_PAYLOAD, SAFETY_MAX_FRAME_SIZE,
      SAFETY_HEADER_SIZE, SAFETY_MAX_PAYLOAD; simpl; try lia.
  repeat constructor; lia.
Defined.

(** C2. Soundness and completeness of [safety_frame_validate]: on a byte buffer
    of at least [n] bytes it answers [SAFETY_VALIDATE_OK] exactly when the
    buffer starts with the image of a well-formed frame (magic, version, length
    field, CRC-32 of the zero-checksum header and the payload) that fits in the
    first [n] bytes. *)
Theorem validate_ok_iff buf n :
  bytes_ok buf -> n <= Z.of_nat (length buf) ->
  (safety_frame_validate buf n = SAFETY_VALIDATE_OK <->
   exists h p rest,
     frame_ok h p /\ buf = frame_bytes h p ++ rest /\
     SAFETY_HEADER_SIZE + Z.of_nat (length p) <= n).
Proof.
  intros Hb Hn. split.
  - intros H. destruct (validate_ok_inv buf n Hb Hn H) as (h & p & rest & ? & ? & ? & _).
    by exists h, p, rest.
  - intros (h & p & rest & Hok & -> & Hlen). by apply validate_frame.
Qed.

Lemma validate_ok_iff_witness :
  let f := frame_bytes (safety_frame_init SAFETY_FRAME_ACK 1 4 2) [9; 0; 0; 0] in
  safety_frame_validate f 20 = SAFETY_VALIDATE_OK /\
  (safety_frame_validate f 20 = SAFETY_VALIDATE_OK <->
   exists h p rest,
     frame_ok h p /\ f = frame_bytes h p ++ rest /\
     SAFETY_HEADER_SIZE + Z.of_nat (length p) <= 20).
Proof.
  split; [by vm_compute|]. apply (validate_ok_iff _ 20).
  - vm_compute. repeat constructor; discriminate.
  - vm_compute. discriminate.
Defined.

(** C3. Every corruption of up to four consecutive payload bytes of a valid
    frame is reported as [SAFETY_VALIDATE_BAD_CHECKSUM], wherever it lies. *)
Theorem payload_burst_detected hd w w' tl n :
  bytes_ok (hd ++ w ++ tl) -> bytes_ok w' ->
  safety_frame_validate (hd ++ w ++ tl) n = SAFETY_VALIDATE_OK ->
  (16 <= length hd)%nat ->
  Z.of_nat (length hd + length w) <= 16 + payload_length (header_of_bytes (hd ++ w ++ tl)) ->
  length w = length w' -> (length w <= 4)%nat -> w <> w' ->
  safety_frame_validate (hd ++ w' ++ tl) n = SAFETY_VALIDATE_BAD_CHECKSUM.
Proof.
  intros Hb Hw' Hok Hhd Hwin Hlen H4 Hne.
  rewrite validate_not_ok_cases in Hok |- *.
  rewrite !header_of_bytes_app, !field_app_l in * by lia.
  cbn [payload_length header_of_bytes] in Hwin.
  rewrite !bytes_ok_app in Hb. destruct Hb as (Hbhd & Hbw & Hbtl).
  set (k := Z.to_nat (field 6 2 hd)) in *.
  assert (safety_crc32 (covered_bytes (header_of_bytes hd) (slice 16 k (hd ++ w ++ tl))) <>
          safety_crc32 (covered_bytes (header_of_bytes hd) (slice 16 k (hd ++ w' ++ tl)))).
  { unfold covered_bytes. rewrite !slice_window, <- Hlen, !(app_assoc (header_bytes _)) by lia.
    apply crc32_burst; try done. rewrite !bytes_ok_app. auto with safety. }
  repeat (case_decide; try done). congruence.
Qed.

Lemma payload_burst_detected_witness :
  let f := frame_bytes (safety_frame_init SAFETY_FRAME_COMMAND 5 8 77)
             [3; 0; 0; 0; 0; 0; 0; 0] in
  f = take 17 f ++ [0; 0; 0; 0] ++ drop 21 f /\
  safety_frame_validate (take 17 f ++ [1; 0; 255; 4] ++ drop 21 f) 24
    = SAFETY_VALIDATE_BAD_CHECKSUM.
Proof.
  split; [by vm_compute|].
  apply (payload_burst_detected _ [0; 0; 0; 0] [1; 0; 255; 4] _ 24);
    try (vm_compute; (reflexivity || discriminate)).
  - vm_compute. repeat constructor; discriminate.
  - repeat constructor; lia.
  - vm_compute. lia.
Defined.

(** C4. The byte-at-a-time loop of [safety_crc32] computes the CRC-32 of the
    message as one bit-serial division register: [8 * length] rounds over the
    little-endian integer of the message, from the all-ones register and with
    the final complement; its result always fits 32 bits. *)
Theorem crc32_register data :
  bytes_ok data ->
  safety_crc32 data =
    Z.lxor (Nat.iter (8 * length data) crc_round
              (Z.lxor 0xFFFFFFFF (le_value data))) 0xFFFFFFFF /\
  is_u32 (safety_crc32 data).
Proof.
  intros Hd. split; [|by apply crc32_range].
  unfold safety_crc32. by rewrite crc_step_register.
Qed.

Lemma crc32_register_witness :
  safety_crc32 [49; 50; 51; 52; 53; 54; 55; 56; 57] = 0xCBF43926 /\
  safety_crc32 [49; 50; 51; 52; 53; 54; 55; 56; 57] =
    Z.lxor (Nat.iter 72 crc_round
      (Z.lxor 0xFFFFFFFF (le_value [49; 50; 51; 52; 53; 54; 55; 56; 57]))) 0xFFFFFFFF.
Proof.
  split; [by vm_compute|].
  apply (crc32_register [49; 50; 51; 52; 53; 54; 55; 56; 57]).
  repeat constructor; lia.
Defined.

End Props.
