(* ===== verification/KernelApi.v ===== *)
(** * The Linux kernel services the driver calls

    kfifo, hrtimer, workqueues, the monotonic clock, the current CPU and the
    ioctl number macros are kernel code outside the repository: they are
    parameters of the model.  [KernelApi] names the operations the driver uses,
    [KernelOk] states the documented behaviour the theorems rely on, and
    [Sim] is a concrete instance that shows the laws can hold and lets the
    driver be evaluated. *)

From S2P Require Import Prelude.

(** ** Error numbers and poll bits (uapi) *)

Definition ENOMEM : Z := 12.
Definition EFAULT : Z := 14.
Definition EINVAL : Z := 22.
Definition ENOTTY : Z := 25.
Definition ENOSPC : Z := 28.
Definition EMSGSIZE : Z := 90.
Definition EAGAIN : Z := 11.
Definition ERESTARTSYS : Z := 512.

Definition EPOLLIN : Z := 0x001.
Definition EPOLLPRI : Z := 0x002.
Definition EPOLLRDNORM : Z := 0x040.

(** ** Operations *)

Class KernelApi (A : Type) := {
  (* linux/kfifo.h, record fifo of [A] *)
  kfifo : Type;
  kfifo_is_full : kfifo -> bool;
  kfifo_is_empty : kfifo -> bool;
  kfifo_in : kfifo -> A -> Z * kfifo;          (* number of elements copied in *)
  kfifo_out : kfifo -> A -> Z * A * kfifo;     (* number copied out, destination *)
  kfifo_len : kfifo -> Z;
  kfifo_size : kfifo -> Z;
  (* linux/hrtimer.h *)
  hrtimer : Type;
  hrtimer_init : hrtimer;
  hrtimer_start : hrtimer -> Z -> hrtimer;     (* relative expiry in ns *)
  hrtimer_cancel : hrtimer -> hrtimer;
  hrtimer_expired : hrtimer -> hrtimer;        (* after HRTIMER_NORESTART *)
  (* linux/workqueue.h *)
  work_struct : Type;
  INIT_WORK : work_struct;
  schedule_work : work_struct -> bool * work_struct;
  cancel_work_sync : work_struct -> work_struct;
  work_begin : work_struct -> work_struct;     (* dequeued, handler starts *)
  (* linux/ktime.h: the n-th reading of CLOCK_MONOTONIC *)
  ktime_get_ns : nat -> Z;
  ktime_to_ms : Z -> Z;
  ms_to_ktime : Z -> Z;
  (* linux/percpu.h: the CPU the n-th this_cpu operation runs on *)
  nr_cpus : nat;
  this_cpu : nat -> nat;
  (* linux/log2.h *)
  roundup_pow_of_two : Z -> Z;
  (* asm-generic/ioctl.h *)
  _IOC : Z -> Z -> Z -> Z -> Z;                (* dir type nr size *)
  _IOC_TYPE : Z -> Z;
  _IOC_NR : Z -> Z;
}.

(** ** Documented behaviour *)

Class KernelOk {A : Type} (K : KernelApi A) := {
  (* the elements queued, oldest first *)
  kfifo_view : kfifo -> list A;
  kfifo_len_view f : kfifo_len f = Z.of_nat (length (kfifo_view f));
  kfifo_bounded f : kfifo_len f <= kfifo_size f;
  kfifo_is_full_view f : kfifo_is_full f = (kfifo_size f <=? kfifo_len f);
  kfifo_is_empty_view f : kfifo_is_empty f = (kfifo_len f =? 0);
  kfifo_in_room f x :
    kfifo_is_full f = false ->
    (kfifo_in f x).1 = 1 /\ kfifo_view (kfifo_in f x).2 = kfifo_view f ++ [x];
  kfifo_in_size f x : kfifo_size (kfifo_in f x).2 = kfifo_size f;
  kfifo_out_some f x y q :
    kfifo_view f = x :: q ->
    (kfifo_out f y).1 = (1, x) /\ kfifo_view (kfifo_out f y).2 = q;
  kfifo_out_size f y : kfifo_size (kfifo_out f y).2 = kfifo_size f;
  (* the pending relative expiry, if the timer is armed *)
  hrtimer_pending : hrtimer -> option Z;
  hrtimer_pending_init : hrtimer_pending hrtimer_init = None;
  hrtimer_pending_start t ns : hrtimer_pending (hrtimer_start t ns) = Some ns;
  hrtimer_pending_cancel t : hrtimer_pending (hrtimer_cancel t) = None;
  hrtimer_pending_expired t : hrtimer_pending (hrtimer_expired t) = None;
  (* whether the work item is queued *)
  work_pending : work_struct -> bool;
  work_pending_init : work_pending INIT_WORK = false;
  work_pending_schedule w :
    (schedule_work w).1 = negb (work_pending w) /\
    work_pending (schedule_work w).2 = true;
  work_pending_cancel w : work_pending (cancel_work_sync w) = false;
  work_pending_begin w : work_pending (work_begin w) = false;
  ktime_range n : 0 <= ktime_get_ns n < 2 ^ 63;
  ms_to_ktime_ns ms : ms_to_ktime ms = ms * 1000000;
  this_cpu_possible n : (this_cpu n < nr_cpus)%nat;
  roundup_pow_of_two_spec n :
    0 < n <= 2 ^ 31 -> roundup_pow_of_two n = 2 ^ Z.log2_up n;
  IOC_type d t n s :
    0 <= d < 4 -> is_u8 t -> is_u8 n -> 0 <= s < 2 ^ 14 -> _IOC_TYPE (_IOC d t n s) = t;
  IOC_nr d t n s :
    0 <= d < 4 -> is_u8 t -> is_u8 n -> 0 <= s < 2 ^ 14 -> _IOC_NR (_IOC d t n s) = n;
}.

(** ** A concrete instance *)

Module Sim.

(** A bounded queue as a capacity and a list, a timer as its pending expiry, a
    work item as its pending bit; one millisecond passes between two clock
    readings, and consecutive per-CPU operations alternate between two CPUs. *)
#[local] Instance api (A : Type) : KernelApi A := {|
  kfifo := { f : Z * list A | (Z.of_nat (length f.2) <=? f.1) = true };
  kfifo_is_full f := (`f).1 <=? Z.of_nat (length (`f).2);
  kfifo_is_empty f := Z.of_nat (length (`f).2) =? 0;
  kfifo_in f x :=
    match decide ((Z.of_nat (length ((`f).2 ++ [x])) <=? (`f).1) = true) with
    | left H => (1, exist _ ((`f).1, (`f).2 ++ [x]) H)
    | right _ => (0, f)
    end;
  kfifo_out f y :=
    match (`f).2 with
    | [] => (0, y, f)
    | x :: q =>
        match decide ((Z.of_nat (length q) <=? (`f).1) = true) with
        | left H => (1, x, exist _ ((`f).1, q) H)
        | right _ => (0, y, f)
        end
    end;
  kfifo_len f := Z.of_nat (length (`f).2);
  kfifo_size f := (`f).1;
  hrtimer := option Z;
  hrtimer_init := None;
  hrtimer_start _ ns := Some ns;
  hrtimer_cancel _ := None;
  hrtimer_expired _ := None;
  work_struct := bool;
  INIT_WORK := false;
  schedule_work w := (negb w, true);
  cancel_work_sync _ := false;
  work_begin _ := false;
  ktime_get_ns n := Z.of_nat n mod 1000000000 * 1000000;
  ktime_to_ms ns := ns / 1000000;
  ms_to_ktime ms := ms * 1000000;
  nr_cpus := 2;
  this_cpu n := (n mod 2)%nat;
  roundup_pow_of_two n := 2 ^ Z.log2_up n;
  _IOC d t n s := d * 2 ^ 30 + s * 2 ^ 16 + t * 2 ^ 8 + n;
  _IOC_TYPE c := c / 2 ^ 8 mod 2 ^ 8;
  _IOC_NR c := c mod 2 ^ 8;
|}.

#[local] Instance ok (A : Type) : KernelOk (api A).
Proof.
  refine {| kfifo_view := fun f : @kfifo _ (api A) => (`f).2;
            hrtimer_pending := fun t : @hrtimer _ (api A) => t;
            work_pending := fun w : @work_struct _ (api A) => w |}; simpl; try done.
  - intros [[c q] H]; simpl in *. lia.
  - intros [[c q] H] x; simpl in *. rewrite Z.leb_gt. intros Hr.
    case_decide as Hd; [done|]. destruct Hd. apply Z.leb_le.
    rewrite length_app. simpl. lia.
  - intros [[c q] H] x; simpl in *. by case_decide.
  - intros [[c q0] H] x y q; simpl in *. intros ->.
    pose proof (proj1 (Z.leb_le _ _) H) as Hc. simpl in Hc.
    case_decide as Hd; [done|]. destruct Hd. apply Z.leb_le. lia.
  - intros [[c q] H] y; simpl in *. destruct q; [done|]. by case_decide.
  - intros n. pose proof (Z.mod_pos_bound (Z.of_nat n) 1000000000). lia.
  - intros n. pose proof (Nat.mod_upper_bound n 2). lia.
  - intros d t n s Hd Ht Hn Hs. Z.div_mod_to_equations. lia.
  - intros d t n s Hd Ht Hn Hs. Z.div_mod_to_equations. lia.
Defined.

End Sim.
