(* ===== verification/Device.v ===== *)
(** * Driver data: [linux/drivers/safety_copro/safety_copro.h]

    The device structure, its timeline and per-CPU statistics
    ([safety_copro_percpu.c]), the tracepoints ([safety_copro_trace.h]), and the
    world a driver thread acts on: the single device instance, a clock that
    advances with every reading, and the log of tracepoints and wake-ups. *)

From S2P Require Import Prelude Protocol KernelApi.

Definition SAFETY_DEFAULT_HB_TIMEOUT_MS : Z := 350.
Definition SAFETY_DEFAULT_FIFO_DEPTH : Z := 64.
Definition SAFETY_TIMELINE_DEPTH : Z := 64.

(** ** Types *)

(** A queue slot.  [slot_data] holds the [slot_len] bytes copied in; the rest of
    the C array is uninitialised stack memory that no reader looks at. *)
Record safety_fifo_slot := mkSlot { slot_len : Z; slot_data : list Z }.

#[global] Instance slot_eq_dec : EqDecision safety_fifo_slot.
Proof. solve_decision. Defined.

Inductive safety_link_state :=
| SAFETY_LINK_BOOTING
| SAFETY_LINK_HB_OK
| SAFETY_LINK_HB_TIMEOUT
| SAFETY_LINK_RECOVERING.

#[global] Instance link_state_eq_dec : EqDecision safety_link_state.
Proof. solve_decision. Defined.

Definition link_state_value (s : safety_link_state) : Z :=
  match s with
  | SAFETY_LINK_BOOTING => 0
  | SAFETY_LINK_HB_OK => 1
  | SAFETY_LINK_HB_TIMEOUT => 2
  | SAFETY_LINK_RECOVERING => 3
  end.

Inductive safety_timeline_event :=
| SAFETY_TL_NONE
| SAFETY_TL_FRAME_RX
| SAFETY_TL_FRAME_DROP
| SAFETY_TL_HEARTBEAT
| SAFETY_TL_TIMEOUT
| SAFETY_TL_RECOVERY
| SAFETY_TL_FAULT_INJECT.

#[global] Instance timeline_event_eq_dec : EqDecision safety_timeline_event.
Proof. solve_decision. Defined.

Record safety_timeline_entry := mkEntry {
  ts_ns : Z;                       (* u64 *)
  event : safety_timeline_event;
  entry_seq : Z;                   (* u16 *)
}.

#[global] Instance timeline_entry_eq_dec : EqDecision safety_timeline_entry.
Proof. solve_decision. Defined.

(** [struct safety_copro_pcpu], also the shape of [safety_copro_pcpu_sum]. *)
Record safety_copro_pcpu := mkPcpu { rx_frames : Z; dropped : Z; bytes : Z }.

#[global] Instance pcpu_eq_dec : EqDecision safety_copro_pcpu.
Proof. solve_decision. Defined.
#[global] Instance pcpu_rebuild : Rebuild safety_copro_pcpu :=
  fun p => mkPcpu (rx_frames p) (dropped p) (bytes p).
#[global] Instance update_rx_frames : Update rx_frames := ltac:(derive_update).
#[global] Instance update_dropped : Update dropped := ltac:(derive_update).
#[global] Instance update_bytes : Update bytes := ltac:(derive_update).

(** Tracepoints and wake-ups, in the order they happen. *)
Inductive kevent :=
| safety_frame_received (seq ty qlen : Z)
| safety_frame_dropped (seq ty : Z)
| safety_timeout_detected (timeout_ms count : Z)
| safety_recovery_queued (count : Z)
| safety_poll_wakeup (events : Z)
| wake_up_rx_wq
| wake_up_tx_wq.

#[global] Instance kevent_eq_dec : EqDecision kevent.
Proof. solve_decision. Defined.

Section Device.
Context {K : KernelApi safety_fifo_slot}.

Record safety_copro_dev := mkDev {
  rx_fifo : kfifo;  (* linkd pushes, supervisor reads *)
  tx_fifo : kfifo;  (* supervisor writes, linkd pops *)
  fifo_depth : Z;  (* u32 *)
  fifo_high_watermark : Z;  (* u32 *)
  state : safety_link_state;
  heartbeat_count : Z;  (* u32 *)
  fault_count : Z;  (* u32 *)
  dropped_frame_count : Z;  (* u32 *)
  timeout_count : Z;  (* u32 *)
  retry_count : Z;  (* u32 *)
  protocol_error_count : Z;  (* u32 *)
  synth_seq : Z;  (* u16 *)
  hb_timer : hrtimer;
  hb_timeout_ms : Z;  (* u32 *)
  recovery_work : work_struct;
  last_fault_type : Z;  (* u8 *)
  last_fault_detail : Z;  (* u16 *)
  last_fault_ts_ns : Z;  (* u64 *)
  last_proto_err : safety_validate_result;
  proto_err_magic : Z;  (* u32 *)
  proto_err_version : Z;  (* u32 *)
  proto_err_length : Z;  (* u32 *)
  proto_err_checksum : Z;  (* u32 *)
  timeline : list safety_timeline_entry;  (* SAFETY_TIMELINE_DEPTH entries *)
  timeline_head : Z;  (* u32, next index to write *)
  timeline_filled : Z;  (* u32, entries written, at most DEPTH *)
  pcpu : list safety_copro_pcpu;  (* one per possible CPU *)
  debugfs_dir : bool;  (* the directory exists *)
}.

Record world := mkWorld {
  w_dev : safety_copro_dev;
  w_now : nat;                     (* clock readings and CPU choices so far *)
  w_log : list kevent;
}.

End Device.

#[global] Arguments safety_copro_dev K : clear implicits.
#[global] Arguments world K : clear implicits.

Section Updates.
Context {K : KernelApi safety_fifo_slot}.

#[global] Instance dev_rebuild : Rebuild (safety_copro_dev K) :=
  fun d => mkDev (rx_fifo d) (tx_fifo d) (fifo_depth d) (fifo_high_watermark
    d) (state d) (heartbeat_count d) (fault_count d) (dropped_frame_count d)
    (timeout_count d) (retry_count d) (protocol_error_count d) (synth_seq d)
    (hb_timer d) (hb_timeout_ms d) (recovery_work d) (last_fault_type d)
    (last_fault_detail d) (last_fault_ts_ns d) (last_proto_err d)
    (proto_err_magic d) (proto_err_version d) (proto_err_length d)
    (proto_err_checksum d) (timeline d) (timeline_head d) (timeline_filled d)
    (pcpu d) (debugfs_dir d).
#[global] Instance update_rx_fifo : Update rx_fifo := ltac:(derive_update).
#[global] Instance update_tx_fifo : Update tx_fifo := ltac:(derive_update).
#[global] Instance update_fifo_depth : Update fifo_depth := ltac:(derive_update).
#[global] Instance update_fifo_high_watermark : Update fifo_high_watermark := ltac:(derive_update).
#[global] Instance update_state : Update state := ltac:(derive_update).
#[global] Instance update_heartbeat_count : Update heartbeat_count := ltac:(derive_update).
#[global] Instance update_fault_count : Update fault_count := ltac:(derive_update).
#[global] Instance update_dropped_frame_count : Update dropped_frame_count := ltac:(derive_update).
#[global] Instance update_timeout_count : Update timeout_count := ltac:(derive_update).
#[global] Instance update_retry_count : Update retry_count := ltac:(derive_update).
#[global] Instance update_protocol_error_count : Update protocol_error_count := ltac:(derive_update).
#[global] Instance update_synth_seq : Update synth_seq := ltac:(derive_update).
#[global] Instance update_hb_timer : Update hb_timer := ltac:(derive_update).
#[global] Instance update_hb_timeout_ms : Update hb_timeout_ms := ltac:(derive_update).
#[global] Instance update_recovery_work : Update recovery_work := ltac:(derive_update).
#[global] Instance update_last_fault_type : Update last_fault_type := ltac:(derive_update).
#[global] Instance update_last_fault_detail : Update last_fault_detail := ltac:(derive_update).
#[global] Instance update_last_fault_ts_ns : Update last_fault_ts_ns := ltac:(derive_update).
#[global] Instance update_last_proto_err : Update last_proto_err := ltac:(derive_update).
#[global] Instance update_proto_err_magic : Update proto_err_magic := ltac:(derive_update).
#[global] Instance update_proto_err_version : Update proto_err_version := ltac:(derive_update).
#[global] Instance update_proto_err_length : Update proto_err_length := ltac:(derive_update).
#[global] Instance update_proto_err_checksum : Update proto_err_checksum := ltac:(derive_update).
#[global] Instance update_timeline : Update timeline := ltac:(derive_update).
#[global] Instance update_timeline_head : Update timeline_head := ltac:(derive_update).
#[global] Instance update_timeline_filled : Update timeline_filled := ltac:(derive_update).
#[global] Instance update_pcpu : Update pcpu := ltac:(derive_update).
#[global] Instance update_debugfs_dir : Update debugfs_dir := ltac:(derive_update).

#[global] Instance world_rebuild : Rebuild (world K) :=
  fun w => mkWorld (w_dev w) (w_now w) (w_log w).
#[global] Instance update_w_dev : Update w_dev := ltac:(derive_update).
#[global] Instance update_w_now : Update w_now := ltac:(derive_update).
#[global] Instance update_w_log : Update w_log := ltac:(derive_update).

(** ** Elementary actions *)

(** Reads and assignments of device fields. *)
Definition dev_get {T} (f : safety_copro_dev K -> T) : st (world K) T :=
  fun w => (f (w_dev w), w).
Definition dev_set (f : safety_copro_dev K -> safety_copro_dev K) : st (world K) unit :=
  fun w => (tt, w <| w_dev ::= f |>).

(** [ktime_get_ns()] *)
Definition get_ktime : st (world K) Z :=
  fun w => (ktime_get_ns (w_now w), w <| w_now ::= S |>).

Definition trace (e : kevent) : st (world K) unit :=
  fun w => (tt, w <| w_log ::= fun l => l ++ [e] |>).

(** [wake_up_interruptible()] has no effect on the device itself. *)
Definition wake_up (e : kevent) : st (world K) unit := trace e.

(** [u32 safety_now_ms(void)] *)
Definition safety_now_ms : st (world K) Z :=
  t ← get_ktime; mret (u32 (ktime_to_ms t)).

(** ** Timeline ring *)

Definition safety_timeline_record_locked (ev : safety_timeline_event) (seq : Z) :
    st (world K) unit :=
  t ← get_ktime;
  dev_set (fun d =>
    let d := d <| timeline ::= <[Z.to_nat (timeline_head d) := mkEntry t ev seq]> |> in
    let d := d <| timeline_head := (timeline_head d + 1) mod SAFETY_TIMELINE_DEPTH |> in
    if timeline_filled d <? SAFETY_TIMELINE_DEPTH
    then d <| timeline_filled := u32 (timeline_filled d + 1) |>
    else d).

(** ** Per-CPU statistics: [safety_copro_percpu.c] *)

Definition pcpu_zero : safety_copro_pcpu := mkPcpu 0 0 0.

(** [alloc_percpu] may fail; on success every possible CPU starts at zero. *)
Definition safety_percpu_init (alloc_ok : bool) : Z * list safety_copro_pcpu :=
  if alloc_ok then (0, replicate nr_cpus pcpu_zero) else (- ENOMEM, []).

(** One [this_cpu] operation: on the CPU the thread runs on at that moment. *)
Definition this_cpu_op (f : safety_copro_pcpu -> safety_copro_pcpu) : st (world K) unit :=
  fun w => (tt, w <| w_dev ::= fun d => d <| pcpu ::= alter f (this_cpu (w_now w)) |> |>
                  <| w_now ::= S |>).

Definition safety_percpu_inc_rx (n : Z) : prog (world K) unit :=
  _ ← atomic (this_cpu_op (fun p => p <| rx_frames ::= fun x => u64 (x + 1) |>));
  atomic (this_cpu_op (fun p => p <| bytes ::= fun x => u64 (x + n) |>)).

Definition safety_percpu_inc_dropped : prog (world K) unit :=
  atomic (this_cpu_op (fun p => p <| dropped ::= fun x => u64 (x + 1) |>)).

(** The three writes to the counters of one CPU, with no lock. *)
Definition percpu_clear (cpu : nat) : prog (world K) unit :=
  _ ← atomic (dev_set (fun d => d <| pcpu ::= alter (fun p => p <| rx_frames := 0 |>) cpu |>));
  _ ← atomic (dev_set (fun d => d <| pcpu ::= alter (fun p => p <| dropped := 0 |>) cpu |>));
  atomic (dev_set (fun d => d <| pcpu ::= alter (fun p => p <| bytes := 0 |>) cpu |>)).

(** [safety_percpu_reset]: one CPU after the other. *)
Fixpoint percpu_reset_from (cpu n : nat) : prog (world K) unit :=
  match n with
  | O => mret tt
  | S n =>
      _ ← percpu_clear cpu;
      percpu_reset_from (S cpu) n
  end.
Definition safety_percpu_reset : prog (world K) unit := percpu_reset_from 0 nr_cpus.

(** The three reads of the counters of one CPU, with no lock. *)
Definition cpu_counters (d : safety_copro_dev K) (cpu : nat) : safety_copro_pcpu := default pcpu_zero (pcpu d !! cpu).
Definition percpu_read (cpu : nat) : prog (world K) safety_copro_pcpu :=
  rx ← atomic (dev_get (fun d => rx_frames (cpu_counters d cpu)));
  dr ← atomic (dev_get (fun d => dropped (cpu_counters d cpu)));
  by_ ← atomic (dev_get (fun d => bytes (cpu_counters d cpu)));
  mret (mkPcpu rx dr by_).

(** The summation loop. *)
Definition pcpu_add (s p : safety_copro_pcpu) : safety_copro_pcpu :=
  mkPcpu (u64 (rx_frames s + rx_frames p)) (u64 (dropped s + dropped p))
    (u64 (bytes s + bytes p)).
Fixpoint percpu_sum_from (cpu n : nat) (out : safety_copro_pcpu) :
    prog (world K) safety_copro_pcpu :=
  match n with
  | O => mret out
  | S n =>
      p ← percpu_read cpu;
      percpu_sum_from (S cpu) n (pcpu_add out p)
  end.
Definition safety_percpu_sum : prog (world K) safety_copro_pcpu :=
  percpu_sum_from 0 nr_cpus pcpu_zero.

End Updates.
