(* ===== verification/Kfifo.v ===== *)
(** * RX/TX queues and synthesized frames:
    [linux/drivers/safety_copro/safety_copro_kfifo.c]

    Every critical section of the C code is one atomic action; per-CPU
    statistics, tracepoints and wake-ups outside the lock are actions of their
    own. *)

From S2P Require Import Prelude Protocol KernelApi Device.

Section Kfifo.
Context {K : KernelApi safety_fifo_slot}.

(** The critical section of [safety_fifo_push_frame]: the queue length after
    the insertion, or [None] when the queue is full. *)
Definition push_rx_locked (slot : safety_fifo_slot) (seq : Z)
    (timeline_event : safety_timeline_event) : st (world K) (option Z) :=
  q ← dev_get rx_fifo;
  if kfifo_is_full q then mret None
  else
    let '(n, q) := kfifo_in q slot in
    _ ← dev_set (fun d => d <| rx_fifo := q |>);
    if negb (n =? 1) then mret None
    else
      let qlen := kfifo_len q in
      _ ← dev_set (fun d => if qlen >? fifo_high_watermark d
                           then d <| fifo_high_watermark := qlen |> else d);
      _ ← safety_timeline_record_locked timeline_event seq;
      mret (Some qlen).

Definition safety_fifo_push_frame (frame : list Z) (len seq ty : Z)
    (timeline_event : safety_timeline_event) : prog (world K) Z :=
  if (len =? 0) || (len >? SAFETY_MAX_FRAME_SIZE) then mret (- EMSGSIZE)
  else
    let slot := mkSlot len (take (Z.to_nat len) frame) in
    r ← atomic (push_rx_locked slot seq timeline_event);
    match r with
    | None => mret (- ENOSPC)
    | Some qlen =>
        _ ← safety_percpu_inc_rx len;
        _ ← atomic (trace (safety_frame_received seq ty qlen));
        _ ← atomic (wake_up wake_up_rx_wq);
        mret 0
    end.

(** The popped slot when the queue was not empty; the C function returns
    [slot->len], or 0. *)
Definition safety_fifo_pop_frame (slot : safety_fifo_slot) :
    prog (world K) (Z * safety_fifo_slot) :=
  atomic (
    q ← dev_get rx_fifo;
    if negb (kfifo_is_empty q) then
      let '(n, slot, q) := kfifo_out q slot in
      _ ← dev_set (fun d => d <| rx_fifo := q |>);
      mret (if n =? 1 then slot_len slot else 0, slot)
    else mret (0, slot)).

Definition safety_fifo_len : prog (world K) Z :=
  atomic (q ← dev_get rx_fifo; mret (kfifo_len q)).

Definition safety_tx_fifo_len : prog (world K) Z :=
  atomic (q ← dev_get tx_fifo; mret (kfifo_len q)).

(** The critical section of [safety_fifo_push_tx_frame]: whether the frame was
    queued. *)
Definition push_tx_locked (slot : safety_fifo_slot) (seq : Z) : st (world K) bool :=
  q ← dev_get tx_fifo;
  if kfifo_is_full q then mret false
  else
    let '(n, q) := kfifo_in q slot in
    _ ← dev_set (fun d => d <| tx_fifo := q |>);
    if negb (n =? 1) then mret false
    else
      _ ← safety_timeline_record_locked SAFETY_TL_RECOVERY seq;
      mret true.

Definition safety_fifo_push_tx_frame (frame : list Z) (len seq ty : Z) :
    prog (world K) Z :=
  if (len =? 0) || (len >? SAFETY_MAX_FRAME_SIZE) then mret (- EMSGSIZE)
  else
    let slot := mkSlot len (take (Z.to_nat len) frame) in
    ok ← atomic (push_tx_locked slot seq);
    if negb ok then mret (- ENOSPC)
    else
      qlen ← safety_tx_fifo_len;
      _ ← atomic (trace (safety_frame_received seq ty qlen));
      _ ← atomic (wake_up wake_up_tx_wq);
      mret 0.

Definition safety_fifo_pop_tx_frame (slot : safety_fifo_slot) :
    prog (world K) (Z * safety_fifo_slot) :=
  atomic (
    q ← dev_get tx_fifo;
    if negb (kfifo_is_empty q) then
      let '(n, slot, q) := kfifo_out q slot in
      _ ← dev_set (fun d => d <| tx_fifo := q |>);
      mret (if n =? 1 then slot_len slot else 0, slot)
    else mret (0, slot)).

(** The stack buffer of [safety_synth_and_push]; only the bytes that
    [safety_frame_pack] writes are read back. *)
Definition frame_buffer : list Z := replicate (Z.to_nat SAFETY_MAX_FRAME_SIZE) 0.

(** [seq = dev->synth_seq++] under the lock. *)
Definition next_synth_seq : st (world K) Z :=
  seq ← dev_get synth_seq;
  _ ← dev_set (fun d => d <| synth_seq := u16 (seq + 1) |>);
  mret seq.

Definition safety_synth_and_push (ty : Z) (payload : list Z) (payload_len : Z)
    (timeline_event : safety_timeline_event) : prog (world K) Z :=
  if payload_len >? SAFETY_MAX_PAYLOAD then mret (- EMSGSIZE)
  else
    seq ← atomic next_synth_seq;
    now ← atomic safety_now_ms;
    let hdr := safety_frame_init ty seq payload_len now in
    let '(total, _, frame) := safety_frame_pack frame_buffer hdr (Some payload) in
    if total =? 0 then mret (- EMSGSIZE)
    else
      rc ← safety_fifo_push_frame frame (u16 total) seq ty timeline_event;
      if rc =? - ENOSPC then
        _ ← atomic (dev_set (fun d =>
              d <| dropped_frame_count ::= fun c => u32 (c + 1) |>));
        _ ← safety_percpu_inc_dropped;
        _ ← atomic (trace (safety_frame_dropped seq ty));
        mret rc
      else mret rc.

Definition safety_synth_fault_event (ft sev detail : Z) : prog (world K) Z :=
  now ← atomic safety_now_ms;
  let pl := mkFaultEvent ft sev detail now in
  safety_synth_and_push SAFETY_FRAME_FAULT_EVENT (fault_event_bytes pl) 8
    SAFETY_TL_FAULT_INJECT.

Definition safety_synth_recovery_report (rec st : Z) : prog (world K) Z :=
  now ← atomic safety_now_ms;
  let pl := mkRecoveryReport rec st 0 now in
  safety_synth_and_push SAFETY_FRAME_RECOVERY_REPORT (recovery_report_bytes pl) 8
    SAFETY_TL_RECOVERY.

End Kfifo.
