(* ===== verification/Watchdog.v ===== *)
(** * Heartbeat watchdog and recovery work:
    [linux/drivers/safety_copro/safety_copro_timer.c] and
    [safety_copro_workqueue.c] *)

From S2P Require Import Prelude Protocol KernelApi Device Kfifo.

Section Watchdog.
Context {K : KernelApi safety_fifo_slot}.

(** ** [safety_copro_workqueue.c] *)

Definition safety_recovery_init (d : safety_copro_dev K) : safety_copro_dev K :=
  d <| recovery_work := INIT_WORK |>.

Definition safety_recovery_destroy (d : safety_copro_dev K) : safety_copro_dev K :=
  d <| recovery_work ::= cancel_work_sync |>.

Definition safety_recovery_schedule : prog (world K) unit :=
  atomic (dev_set (fun d => d <| recovery_work ::= fun w => (schedule_work w).2 |>)).

Definition recovery_locked : st (world K) Z :=
  _ ← dev_set (fun d => d <| retry_count ::= fun c => u32 (c + 1) |>);
  count ← dev_get retry_count;
  _ ← dev_set (fun d => d <| state := SAFETY_LINK_RECOVERING |>);
  _ ← safety_timeline_record_locked SAFETY_TL_RECOVERY 0;
  mret count.

(** The kernel takes the item off the queue, then calls the handler. *)
Definition recovery_work_fn : prog (world K) unit :=
  _ ← atomic (dev_set (fun d => d <| recovery_work ::= work_begin |>));
  count ← atomic recovery_locked;
  _ ← atomic (trace (safety_recovery_queued count));
  _ ← safety_synth_recovery_report 1 (link_state_value SAFETY_LINK_RECOVERING);
  mret tt.

(** ** [safety_copro_timer.c] *)

Definition safety_timer_init (d : safety_copro_dev K) : safety_copro_dev K :=
  d <| hb_timer := hrtimer_init |>.

Definition safety_timer_destroy (d : safety_copro_dev K) : safety_copro_dev K :=
  d <| hb_timer ::= hrtimer_cancel |>.

Definition safety_timer_rearm : prog (world K) unit :=
  ms ← atomic (dev_get hb_timeout_ms);
  atomic (dev_set (fun d => d <| hb_timer ::= fun t => hrtimer_start t (ms_to_ktime ms) |>)).

(** The threshold and the count of timeouts, for the tracepoint. *)
Definition hb_timeout_locked : st (world K) (Z * Z) :=
  _ ← dev_set (fun d => d <| timeout_count ::= fun c => u32 (c + 1) |>);
  count ← dev_get timeout_count;
  timeout_ms ← dev_get hb_timeout_ms;
  _ ← dev_set (fun d => d <| state := SAFETY_LINK_HB_TIMEOUT |>
                          <| last_fault_type := SAFETY_FAULT_TASK_HANG |>
                          <| last_fault_detail := 1 |>);
  t ← get_ktime;
  _ ← dev_set (fun d => d <| last_fault_ts_ns := t |>
                          <| fault_count ::= fun c => u32 (c + 1) |>);
  _ ← safety_timeline_record_locked SAFETY_TL_TIMEOUT 0;
  mret (timeout_ms, count).

(** The callback returns [HRTIMER_NORESTART]: the timer stays idle until the
    next [hrtimer_start]. *)
Definition hb_timer_fn : prog (world K) unit :=
  _ ← atomic (dev_set (fun d => d <| hb_timer ::= hrtimer_expired |>));
  r ← atomic hb_timeout_locked;
  _ ← atomic (trace (safety_timeout_detected r.1 r.2));
  _ ← safety_synth_fault_event SAFETY_FAULT_TASK_HANG 1 1;
  safety_recovery_schedule.

End Watchdog.
