(* ===== verification/Chrdev.v ===== *)
(** * The character device: [linux/drivers/safety_copro/safety_copro_chrdev.c]

    User memory is an argument: [None] where [copy_from_user] faults, and a flag
    for whether [copy_to_user] succeeds.  Operations that copy out return the
    bytes they wrote to user memory beside their return value. *)

From S2P Require Import Prelude Protocol KernelApi Device Kfifo Watchdog.

Section Chrdev.
Context {K : KernelApi safety_fifo_slot}.

(** ** Error accounting *)

Definition record_proto_error (vres : safety_validate_result) : prog (world K) unit :=
  atomic (dev_set (fun d =>
    let d := d <| protocol_error_count ::= fun c => u32 (c + 1) |>
               <| last_proto_err := vres |> in
    match vres with
    | SAFETY_VALIDATE_BAD_MAGIC => d <| proto_err_magic ::= fun c => u32 (c + 1) |>
    | SAFETY_VALIDATE_BAD_VERSION => d <| proto_err_version ::= fun c => u32 (c + 1) |>
    | SAFETY_VALIDATE_BAD_LENGTH => d <| proto_err_length ::= fun c => u32 (c + 1) |>
    | SAFETY_VALIDATE_BAD_CHECKSUM => d <| proto_err_checksum ::= fun c => u32 (c + 1) |>
    | SAFETY_VALIDATE_OK => d
    end)).

Definition record_drop (seq ty : Z) : prog (world K) unit :=
  _ ← atomic (dev_set (fun d => d <| dropped_frame_count ::= fun c => u32 (c + 1) |>));
  _ ← safety_percpu_inc_dropped;
  atomic (trace (safety_frame_dropped seq ty)).

(** ** RX path from linkd *)

(** The tail of [queue_rx_from_linkd], once the frame has been accepted. *)
Definition queue_rx_accepted (frame : list Z) (count : Z) (vres : safety_validate_result)
    (seq ty : Z) : prog (world K) Z :=
  rc ← safety_fifo_push_frame frame (u16 count) seq ty
         (if ty =? SAFETY_FRAME_HEARTBEAT
          then SAFETY_TL_HEARTBEAT else SAFETY_TL_FRAME_RX);
  if rc =? - ENOSPC then
    _ ← record_drop seq ty; mret (- ENOSPC)
  else if rc <? 0 then mret rc
  else if bool_decide (vres = SAFETY_VALIDATE_OK) && (ty =? SAFETY_FRAME_HEARTBEAT) then
    _ ← atomic (dev_set (fun d =>
          d <| heartbeat_count ::= fun c => u32 (c + 1) |>
            <| state := SAFETY_LINK_HB_OK |>));
    _ ← safety_timer_rearm;
    mret 0
  else mret 0.

Definition queue_rx_from_linkd (frame : list Z) (count : Z) : prog (world K) Z :=
  if count <? SAFETY_HEADER_SIZE then mret (- EINVAL)
  else if count >? SAFETY_MAX_FRAME_SIZE then mret (- EMSGSIZE)
  else
    let hdr := header_of_bytes frame in
    let seq := sequence_id hdr in
    let ty := type hdr in
    if negb (magic hdr =? SAFETY_PROTO_MAGIC) then
      _ ← record_proto_error SAFETY_VALIDATE_BAD_MAGIC; mret (- EINVAL)
    else if negb (version hdr =? SAFETY_PROTO_VERSION) then
      _ ← record_proto_error SAFETY_VALIDATE_BAD_VERSION; mret (- EINVAL)
    else if payload_length hdr >? SAFETY_MAX_PAYLOAD then
      _ ← record_proto_error SAFETY_VALIDATE_BAD_LENGTH; mret (- EINVAL)
    else
      let expected := SAFETY_HEADER_SIZE + payload_length hdr in
      if negb (count =? expected) then
        _ ← record_proto_error SAFETY_VALIDATE_BAD_LENGTH; mret (- EINVAL)
      else
        let vres := safety_frame_validate frame count in
        if negb (bool_decide (vres = SAFETY_VALIDATE_OK)) &&
           negb (bool_decide (vres = SAFETY_VALIDATE_BAD_CHECKSUM)) then
          _ ← record_proto_error vres; mret (- EINVAL)
        else
          _ ← (if bool_decide (vres = SAFETY_VALIDATE_BAD_CHECKSUM)
               then record_proto_error vres else mret tt);
          queue_rx_accepted frame count vres seq ty.

(** ** write, read, poll *)

Definition safety_write (ubuf : option (list Z)) (count : Z) : prog (world K) Z :=
  if count <? SAFETY_HEADER_SIZE then mret (- EINVAL)
  else if count >? SAFETY_MAX_FRAME_SIZE then mret (- EMSGSIZE)
  else
    match ubuf with
    | None => mret (- EFAULT)
    | Some ubuf =>
        let frame := take (Z.to_nat count) ubuf in
        let vres := safety_frame_validate frame count in
        if negb (bool_decide (vres = SAFETY_VALIDATE_OK)) then
          _ ← record_proto_error vres; mret (- EINVAL)
        else
          let hdr := header_of_bytes frame in
          let seq := sequence_id hdr in
          let ty := type hdr in
          rc ← safety_fifo_push_tx_frame frame (u16 count) seq ty;
          if rc =? - ENOSPC then
            _ ← record_drop seq ty; mret (- EAGAIN)
          else if rc <? 0 then mret rc
          else mret count
    end.

(** The stack slot of [read] and [ioc_pop_tx_frame]. *)
Definition slot_buffer : safety_fifo_slot := mkSlot 0 [].

(** [waits] are the values successive [wait_event_interruptible] calls return
    (zero: woken with data queued, non-zero: a signal).  [None]: the reader is
    still asleep when they are used up. *)
Fixpoint safety_read_wait (nonblock : bool) (waits : list Z) :
    prog (world K) (option (Z + Z * safety_fifo_slot)) :=
  r ← safety_fifo_pop_frame slot_buffer;
  if negb (r.1 =? 0) then mret (Some (inr r))
  else if nonblock then mret (Some (inl (- EAGAIN)))
  else
    match waits with
    | [] => mret None
    | w :: waits =>
        if negb (w =? 0) then mret (Some (inl (- ERESTARTSYS)))
        else safety_read_wait nonblock waits
    end.

(** Return value and the bytes copied to the user buffer of [count] bytes. *)
Definition safety_read (nonblock : bool) (waits : list Z) (count : Z) (copy_ok : bool) :
    prog (world K) (option (Z * list Z)) :=
  r ← safety_read_wait nonblock waits;
  match r with
  | None => mret None
  | Some (inl e) => mret (Some (e, []))
  | Some (inr (len, slot)) =>
      if count <? len then mret (Some (- EINVAL, []))
      else if negb copy_ok then mret (Some (- EFAULT, []))
      else mret (Some (len, take (Z.to_nat len) (slot_data slot)))
  end.

Definition safety_poll : prog (world K) Z :=
  n ← safety_fifo_len;
  mask ← (if n >? 0 then
            let mask := Z.lor 0 (Z.lor EPOLLIN EPOLLRDNORM) in
            _ ← atomic (trace (safety_poll_wakeup mask)); mret mask
          else mret 0);
  n ← safety_tx_fifo_len;
  mret (if n >? 0 then Z.lor mask EPOLLPRI else mask).

(** ** ioctl handlers *)

(** The ten [__u32] fields of [struct safety_copro_stats]. *)
Definition stats_bytes (st hb fc drop to retry perr rxt rxq txq : Z) : list Z :=
  le_bytes 4 st ++ le_bytes 4 hb ++ le_bytes 4 fc ++ le_bytes 4 drop ++
  le_bytes 4 to ++ le_bytes 4 retry ++ le_bytes 4 perr ++ le_bytes 4 rxt ++
  le_bytes 4 rxq ++ le_bytes 4 txq.

Definition ioc_get_stats (copy_ok : bool) : prog (world K) (Z * list Z) :=
  d ← atomic (dev_get id);
  sum ← safety_percpu_sum;
  rxq ← safety_fifo_len;
  txq ← safety_tx_fifo_len;
  if negb copy_ok then mret (- EFAULT, [])
  else mret (0, stats_bytes (link_state_value (state d)) (heartbeat_count d)
                  (fault_count d) (dropped_frame_count d) (timeout_count d)
                  (retry_count d) (protocol_error_count d) (u32 (rx_frames sum))
                  rxq txq).

Definition ioc_reset_stats : prog (world K) Z :=
  _ ← atomic (dev_set (fun d =>
    d <| heartbeat_count := 0 |> <| fault_count := 0 |>
      <| dropped_frame_count := 0 |> <| timeout_count := 0 |>
      <| retry_count := 0 |> <| protocol_error_count := 0 |>
      <| fifo_high_watermark := 0 |>
      <| proto_err_magic := 0 |> <| proto_err_version := 0 |>
      <| proto_err_length := 0 |> <| proto_err_checksum := 0 |>
      <| last_proto_err := SAFETY_VALIDATE_OK |>
      <| last_fault_type := SAFETY_FAULT_NONE |> <| last_fault_detail := 0 |>
      <| last_fault_ts_ns := 0 |>
      <| timeline_head := 0 |> <| timeline_filled := 0 |>));
  _ ← safety_percpu_reset;
  mret 0.

Definition ioc_set_hb_timeout (arg : option (list Z)) : prog (world K) Z :=
  match arg with
  | None => mret (- EFAULT)
  | Some mem =>
      let ms := field 0 4 mem in
      if ms =? 0 then mret (- EINVAL)
      else
        _ ← atomic (dev_set (fun d => d <| hb_timeout_ms := ms |>));
        _ ← safety_timer_rearm;
        mret 0
  end.

Definition ioc_get_state (copy_ok : bool) : prog (world K) (Z * list Z) :=
  s ← atomic (dev_get state);
  if negb copy_ok then mret (- EFAULT, [])
  else mret (0, le_bytes 4 (link_state_value s)).

Definition ioc_inject_fault (arg : option (list Z)) : prog (world K) Z :=
  match arg with
  | None => mret (- EFAULT)
  | Some mem =>
      let ft := field 0 4 mem in
      _ ← atomic (
        _ ← dev_set (fun d => d <| fault_count ::= fun c => u32 (c + 1) |>
                                <| last_fault_type := u8 ft |>
                                <| last_fault_detail := 0 |>);
        t ← get_ktime;
        dev_set (fun d => d <| last_fault_ts_ns := t |>));
      _ ← safety_synth_fault_event (u8 ft) 2 0;
      mret 0
  end.

(** [struct safety_copro_frame_io]: [len] at offset 0, [data] at offset 4. *)
Definition ioc_push_rx_frame (arg : option (list Z)) : prog (world K) Z :=
  match arg with
  | None => mret (- EFAULT)
  | Some mem =>
      let io_len := field 0 4 mem in
      let io_data := slice 4 (Z.to_nat SAFETY_MAX_FRAME_SIZE) mem in
      if io_len >? SAFETY_MAX_FRAME_SIZE then mret (- EMSGSIZE)
      else queue_rx_from_linkd io_data io_len
  end.

Definition ioc_pop_tx_frame (copy_ok : bool) : prog (world K) (Z * list Z) :=
  r ← safety_fifo_pop_tx_frame slot_buffer;
  let '(len, slot) := r in
  if len =? 0 then mret (- EAGAIN, [])
  else
    let data := overwrite 0 (take (Z.to_nat len) (slot_data slot))
                  (replicate (Z.to_nat SAFETY_MAX_FRAME_SIZE) 0) in
    if negb copy_ok then mret (- EFAULT, [])
    else mret (0, le_bytes 4 len ++ data).

(** ** ioctl dispatch *)

Definition SAFETY_IOC_MAGIC : Z := 83.  (* 'S' *)
Definition SAFETY_IOC_GET_STATS : Z := _IOC 2 SAFETY_IOC_MAGIC 0x01 40.
Definition SAFETY_IOC_RESET_STATS : Z := _IOC 0 SAFETY_IOC_MAGIC 0x02 0.
Definition SAFETY_IOC_SET_HB_TIMEOUT_MS : Z := _IOC 1 SAFETY_IOC_MAGIC 0x03 4.
Definition SAFETY_IOC_GET_STATE : Z := _IOC 2 SAFETY_IOC_MAGIC 0x04 4.
Definition SAFETY_IOC_FORCE_RECOVERY : Z := _IOC 0 SAFETY_IOC_MAGIC 0x05 0.
Definition SAFETY_IOC_INJECT_FAULT : Z := _IOC 1 SAFETY_IOC_MAGIC 0x06 4.
Definition SAFETY_IOC_PUSH_RX_FRAME : Z := _IOC 1 SAFETY_IOC_MAGIC 0x07 276.
Definition SAFETY_IOC_POP_TX_FRAME : Z := _IOC 2 SAFETY_IOC_MAGIC 0x08 276.
Definition SAFETY_IOC_MAXNR : Z := 0x08.

Definition no_out (p : prog (world K) Z) : prog (world K) (Z * list Z) :=
  r ← p; mret (r, []).

Definition safety_ioctl (cmd : Z) (arg : option (list Z)) (copy_ok : bool) :
    prog (world K) (Z * list Z) :=
  if negb (_IOC_TYPE cmd =? SAFETY_IOC_MAGIC) then mret (- ENOTTY, [])
  else if _IOC_NR cmd >? SAFETY_IOC_MAXNR then mret (- ENOTTY, [])
  else if cmd =? SAFETY_IOC_GET_STATS then ioc_get_stats copy_ok
  else if cmd =? SAFETY_IOC_RESET_STATS then no_out ioc_reset_stats
  else if cmd =? SAFETY_IOC_SET_HB_TIMEOUT_MS then no_out (ioc_set_hb_timeout arg)
  else if cmd =? SAFETY_IOC_GET_STATE then ioc_get_state copy_ok
  else if cmd =? SAFETY_IOC_FORCE_RECOVERY then
    _ ← safety_recovery_schedule; mret (0, [])
  else if cmd =? SAFETY_IOC_INJECT_FAULT then no_out (ioc_inject_fault arg)
  else if cmd =? SAFETY_IOC_PUSH_RX_FRAME then no_out (ioc_push_rx_frame arg)
  else if cmd =? SAFETY_IOC_POP_TX_FRAME then ioc_pop_tx_frame copy_ok
  else mret (- ENOTTY, []).

End Chrdev.
