(* ===== verification/DriverMain.v ===== *)
(** * Driver start-up and removal:
    [linux/drivers/safety_copro/safety_copro_main.c]

    [init] and [exit] run before and after every other entry point, so they are
    plain functions.  What each acquires and releases is tracked in a list of
    held resources, and the outcome of every kernel call that may fail is an
    argument. *)

From S2P Require Import Prelude Protocol KernelApi Device Kfifo Watchdog Chrdev.

Definition safety_link_state_name (s : safety_link_state) : string :=
  match s with
  | SAFETY_LINK_BOOTING => "BOOTING"
  | SAFETY_LINK_HB_OK => "HB_OK"
  | SAFETY_LINK_HB_TIMEOUT => "HB_TIMEOUT"
  | SAFETY_LINK_RECOVERING => "RECOVERING"
  end.

Inductive resource := RDev | RRxFifo | RTxFifo | RPercpu | RMisc | RDebugfs.

#[global] Instance resource_eq_dec : EqDecision resource.
Proof. solve_decision. Defined.

(** [kfree], [kfifo_free], [free_percpu], [misc_deregister], ... *)
Definition release (r : resource) (held : list resource) : list resource :=
  filter (fun x => x <> r) held.

Section Main.
Context {K : KernelApi safety_fifo_slot}.

(** Outcomes of the kernel calls of [safety_copro_init]. *)
Record init_env := mkInitEnv {
  kzalloc_ok : bool;
  rx_alloc : Z + kfifo;      (* error code, or the new fifo *)
  tx_alloc : Z + kfifo;
  alloc_percpu_ok : bool;
  misc_register_ret : Z;
  debugfs_create_ok : bool;
}.

(** Module state: the return value, [g_safety_dev] and what is held. *)
Record module_state := mkModule {
  ret : Z;
  g_safety_dev : option (safety_copro_dev K);
  held : list resource;
}.

(** The unwind labels, each falling through to the next. *)
Definition err_free_dev (held : list resource) : list resource := release RDev held.
Definition err_free_rx_fifo (held : list resource) : list resource :=
  err_free_dev (release RRxFifo held).
Definition err_free_tx_fifo (held : list resource) : list resource :=
  err_free_rx_fifo (release RTxFifo held).
Definition err_destroy_wq (held : list resource) : list resource :=
  err_free_tx_fifo (release RPercpu held).

(** The device as [kzalloc] and the assignments of [safety_copro_init] leave it. *)
Definition init_dev (hb_timeout depth : Z) (rx tx : kfifo)
    (percpu : list safety_copro_pcpu) : safety_copro_dev K :=
  {| rx_fifo := rx; tx_fifo := tx; fifo_depth := depth; fifo_high_watermark := 0;
     state := SAFETY_LINK_BOOTING; heartbeat_count := 0; fault_count := 0;
     dropped_frame_count := 0; timeout_count := 0; retry_count := 0;
     protocol_error_count := 0; synth_seq := 0; hb_timer := hrtimer_init;
     hb_timeout_ms := hb_timeout; recovery_work := INIT_WORK;
     last_fault_type := 0; last_fault_detail := 0; last_fault_ts_ns := 0;
     last_proto_err := SAFETY_VALIDATE_OK; proto_err_magic := 0;
     proto_err_version := 0; proto_err_length := 0; proto_err_checksum := 0;
     timeline := replicate (Z.to_nat SAFETY_TIMELINE_DEPTH) (mkEntry 0 SAFETY_TL_NONE 0);
     timeline_head := 0; timeline_filled := 0; pcpu := percpu; debugfs_dir := false |}.

Definition safety_debugfs_init (ok : bool) (m : module_state) : module_state :=
  if ok then mkModule (ret m)
    ((fun d : safety_copro_dev K => d <| debugfs_dir := true |>) <$> g_safety_dev m)
    (held m ++ [RDebugfs])
  else mkModule (ret m)
    ((fun d : safety_copro_dev K => d <| debugfs_dir := false |>) <$> g_safety_dev m)
    (held m).

(** The depth the module parameter asks for, rounded up to a power of two. *)
Definition init_depth (fifo_depth_param : Z) : Z :=
  roundup_pow_of_two
    (if fifo_depth_param =? 0 then SAFETY_DEFAULT_FIFO_DEPTH else fifo_depth_param).

Definition safety_copro_init (hb_timeout_param fifo_depth_param : Z) (env : init_env) :
    module_state :=
  if negb (kzalloc_ok env) then mkModule (- ENOMEM) None []
  else
    let held := [RDev] in
    let hb_timeout := if hb_timeout_param =? 0 then SAFETY_DEFAULT_HB_TIMEOUT_MS
                      else hb_timeout_param in
    let depth := init_depth fifo_depth_param in
    match rx_alloc env with
    | inl r => mkModule r None (err_free_dev held)
    | inr rx =>
        let held := held ++ [RRxFifo] in
        match tx_alloc env with
        | inl r => mkModule r None (err_free_rx_fifo held)
        | inr tx =>
            let held := held ++ [RTxFifo] in
            let '(r, percpu) := safety_percpu_init (alloc_percpu_ok env) in
            if negb (r =? 0) then mkModule r None (err_free_tx_fifo held)
            else
              let held := held ++ [RPercpu] in
              let dev := init_dev hb_timeout depth rx tx percpu in
              let dev := safety_recovery_init (safety_timer_init dev) in
              let r := misc_register_ret env in
              if negb (r =? 0) then mkModule r None (err_destroy_wq held)
              else
                let held := held ++ [RMisc] in
                safety_debugfs_init (debugfs_create_ok env) (mkModule 0 (Some dev) held)
        end
    end.

Definition safety_debugfs_destroy (d : safety_copro_dev K) (held : list resource) :
    safety_copro_dev K * list resource :=
  if debugfs_dir d then (d <| debugfs_dir := false |>, release RDebugfs held)
  else (d, held).

Definition safety_copro_exit (m : module_state) : module_state :=
  match g_safety_dev m with
  | None => m
  | Some dev =>
      let '(dev, held) := safety_debugfs_destroy dev (held m) in
      let held := release RMisc held in
      let dev := safety_timer_destroy dev in
      let dev := safety_recovery_destroy dev in
      let held := release RPercpu held in
      let held := release RTxFifo held in
      let held := release RRxFifo held in
      mkModule (ret m) None (release RDev held)
  end.

End Main.
#[global] Arguments init_env K : clear implicits.
#[global] Arguments module_state K : clear implicits.
