(* ===== verification/DriverInv.v ===== *)
(** * The driver invariant

    What every critical section of the driver preserves, and so what holds in
    every state that any interleaving of readers, writers, ioctls, the watchdog
    callback and the recovery work can reach. *)

From S2P Require Import Prelude Crc32 Protocol KernelApi Device Kfifo Watchdog Chrdev DriverMain.

Section Invariant.
Context {K : KernelApi safety_fifo_slot} {KO : KernelOk K}.

(** ** Well-formed slots *)

Definition framed (data : list Z) : Prop :=
  let h := header_of_bytes data in
  magic h = SAFETY_PROTO_MAGIC /\ version h = SAFETY_PROTO_VERSION /\
  payload_length h <= SAFETY_MAX_PAYLOAD /\
  Z.of_nat (length data) = SAFETY_HEADER_SIZE + payload_length h.

#[global] Instance framed_dec data : Decision (framed data).
Proof. unfold framed. apply _. Defined.

(** An RX slot holds exactly one frame (whose checksum may be wrong). *)
Definition rx_slot_ok (s : safety_fifo_slot) : Prop :=
  bytes_ok (slot_data s) /\ slot_len s = Z.of_nat (length (slot_data s)) /\
  framed (slot_data s).

(** A TX slot starts with a valid frame. *)
Definition tx_slot_ok (s : safety_fifo_slot) : Prop :=
  bytes_ok (slot_data s) /\ slot_len s = Z.of_nat (length (slot_data s)) /\
  slot_len s <= SAFETY_MAX_FRAME_SIZE /\
  safety_frame_validate (slot_data s) (slot_len s) = SAFETY_VALIDATE_OK.

(** ** Well-formed devices *)

(** The ring is full, or it has been filled from index 0 up to the head. *)
Definition timeline_ok (d : safety_copro_dev K) : Prop :=
  Z.of_nat (length (timeline d)) = SAFETY_TIMELINE_DEPTH /\
  0 <= timeline_head d < SAFETY_TIMELINE_DEPTH /\
  0 <= timeline_filled d <= SAFETY_TIMELINE_DEPTH /\
  (timeline_filled d < SAFETY_TIMELINE_DEPTH -> timeline_head d = timeline_filled d).

Definition counters_ok (d : safety_copro_dev K) : Prop :=
  is_u32 (heartbeat_count d) /\ is_u32 (fault_count d) /\
  is_u32 (dropped_frame_count d) /\ is_u32 (timeout_count d) /\
  is_u32 (retry_count d) /\ is_u16 (synth_seq d) /\ is_u8 (last_fault_type d).

(** The total is the sum of the four classes. *)
Definition proto_errors_ok (d : safety_copro_dev K) : Prop :=
  protocol_error_count d =
    u32 (proto_err_magic d + proto_err_version d + proto_err_length d +
         proto_err_checksum d).

Record dev_wf (depth : Z) (d : safety_copro_dev K) : Prop := {
  wf_depth : fifo_depth d = depth;
  wf_rx_size : kfifo_size (rx_fifo d) = depth;
  wf_tx_size : kfifo_size (tx_fifo d) = depth;
  wf_rx : Forall rx_slot_ok (kfifo_view (rx_fifo d));
  wf_tx : Forall tx_slot_ok (kfifo_view (tx_fifo d));
  wf_hwm : 0 <= fifo_high_watermark d <= depth;
  wf_timeline : timeline_ok d;
  wf_counters : counters_ok d;
  wf_proto : proto_errors_ok d;
  wf_timeout : 0 < hb_timeout_ms d < 2 ^ 32;
  wf_pcpu : length (pcpu d) = nr_cpus;
}.

Definition wf (depth : Z) (w : world K) : Prop := dev_wf depth (w_dev w).

Context (depth : Z).

Lemma safe_trace e : stsafe (wf depth) (fun _ => True) (trace e).
Proof. intros w H. split; [exact H|done]. Qed.

Lemma safe_get {T} (f : safety_copro_dev K -> T) (Q : T -> Prop) :
  (forall d, dev_wf depth d -> Q (f d)) -> stsafe (wf depth) Q (dev_get f).
Proof. intros HQ w H. split; [exact H|by apply HQ]. Qed.

Lemma safe_set f :
  (forall d, dev_wf depth d -> dev_wf depth (f d)) ->
  stsafe (wf depth) (fun _ => True) (dev_set f).
Proof. intros Hf w H. split; [by apply Hf|done]. Qed.

Lemma safe_ktime : stsafe (wf depth) (fun t => 0 <= t < 2 ^ 63) get_ktime.
Proof. intros w H. split; [exact H|]. apply ktime_range. Qed.

Lemma safe_now_ms : stsafe (wf depth) is_u32 safety_now_ms.
Proof.
  eapply stsafe_bind; [apply safe_ktime|]. intros t _.
  apply stsafe_ret. auto with safety.
Qed.

Lemma timeline_step h :
  0 <= h < SAFETY_TIMELINE_DEPTH ->
  (h + 1) mod SAFETY_TIMELINE_DEPTH = if h =? 63 then 0 else h + 1.
Proof.
  unfold SAFETY_TIMELINE_DEPTH. intros Hh. case_test.
  - assert (h = 63) as -> by lia. done.
  - apply Z.mod_small. lia.
Qed.

Lemma safe_timeline_record ev seq :
  stsafe (wf depth) (fun _ => True) (safety_timeline_record_locked ev seq).
Proof.
  eapply stsafe_bind; [apply safe_ktime|]. intros t _. apply safe_set.
  intros d []. pose proof wf_timeline0 as (Hl & Hh & Hf & Hlt).
  assert (timeline_filled d < SAFETY_TIMELINE_DEPTH ->
          u32 (timeline_filled d + 1) = timeline_filled d + 1) as Hu.
  { unfold SAFETY_TIMELINE_DEPTH in *. intros. apply u32_small. simpl. lia. }
  pose proof (timeline_step _ Hh) as Hstep. unfold SAFETY_TIMELINE_DEPTH in *.
  cbn. destruct (timeline_filled d <? 64) eqn:E; constructor; try done;
    unfold timeline_ok, SAFETY_TIMELINE_DEPTH; cbn; rewrite length_insert;
    rewrite Hstep, ?Hu by lia; case_test; lia.
Qed.

Lemma safe_this_cpu f : stsafe (wf depth) (fun _ => True) (this_cpu_op f).
Proof.
  intros w []. split; [|done]. constructor; try done. cbn. by rewrite length_alter.
Qed.

Lemma safe_inc_rx n : safe (wf depth) (fun _ => True) (safety_percpu_inc_rx n).
Proof. apply safe_seq; [|intros _]; apply safe_st, safe_this_cpu. Qed.

Lemma safe_inc_dropped : safe (wf depth) (fun _ => True) safety_percpu_inc_dropped.
Proof. apply safe_st, safe_this_cpu. Qed.

Lemma safe_percpu_clear c : safe (wf depth) (fun _ => True) (percpu_clear c).
Proof.
  apply safe_seq; [|intros _; apply safe_seq; [|intros _]];
    apply safe_st, safe_set; intros d []; constructor; try done; cbn; by rewrite length_alter.
Qed.

Lemma safe_percpu_reset : safe (wf depth) (fun _ => True) safety_percpu_reset.
Proof.
  unfold safety_percpu_reset. generalize 0%nat. induction nr_cpus as [|n IH]; intros c; [done|].
  apply safe_seq; [|intros _; apply IH]. apply safe_percpu_clear.
Qed.

Lemma safe_percpu_read c : safe (wf depth) (fun _ => True) (percpu_read c).
Proof.
  apply safe_seq; [by apply safe_st, safe_get|intros rx]. apply safe_seq; [by apply safe_st, safe_get|intros dr].
  apply safe_seq; [by apply safe_st, safe_get|done].
Qed.

Lemma safe_percpu_sum : safe (wf depth) (fun _ => True) safety_percpu_sum.
Proof.
  unfold safety_percpu_sum. generalize 0%nat, pcpu_zero.
  induction nr_cpus as [|n IH]; intros c out; [done|].
  apply safe_seq; [|intros p; apply IH]. apply safe_percpu_read.
Qed.

(** ** Queue operations *)

(** The facts a queue read from the device satisfies. *)
Definition queue_ok (P : safety_fifo_slot -> Prop) (q : kfifo) : Prop :=
  kfifo_size q = depth /\ Forall P (kfifo_view q).

Lemma queue_in_ok P q s :
  queue_ok P q -> P s -> kfifo_is_full q = false -> queue_ok P (kfifo_in q s).2.
Proof.
  intros [Hs Hq] Hp Hf. destruct (kfifo_in_room q s Hf) as [_ Hv]. split.
  - by rewrite kfifo_in_size.
  - rewrite Hv. apply Forall_app. auto.
Qed.

Lemma queue_out_ok P q y :
  queue_ok P q -> kfifo_is_empty q = false ->
  (kfifo_out q y).1.1 = 1 /\ P (kfifo_out q y).1.2 /\ queue_ok P (kfifo_out q y).2.
Proof.
  intros [Hs Hq] He. rewrite kfifo_is_empty_view, kfifo_len_view in He.
  destruct (kfifo_view q) as [|x l] eqn:Hv; [done|].
  destruct (kfifo_out_some q x y l Hv) as [-> Hv']. apply Forall_cons_1 in Hq as [Hx Hl].
  split; [done|]. split; [done|]. split; [by rewrite kfifo_out_size|by rewrite Hv'].
Qed.

Lemma safe_set_rx q :
  queue_ok rx_slot_ok q ->
  stsafe (wf depth) (fun _ => True) (dev_set (fun d => d <| rx_fifo := q |>)).
Proof. intros [Hs Hq]. apply safe_set. intros d []. by constructor. Qed.

Lemma safe_set_tx q :
  queue_ok tx_slot_ok q ->
  stsafe (wf depth) (fun _ => True) (dev_set (fun d => d <| tx_fifo := q |>)).
Proof. intros [Hs Hq]. apply safe_set. intros d []. by constructor. Qed.

Lemma safe_get_rx : stsafe (wf depth) (queue_ok rx_slot_ok) (dev_get rx_fifo).
Proof. apply safe_get. intros d []. done. Qed.
Lemma safe_get_tx : stsafe (wf depth) (queue_ok tx_slot_ok) (dev_get tx_fifo).
Proof. apply safe_get. intros d []. done. Qed.

Lemma safe_push_frame frame len seq ty ev :
  rx_slot_ok (mkSlot len (take (Z.to_nat len) frame)) ->
  safe (wf depth) (fun _ => True) (safety_fifo_push_frame frame len seq ty ev).
Proof.
  intros Hslot. unfold safety_fifo_push_frame. apply safe_if; intros _; [done|].
  apply safe_seq.
  - apply safe_st. unfold push_rx_locked.
    eapply stsafe_bind; [apply safe_get_rx|]. intros q Hq.
    destruct (kfifo_is_full q) eqn:Hf; [by apply stsafe_ret|].
    pose proof (queue_in_ok _ _ _ Hq Hslot Hf) as Hq'.
    destruct (kfifo_in q _) as [n q']. simpl in Hq'.
    apply stsafe_seq; [by apply safe_set_rx|intros _].
    destruct (negb (n =? 1)); [by apply stsafe_ret|].
    apply stsafe_seq; [|intros _; apply stsafe_seq;
                          [apply safe_timeline_record|intros _; by apply stsafe_ret]].
    apply safe_set. intros d []. case_test; constructor; try done. cbn.
    destruct Hq' as [Hs _]. pose proof (kfifo_bounded q'). lia.
  - intros [qlen|]; [|done].
    apply safe_seq; [apply safe_inc_rx|intros _].
    apply safe_seq; [apply safe_st, safe_trace|intros _].
    by apply safe_seq; [apply safe_st, safe_trace|intros _].
Qed.

Lemma safe_push_tx_frame frame len seq ty :
  tx_slot_ok (mkSlot len (take (Z.to_nat len) frame)) ->
  safe (wf depth) (fun _ => True) (safety_fifo_push_tx_frame frame len seq ty).
Proof.
  intros Hslot. unfold safety_fifo_push_tx_frame. apply safe_if; intros _; [done|].
  apply safe_seq.
  - apply safe_st. unfold push_tx_locked.
    eapply stsafe_bind; [apply safe_get_tx|]. intros q Hq.
    destruct (kfifo_is_full q) eqn:Hf; [by apply stsafe_ret|].
    pose proof (queue_in_ok _ _ _ Hq Hslot Hf) as Hq'.
    destruct (kfifo_in q _) as [n q']. simpl in Hq'.
    apply stsafe_seq; [by apply safe_set_tx|intros _].
    destruct (negb (n =? 1)); [by apply stsafe_ret|].
    apply stsafe_seq; [apply safe_timeline_record|intros _; by apply stsafe_ret].
  - intros ok. apply safe_if; intros _; [done|].
    apply safe_seq; [|intros qlen].
    + apply safe_st, stsafe_seq; [|intros q; by apply stsafe_ret].
      by apply safe_get.
    + apply safe_seq; [apply safe_st, safe_trace|intros _].
      by apply safe_seq; [apply safe_st, safe_trace|intros _].
Qed.

(** What a pop returns: nothing, or a well-formed slot with its length. *)
Definition popped (P : safety_fifo_slot -> Prop) (r : Z * safety_fifo_slot) : Prop :=
  r.1 <> 0 -> r.1 = slot_len r.2 /\ P r.2.

Lemma safe_pop_frame s :
  safe (wf depth) (popped rx_slot_ok) (safety_fifo_pop_frame s).
Proof.
  apply safe_st. eapply stsafe_bind; [apply safe_get_rx|]. intros q Hq.
  destruct (kfifo_is_empty q) eqn:He; [by apply stsafe_ret|].
  destruct (queue_out_ok _ _ s Hq He) as (Hn & Hx & Hq').
  destruct (kfifo_out q s) as [[n x] q']. cbn in *. subst n.
  apply stsafe_seq; [by apply safe_set_rx|intros _]. by apply stsafe_ret.
Qed.

Lemma safe_pop_tx_frame s :
  safe (wf depth) (popped tx_slot_ok) (safety_fifo_pop_tx_frame s).
Proof.
  apply safe_st. eapply stsafe_bind; [apply safe_get_tx|]. intros q Hq.
  destruct (kfifo_is_empty q) eqn:He; [by apply stsafe_ret|].
  destruct (queue_out_ok _ _ s Hq He) as (Hn & Hx & Hq').
  destruct (kfifo_out q s) as [[n x] q']. cbn in *. subst n.
  apply stsafe_seq; [by apply safe_set_tx|intros _]. by apply stsafe_ret.
Qed.

Lemma safe_fifo_len : safe (wf depth) (fun _ => True) safety_fifo_len.
Proof.
  apply safe_st, stsafe_seq; [by apply safe_get|intros q; by apply stsafe_ret].
Qed.
Lemma safe_tx_fifo_len : safe (wf depth) (fun _ => True) safety_tx_fifo_len.
Proof.
  apply safe_st, stsafe_seq; [by apply safe_get|intros q; by apply stsafe_ret].
Qed.

(** ** Synthesized frames *)

(** What [safety_frame_pack] leaves in the stack buffer of
    [safety_synth_and_push]. *)
Lemma synth_pack ty seq p ts :
  is_u8 ty -> is_u16 seq -> is_u32 ts -> bytes_ok p -> (length p <= 256)%nat ->
  exists frame,
    safety_frame_pack frame_buffer (safety_frame_init ty seq (Z.of_nat (length p)) ts) (Some p) =
      (16 + Z.of_nat (length p), seal (safety_frame_init ty seq (Z.of_nat (length p)) ts) p, frame) /\
    take (16 + length p) frame =
      frame_bytes (safety_frame_init ty seq (Z.of_nat (length p)) ts) p.
Proof.
  intros Hty Hseq Hts Hp Hlen.
  destruct (frame_pack_spec frame_buffer _ p ltac:(done)
              (frame_init_ok _ _ _ _ Hty Hseq Hts Hp Hlen)) as (out & Hpack & Htake & _).
  exists out. split; [exact Hpack|]. cbn in Htake. rewrite <- Htake. f_equal. lia.
Qed.

Lemma frame_slot_ok h p :
  frame_ok h p ->
  rx_slot_ok (mkSlot (16 + Z.of_nat (length p)) (frame_bytes h p)).
Proof.
  intros (Hh & Hm & Hv & Hl & Hmax & Hp).
  pose proof (frame_header h p [] Hh Hp) as Hhd. rewrite app_nil_r in Hhd.
  split; [by apply bytes_ok_frame|]. cbn [slot_data slot_len].
  rewrite length_frame_bytes. split; [lia|]. unfold framed. rewrite Hhd, length_frame_bytes.
  unfold SAFETY_HEADER_SIZE. cbn. repeat split; try done. lia.
Qed.

Lemma safe_next_synth_seq : stsafe (wf depth) is_u16 next_synth_seq.
Proof.
  unfold next_synth_seq. eapply (stsafe_bind _ is_u16).
  - apply safe_get. intros d []. apply wf_counters0.
  - intros seq Hseq. apply stsafe_seq; [|intros _; by apply stsafe_ret].
    apply safe_set. intros d []. constructor; try done.
    unfold counters_ok in *. cbn -[is_u8 is_u16 is_u32]. pose proof (u16_range (seq + 1)). tauto.
Qed.

Lemma safe_synth_and_push ty p ev :
  is_u8 ty -> bytes_ok p -> (length p <= 256)%nat ->
  safe (wf depth) (fun _ => True) (safety_synth_and_push ty p (Z.of_nat (length p)) ev).
Proof.
  intros Hty Hp Hlen. unfold safety_synth_and_push. apply safe_if; intros _; [done|].
  apply (safe_bind _ is_u16); [apply safe_st, safe_next_synth_seq|].
  intros seq Hseq. apply (safe_bind _ is_u32); [apply safe_st, safe_now_ms|].
  intros ts Hts. destruct (synth_pack ty seq p ts Hty Hseq Hts Hp Hlen) as (frame & -> & Htake).
  apply safe_if; intros _; [done|]. apply safe_seq.
  - rewrite u16_small by (cbn; lia). apply safe_push_frame.
    replace (Z.to_nat (16 + Z.of_nat (length p))) with (16 + length p)%nat by lia.
    rewrite Htake. apply frame_slot_ok. by apply frame_init_ok.
  - intros rc. apply safe_if; intros _; [|done].
    apply safe_seq; [apply safe_st, safe_set|intros _].
    + intros d []. constructor; try done. unfold counters_ok in *. cbn -[is_u8 is_u16 is_u32].
      pose proof (u32_range (dropped_frame_count d + 1)). tauto.
    + apply safe_seq; [apply safe_inc_dropped|intros _].
      by apply safe_seq; [apply safe_st, safe_trace|intros _].
Qed.

Lemma safe_synth_fault_event ft sev detail :
  safe (wf depth) (fun _ => True) (safety_synth_fault_event ft sev detail).
Proof.
  apply safe_seq; [eapply safe_weaken, safe_st, safe_now_ms|intros now].
  apply (safe_synth_and_push _ (fault_event_bytes (mkFaultEvent ft sev detail now)));
    [unfold SAFETY_FRAME_FAULT_EVENT; cbn; lia| |by apply Nat.leb_le].
  unfold fault_event_bytes. rewrite !bytes_ok_app. auto with safety.
Qed.

Lemma safe_synth_recovery_report r s :
  safe (wf depth) (fun _ => True) (safety_synth_recovery_report r s).
Proof.
  apply safe_seq; [eapply safe_weaken, safe_st, safe_now_ms|intros now].
  apply (safe_synth_and_push _ (recovery_report_bytes (mkRecoveryReport r s 0 now)));
    [unfold SAFETY_FRAME_RECOVERY_REPORT; cbn; lia| |by apply Nat.leb_le].
  unfold recovery_report_bytes. rewrite !bytes_ok_app. auto with safety.
Qed.

(** ** Watchdog and recovery *)

(** Counter updates of the handlers. *)
Ltac keep_wf :=
  let d := fresh "d" in
  intros d []; constructor; try done;
  unfold counters_ok in *; cbn -[is_u8 is_u16 is_u32];
  repeat match goal with
  | |- context [u32 ?x] =>
      lazymatch goal with
      | _ : is_u32 (u32 x) |- _ => fail
      | _ => pose proof (u32_range x)
      end
  | |- context [u8 ?x] =>
      lazymatch goal with
      | _ : is_u8 (u8 x) |- _ => fail
      | _ => pose proof (u8_range x)
      end
  end; try tauto.

Lemma safe_recovery_schedule : safe (wf depth) (fun _ => True) safety_recovery_schedule.
Proof. apply safe_st, safe_set. keep_wf. Qed.

Lemma safe_timer_rearm : safe (wf depth) (fun _ => True) safety_timer_rearm.
Proof.
  apply safe_seq; [by apply safe_st, safe_get|intros ms]. apply safe_st, safe_set. keep_wf.
Qed.

Lemma safe_recovery_work : safe (wf depth) (fun _ => True) recovery_work_fn.
Proof.
  unfold recovery_work_fn. apply safe_seq; [apply safe_st, safe_set; keep_wf|intros _].
  apply safe_seq.
  - apply safe_st. unfold recovery_locked. apply stsafe_seq; [apply safe_set; keep_wf|intros _].
    apply stsafe_seq; [by apply safe_get|intros c].
    apply stsafe_seq; [apply safe_set; keep_wf|intros _].
    apply stsafe_seq; [apply safe_timeline_record|intros _; by apply stsafe_ret].
  - intros c. apply safe_seq; [apply safe_st, safe_trace|intros _].
    by apply safe_seq; [apply safe_synth_recovery_report|intros _].
Qed.

Lemma safe_hb_timer : safe (wf depth) (fun _ => True) hb_timer_fn.
Proof.
  unfold hb_timer_fn. apply safe_seq; [apply safe_st, safe_set; keep_wf|intros _].
  apply safe_seq.
  - apply safe_st. unfold hb_timeout_locked. apply stsafe_seq; [apply safe_set; keep_wf|intros _].
    apply stsafe_seq; [by apply safe_get|intros c].
    apply stsafe_seq; [by apply safe_get|intros ms].
    apply stsafe_seq; [apply safe_set; keep_wf|intros _].
    { assert (is_u8 SAFETY_FAULT_TASK_HANG) by (unfold SAFETY_FAULT_TASK_HANG; cbn; lia). tauto. }
    eapply stsafe_bind; [apply safe_ktime|intros t _].
    apply stsafe_seq; [apply safe_set; keep_wf|intros _].
    apply stsafe_seq; [apply safe_timeline_record|intros _; by apply stsafe_ret].
  - intros r. apply safe_seq; [apply safe_st, safe_trace|intros _].
    apply safe_seq; [apply safe_synth_fault_event|intros _]. apply safe_recovery_schedule.
Qed.

(** ** The character device *)

Lemma safe_record_proto_error v :
  v <> SAFETY_VALIDATE_OK ->
  safe (wf depth) (fun _ => True) (record_proto_error v).
Proof.
  intros Hv. apply safe_st, safe_set. intros d [].
  destruct v; [done|..]; (constructor; try done); unfold proto_errors_ok in *; cbn;
    rewrite wf_proto0, u32_add_u32_l;
    match goal with
    | |- _ = u32 ?e =>
        match e with
        | context [u32 (?p + 1)] =>
            replace e with (u32 (p + 1) + (e - u32 (p + 1))) by lia;
            rewrite u32_add_u32_l; f_equal; lia
        end
    end.
Qed.

Lemma safe_record_drop seq ty : safe (wf depth) (fun _ => True) (record_drop seq ty).
Proof.
  apply safe_seq; [apply safe_st, safe_set; keep_wf|intros _].
  apply safe_seq; [apply safe_inc_dropped|intros _]. apply safe_st, safe_trace.
Qed.

Lemma safe_reject v (r : Z) :
  v <> SAFETY_VALIDATE_OK ->
  safe (wf depth) (fun _ => True) (_ ← record_proto_error v; mret r : prog (world K) Z).
Proof. intros Hv. by apply safe_seq; [apply safe_record_proto_error|intros _]. Qed.

(** Buffers handed in by user space hold bytes. *)
Lemma safe_queue_rx frame count :
  bytes_ok frame -> count <= Z.of_nat (length frame) ->
  safe (wf depth) (fun _ => True) (queue_rx_from_linkd frame count).
Proof.
  intros Hb Hlen. unfold queue_rx_from_linkd.
  repeat (apply safe_if; intros ?; [try done; apply safe_reject; try done|]).
  { intros HC. rewrite HC in *. done. }
  apply safe_seq.
  { apply safe_if; intros E; [|done]. apply bool_decide_eq_true in E. rewrite E.
    by apply safe_record_proto_error. }
  intros _. unfold SAFETY_HEADER_SIZE, SAFETY_MAX_FRAME_SIZE, SAFETY_MAX_PAYLOAD,
    SAFETY_HEADER_SIZE in *.
  unfold queue_rx_accepted. rewrite u16_small by (cbn; lia).
  assert (length (take (Z.to_nat count) frame) = Z.to_nat count) as Hl
    by (rewrite length_take; lia).
  assert (header_of_bytes (take (Z.to_nat count) frame) = header_of_bytes frame) as Hh.
  { rewrite <- (take_drop (Z.to_nat count) frame) at 2. symmetry.
    apply header_of_bytes_app. lia. }
  apply safe_seq.
  { apply safe_push_frame. split; [by apply bytes_ok_take|]. cbn [slot_len slot_data].
    split; [lia|]. unfold framed, SAFETY_MAX_PAYLOAD, SAFETY_HEADER_SIZE.
    rewrite Hh, Hl. lia. }
  intros rc. apply safe_if; intros _.
  { by apply safe_seq; [apply safe_record_drop|intros _]. }
  apply safe_if; intros _; [done|]. apply safe_if; intros _; [|done].
  apply safe_seq; [apply safe_st, safe_set; keep_wf|intros _].
  by apply safe_seq; [apply safe_timer_rearm|intros _].
Qed.

Lemma safe_write ubuf count :
  (forall l, ubuf = Some l -> bytes_ok l /\ count <= Z.of_nat (length l)) ->
  safe (wf depth) (fun _ => True) (safety_write ubuf count).
Proof.
  intros Hu. unfold safety_write.
  apply safe_if; intros ?; [done|]. apply safe_if; intros ?; [done|].
  destruct ubuf as [l|]; [|done]. destruct (Hu l eq_refl) as [Hb Hlen].
  unfold SAFETY_HEADER_SIZE, SAFETY_MAX_FRAME_SIZE, SAFETY_MAX_PAYLOAD,
    SAFETY_HEADER_SIZE in *.
  apply safe_if; intros Hv.
  { apply safe_reject. intros HC. rewrite HC in Hv. done. }
  apply negb_false_iff, bool_decide_eq_true in Hv.
  rewrite u16_small by (cbn; lia). apply safe_seq.
  { apply safe_push_tx_frame. rewrite take_take, Nat.min_l by lia.
    split; [by apply bytes_ok_take|]. cbn [slot_len slot_data].
    rewrite length_take. repeat split; [lia| |done].
    unfold SAFETY_MAX_FRAME_SIZE, SAFETY_MAX_PAYLOAD, SAFETY_HEADER_SIZE. lia. }
  intros rc. apply safe_if; intros _; [|by apply safe_if].
  by apply safe_seq; [apply safe_record_drop|intros _].
Qed.

Lemma safe_read nonblock waits count ok :
  safe (wf depth) (fun _ => True) (safety_read nonblock waits count ok).
Proof.
  apply safe_seq.
  - induction waits as [|w waits IH]; cbn [safety_read_wait];
      (apply safe_seq; [eapply safe_weaken, safe_pop_frame|intros r]);
      repeat (apply safe_if; intros _; try done).
  - intros [[e|[len slot]]|]; [done| |done]. repeat (apply safe_if; intros _; [done|]). done.
Qed.

Lemma safe_poll : safe (wf depth) (fun _ => True) safety_poll.
Proof.
  apply safe_seq; [apply safe_fifo_len|intros n]. apply safe_seq.
  - apply safe_if; intros _; [|done].
    by apply safe_seq; [apply safe_st, safe_trace|intros _].
  - intros m. by apply safe_seq; [apply safe_tx_fifo_len|intros n'].
Qed.

Lemma safe_get_stats ok : safe (wf depth) (fun _ => True) (ioc_get_stats ok).
Proof.
  apply safe_seq; [by apply safe_st, safe_get|intros d].
  apply safe_seq; [apply safe_percpu_sum|intros s].
  apply safe_seq; [apply safe_fifo_len|intros n].
  apply safe_seq; [apply safe_tx_fifo_len|intros n'].
  by apply safe_if.
Qed.

Lemma safe_reset_stats :
  0 <= depth -> safe (wf depth) (fun _ => True) ioc_reset_stats.
Proof.
  intros Hd. apply safe_seq; [apply safe_st, safe_set|intros _].
  - intros d []. constructor; try done;
      unfold timeline_ok, counters_ok, proto_errors_ok, SAFETY_TIMELINE_DEPTH in *;
      cbn in *; unfold SAFETY_FAULT_NONE; lia || tauto || (repeat split; lia || tauto).
  - by apply safe_seq; [apply safe_percpu_reset|intros _].
Qed.

(** The argument of an ioctl, when readable, is bytes, enough for the largest
    struct copied in. *)
Definition user_memory (arg : option (list Z)) : Prop :=
  forall l, arg = Some l -> bytes_ok l /\ (276 <= length l)%nat.

Lemma safe_set_hb_timeout arg :
  user_memory arg -> safe (wf depth) (fun _ => True) (ioc_set_hb_timeout arg).
Proof.
  intros Hu. destruct arg as [l|]; [|done]. destruct (Hu l eq_refl) as [Hb Hl].
  pose proof (field_range 0 4 l Hb ltac:(lia)). unfold ioc_set_hb_timeout.
  apply safe_if; intros ?; [done|].
  apply safe_seq; [apply safe_st, safe_set|intros _].
  - intros d []. constructor; try done. cbn. lia.
  - by apply safe_seq; [apply safe_timer_rearm|intros _].
Qed.

Lemma safe_inject_fault arg : safe (wf depth) (fun _ => True) (ioc_inject_fault arg).
Proof.
  destruct arg as [l|]; [|done]. apply safe_seq; [|intros _].
  - apply safe_st, stsafe_seq; [apply safe_set; keep_wf|intros _].
    eapply stsafe_bind; [apply safe_ktime|intros t _]. apply safe_set. keep_wf.
  - by apply safe_seq; [apply safe_synth_fault_event|intros _].
Qed.

Lemma safe_push_rx arg :
  user_memory arg -> safe (wf depth) (fun _ => True) (ioc_push_rx_frame arg).
Proof.
  intros Hu. destruct arg as [l|]; [|done]. destruct (Hu l eq_refl) as [Hb Hl].
  apply safe_if; intros E; [done|]. apply safe_queue_rx.
  - unfold slice. auto with safety.
  - change SAFETY_MAX_FRAME_SIZE with 272 in *. rewrite length_slice; lia.
Qed.

Lemma safe_pop_tx ok : safe (wf depth) (fun _ => True) (ioc_pop_tx_frame ok).
Proof.
  apply safe_seq; [eapply safe_weaken, safe_pop_tx_frame|intros [len slot]].
  repeat (apply safe_if; intros _; try done).
Qed.

Lemma safe_no_out p :
  safe (wf depth) (fun _ => True) p -> safe (wf depth) (fun _ => True) (no_out p).
Proof. intros Hp. by apply safe_seq. Qed.

Lemma safe_ioctl cmd arg ok :
  0 <= depth -> user_memory arg ->
  safe (wf depth) (fun _ => True) (safety_ioctl cmd arg ok).
Proof.
  intros Hd Hu. unfold safety_ioctl.
  repeat (apply safe_if; intros _;
    [first [ done | apply safe_get_stats | apply safe_no_out, safe_reset_stats, Hd
           | apply safe_no_out, safe_set_hb_timeout, Hu
           | apply safe_seq; [by apply safe_st, safe_get|intros ?; by apply safe_if]
           | by apply safe_seq; [apply safe_recovery_schedule|intros _]
           | apply safe_no_out, safe_inject_fault | apply safe_no_out, safe_push_rx, Hu
           | apply safe_pop_tx ]|]).
  done.
Qed.

End Invariant.
