(* ===== verification/DriverSpec.v ===== *)
(** * Functional specifications of the driver operations

    What one uninterrupted run of each operation does to the device.  Changes
    that only concern statistics (high watermark, timeline ring, per-CPU
    counters) are summarised by [bookkeeping]; everything else is stated. *)

From S2P Require Import Prelude Crc32 Protocol KernelApi Device Kfifo Watchdog Chrdev DriverMain DriverInv.

Section Spec.
Context {K : KernelApi safety_fifo_slot} {KO : KernelOk K}.
Implicit Types (d : safety_copro_dev K) (w : world K).

(** [d'] is [d] up to the statistics. *)
Definition bookkeeping d d' : Prop :=
  exists hwm tl th tf pc,
    d' = d <| fifo_high_watermark := hwm |> <| timeline := tl |>
           <| timeline_head := th |> <| timeline_filled := tf |> <| pcpu := pc |>.

Ltac bk :=
  match goal with
  | |- bookkeeping _ ?d' =>
      exists (fifo_high_watermark d'), (timeline d'), (timeline_head d'),
        (timeline_filled d'), (pcpu d'); reflexivity
  end.

#[global] Instance bookkeeping_refl : Reflexive bookkeeping.
Proof. intros []. bk. Qed.
#[global] Instance bookkeeping_trans : Transitive bookkeeping.
Proof.
  intros d1 d2 d3 (? & ? & ? & ? & ? & ->) (hwm & tl & th & tf & pc & ->).
  by exists hwm, tl, th, tf, pc.
Qed.

Lemma bookkeeping_timeline ev seq w :
  bookkeeping (w_dev w) (w_dev (safety_timeline_record_locked ev seq w).2) /\
  w_log (safety_timeline_record_locked ev seq w).2 = w_log w.
Proof.
  split; [|done]. destruct w as [[] n l].
  unfold safety_timeline_record_locked, mbind, st_bind, dev_set. cbn.
  case_test; bk.
Qed.

Lemma bookkeeping_this_cpu f w :
  bookkeeping (w_dev w) (w_dev (this_cpu_op f w).2) /\ w_log (this_cpu_op f w).2 = w_log w.
Proof. split; [|done]. destruct w as [[] n l]. bk. Qed.

Lemma bookkeeping_inc_rx n w :
  bookkeeping (w_dev w) (w_dev (run (safety_percpu_inc_rx n) w).2) /\
  w_log (run (safety_percpu_inc_rx n) w).2 = w_log w.
Proof. destruct w as [[] m l]. split; [bk|done]. Qed.

Lemma bookkeeping_inc_dropped w :
  bookkeeping (w_dev w) (w_dev (run safety_percpu_inc_dropped w).2) /\
  w_log (run safety_percpu_inc_dropped w).2 = w_log w.
Proof. destruct w as [[] m l]. split; [bk|done]. Qed.

(** ** RX push *)

Lemma push_rx_locked_ok slot seq ev w :
  kfifo_is_full (rx_fifo (w_dev w)) = false ->
  exists q w',
    push_rx_locked slot seq ev w = (Some (kfifo_len q), w') /\
    kfifo_view q = kfifo_view (rx_fifo (w_dev w)) ++ [slot] /\
    kfifo_size q = kfifo_size (rx_fifo (w_dev w)) /\
    bookkeeping ((w_dev w) <| rx_fifo := q |>) (w_dev w') /\ w_log w' = w_log w.
Proof.
  intros Hf. destruct (kfifo_in_room _ slot Hf) as [Hn Hv].
  pose proof (kfifo_in_size (rx_fifo (w_dev w)) slot) as Hs.
  unfold push_rx_locked, mbind, st_bind. cbn [dev_get fst snd]. rewrite Hf.
  destruct (kfifo_in _ _) as [n q]. cbn in Hn, Hv, Hs. subst n. cbn [Z.eqb negb].
  exists q. eexists. split; [reflexivity|]. do 2 (split; [done|]). split; [|done].
  etrans; [|apply bookkeeping_timeline]. destruct w as [[] m l].
  unfold dev_set. cbn. case_test; bk.
Qed.

Lemma push_rx_locked_full slot seq ev w :
  kfifo_is_full (rx_fifo (w_dev w)) = true -> push_rx_locked slot seq ev w = (None, w).
Proof.
  intros Hf. unfold push_rx_locked, mbind, st_bind. cbn [dev_get fst snd]. by rewrite Hf.
Qed.

Lemma push_frame_ok frame len seq ty ev w :
  0 < len <= SAFETY_MAX_FRAME_SIZE ->
  kfifo_is_full (rx_fifo (w_dev w)) = false ->
  exists q w',
    run (safety_fifo_push_frame frame len seq ty ev) w = (0, w') /\
    kfifo_view q = kfifo_view (rx_fifo (w_dev w)) ++ [mkSlot len (take (Z.to_nat len) frame)] /\
    kfifo_size q = kfifo_size (rx_fifo (w_dev w)) /\
    bookkeeping ((w_dev w) <| rx_fifo := q |>) (w_dev w') /\
    w_log w' = w_log w ++ [safety_frame_received seq ty (kfifo_len q); wake_up_rx_wq].
Proof.
  intros Hlen Hf. unfold safety_fifo_push_frame.
  rewrite (proj2 (orb_false_iff _ _)) by lia.
  destruct (push_rx_locked_ok (mkSlot len (take (Z.to_nat len) frame)) seq ev w Hf)
    as (q & w1 & Hp & Hv & Hs & B1 & L1).
  rewrite run_bind, run_atomic, Hp. cbn [fst snd]. step_run.
  destruct (bookkeeping_inc_rx len w1) as [B2 L2].
  set (w2 := (run (safety_percpu_inc_rx len) w1).2) in *. clearbody w2.
  eexists q, _. split; [reflexivity|]. do 2 (split; [done|]). cbn. split.
  - by etrans.
  - rewrite L2, L1. by rewrite <- app_assoc.
Qed.

Lemma push_frame_full frame len seq ty ev w :
  0 < len <= SAFETY_MAX_FRAME_SIZE ->
  kfifo_is_full (rx_fifo (w_dev w)) = true ->
  run (safety_fifo_push_frame frame len seq ty ev) w = (- ENOSPC, w).
Proof.
  intros Hlen Hf. unfold safety_fifo_push_frame.
  rewrite (proj2 (orb_false_iff _ _)) by lia.
  rewrite run_bind, run_atomic, push_rx_locked_full by done. done.
Qed.

(** ** RX pop and read *)

Lemma pop_frame_some s q w y :
  kfifo_view (rx_fifo (w_dev w)) = s :: q ->
  exists f,
    run (safety_fifo_pop_frame y) w = (slot_len s, s, w <| w_dev ::= fun d => d <| rx_fifo := f |> |>) /\
    kfifo_view f = q /\ kfifo_size f = kfifo_size (rx_fifo (w_dev w)).
Proof.
  intros Hv. destruct (kfifo_out_some _ _ y _ Hv) as [Ho Hv'].
  pose proof (kfifo_out_size (rx_fifo (w_dev w)) y) as Hs.
  destruct (kfifo_out (rx_fifo (w_dev w)) y) as [[n x] f] eqn:Hq. cbn in Ho, Hv', Hs.
  simplify_eq. exists f. split; [|done]. unfold safety_fifo_pop_frame. rewrite run_atomic.
  unfold mbind, st_bind. cbn [dev_get fst snd].
  rewrite kfifo_is_empty_view, kfifo_len_view, Hv. cbn [length].
  rewrite (proj2 (Z.eqb_neq _ _)) by lia. cbn [negb]. rewrite Hq. done.
Qed.

Lemma pop_frame_none w y :
  kfifo_view (rx_fifo (w_dev w)) = [] -> run (safety_fifo_pop_frame y) w = (0, y, w).
Proof.
  intros Hv. unfold safety_fifo_pop_frame. rewrite run_atomic.
  unfold mbind, st_bind. cbn [dev_get fst snd].
  by rewrite kfifo_is_empty_view, kfifo_len_view, Hv.
Qed.

(** ** The RX path *)

Lemma framed_length data :
  bytes_ok data -> framed data ->
  16 <= Z.of_nat (length data) <= 272 /\
  0 <= payload_length (header_of_bytes data) <= 256.
Proof.
  intros Hb (Hm & Hv & Hp & Hl). unfold SAFETY_MAX_PAYLOAD, SAFETY_HEADER_SIZE in *.
  assert (0 <= payload_length (header_of_bytes data)); [|lia].
  apply le_value_range. unfold slice. auto with safety.
Qed.

(** A framed buffer can only fail validation on its checksum. *)
Lemma framed_validate data :
  bytes_ok data -> framed data ->
  safety_frame_validate data (Z.of_nat (length data)) = SAFETY_VALIDATE_OK \/
  safety_frame_validate data (Z.of_nat (length data)) = SAFETY_VALIDATE_BAD_CHECKSUM.
Proof.
  intros Hb Hf. destruct (framed_length _ Hb Hf) as [Hl Hp].
  destruct Hf as (Hm & Hv & Hmax & Hlen). cbn in Hm, Hv, Hlen, Hp, Hmax.
  rewrite validate_not_ok_cases. unfold SAFETY_HEADER_SIZE in *.
  repeat case_decide; auto; lia.
Qed.

(** The device after [record_proto_error]. *)
Definition count_proto_error (v : safety_validate_result) (w : world K) : world K :=
  (run (record_proto_error v) w).2.

Lemma queue_rx_framed frame w :
  bytes_ok frame -> framed frame ->
  let n := Z.of_nat (length frame) in
  let v := safety_frame_validate frame n in
  run (queue_rx_from_linkd frame n) w =
  run (queue_rx_accepted frame n v (sequence_id (header_of_bytes frame))
         (type (header_of_bytes frame)))
    (if bool_decide (v = SAFETY_VALIDATE_BAD_CHECKSUM) then count_proto_error v w else w).
Proof.
  intros Hb Hf n v. destruct (framed_length _ Hb Hf) as [Hl Hp].
  pose proof (framed_validate _ Hb Hf) as Hv. destruct Hf as (Hm & Hve & Hmax & Hlen).
  fold n v in Hl, Hlen, Hv. unfold queue_rx_from_linkd.
  change SAFETY_MAX_FRAME_SIZE with 272. unfold SAFETY_HEADER_SIZE, SAFETY_MAX_PAYLOAD in *.
  rewrite (proj2 (Z.ltb_ge n 16)), Z.gtb_ltb, (proj2 (Z.ltb_ge 272 n)) by lia.
  rewrite Hm, Hve, !Z.eqb_refl. cbn [negb]. rewrite Z.gtb_ltb, (proj2 (Z.ltb_ge 256 _)) by lia.
  rewrite (proj2 (Z.eqb_eq _ _) Hlen). cbn [negb]. fold v.
  destruct Hv as [-> | ->]; done.
Qed.

Lemma accepted_full frame v seq ty w :
  bytes_ok frame -> framed frame ->
  kfifo_is_full (rx_fifo (w_dev w)) = true ->
  exists w',
    run (queue_rx_accepted frame (Z.of_nat (length frame)) v seq ty) w = (- ENOSPC, w') /\
    bookkeeping ((w_dev w) <| dropped_frame_count ::= fun c => u32 (c + 1) |>) (w_dev w') /\
    w_log w' = w_log w ++ [safety_frame_dropped seq ty].
Proof.
  intros Hb Hf Hfull. destruct (framed_length _ Hb Hf) as [Hl Hp].
  unfold queue_rx_accepted. rewrite u16_small by (cbn; lia).
  rewrite run_bind, push_frame_full by (done || (change SAFETY_MAX_FRAME_SIZE with 272; lia)).
  cbn [fst snd]. rewrite Z.eqb_refl. unfold record_drop. step_run.
  set (w1 := (dev_set _ w).2).
  destruct (bookkeeping_inc_dropped w1) as [B L].
  set (w2 := (run safety_percpu_inc_dropped w1).2) in *. clearbody w2.
  eexists. split; [reflexivity|]. split; [exact B|]. cbn. by rewrite L.
Qed.

Lemma accepted_room frame v seq ty w :
  bytes_ok frame -> framed frame ->
  kfifo_is_full (rx_fifo (w_dev w)) = false ->
  let hb := bool_decide (v = SAFETY_VALIDATE_OK) && (ty =? SAFETY_FRAME_HEARTBEAT) in
  exists q w',
    run (queue_rx_accepted frame (Z.of_nat (length frame)) v seq ty) w = (0, w') /\
    kfifo_view q = kfifo_view (rx_fifo (w_dev w)) ++
                   [mkSlot (Z.of_nat (length frame)) frame] /\
    kfifo_size q = kfifo_size (rx_fifo (w_dev w)) /\
    bookkeeping
      (if hb then
         (w_dev w) <| rx_fifo := q |> <| heartbeat_count ::= fun c => u32 (c + 1) |>
                 <| state := SAFETY_LINK_HB_OK |>
                 <| hb_timer ::= fun t => hrtimer_start t (ms_to_ktime (hb_timeout_ms (w_dev w))) |>
       else (w_dev w) <| rx_fifo := q |>) (w_dev w') /\
    w_log w' = w_log w ++ [safety_frame_received seq ty (kfifo_len q); wake_up_rx_wq].
Proof.
  intros Hb Hf Hroom hb. destruct (framed_length _ Hb Hf) as [Hl Hp].
  unfold queue_rx_accepted. rewrite u16_small by (cbn; lia). fold hb.
  destruct (push_frame_ok frame (Z.of_nat (length frame)) seq ty
    (if ty =? SAFETY_FRAME_HEARTBEAT then SAFETY_TL_HEARTBEAT else SAFETY_TL_FRAME_RX) w)
    as (q & w1 & Hrun & Hv & Hs & B & L);
    [change SAFETY_MAX_FRAME_SIZE with 272; lia|done|].
  rewrite run_bind, Hrun. cbn [fst snd]. rewrite Nat2Z.id, take_ge in Hv by lia.
  change (0 =? - ENOSPC) with false. change (0 <? 0) with false. cbn match.
  exists q. destruct hb.
  - unfold safety_timer_rearm. step_run. eexists. split; [reflexivity|].
    do 2 (split; [done|]). split; [|exact L].
    destruct B as (hwm & tl & th & tf & pc & HB). cbn. rewrite HB. bk.
  - rewrite run_ret. by exists w1.
Qed.

(** The outcome for a framed buffer with room in the queue, field by field.
    [hb]: the frame is a heartbeat with a good checksum. *)
Lemma queue_rx_room frame w :
  bytes_ok frame -> framed frame -> kfifo_is_full (rx_fifo (w_dev w)) = false ->
  let n := Z.of_nat (length frame) in
  let good := bool_decide (safety_frame_validate frame n = SAFETY_VALIDATE_OK) in
  let hb := good && (type (header_of_bytes frame) =? SAFETY_FRAME_HEARTBEAT) in
  let d := w_dev w in
  exists w',
    run (queue_rx_from_linkd frame n) w = (0, w') /\
    let d' := w_dev w' in
    kfifo_view (rx_fifo d') = kfifo_view (rx_fifo d) ++ [mkSlot n frame] /\
    kfifo_size (rx_fifo d') = kfifo_size (rx_fifo d) /\
    state d' = (if hb then SAFETY_LINK_HB_OK else state d) /\
    heartbeat_count d' = (if hb then u32 (heartbeat_count d + 1) else heartbeat_count d) /\
    hb_timer d' = (if hb then hrtimer_start (hb_timer d) (ms_to_ktime (hb_timeout_ms d))
                   else hb_timer d) /\
    proto_err_checksum d' = (if good then proto_err_checksum d
                             else u32 (proto_err_checksum d + 1)) /\
    tx_fifo d' = tx_fifo d /\ recovery_work d' = recovery_work d /\
    dropped_frame_count d' = dropped_frame_count d /\ hb_timeout_ms d' = hb_timeout_ms d.
Proof.
  intros Hb Hf Hroom n good hb d. rewrite queue_rx_framed by done. fold n.
  unfold hb, good, d. clear hb good d.
  destruct (framed_validate _ Hb Hf) as [Hv | Hv]; fold n in Hv; rewrite Hv; cbn [bool_decide];
    (match goal with |- context [run (queue_rx_accepted _ _ ?v ?s ?t) ?w1] =>
       destruct (accepted_room frame v s t w1 Hb Hf Hroom)
         as (q & w' & Hr & Hq & Hs & (? & ? & ? & ? & ? & HB) & _) end);
    exists w'; (split; [exact Hr|]); rewrite HB; cbn [andb bool_decide] in *;
    [destruct (type (header_of_bytes frame) =? SAFETY_FRAME_HEARTBEAT)|]; repeat split; done.
Qed.

Lemma queue_rx_full frame w :
  bytes_ok frame -> framed frame -> kfifo_is_full (rx_fifo (w_dev w)) = true ->
  let d := w_dev w in
  exists w',
    run (queue_rx_from_linkd frame (Z.of_nat (length frame))) w = (- ENOSPC, w') /\
    let d' := w_dev w' in
    rx_fifo d' = rx_fifo d /\ tx_fifo d' = tx_fifo d /\ state d' = state d /\
    heartbeat_count d' = heartbeat_count d /\ hb_timer d' = hb_timer d /\
    dropped_frame_count d' = u32 (dropped_frame_count d + 1).
Proof.
  intros Hb Hf Hfull d. rewrite queue_rx_framed by done. unfold d. clear d.
  destruct (framed_validate _ Hb Hf) as [Hv | Hv]; rewrite Hv;
    (match goal with |- context [run (queue_rx_accepted _ _ ?v ?s ?t) ?w1] =>
       destruct (accepted_full frame v s t w1 Hb Hf Hfull)
         as (w' & Hr & (? & ? & ? & ? & ? & HB) & _) end);
    exists w'; (split; [exact Hr|]); rewrite HB; done.
Qed.

(** Anything but one whole frame is refused. *)
Lemma queue_rx_reject frame w :
  ~ framed frame -> Z.of_nat (length frame) <= 272 ->
  let d := w_dev w in
  exists w',
    run (queue_rx_from_linkd frame (Z.of_nat (length frame))) w = (- EINVAL, w') /\
    let d' := w_dev w' in
    rx_fifo d' = rx_fifo d /\ tx_fifo d' = tx_fifo d /\ state d' = state d /\
    heartbeat_count d' = heartbeat_count d /\ hb_timer d' = hb_timer d.
Proof.
  intros Hnf Hl d. unfold d, queue_rx_from_linkd. change SAFETY_MAX_FRAME_SIZE with 272.
  case_test; [by exists w|]. case_test; [lia|].
  do 4 (case_test; [by eexists; split; [reflexivity|]|]).
  exfalso. apply Hnf. unfold framed. lia.
Qed.

(** Only the first [count] bytes of the buffer matter. *)
Lemma queue_rx_prefix frame rest :
  queue_rx_from_linkd (frame ++ rest) (Z.of_nat (length frame)) =
  (queue_rx_from_linkd frame (Z.of_nat (length frame)) : prog (world K) Z).
Proof.
  unfold queue_rx_from_linkd. change SAFETY_MAX_FRAME_SIZE with 272.
  unfold SAFETY_HEADER_SIZE. case_test; [done|]. case_test; [done|].
  rewrite header_of_bytes_app by lia. repeat (case_test; [done|]).
  assert (safety_frame_validate (frame ++ rest) (Z.of_nat (length frame)) =
          safety_frame_validate frame (Z.of_nat (length frame))) as ->.
  { apply negb_false_iff, Z.eqb_eq in E4. rewrite !validate_not_ok_cases.
    rewrite header_of_bytes_app, !field_app_l by lia.
    cbn [payload_length header_of_bytes] in E4.
    repeat case_decide; try done; unfold slice in *;
      rewrite drop_app_le, take_app_le in * by (rewrite ?length_drop; lia); done. }
  case_test; [done|]. unfold queue_rx_accepted, safety_fifo_push_frame.
  rewrite u16_small by (cbn; lia). rewrite Nat2Z.id, take_app_length, take_ge by lia. done.
Qed.

(** ** Synthesized frames *)

Lemma now_ms_run w :
  exists ts, is_u32 ts /\ run (atomic safety_now_ms) w = (ts, w <| w_now ::= S |>).
Proof.
  exists (u32 (ktime_to_ms (ktime_get_ns (w_now w)))). split; [|reflexivity].
  auto with safety.
Qed.

Lemma next_synth_seq_run w :
  run (atomic next_synth_seq) w =
  (synth_seq (w_dev w),
   w <| w_dev ::= fun d => d <| synth_seq := u16 (synth_seq (w_dev w) + 1) |> |>).
Proof. reflexivity. Qed.

Lemma synth_room ty p ev w :
  is_u8 ty -> bytes_ok p -> (length p <= 256)%nat -> is_u16 (synth_seq (w_dev w)) ->
  kfifo_is_full (rx_fifo (w_dev w)) = false ->
  let seq := synth_seq (w_dev w) in
  exists ts q w',
    is_u32 ts /\
    run (safety_synth_and_push ty p (Z.of_nat (length p)) ev) w = (0, w') /\
    kfifo_view q = kfifo_view (rx_fifo (w_dev w)) ++
      [mkSlot (16 + Z.of_nat (length p))
         (frame_bytes (safety_frame_init ty seq (Z.of_nat (length p)) ts) p)] /\
    bookkeeping ((w_dev w) <| synth_seq := u16 (seq + 1) |> <| rx_fifo := q |>) (w_dev w') /\
    w_log w' = w_log w ++ [safety_frame_received seq ty (kfifo_len q); wake_up_rx_wq].
Proof.
  intros Hty Hp Hlen Hseq Hroom seq. unfold safety_synth_and_push.
  destruct (_ >? SAFETY_MAX_PAYLOAD) eqn:E; [unfold SAFETY_MAX_PAYLOAD in E; lia|].
  rewrite run_bind, next_synth_seq_run. fold seq. cbn [fst snd].
  set (w1 := w <| w_dev ::= _ |>). destruct (now_ms_run w1) as (ts & Hts & Hnow).
  rewrite run_bind, Hnow. cbn [fst snd].
  destruct (synth_pack ty seq p ts Hty Hseq Hts Hp Hlen) as (frame & -> & Htake).
  rewrite (proj2 (Z.eqb_neq _ _)), u16_small by (cbn; lia).
  destruct (push_frame_ok frame (16 + Z.of_nat (length p)) seq ty ev (w1 <| w_now ::= S |>))
    as (q & w2 & Hrun & Hv & Hs & B & L);
    [change SAFETY_MAX_FRAME_SIZE with 272; lia|exact Hroom|].
  replace (Z.to_nat (16 + Z.of_nat (length p))) with (16 + length p)%nat in Hv by lia.
  rewrite Htake in Hv. exists ts, q, w2. rewrite run_bind, Hrun. done.
Qed.

Lemma synth_full ty p ev w :
  is_u8 ty -> bytes_ok p -> (length p <= 256)%nat -> is_u16 (synth_seq (w_dev w)) ->
  kfifo_is_full (rx_fifo (w_dev w)) = true ->
  let seq := synth_seq (w_dev w) in
  exists w',
    run (safety_synth_and_push ty p (Z.of_nat (length p)) ev) w = (- ENOSPC, w') /\
    bookkeeping ((w_dev w) <| synth_seq := u16 (seq + 1) |>
                   <| dropped_frame_count ::= fun c => u32 (c + 1) |>) (w_dev w') /\
    w_log w' = w_log w ++ [safety_frame_dropped seq ty].
Proof.
  intros Hty Hp Hlen Hseq Hfull seq. unfold safety_synth_and_push.
  destruct (_ >? SAFETY_MAX_PAYLOAD) eqn:E; [unfold SAFETY_MAX_PAYLOAD in E; lia|].
  rewrite run_bind, next_synth_seq_run. fold seq. cbn [fst snd].
  set (w1 := w <| w_dev ::= _ |>). destruct (now_ms_run w1) as (ts & Hts & Hnow).
  rewrite run_bind, Hnow. cbn [fst snd].
  destruct (synth_pack ty seq p ts Hty Hseq Hts Hp Hlen) as (frame & -> & Htake).
  rewrite (proj2 (Z.eqb_neq _ _)), u16_small by (cbn; lia).
  rewrite run_bind, push_frame_full
    by (done || (change SAFETY_MAX_FRAME_SIZE with 272; lia)).
  cbn [fst snd]. rewrite Z.eqb_refl. step_run.
  set (w2 := (dev_set (fun d => d <| dropped_frame_count ::= _ |>) _).2).
  destruct (bookkeeping_inc_dropped w2) as [B L].
  set (w3 := (run safety_percpu_inc_dropped w2).2) in *. clearbody w3.
  eexists. split; [reflexivity|]. split; [exact B|]. cbn. by rewrite L.
Qed.

(** The two synthesized payloads. *)
Lemma fault_event_bytes_ok f : bytes_ok (fault_event_bytes f).
Proof. unfold fault_event_bytes. rewrite !bytes_ok_app. auto with safety. Qed.
Lemma recovery_report_bytes_ok r : bytes_ok (recovery_report_bytes r).
Proof. unfold recovery_report_bytes. rewrite !bytes_ok_app. auto with safety. Qed.

(** ** TX queue *)

Lemma tx_fifo_len_run w :
  run safety_tx_fifo_len w = (kfifo_len (tx_fifo (w_dev w)), w).
Proof. reflexivity. Qed.
Lemma fifo_len_run w : run safety_fifo_len w = (kfifo_len (rx_fifo (w_dev w)), w).
Proof. reflexivity. Qed.

Lemma push_tx_room frame len seq ty w :
  0 < len <= SAFETY_MAX_FRAME_SIZE ->
  kfifo_is_full (tx_fifo (w_dev w)) = false ->
  exists q w',
    run (safety_fifo_push_tx_frame frame len seq ty) w = (0, w') /\
    kfifo_view q = kfifo_view (tx_fifo (w_dev w)) ++ [mkSlot len (take (Z.to_nat len) frame)] /\
    kfifo_size q = kfifo_size (tx_fifo (w_dev w)) /\
    bookkeeping ((w_dev w) <| tx_fifo := q |>) (w_dev w') /\
    w_log w' = w_log w ++ [safety_frame_received seq ty (kfifo_len q); wake_up_tx_wq].
Proof.
  intros Hlen Hf. unfold safety_fifo_push_tx_frame.
  rewrite (proj2 (orb_false_iff _ _)) by lia.
  set (slot := mkSlot len (take (Z.to_nat len) frame)).
  destruct (kfifo_in_room _ slot Hf) as [Hn Hv].
  pose proof (kfifo_in_size (tx_fifo (w_dev w)) slot) as Hs.
  destruct (kfifo_in (tx_fifo (w_dev w)) slot) as [n q] eqn:Hq. cbn in Hn, Hv, Hs. subst n.
  set (w1 := (safety_timeline_record_locked SAFETY_TL_RECOVERY seq
                (w <| w_dev ::= fun d => d <| tx_fifo := q |> |>)).2).
  assert (push_tx_locked slot seq w = (true, w1)) as Hp.
  { unfold push_tx_locked, mbind, st_bind. cbn [dev_get fst snd]. by rewrite Hf, Hq. }
  destruct (bookkeeping_timeline SAFETY_TL_RECOVERY seq
              (w <| w_dev ::= fun d => d <| tx_fifo := q |> |>)) as [B L].
  fold w1 in B, L. clearbody w1.
  rewrite run_bind, run_atomic, Hp. cbn [fst snd negb].
  rewrite run_bind, tx_fifo_len_run. step_run.
  exists q. eexists. split; [reflexivity|]. do 2 (split; [done|]). split; [exact B|].
  cbn. rewrite L. destruct B as (hwm & tl & th & tf & pc & HB). rewrite HB. cbn.
  by rewrite <- app_assoc.
Qed.

Lemma push_tx_full frame len seq ty w :
  0 < len <= SAFETY_MAX_FRAME_SIZE ->
  kfifo_is_full (tx_fifo (w_dev w)) = true ->
  run (safety_fifo_push_tx_frame frame len seq ty) w = (- ENOSPC, w).
Proof.
  intros Hlen Hf. unfold safety_fifo_push_tx_frame.
  rewrite (proj2 (orb_false_iff _ _)) by lia.
  assert (push_tx_locked (mkSlot len (take (Z.to_nat len) frame)) seq w = (false, w)) as Hp.
  { unfold push_tx_locked, mbind, st_bind. cbn [dev_get fst snd]. by rewrite Hf. }
  rewrite run_bind, run_atomic, Hp. done.
Qed.

(** [safety_write] of a buffer that validates. *)
Lemma write_valid f w :
  bytes_ok f -> 16 <= Z.of_nat (length f) <= 272 ->
  safety_frame_validate f (Z.of_nat (length f)) = SAFETY_VALIDATE_OK ->
  let d := w_dev w in
  exists w',
    rx_fifo (w_dev w') = rx_fifo d /\
    if kfifo_is_full (tx_fifo d)
    then run (safety_write (Some f) (Z.of_nat (length f))) w = (- EAGAIN, w') /\
         tx_fifo (w_dev w') = tx_fifo d
    else run (safety_write (Some f) (Z.of_nat (length f))) w = (Z.of_nat (length f), w') /\
         kfifo_view (tx_fifo (w_dev w')) =
           kfifo_view (tx_fifo d) ++ [mkSlot (Z.of_nat (length f)) f].
Proof.
  intros Hb Hl Hv d. unfold safety_write. change SAFETY_MAX_FRAME_SIZE with 272.
  unfold SAFETY_HEADER_SIZE. rewrite Z.gtb_ltb, !(proj2 (Z.ltb_ge _ _)) by lia.
  rewrite Nat2Z.id, take_ge, Hv by lia. cbn [bool_decide negb].
  rewrite u16_small by (cbn; lia).
  rewrite bool_decide_eq_true_2 by done. cbn [negb].
  destruct (kfifo_is_full (tx_fifo d)) eqn:Hf.
  - rewrite run_bind, push_tx_full by (done || (change SAFETY_MAX_FRAME_SIZE with 272; lia)).
    cbn [fst snd]. rewrite Z.eqb_refl. unfold record_drop. step_run.
    set (w1 := (dev_set _ w).2).
    destruct (bookkeeping_inc_dropped w1) as [(? & ? & ? & ? & ? & HB) _].
    set (w2 := (run safety_percpu_inc_dropped w1).2) in *. clearbody w2.
    eexists. split; [|split; [reflexivity|]]; cbn; by rewrite HB.
  - destruct (push_tx_room f (Z.of_nat (length f)) (sequence_id (header_of_bytes f))
      (type (header_of_bytes f)) w) as (q & w' & Hr & Hq & _ & (? & ? & ? & ? & ? & HB) & _);
      [change SAFETY_MAX_FRAME_SIZE with 272; lia|exact Hf|].
    rewrite run_bind, Hr. cbn [fst snd]. exists w'. rewrite HB.
    rewrite Nat2Z.id, take_ge in Hq by lia. split; [done|]. split; [done|exact Hq].
Qed.

Lemma write_reject f w :
  16 <= Z.of_nat (length f) <= 272 ->
  safety_frame_validate f (Z.of_nat (length f)) <> SAFETY_VALIDATE_OK ->
  exists w',
    run (safety_write (Some f) (Z.of_nat (length f))) w = (- EINVAL, w') /\
    rx_fifo (w_dev w') = rx_fifo (w_dev w) /\ tx_fifo (w_dev w') = tx_fifo (w_dev w).
Proof.
  intros Hl Hv. unfold safety_write. change SAFETY_MAX_FRAME_SIZE with 272.
  unfold SAFETY_HEADER_SIZE. rewrite Z.gtb_ltb, !(proj2 (Z.ltb_ge _ _)) by lia.
  rewrite Nat2Z.id, take_ge by lia.
  rewrite bool_decide_eq_false_2 by done. cbn [negb].
  eexists. split; [reflexivity|]. by destruct (safety_frame_validate _ _).
Qed.

Lemma pop_tx_some s q w y :
  kfifo_view (tx_fifo (w_dev w)) = s :: q ->
  exists f,
    run (safety_fifo_pop_tx_frame y) w =
      (slot_len s, s, w <| w_dev ::= fun d => d <| tx_fifo := f |> |>) /\
    kfifo_view f = q /\ kfifo_size f = kfifo_size (tx_fifo (w_dev w)).
Proof.
  intros Hv. destruct (kfifo_out_some _ _ y _ Hv) as [Ho Hv'].
  pose proof (kfifo_out_size (tx_fifo (w_dev w)) y) as Hs.
  destruct (kfifo_out (tx_fifo (w_dev w)) y) as [[n x] f] eqn:Hq. cbn in Ho, Hv', Hs.
  simplify_eq. exists f. split; [|done]. unfold safety_fifo_pop_tx_frame. rewrite run_atomic.
  unfold mbind, st_bind. cbn [dev_get fst snd].
  rewrite kfifo_is_empty_view, kfifo_len_view, Hv. cbn [length].
  rewrite (proj2 (Z.eqb_neq _ _)) by lia. cbn [negb]. rewrite Hq. done.
Qed.

Lemma pop_tx_none w y :
  kfifo_view (tx_fifo (w_dev w)) = [] -> run (safety_fifo_pop_tx_frame y) w = (0, y, w).
Proof.
  intros Hv. unfold safety_fifo_pop_tx_frame. rewrite run_atomic.
  unfold mbind, st_bind. cbn [dev_get fst snd].
  by rewrite kfifo_is_empty_view, kfifo_len_view, Hv.
Qed.

(** ** Watchdog *)

Lemma hb_timeout_locked_spec w :
  exists ts w',
    hb_timeout_locked w =
      ((hb_timeout_ms (w_dev w), u32 (timeout_count (w_dev w) + 1)), w') /\
    bookkeeping
      ((w_dev w) <| timeout_count ::= fun c => u32 (c + 1) |>
                 <| state := SAFETY_LINK_HB_TIMEOUT |>
                 <| last_fault_type := SAFETY_FAULT_TASK_HANG |>
                 <| last_fault_detail := 1 |> <| last_fault_ts_ns := ts |>
                 <| fault_count ::= fun c => u32 (c + 1) |>) (w_dev w') /\
    w_log w' = w_log w.
Proof.
  exists (ktime_get_ns (w_now w)).
  exists (safety_timeline_record_locked SAFETY_TL_TIMEOUT 0
    (mkWorld ((w_dev w) <| timeout_count ::= fun c => u32 (c + 1) |>
                 <| state := SAFETY_LINK_HB_TIMEOUT |>
                 <| last_fault_type := SAFETY_FAULT_TASK_HANG |>
                 <| last_fault_detail := 1 |> <| last_fault_ts_ns := ktime_get_ns (w_now w) |>
                 <| fault_count ::= fun c => u32 (c + 1) |>) (S (w_now w)) (w_log w))).2.
  split; [reflexivity|]. exact (bookkeeping_timeline _ _ (mkWorld _ _ _)).
Qed.

Lemma recovery_locked_spec w :
  exists w',
    recovery_locked w = (u32 (retry_count (w_dev w) + 1), w') /\
    bookkeeping
      ((w_dev w) <| retry_count ::= fun c => u32 (c + 1) |>
                 <| state := SAFETY_LINK_RECOVERING |>) (w_dev w') /\
    w_log w' = w_log w.
Proof.
  exists (safety_timeline_record_locked SAFETY_TL_RECOVERY 0
    (mkWorld ((w_dev w) <| retry_count ::= fun c => u32 (c + 1) |>
                 <| state := SAFETY_LINK_RECOVERING |>) (w_now w) (w_log w))).2.
  split; [reflexivity|]. exact (bookkeeping_timeline _ _ (mkWorld _ _ _)).
Qed.

(** The frame the watchdog synthesizes, for sequence number [seq]. *)
Definition timeout_frame (seq ts now : Z) : list Z :=
  frame_bytes (safety_frame_init SAFETY_FRAME_FAULT_EVENT seq 8 ts)
    (fault_event_bytes (mkFaultEvent SAFETY_FAULT_TASK_HANG 1 1 now)).

Definition recovery_frame (seq ts now : Z) : list Z :=
  frame_bytes (safety_frame_init SAFETY_FRAME_RECOVERY_REPORT seq 8 ts)
    (recovery_report_bytes
       (mkRecoveryReport 1 (link_state_value SAFETY_LINK_RECOVERING) 0 now)).

(** ** Whole callbacks

    Both callbacks change the link state first and then report with a
    synthesized frame, which is dropped and counted when the queue is full. *)

(** What [safety_synth_*] does to a device: [frame ts now] is appended, or the
    drop is counted. *)
Definition reported (frame : Z -> Z -> list Z) d d' : Prop :=
  synth_seq d' = u16 (synth_seq d + 1) /\
  if kfifo_is_full (rx_fifo d)
  then rx_fifo d' = rx_fifo d /\ dropped_frame_count d' = u32 (dropped_frame_count d + 1)
  else dropped_frame_count d' = dropped_frame_count d /\
       exists ts now, is_u32 ts /\ is_u32 now /\
         kfifo_view (rx_fifo d') = kfifo_view (rx_fifo d) ++ [mkSlot 24 (frame ts now)].

(** The fields a report leaves alone. *)
Definition same_control d d' : Prop :=
  state d' = state d /\ hb_timer d' = hb_timer d /\ hb_timeout_ms d' = hb_timeout_ms d /\
  recovery_work d' = recovery_work d /\ heartbeat_count d' = heartbeat_count d /\
  timeout_count d' = timeout_count d /\ retry_count d' = retry_count d /\
  fault_count d' = fault_count d /\ last_fault_type d' = last_fault_type d /\
  last_fault_detail d' = last_fault_detail d /\ tx_fifo d' = tx_fifo d.

Lemma synth_report_spec (ty : Z) (payload : Z -> list Z) ev w :
  is_u8 ty -> (forall now, bytes_ok (payload now)) ->
  (forall now, length (payload now) = 8%nat) -> is_u16 (synth_seq (w_dev w)) ->
  exists r w',
    run (now ← atomic safety_now_ms; safety_synth_and_push ty (payload now) 8 ev) w = (r, w') /\
    reported (fun ts now => frame_bytes (safety_frame_init ty (synth_seq (w_dev w)) 8 ts)
                              (payload now)) (w_dev w) (w_dev w') /\
    same_control (w_dev w) (w_dev w').
Proof.
  intros Hty Hb Hlen Hseq. destruct (now_ms_run w) as (now & Hnow & Hrun).
  rewrite run_bind, Hrun. cbn [fst snd].
  specialize (Hb now). specialize (Hlen now). unfold reported.
  destruct (kfifo_is_full (rx_fifo (w_dev w))) eqn:Hf.
  - destruct (synth_full ty (payload now) ev (w <| w_now ::= S |>))
      as (w' & Hr & (? & ? & ? & ? & ? & HB) & _); [done|done|lia|done|done|].
    rewrite Hlen in Hr. eexists _, w'. split; [exact Hr|]. rewrite HB. by split.
  - destruct (synth_room ty (payload now) ev (w <| w_now ::= S |>))
      as (ts & q & w' & Hts & Hr & Hq & (? & ? & ? & ? & ? & HB) & _);
      [done|done|lia|done|done|].
    rewrite Hlen in Hr, Hq. eexists _, w'. split; [exact Hr|]. rewrite HB.
    split; [|by split]. split; [done|]. split; [done|]. by exists ts, now.
Qed.

Lemma hb_timer_spec w :
  is_u16 (synth_seq (w_dev w)) ->
  exists w',
    run hb_timer_fn w = (tt, w') /\
    let d := w_dev w in let d' := w_dev w' in
    state d' = SAFETY_LINK_HB_TIMEOUT /\ timeout_count d' = u32 (timeout_count d + 1) /\
    fault_count d' = u32 (fault_count d + 1) /\
    last_fault_type d' = SAFETY_FAULT_TASK_HANG /\ last_fault_detail d' = 1 /\
    hrtimer_pending (hb_timer d') = None /\ work_pending (recovery_work d') = true /\
    hb_timeout_ms d' = hb_timeout_ms d /\ heartbeat_count d' = heartbeat_count d /\
    tx_fifo d' = tx_fifo d /\ reported (timeout_frame (synth_seq d)) d d'.
Proof.
  intros Hseq. unfold hb_timer_fn. rewrite run_bind, run_atomic.
  set (w0 := (dev_set _ w).2). cbn [fst snd].
  destruct (hb_timeout_locked_spec w0) as (ts & w1 & Hl & (? & ? & ? & ? & ? & HB) & _).
  rewrite run_bind, run_atomic, Hl. cbn [fst snd]. rewrite run_bind, run_atomic. cbn [fst snd].
  set (w2 := (trace _ w1).2). assert (w_dev w2 = w_dev w1) as E2 by done. clearbody w2.
  destruct (synth_report_spec SAFETY_FRAME_FAULT_EVENT
    (fun now => fault_event_bytes (mkFaultEvent SAFETY_FAULT_TASK_HANG 1 1 now))
    SAFETY_TL_FAULT_INJECT w2) as (r & w3 & Hr & Hrep & Hsame);
    [unfold SAFETY_FRAME_FAULT_EVENT; cbn; lia|intros; apply fault_event_bytes_ok|done
    |rewrite E2, HB; exact Hseq|].
  rewrite run_bind. unfold safety_synth_fault_event. rewrite Hr. cbn [fst snd].
  eexists. split; [reflexivity|]. rewrite E2, HB in Hrep, Hsame. cbn.
  destruct Hsame as (-> & -> & -> & -> & -> & -> & _ & -> & -> & -> & ->).
  repeat (split; [solve [done | apply hrtimer_pending_expired | apply work_pending_schedule]|]).
  exact Hrep.
Qed.

Lemma recovery_work_spec w :
  is_u16 (synth_seq (w_dev w)) ->
  exists w',
    run recovery_work_fn w = (tt, w') /\
    let d := w_dev w in let d' := w_dev w' in
    state d' = SAFETY_LINK_RECOVERING /\ retry_count d' = u32 (retry_count d + 1) /\
    work_pending (recovery_work d') = false /\ hb_timer d' = hb_timer d /\
    timeout_count d' = timeout_count d /\ heartbeat_count d' = heartbeat_count d /\
    tx_fifo d' = tx_fifo d /\ reported (recovery_frame (synth_seq d)) d d'.
Proof.
  intros Hseq. unfold recovery_work_fn. rewrite run_bind, run_atomic.
  set (w0 := (dev_set _ w).2). cbn [fst snd].
  destruct (recovery_locked_spec w0) as (w1 & Hl & (? & ? & ? & ? & ? & HB) & _).
  rewrite run_bind, run_atomic, Hl. cbn [fst snd]. rewrite run_bind, run_atomic. cbn [fst snd].
  set (w2 := (trace _ w1).2). assert (w_dev w2 = w_dev w1) as E2 by done. clearbody w2.
  destruct (synth_report_spec SAFETY_FRAME_RECOVERY_REPORT
    (fun now => recovery_report_bytes
       (mkRecoveryReport 1 (link_state_value SAFETY_LINK_RECOVERING) 0 now))
    SAFETY_TL_RECOVERY w2) as (r & w3 & Hr & Hrep & Hsame);
    [unfold SAFETY_FRAME_RECOVERY_REPORT; cbn; lia|intros; apply recovery_report_bytes_ok|done
    |rewrite E2, HB; exact Hseq|].
  rewrite run_bind. unfold safety_synth_recovery_report. rewrite Hr. cbn [fst snd].
  exists w3. split; [reflexivity|]. rewrite E2, HB in Hrep, Hsame. cbn.
  destruct Hsame as (-> & -> & _ & -> & -> & -> & -> & _ & _ & _ & ->).
  repeat (split; [solve [done | apply work_pending_begin]|]). exact Hrep.
Qed.

(** ** Per-CPU statistics *)

(** A counter summed over the CPUs. *)
Definition cpu_total (f : safety_copro_pcpu -> Z) (l : list safety_copro_pcpu) : Z :=
  foldr (fun p s => f p + s) 0 l.

Lemma pcpu_add_total l s :
  foldl pcpu_add s l =
  match l with
  | [] => s
  | _ => mkPcpu (u64 (rx_frames s + cpu_total rx_frames l))
           (u64 (Device.dropped s + cpu_total Device.dropped l))
           (u64 (bytes s + cpu_total bytes l))
  end.
Proof.
  revert s. induction l as [|p l IH]; intros s; [done|]. cbn [foldl]. rewrite IH.
  destruct l as [|p' l]; unfold cpu_total, pcpu_add; cbn [foldr].
  - by rewrite !Z.add_0_r.
  - cbn [rx_frames Device.dropped bytes]. by rewrite !u64_add_u64_l, !Z.add_assoc.
Qed.

(** Both with nothing in between. *)
Lemma percpu_read_run cpu w : run (percpu_read cpu) w = (cpu_counters (w_dev w) cpu, w).
Proof. unfold percpu_read. step_run. cbn [dev_get fst snd]. by destruct (cpu_counters (w_dev w) cpu). Qed.

Lemma percpu_clear_run cpu w :
  pcpu (w_dev (run (percpu_clear cpu) w).2) = alter (fun _ => pcpu_zero) cpu (pcpu (w_dev w)).
Proof.
  unfold percpu_clear. step_run. unfold dev_set. cbn. apply list_eq. intros i. destruct (decide (cpu = i)) as [->|Hne].
  - rewrite !list_lookup_alter_eq. by destruct (_ !! i).
  - by rewrite !list_lookup_alter_ne.
Qed.

Lemma percpu_sum_run w :
  length (pcpu (w_dev w)) = nr_cpus ->
  run safety_percpu_sum w = (foldl pcpu_add pcpu_zero (pcpu (w_dev w)), w).
Proof.
  intros Hl. unfold safety_percpu_sum. rewrite <- Hl.
  assert (forall l pre s, pcpu (w_dev w) = pre ++ l ->
    run (percpu_sum_from (length pre) (length l) s) w = (foldl pcpu_add s l, w)) as H;
    [|by apply (H _ [])].
  induction l as [|p l IH]; intros pre s Hp; [done|]. cbn [length percpu_sum_from].
  rewrite run_bind, percpu_read_run. cbn [fst snd]. unfold cpu_counters at 1.
  rewrite Hp, list_lookup_middle by done. cbn [default foldl].
  replace (S (length pre)) with (length (pre ++ [p])) by (rewrite length_app; cbn; lia).
  apply IH. by rewrite <- app_assoc.
Qed.

Lemma cpu_total_alter (f : safety_copro_pcpu -> Z) g i l p (c : Z) :
  l !! i = Some p -> f (g p) = u64 (f p + c) ->
  u64 (cpu_total f (alter g i l)) = u64 (cpu_total f l + c).
Proof.
  revert i. induction l as [|q l IH]; intros [|i] Hi Hg; simplify_eq/=.
  - rewrite Hg, u64_add_u64_l. f_equal. lia.
  - rewrite <- u64_add_u64_r, (IH i) by done. rewrite u64_add_u64_r. f_equal. lia.
Qed.

Lemma cpu_total_alter_same f g i l :
  (forall p, f (g p) = f p) -> cpu_total f (alter g i l) = cpu_total f l.
Proof.
  intros Hg. revert i. induction l as [|q l IH]; intros [|i]; simplify_eq/=; [done|done| |].
  - by rewrite Hg.
  - by rewrite IH.
Qed.

Lemma percpu_reset_run w :
  length (pcpu (w_dev w)) = nr_cpus ->
  pcpu (w_dev (run safety_percpu_reset w).2) = replicate nr_cpus pcpu_zero.
Proof.
  intros Hl. unfold safety_percpu_reset. rewrite <- Hl. clear Hl.
  assert (forall n c w, pcpu (w_dev w) = replicate c pcpu_zero ++ drop c (pcpu (w_dev w)) ->
    length (pcpu (w_dev w)) = (c + n)%nat ->
    pcpu (w_dev (run (percpu_reset_from c n) w).2) = replicate (c + n) pcpu_zero) as H;
    [|by apply (H _ 0%nat); [rewrite drop_0|]].
  clear w. induction n as [|n IH]; intros c w Hp Hl; cbn [percpu_reset_from].
  - rewrite run_ret. cbn [snd]. rewrite Hp, drop_ge, app_nil_r, Nat.add_0_r by lia. done.
  - rewrite run_bind. set (w1 := (run (percpu_clear c) w).2). cbn [snd fst].
    assert (pcpu (w_dev w1) = alter (fun _ => pcpu_zero) c (pcpu (w_dev w))) as Hw1 by apply percpu_clear_run.
    destruct (drop c (pcpu (w_dev w))) as [|p l] eqn:Hd.
    { pose proof (length_drop (pcpu (w_dev w)) c) as H. rewrite Hd in H. cbn in H. lia. }
    assert (pcpu (w_dev w1) = replicate (S c) pcpu_zero ++ l) as Hp1.
    { rewrite Hw1, Hp, alter_app_r_alt by (rewrite length_replicate; lia).
      rewrite length_replicate, Nat.sub_diag. cbn [alter list_alter].
      trans (replicate c pcpu_zero ++ [pcpu_zero] ++ l); [done|].
      by rewrite app_assoc, <- replicate_S_end. }
    rewrite Nat.add_succ_r. apply (IH (S c)).
    + rewrite Hp1, drop_app_length'; [done|]. by rewrite length_replicate.
    + rewrite Hw1, length_alter. lia.
Qed.

End Spec.

#[global] Arguments cpu_total : simpl never.
