(* ===== verification/DriverSim.v ===== *)
(** * A concrete driver instance

    The simulated kernel of [KernelApi.Sim] with a device as
    [safety_copro_init] leaves it, on which the witnesses of the driver
    theorems evaluate. *)

From S2P Require Import Prelude Crc32 Protocol KernelApi Device Kfifo Watchdog Chrdev DriverMain DriverInv.

Definition SimK : KernelApi safety_fifo_slot := Sim.api safety_fifo_slot.
#[global] Instance sim_ok : KernelOk SimK := Sim.ok safety_fifo_slot.

(** An empty queue of four slots. *)
Definition sim_fifo : @kfifo _ SimK := exist _ (4, []) eq_refl.

Definition sim_env : init_env SimK := mkInitEnv true (inr sim_fifo) (inr sim_fifo) true 0 true.

Definition sim_dev : safety_copro_dev SimK :=
  safety_recovery_init (safety_timer_init
    (init_dev 350 4 sim_fifo sim_fifo (replicate 2 pcpu_zero))) <| debugfs_dir := true |>.

Lemma sim_init : g_safety_dev (safety_copro_init 0 4 sim_env) = Some sim_dev.
Proof. reflexivity. Qed.

Definition sim_world : world SimK := mkWorld sim_dev 0 [].

Lemma sim_wf : wf 4 sim_world.
Proof.
  constructor; try done; try constructor; try (cbn; lia).
Qed.

(** A heartbeat and a command frame. *)
Definition sim_heartbeat : list Z :=
  frame_bytes (safety_frame_init SAFETY_FRAME_HEARTBEAT 7 8 1234)
    (heartbeat_bytes (mkHeartbeat 1234 7)).
Definition sim_command : list Z :=
  frame_bytes (safety_frame_init SAFETY_FRAME_COMMAND 3 8 99)
    (command_bytes (mkCommand SAFETY_CMD_REQUEST_RECOVERY 0 0 0)).

Lemma sim_heartbeat_ok : bytes_ok sim_heartbeat.
Proof. vm_compute. repeat constructor; discriminate. Qed.
Lemma sim_command_ok : bytes_ok sim_command.
Proof. vm_compute. repeat constructor; discriminate. Qed.
Lemma sim_heartbeat_framed : framed sim_heartbeat.
Proof. vm_compute. repeat split; discriminate. Qed.
