(* ===== verification/DriverRefine.v ===== *)
(** * The driver as a pair of bounded queues

    What the character device promises to its two clients: link daemon and
    supervisor see two bounded FIFO queues of frames.  [Link] is that abstract
    machine, [device_op] is the system call that implements each of its
    operations, and [op_refines] is the simulation step. *)

From S2P Require Import Prelude Crc32 Protocol KernelApi Device Kfifo Watchdog Chrdev DriverMain DriverInv DriverSpec DriverSim.

(** ** The abstract machine *)

Record link := mkLink { l_rx : list (list Z); l_tx : list (list Z) }.

Inductive link_op :=
| Push (frame : list Z)      (* linkd: a frame arrived on the serial line *)
| Read (count : Z)           (* supervisor: non-blocking read of [count] bytes *)
| Write (buf : list Z)       (* supervisor: send a frame *)
| Pop.                       (* linkd: fetch the next frame to transmit *)

(** The [struct safety_copro_frame_io] that carries [frame]. *)
Definition io_bytes (frame : list Z) : list Z :=
  le_bytes 4 (Z.of_nat (length frame)) ++ take 272 (frame ++ replicate 272 0).

Definition link_step (depth : Z) (op : link_op) (l : link) : (Z * list Z) * link :=
  match op with
  | Push f =>
      if decide (272 < Z.of_nat (length f)) then ((- EMSGSIZE, []), l)
      else if decide (~ framed f) then ((- EINVAL, []), l)
      else if decide (Z.of_nat (length (l_rx l)) < depth)
      then ((0, []), mkLink (l_rx l ++ [f]) (l_tx l))
      else ((- ENOSPC, []), l)
  | Read count =>
      match l_rx l with
      | [] => ((- EAGAIN, []), l)
      | f :: q => (if decide (count < Z.of_nat (length f)) then (- EINVAL, [])
                   else (Z.of_nat (length f), f), mkLink q (l_tx l))
      end
  | Write f =>
      if decide (Z.of_nat (length f) < 16) then ((- EINVAL, []), l)
      else if decide (272 < Z.of_nat (length f)) then ((- EMSGSIZE, []), l)
      else if decide (safety_frame_validate f (Z.of_nat (length f)) <> SAFETY_VALIDATE_OK)
      then ((- EINVAL, []), l)
      else if decide (Z.of_nat (length (l_tx l)) < depth)
      then ((Z.of_nat (length f), []), mkLink (l_rx l) (l_tx l ++ [f]))
      else ((- EAGAIN, []), l)
  | Pop =>
      match l_tx l with
      | [] => ((- EAGAIN, []), l)
      | f :: q => ((0, io_bytes f), mkLink (l_rx l) q)
      end
  end.

Fixpoint link_run (depth : Z) (ops : list link_op) (l : link) : list (Z * list Z) * link :=
  match ops with
  | [] => ([], l)
  | op :: ops =>
      let '(r, l) := link_step depth op l in
      let '(rs, l) := link_run depth ops l in (r :: rs, l)
  end.

(** The frames and buffers handed to the driver hold bytes, fewer than 2^32. *)
Definition op_ok (op : link_op) : Prop :=
  match op with
  | Push f | Write f => bytes_ok f /\ Z.of_nat (length f) < 2 ^ 32
  | Read _ | Pop => True
  end.

(** ** The implementation *)

Section Refine.
Context {K : KernelApi safety_fifo_slot}.

Definition device_op (op : link_op) : prog (world K) (Z * list Z) :=
  match op with
  | Push f => safety_ioctl SAFETY_IOC_PUSH_RX_FRAME (Some (io_bytes f)) true
  | Read count => r ← safety_read true [] count true; mret (default (0, []) r)
  | Write f => r ← safety_write (Some f) (Z.of_nat (length f)); mret (r, [])
  | Pop => safety_ioctl SAFETY_IOC_POP_TX_FRAME None true
  end.

Fixpoint device_run (ops : list link_op) : prog (world K) (list (Z * list Z)) :=
  match ops with
  | [] => mret []
  | op :: ops => r ← device_op op; rs ← device_run ops; mret (r :: rs)
  end.

Context {KO : KernelOk K}.

Definition link_of (w : world K) : link :=
  mkLink (slot_data <$> kfifo_view (rx_fifo (w_dev w)))
         (slot_data <$> kfifo_view (tx_fifo (w_dev w))).

(** ** ioctl dispatch *)

(** Command numbers differ in their sequence number. *)
Lemma ioc_neq cmd d n s :
  0 <= d < 4 -> is_u8 n -> 0 <= s < 2 ^ 14 -> _IOC_NR cmd <> n ->
  (cmd =? _IOC d SAFETY_IOC_MAGIC n s) = false.
Proof.
  intros Hd Hn Hs Hne. apply Z.eqb_neq. intros ->. by apply Hne, IOC_nr.
Qed.

Ltac ioc_dispatch nr :=
  let Hnr := fresh "Hnr" in
  unfold safety_ioctl;
  match goal with
  | |- context [_IOC_TYPE ?cmd] =>
      assert (_IOC_TYPE cmd = SAFETY_IOC_MAGIC) as ->
        by (apply IOC_type; unfold SAFETY_IOC_MAGIC; cbn; lia);
      assert (_IOC_NR cmd = nr) as Hnr
        by (apply IOC_nr; unfold SAFETY_IOC_MAGIC; cbn; lia);
      rewrite Hnr, Z.eqb_refl; cbn [negb];
      change (nr >? SAFETY_IOC_MAXNR) with false; cbn match
  end;
  rewrite ?Z.eqb_refl;
  repeat match goal with
  | |- (if ?cmd =? ?c then _ else _) = _ =>
      replace (cmd =? c) with false
        by (symmetry; apply ioc_neq; rewrite ?Hnr; cbn; lia)
  end.

Lemma ioctl_push_rx arg :
  safety_ioctl SAFETY_IOC_PUSH_RX_FRAME arg true = no_out (ioc_push_rx_frame arg).
Proof. ioc_dispatch 7. done. Qed.

Lemma ioctl_get_stats arg ok :
  safety_ioctl SAFETY_IOC_GET_STATS arg ok = ioc_get_stats ok.
Proof. ioc_dispatch 1. done. Qed.

Lemma ioctl_pop_tx arg :
  safety_ioctl SAFETY_IOC_POP_TX_FRAME arg true = ioc_pop_tx_frame true.
Proof. ioc_dispatch 8. done. Qed.

Lemma ioctl_force_recovery arg :
  safety_ioctl SAFETY_IOC_FORCE_RECOVERY arg true = (_ ← safety_recovery_schedule; mret (0, [])).
Proof. ioc_dispatch 5. done. Qed.

Lemma ioctl_inject_fault arg :
  safety_ioctl SAFETY_IOC_INJECT_FAULT arg true = no_out (ioc_inject_fault arg).
Proof. ioc_dispatch 6. done. Qed.

(** ** Simulation *)

Lemma io_bytes_len f : Z.of_nat (length f) < 2 ^ 32 -> field 0 4 (io_bytes f) = Z.of_nat (length f).
Proof.
  intros H. unfold io_bytes. rewrite field_app_l, field_le_bytes by (rewrite ?length_le_bytes; lia).
  apply Z.mod_small. lia.
Qed.

Lemma io_bytes_data f : slice 4 272 (io_bytes f) = take 272 (f ++ replicate 272 0).
Proof.
  unfold slice, io_bytes. rewrite drop_app_length' by (by rewrite length_le_bytes).
  by rewrite take_take, Nat.min_id.
Qed.

Lemma io_bytes_data_short f :
  (length f <= 272)%nat ->
  take 272 (f ++ replicate 272 0) = f ++ replicate (272 - length f) 0.
Proof. intros H. rewrite take_app_ge, take_replicate by lia. do 2 f_equal. lia. Qed.

Lemma full_view (q : kfifo) :
  kfifo_is_full q = (kfifo_size q <=? Z.of_nat (length (kfifo_view q))).
Proof. by rewrite kfifo_is_full_view, kfifo_len_view. Qed.

Lemma link_of_eq (w w' : world K) :
  rx_fifo (w_dev w') = rx_fifo (w_dev w) -> tx_fifo (w_dev w') = tx_fifo (w_dev w) ->
  link_of w' = link_of w.
Proof. unfold link_of. by intros -> ->. Qed.

Context (depth : Z).

Lemma push_refines f w :
  wf depth w -> op_ok (Push f) ->
  (run (device_op (Push f)) w).1 = (link_step depth (Push f) (link_of w)).1 /\
  link_of (run (device_op (Push f)) w).2 = (link_step depth (Push f) (link_of w)).2.
Proof.
  intros Hwf [Hb Hlen]. cbn [device_op link_step]. rewrite ioctl_push_rx. unfold no_out.
  rewrite run_bind, run_ret. cbn [fst snd]. unfold ioc_push_rx_frame.
  rewrite io_bytes_len by done. change SAFETY_MAX_FRAME_SIZE with 272.
  change (Z.to_nat 272) with 272%nat. rewrite io_bytes_data.
  case_decide as H1; [rewrite Z.gtb_ltb, (proj2 (Z.ltb_lt _ _)) by lia; done|].
  rewrite Z.gtb_ltb, (proj2 (Z.ltb_ge _ _)) by lia.
  rewrite io_bytes_data_short, queue_rx_prefix by lia.
  case_decide as H2.
  { destruct (queue_rx_reject f w H2) as (w' & -> & Hr & Ht & _); [lia|].
    split; [done|by apply link_of_eq]. }
  destruct (kfifo_is_full (rx_fifo (w_dev w))) eqn:Hf.
  - destruct (queue_rx_full f w Hb H2 Hf) as (w' & -> & Hr & Ht & _).
    rewrite full_view, (wf_rx_size _ _ Hwf) in Hf. cbn. rewrite length_fmap.
    rewrite decide_False by lia. split; [done|by apply link_of_eq].
  - destruct (queue_rx_room f w Hb H2 Hf) as (w' & -> & Hr & _ & _ & _ & _ & _ & Ht & _).
    rewrite full_view, (wf_rx_size _ _ Hwf) in Hf. cbn. rewrite length_fmap.
    rewrite decide_True by lia. split; [done|].
    unfold link_of. cbn [fst snd]. by rewrite Hr, Ht, fmap_app.
Qed.

Lemma read_refines count w :
  wf depth w ->
  (run (device_op (Read count)) w).1 = (link_step depth (Read count) (link_of w)).1 /\
  link_of (run (device_op (Read count)) w).2 = (link_step depth (Read count) (link_of w)).2.
Proof.
  intros Hwf. cbn [device_op link_step]. pose proof (wf_rx _ _ Hwf) as Hrx.
  change (l_rx (link_of w)) with (slot_data <$> kfifo_view (rx_fifo (w_dev w))).
  unfold safety_read. cbn [safety_read_wait].
  rewrite !run_bind.
  destruct (kfifo_view (rx_fifo (w_dev w))) as [|s q] eqn:Hv.
  - rewrite pop_frame_none by done. cbn. split; [done|]. unfold link_of. by rewrite Hv.
  - destruct (pop_frame_some s q w slot_buffer Hv) as (fq & -> & Hfq & _).
    apply Forall_cons_1 in Hrx as [(Hb & Hl & Hf) _].
    destruct (framed_length _ Hb Hf) as [Hlen _]. cbn [fst snd fmap list_fmap].
    rewrite (proj2 (Z.eqb_neq _ _)) by lia. cbn [negb run fst snd mret prog_ret].
    rewrite Hl. case_decide as Hc.
    + rewrite (proj2 (Z.ltb_lt _ _)) by lia. split; [done|]. unfold link_of. cbn. by rewrite Hfq.
    + rewrite (proj2 (Z.ltb_ge _ _)), Nat2Z.id, take_ge by lia. split; [done|].
      unfold link_of. cbn. by rewrite Hfq.
Qed.

Lemma write_refines f w :
  wf depth w -> op_ok (Write f) ->
  (run (device_op (Write f)) w).1 = (link_step depth (Write f) (link_of w)).1 /\
  link_of (run (device_op (Write f)) w).2 = (link_step depth (Write f) (link_of w)).2.
Proof.
  intros Hwf [Hb Hlen]. cbn [device_op link_step]. rewrite run_bind, run_ret. cbn [fst snd].
  case_decide as H1.
  { unfold safety_write, SAFETY_HEADER_SIZE. rewrite (proj2 (Z.ltb_lt _ _)) by lia. done. }
  case_decide as H2.
  { unfold safety_write, SAFETY_HEADER_SIZE. change SAFETY_MAX_FRAME_SIZE with 272.
    rewrite (proj2 (Z.ltb_ge _ _)), Z.gtb_ltb, (proj2 (Z.ltb_lt _ _)) by lia. done. }
  case_decide as H3.
  { destruct (write_reject f w) as (w' & -> & Hr & Ht); [lia|done|].
    split; [done|by apply link_of_eq]. }
  destruct (write_valid f w Hb) as (w' & Hr & H); [lia|done|].
  cbn [l_tx link_of]. rewrite length_fmap. rewrite full_view, (wf_tx_size _ _ Hwf) in H.
  case_decide as H4.
  - rewrite (proj2 (Z.leb_gt _ _)) in H by lia. destruct H as [-> Ht]. split; [done|].
    unfold link_of. cbn [fst snd]. by rewrite Hr, Ht, fmap_app.
  - rewrite (proj2 (Z.leb_le _ _)) in H by lia. destruct H as [-> Ht]. split; [done|].
    by apply link_of_eq.
Qed.

Lemma pop_refines w :
  wf depth w ->
  (run (device_op Pop) w).1 = (link_step depth Pop (link_of w)).1 /\
  link_of (run (device_op Pop) w).2 = (link_step depth Pop (link_of w)).2.
Proof.
  intros Hwf. cbn [device_op link_step]. pose proof (wf_tx _ _ Hwf) as Htx.
  rewrite ioctl_pop_tx. unfold ioc_pop_tx_frame. rewrite run_bind.
  change (l_tx (link_of w)) with (slot_data <$> kfifo_view (tx_fifo (w_dev w))).
  destruct (kfifo_view (tx_fifo (w_dev w))) as [|s q] eqn:Hv.
  - rewrite pop_tx_none by done. cbn. split; [done|]. unfold link_of. by rewrite Hv.
  - destruct (pop_tx_some s q w slot_buffer Hv) as (fq & -> & Hfq & _).
    apply Forall_cons_1 in Htx as [(Hb & Hl & Hm & Hok) _].
    destruct (validate_ok_inv (slot_data s) (slot_len s) Hb ltac:(lia) Hok) as (h & p & rest & _ & Hd & Hlen & _).
    cbn [fst snd fmap list_fmap negb]. rewrite (proj2 (Z.eqb_neq _ _)) by lia.
    rewrite run_ret. change SAFETY_MAX_FRAME_SIZE with 272 in *. cbn [fst snd].
    split; [|unfold link_of; cbn; by rewrite Hfq].
    unfold io_bytes. rewrite Hl, Nat2Z.id, take_ge, io_bytes_data_short by lia.
    unfold overwrite. rewrite take_0, app_nil_l, drop_replicate. done.
Qed.

(** The system calls preserve the driver invariant. *)
Lemma length_io_bytes f : length (io_bytes f) = 276%nat.
Proof.
  unfold io_bytes. rewrite length_app, length_le_bytes, length_take, length_app, length_replicate.
  lia.
Qed.

Lemma device_op_safe op :
  0 <= depth -> op_ok op -> safe (wf depth) (fun _ => True) (device_op op).
Proof.
  intros Hd Hop. destruct op as [f|count|f|]; cbn [device_op].
  - apply safe_ioctl; [done|]. intros l Hl. simplify_eq. rewrite length_io_bytes.
    split; [|done]. destruct Hop as [Hb _]. unfold io_bytes. rewrite bytes_ok_app.
    split; [auto with safety|]. apply bytes_ok_take, bytes_ok_app. split; [done|].
    apply Forall_replicate. cbn. lia.
  - by apply safe_seq; [apply safe_read|].
  - apply safe_seq; [|done]. apply safe_write. intros l Hl. simplify_eq. by destruct Hop.
  - by apply safe_ioctl.
Qed.

Lemma op_refines op w :
  0 <= depth -> wf depth w -> op_ok op ->
  let r := run (device_op op) w in
  r.1 = (link_step depth op (link_of w)).1 /\
  link_of r.2 = (link_step depth op (link_of w)).2 /\ wf depth r.2.
Proof.
  intros Hd Hwf Hop r. unfold r. clear r. apply and_assoc.
  split; [|by apply (safe_run _ _ _ _ (device_op_safe op Hd Hop) Hwf)].
  destruct op; [apply push_refines|apply read_refines|apply write_refines|apply pop_refines]; done.
Qed.

(** Any sequence of them. *)
Lemma device_run_refines ops w :
  0 <= depth -> wf depth w -> Forall op_ok ops ->
  let r := run (device_run ops) w in
  r.1 = (link_run depth ops (link_of w)).1 /\
  link_of r.2 = (link_run depth ops (link_of w)).2 /\ wf depth r.2.
Proof.
  intros Hd. revert w. induction ops as [|op ops IH]; intros w Hwf Hops; [done|].
  apply Forall_cons_1 in Hops as [Hop Hops]. cbn [device_run link_run].
  destruct (op_refines op w Hd Hwf Hop) as (H1 & H2 & Hwf').
  step_run. destruct (IH _ Hwf' Hops) as (H3 & H4 & H5). rewrite H1, H3, H4, H2.
  destruct (link_step depth op (link_of w)) as [r l]. cbn [fst snd].
  by destruct (link_run depth ops l).
Qed.

End Refine.

Module Props.
Section Props.
Context {K : KernelApi safety_fifo_slot} {KO : KernelOk K}.

(** C6. Refinement: for every sequence of system calls of the link daemon
    (PUSH_RX_FRAME, POP_TX_FRAME) and the supervisor (non-blocking read, write)
    on a well-formed device of queue depth [depth], the driver returns exactly
    the values and bytes the abstract pair of bounded FIFO queues [link_run]
    returns, error codes included, and leaves the queues it leaves. *)
Theorem device_refines_link depth ops (w : world K) :
  0 <= depth -> wf depth w -> Forall op_ok ops ->
  (run (device_run ops) w).1 = (link_run depth ops (link_of w)).1 /\
  link_of (run (device_run ops) w).2 = (link_run depth ops (link_of w)).2.
Proof.
  intros Hd Hwf Hops. by destruct (device_run_refines depth ops w Hd Hwf Hops) as (H1 & H2 & _).
Qed.

End Props.

Lemma device_refines_link_witness :
  let ops := [Push sim_heartbeat; Write sim_command; Push [1; 2]; Read 272; Read 272; Pop; Pop] in
  (run (device_run ops) sim_world).1 =
  [(0, []); (24, []); (- EINVAL, []); (24, sim_heartbeat); (- EAGAIN, []);
   (0, io_bytes sim_command); (- EAGAIN, [])].
Proof.
  intros ops. etrans.
  - refine (proj1 (device_refines_link 4 ops sim_world _ sim_wf _)); [lia|].
    repeat constructor; try apply sim_heartbeat_ok; try apply sim_command_ok;
      try (by vm_compute); cbn; lia.
  - vm_compute. reflexivity.
Defined.

End Props.
