(* ===== verification/DriverProps.v ===== *)
(** * Properties of the kernel driver *)

From S2P Require Import Prelude Crc32 Protocol KernelApi Device Kfifo Watchdog Chrdev DriverMain DriverInv DriverSpec DriverSim DriverRefine.

(** ** Entry points and initial states *)

Section Entry.
Context {K : KernelApi safety_fifo_slot}.

(** A user buffer of [count] bytes, if it is mapped. *)
Definition user_buffer (ubuf : option (list Z)) (count : Z) : Prop :=
  forall l, ubuf = Some l -> bytes_ok l /\ count <= Z.of_nat (length l).

(** Every thread that may run inside the driver: file operations of any
    process, the watchdog callback and the recovery work. *)
Inductive driver_entry : prog (world K) unit -> Prop :=
| entry_read nonblock waits count ok :
    driver_entry (_ ← safety_read nonblock waits count ok; mret tt)
| entry_write ubuf count :
    user_buffer ubuf count -> driver_entry (_ ← safety_write ubuf count; mret tt)
| entry_poll : driver_entry (_ ← safety_poll; mret tt)
| entry_ioctl cmd arg ok :
    user_memory arg -> driver_entry (_ ← safety_ioctl cmd arg ok; mret tt)
| entry_timer : driver_entry hb_timer_fn
| entry_work : driver_entry recovery_work_fn.

Context {KO : KernelOk K}.

Lemma driver_entry_safe depth p :
  0 <= depth -> driver_entry p -> safe (wf depth) (fun _ => True) p.
Proof.
  intros Hd. destruct 1; try (apply safe_seq; [|done]).
  - apply safe_read.
  - by apply safe_write.
  - apply safe_poll.
  - by apply safe_ioctl.
  - apply safe_hb_timer.
  - apply safe_recovery_work.
Qed.

(** The two queues [kfifo_alloc] returned are empty and of the depth asked for. *)
Definition fresh_queues (depth : Z) (env : init_env K) : Prop :=
  (forall q, rx_alloc env = inr q -> kfifo_view q = [] /\ kfifo_size q = depth) /\
  (forall q, tx_alloc env = inr q -> kfifo_view q = [] /\ kfifo_size q = depth).

Lemma init_depth_pos fdp : 0 <= fdp <= 2 ^ 31 -> 0 < init_depth fdp.
Proof.
  intros H. unfold init_depth, SAFETY_DEFAULT_FIFO_DEPTH.
  rewrite roundup_pow_of_two_spec by (case_test; lia).
  apply Z.pow_pos_nonneg; [lia|]. apply Z.log2_up_nonneg.
Qed.

Lemma init_wf hbp fdp env dev :
  is_u32 hbp -> 0 <= fdp <= 2 ^ 31 -> fresh_queues (init_depth fdp) env ->
  g_safety_dev (safety_copro_init hbp fdp env) = Some dev ->
  dev_wf (init_depth fdp) dev /\
  state dev = SAFETY_LINK_BOOTING /\ hrtimer_pending (hb_timer dev) = None /\
  work_pending (recovery_work dev) = false.
Proof.
  intros Hhb Hfd [Hrx Htx] H. pose proof (init_depth_pos fdp Hfd).
  unfold safety_copro_init in H.
  destruct (kzalloc_ok env); [|done]. cbn [negb] in H.
  destruct (rx_alloc env) as [|rx]; [done|]. destruct (Hrx rx eq_refl) as [Hrxv Hrxs].
  destruct (tx_alloc env) as [|tx]; [done|]. destruct (Htx tx eq_refl) as [Htxv Htxs].
  destruct (alloc_percpu_ok env); [|done]. cbn in H.
  destruct (negb _); [done|].
  destruct (debugfs_create_ok env); cbn in H; simplify_eq; (split; [constructor|]); try done;
    try (cbn; rewrite ?Hrxv, ?Htxv; constructor); try (cbn; apply length_replicate);
    cbn; rewrite ?hrtimer_pending_init, ?work_pending_init; try done;
    unfold counters_ok, proto_errors_ok, SAFETY_DEFAULT_HB_TIMEOUT_MS in *; cbn in *;
    try (case_test; lia); repeat split; lia.
Qed.

End Entry.

Module Props.
Section Props.
Context {K : KernelApi safety_fifo_slot} {KO : KernelOk K}.

(** C5. Driver invariant under concurrency: from the state a successful
    [safety_copro_init] leaves, whatever reads, writes, polls, ioctls, watchdog
    callbacks and recovery works run and however their critical sections
    interleave, the device stays well-formed: both queues within their depth and
    holding only well-formed frames (RX) or frames that passed validation (TX),
    high watermark within the depth, timeline indices in range, counters in
    their width, and the protocol error total equal to the sum of its classes. *)
Theorem driver_invariant hbp fdp (env : init_env K) dev c :
  is_u32 hbp -> 0 <= fdp <= 2 ^ 31 -> fresh_queues (init_depth fdp) env ->
  g_safety_dev (safety_copro_init hbp fdp env) = Some dev ->
  pool_reach driver_entry (mkWorld dev 0 []) c ->
  dev_wf (init_depth fdp) (w_dev c.2).
Proof.
  intros Hhb Hfd Hq Hinit Hreach.
  pose proof (init_depth_pos fdp Hfd) as Hpos.
  apply (pool_invariant driver_entry (wf (init_depth fdp)) (mkWorld dev 0 []) c).
  - by eapply init_wf.
  - intros p Hp. apply driver_entry_safe; [lia|done].
  - done.
Qed.


(** C16. Watchdog expiry: [hb_timer_fn] on a device whose sequence counter is in
    range moves the link to HB_TIMEOUT, counts one timeout and one fault
    (TASK_HANG, detail 1), leaves the one-shot timer idle and the recovery work
    queued, and reports a FAULT_EVENT frame: appended to the RX queue when there
    is room, otherwise counted as dropped. *)
Theorem watchdog_timeout (w : world K) :
  is_u16 (synth_seq (w_dev w)) ->
  let d := w_dev w in
  let d' := w_dev (run hb_timer_fn w).2 in
  state d' = SAFETY_LINK_HB_TIMEOUT /\ timeout_count d' = u32 (timeout_count d + 1) /\
  fault_count d' = u32 (fault_count d + 1) /\
  last_fault_type d' = SAFETY_FAULT_TASK_HANG /\ last_fault_detail d' = 1 /\
  hrtimer_pending (hb_timer d') = None /\ work_pending (recovery_work d') = true /\
  synth_seq d' = u16 (synth_seq d + 1) /\
  if kfifo_is_full (rx_fifo d)
  then rx_fifo d' = rx_fifo d /\ dropped_frame_count d' = u32 (dropped_frame_count d + 1)
  else dropped_frame_count d' = dropped_frame_count d /\
       exists ts now, is_u32 ts /\ is_u32 now /\
         kfifo_view (rx_fifo d') =
           kfifo_view (rx_fifo d) ++ [mkSlot 24 (timeout_frame (synth_seq d) ts now)].
Proof.
  intros Hseq d d'. unfold d'. destruct (hb_timer_spec w Hseq) as (w' & -> & H).
  cbn [fst snd]. unfold reported in H. tauto.
Qed.

(** Recovery work: [recovery_work_fn] moves the link to RECOVERING, counts
    one retry, leaves the work idle and the watchdog as it was, and reports a
    RECOVERY_REPORT frame, appended to the RX queue or counted as dropped. *)
Theorem recovery_work_effect (w : world K) :
  is_u16 (synth_seq (w_dev w)) ->
  let d := w_dev w in
  let d' := w_dev (run recovery_work_fn w).2 in
  state d' = SAFETY_LINK_RECOVERING /\ retry_count d' = u32 (retry_count d + 1) /\
  work_pending (recovery_work d') = false /\ hb_timer d' = hb_timer d /\
  synth_seq d' = u16 (synth_seq d + 1) /\
  if kfifo_is_full (rx_fifo d)
  then rx_fifo d' = rx_fifo d /\ dropped_frame_count d' = u32 (dropped_frame_count d + 1)
  else dropped_frame_count d' = dropped_frame_count d /\
       exists ts now, is_u32 ts /\ is_u32 now /\
         kfifo_view (rx_fifo d') =
           kfifo_view (rx_fifo d) ++ [mkSlot 24 (recovery_frame (synth_seq d) ts now)].
Proof.
  intros Hseq d d'. unfold d'. destruct (recovery_work_spec w Hseq) as (w' & -> & H).
  cbn [fst snd]. unfold reported in H. tauto.
Qed.

(** C17. Start-up and removal leave nothing behind: whatever kernel calls fail
    in [safety_copro_init], a failed start-up publishes no device and holds no
    resource, and [safety_copro_exit] after any start-up releases everything
    that start-up acquired. *)
Theorem init_exit_clean hbp fdp (env : init_env K) :
  let m := safety_copro_init hbp fdp env in
  (g_safety_dev m = None -> held m = []) /\
  (forall dev, g_safety_dev m = Some dev ->
     ret m = 0 /\
     held m = [RDev; RRxFifo; RTxFifo; RPercpu; RMisc] ++
              (if debugfs_dir dev then [RDebugfs] else [])) /\
  held (safety_copro_exit m) = [] /\ g_safety_dev (safety_copro_exit m) = None.
Proof.
  unfold safety_copro_init.
  destruct (kzalloc_ok env); [|done].
  destruct (rx_alloc env) as [|rx]; [done|]. destruct (tx_alloc env) as [|tx]; [done|].
  destruct (alloc_percpu_ok env); [|done]. cbn.
  destruct (negb (misc_register_ret env =? 0)); [done|].
  destruct (debugfs_create_ok env); (split; [done|]);
    (split; [intros dev H; injection H as <-; done|done]).
Qed.

(** Unknown ioctls: a command that is none of the eight defined ones is
    refused with [-ENOTTY] without touching the device. *)
Theorem ioctl_unknown cmd arg ok (w : world K) :
  cmd ∉ [SAFETY_IOC_GET_STATS; SAFETY_IOC_RESET_STATS; SAFETY_IOC_SET_HB_TIMEOUT_MS;
         SAFETY_IOC_GET_STATE; SAFETY_IOC_FORCE_RECOVERY; SAFETY_IOC_INJECT_FAULT;
         SAFETY_IOC_PUSH_RX_FRAME; SAFETY_IOC_POP_TX_FRAME] ->
  run (safety_ioctl cmd arg ok) w = ((- ENOTTY, []), w).
Proof.
  intros H. unfold safety_ioctl. rewrite !not_elem_of_cons in H.
  repeat (case_test; [solve [done | exfalso; apply Z.eqb_eq in E; tauto
                            | match goal with E : (_ =? _) = true |- _ =>
                                apply Z.eqb_eq in E; tauto end]|]).
  done.
Qed.

(** Per-CPU statistics: whichever CPUs the increments run on, and even
    when the thread migrates between the two, [safety_percpu_inc_rx n] adds one
    frame and [n] bytes to the totals [safety_percpu_sum] reports (modulo 2^64)
    and [safety_percpu_inc_dropped] one drop; the sum changes nothing, and after
    [safety_percpu_reset] every total is zero. *)
Theorem percpu_counts n (w : world K) :
  length (pcpu (w_dev w)) = nr_cpus ->
  let total w := (run safety_percpu_sum w).1 in
  let rx := total (run (safety_percpu_inc_rx n) w).2 in
  let dr := total (run safety_percpu_inc_dropped w).2 in
  (run safety_percpu_sum w).2 = w /\
  rx_frames rx = u64 (rx_frames (total w) + 1) /\
  bytes rx = u64 (bytes (total w) + n) /\
  Device.dropped rx = Device.dropped (total w) /\
  Device.dropped dr = u64 (Device.dropped (total w) + 1) /\
  total (run safety_percpu_reset w).2 = pcpu_zero.
Proof.
  intros Hl total rx dr.
  assert (forall w', length (pcpu (w_dev w')) = nr_cpus ->
    total w' = mkPcpu (u64 (cpu_total rx_frames (pcpu (w_dev w'))))
                 (u64 (cpu_total Device.dropped (pcpu (w_dev w'))))
                 (u64 (cpu_total bytes (pcpu (w_dev w'))))) as Htotal.
  { intros w' Hl'. unfold total. rewrite percpu_sum_run, pcpu_add_total by done.
    by destruct (pcpu (w_dev w')). }
  unfold rx, dr. split; [by rewrite percpu_sum_run|].
  rewrite !Htotal by (done || (cbn; by rewrite !length_alter)).
  assert (forall m (l : list safety_copro_pcpu), length l = nr_cpus -> exists p, l !! this_cpu m = Some p) as Hcpu.
  { intros m l Hm. apply lookup_lt_is_Some. rewrite Hm. apply this_cpu_possible. }
  cbn [rx_frames bytes Device.dropped].
  destruct (Hcpu (w_now w) _ Hl) as [p Hp].
  destruct (Hcpu (S (w_now w)) (alter (fun p => p <| rx_frames ::= fun x => u64 (x + 1) |>)
              (this_cpu (w_now w)) (pcpu (w_dev w)))) as [p' Hp']; [by rewrite length_alter|].
  repeat split.
  - cbn. rewrite (cpu_total_alter_same rx_frames) by done.
    rewrite (cpu_total_alter rx_frames _ _ _ p 1) by done. by rewrite u64_add_u64_l.
  - cbn. rewrite (cpu_total_alter bytes _ _ _ p' n) by done.
    rewrite (cpu_total_alter_same bytes) by done. by rewrite u64_add_u64_l.
  - cbn. by rewrite !(cpu_total_alter_same Device.dropped).
  - cbn. rewrite (cpu_total_alter Device.dropped _ _ _ p 1) by done. by rewrite u64_add_u64_l.
  - rewrite Htotal; rewrite percpu_reset_run by done; [|by rewrite length_replicate].
    unfold pcpu_zero. assert (forall f m, (f pcpu_zero = 0) ->
      u64 (cpu_total f (replicate m pcpu_zero)) = 0) as Hz.
    { intros f m Hf. unfold cpu_total. induction m as [|m IH]; [done|]. cbn.
      by rewrite Hf, Z.add_0_l. }
    by rewrite !Hz.
Qed.

(** The statistics ioctl: [SAFETY_IOC_GET_STATS] returns 0 and 40 bytes in
    which the ten little-endian words of [struct safety_copro_stats] are the
    link state, the six counters, the total of received frames (truncated to 32
    bits) and the two queue lengths; it changes nothing, and a fault while
    copying out gives [-EFAULT] and no bytes. *)
Theorem get_stats_reports depth arg (w : world K) :
  wf depth w -> 0 <= depth < 2 ^ 32 ->
  let d := w_dev w in
  exists out,
    run (safety_ioctl SAFETY_IOC_GET_STATS arg true) w = ((0, out), w) /\
    length out = 40%nat /\
    field 0 4 out = link_state_value (state d) /\
    field 4 4 out = heartbeat_count d /\ field 8 4 out = fault_count d /\
    field 12 4 out = dropped_frame_count d /\ field 16 4 out = timeout_count d /\
    field 20 4 out = retry_count d /\ field 24 4 out = protocol_error_count d /\
    field 28 4 out = u32 (rx_frames (foldl pcpu_add pcpu_zero (pcpu d))) /\
    field 32 4 out = Z.of_nat (length (kfifo_view (rx_fifo d))) /\
    field 36 4 out = Z.of_nat (length (kfifo_view (tx_fifo d))) /\
    run (safety_ioctl SAFETY_IOC_GET_STATS arg false) w = ((- EFAULT, []), w).
Proof.
  intros Hwf Hd d. pose proof (wf_counters _ _ Hwf) as (Hh & Hf & Hdr & Ht & Hr & _).
  pose proof (kfifo_bounded (rx_fifo (w_dev w))) as Brx.
  pose proof (kfifo_bounded (tx_fifo (w_dev w))) as Btx.
  rewrite kfifo_len_view in Brx, Btx. rewrite (wf_rx_size _ _ Hwf) in Brx.
  rewrite (wf_tx_size _ _ Hwf) in Btx. fold d in Brx, Btx.
  rewrite !ioctl_get_stats. unfold ioc_get_stats. step_run.
  rewrite !percpu_sum_run by apply Hwf. cbn [dev_get fst snd].
  rewrite !fifo_len_run. cbn [fst snd]. rewrite !tx_fifo_len_run. cbn [negb fst snd].
  rewrite !kfifo_len_view. fold d. unfold id.
  eexists. split; [reflexivity|].
  assert (forall x, is_u32 x -> x mod 2 ^ (8 * Z.of_nat 4) = x) as Hm
    by (intros x Hx; by apply Z.mod_small).
  assert (is_u32 (protocol_error_count d)) as Hp.
  { unfold d. rewrite (wf_proto _ _ Hwf). auto with safety. }
  split; [done|].
  repeat (split; [etrans; [apply (field_le_bytes 4)|apply Hm];
    solve [done | auto with safety | destruct (state d); cbn; lia | cbn; lia]|]).
  done.
Qed.

End Props.

Lemma driver_invariant_witness :
  exists c : list (prog (world SimK) unit) * world SimK,
    pool_reach driver_entry (mkWorld sim_dev 0 []) c /\
    state (w_dev c.2) = SAFETY_LINK_HB_TIMEOUT /\ dev_wf 4 (w_dev c.2).
Proof.
  assert (exists c : list (prog (world SimK) unit) * world SimK,
    pool_reach driver_entry (mkWorld sim_dev 0 []) c /\
    state (w_dev c.2) = SAFETY_LINK_HB_TIMEOUT) as (c & Hc & Hs).
  { eexists. split.
    - eapply reach_step; [eapply reach_step; [eapply reach_step; [apply reach_init|]|]|].
      + apply pool_start, entry_timer.
      + apply (pool_act _ 0%nat). reflexivity.
      + apply (pool_act _ 0%nat). reflexivity.
    - reflexivity. }
  exists c. split; [done|]. split; [done|].
  apply (driver_invariant 0 4 sim_env sim_dev c); try done.
  split; intros q Hq; injection Hq as <-; done.
Defined.


Lemma watchdog_timeout_witness :
  state (w_dev (run hb_timer_fn sim_world).2) = SAFETY_LINK_HB_TIMEOUT.
Proof. apply (watchdog_timeout sim_world). vm_compute. split; congruence. Defined.

End Props.
