(* ===== verification/DriverSteps.v ===== *)
(** * The driver one critical section at a time

    [DriverRefine] has whole system calls on the abstract pair of queues.  Here
    threads interleave: each critical section of an entry point of the driver is
    one operation on the queues or none, so that any schedule of any threads
    amounts to a sequence of such operations. *)

From S2P Require Import Prelude Crc32 Protocol KernelApi Device Kfifo Watchdog Chrdev DriverMain DriverInv DriverSpec DriverSim DriverRefine DriverProps.

(** ** Operations of a thread *)

(** An operation on the queues with its outcome. *)
Abbreviation link_event := (link_op * (Z * list Z))%type.

(** Operations that happened one after the other. *)
Definition happened (depth : Z) (es : list link_event) (l l' : link) : Prop :=
  link_run depth es.*1 l = (es.*2, l').

Lemma happened_nil depth l : happened depth [] l l.
Proof. done. Qed.

Lemma happened_cons depth e es l l1 l' :
  link_step depth e.1 l = (e.2, l1) -> happened depth es l1 l' -> happened depth (e :: es) l l'.
Proof. unfold happened. intros H1 H2. cbn [fmap list_fmap link_run]. by rewrite H1, H2. Qed.

Lemma happened_app depth es1 es2 l l1 l' :
  happened depth es1 l l1 -> happened depth es2 l1 l' -> happened depth (es1 ++ es2) l l'.
Proof.
  revert l. induction es1 as [|e es1 IH]; intros l H1 H2; [by injection H1 as ->|].
  unfold happened in H1. cbn [fmap list_fmap link_run] in H1.
  destruct (link_step depth e.1 l) as [r l2] eqn:E, (link_run depth es1.*1 l2) as [rs l3] eqn:E'.
  injection H1 as -> -> ->. apply (happened_cons _ _ _ _ l2); [done|]. by apply IH.
Qed.

Section Steps.
Context {K : KernelApi safety_fifo_slot} {KO : KernelOk K}.
Context (depth : Z).
Implicit Types (w : world K).

(** [does P p]: each action of [p] on a well-formed device is at most one
    operation on the queues; the operations and the result satisfy [P]. *)
Fixpoint does {A} (P : list link_event -> A -> Prop) (p : prog (world K) A) : Prop :=
  match p with
  | Done a => P [] a
  | Atomic act k => forall w, wf depth w ->
      exists o, happened depth (option_list o) (link_of w) (link_of (act w).2) /\
                does (fun es a => P (option_list o ++ es) a) (k (act w).1)
  end.

Lemma does_mono {A} (P Q : list link_event -> A -> Prop) p :
  (forall es a, P es a -> Q es a) -> does P p -> does Q p.
Proof.
  revert P Q. induction p as [a|B act k IH]; intros P Q HPQ Hp; [by apply HPQ|].
  intros w Hw. destruct (Hp w Hw) as (o & Ho & Hk). exists o. split; [done|].
  eapply IH; [|exact Hk]. intros es a. apply HPQ.
Qed.

Lemma does_bind {A C} (P : list link_event -> A -> Prop) (Q : list link_event -> C -> Prop) p f :
  does P p -> (forall es a, P es a -> does (fun es' b => Q (es ++ es') b) (f a)) -> does Q (p ≫= f).
Proof.
  revert P Q. induction p as [a|B act k IH]; intros P Q Hp Hf; [exact (Hf [] a Hp)|].
  intros w Hw. destruct (Hp w Hw) as (o & Ho & Hk). exists o. split; [done|].
  eapply IH; [exact Hk|]. intros es a Ha. eapply does_mono, Hf; [|exact Ha].
  intros es' b. by rewrite app_assoc.
Qed.

Lemma does_ret {A} (P : list link_event -> A -> Prop) a : P [] a -> does P (mret a).
Proof. done. Qed.

(** An action that is one operation. *)
Lemma does_op {A} (P : list link_event -> A -> Prop) (act : st (world K) A) :
  (forall w, wf depth w -> exists e, link_step depth e.1 (link_of w) = (e.2, link_of (act w).2) /\ P [e] (act w).1) ->
  does P (atomic act).
Proof.
  intros H w Hw. destruct (H w Hw) as (e & He & HP). exists (Some e). split; [|exact HP].
  by eapply happened_cons, happened_nil.
Qed.

Lemma does_if {A} (P : list link_event -> A -> Prop) (b : bool) p q :
  (b = true -> does P p) -> (b = false -> does P q) -> does P (if b then p else q).
Proof. destruct b; auto. Qed.

(** ** Programs that leave the queues alone *)

Definition calm {A} (p : prog (world K) A) : Prop := does (fun es _ => es = []) p.

Definition still {A} (act : st (world K) A) : Prop :=
  forall w, rx_fifo (w_dev (act w).2) = rx_fifo (w_dev w) /\ tx_fifo (w_dev (act w).2) = tx_fifo (w_dev w).

Lemma calm_atomic {A} (act : st (world K) A) : still act -> calm (atomic act).
Proof. intros H w Hw. exists None. split; [|done]. unfold happened. cbn. by rewrite (link_of_eq w (act w).2); [|apply H..]. Qed.

Lemma does_calm {A C} (Q : list link_event -> C -> Prop) (p : prog (world K) A) f :
  calm p -> (forall a, does Q (f a)) -> does Q (p ≫= f).
Proof. intros Hp Hf. eapply does_bind; [exact Hp|]. intros es a ->. apply Hf. Qed.

Lemma calm_seq {A C} (p : prog (world K) A) (f : A -> prog (world K) C) :
  calm p -> (forall a, calm (f a)) -> calm (p ≫= f).
Proof. apply does_calm. Qed.

Lemma does_calm_any {A} (p : prog (world K) A) : calm p -> does (fun _ _ => True) p.
Proof. by apply does_mono. Qed.

Lemma still_bind {A C} (m : st (world K) A) (f : A -> st (world K) C) :
  still m -> (forall a, still (f a)) -> still (m ≫= f).
Proof.
  intros Hm Hf w. destruct (Hm w) as [H1 H2], (Hf (m w).1 (m w).2) as [H3 H4].
  unfold mbind, st_bind. by rewrite H3, H4.
Qed.

Lemma still_set (f : safety_copro_dev K -> safety_copro_dev K) :
  (forall d, rx_fifo (f d) = rx_fifo d /\ tx_fifo (f d) = tx_fifo d) -> still (dev_set f).
Proof. intros H w. apply H. Qed.

Lemma still_timeline ev seq : still (safety_timeline_record_locked ev seq).
Proof.
  intros w. destruct (bookkeeping_timeline ev seq w) as [(? & ? & ? & ? & ? & HB) _]. by rewrite HB.
Qed.

(** One action after the other. *)
Ltac calm_act :=
  apply calm_atomic;
  repeat match goal with
  | |- still (dev_set _) => apply still_set; intros ?; repeat case_match; done
  | |- still (safety_timeline_record_locked _ _) => apply still_timeline
  | |- still (_ ≫= _) => apply still_bind; [|intros ?]
  | |- still _ => by intros ?
  end.
Ltac calm_seqs := repeat first [done | calm_act | apply calm_seq; [calm_act|intros ?]].

Lemma calm_inc_rx n : calm (safety_percpu_inc_rx n).
Proof. unfold safety_percpu_inc_rx. calm_seqs. Qed.

Lemma calm_inc_dropped : calm safety_percpu_inc_dropped.
Proof. unfold safety_percpu_inc_dropped. calm_seqs. Qed.

Lemma calm_percpu_reset : calm safety_percpu_reset.
Proof.
  unfold safety_percpu_reset. generalize 0%nat. induction nr_cpus as [|n IH]; intros c; [done|].
  apply calm_seq; [unfold percpu_clear; calm_seqs|intros _; apply IH].
Qed.

Lemma calm_percpu_sum : calm safety_percpu_sum.
Proof.
  unfold safety_percpu_sum. generalize 0%nat, pcpu_zero. induction nr_cpus as [|n IH]; intros c out; [done|].
  apply calm_seq; [unfold percpu_read; calm_seqs|intros p; apply IH].
Qed.

Lemma calm_record_drop seq ty : calm (record_drop seq ty).
Proof.
  unfold record_drop. apply calm_seq; [calm_act|intros _]. apply calm_seq; [apply calm_inc_dropped|intros _]. calm_act.
Qed.

Lemma calm_proto_error v : calm (record_proto_error v).
Proof. unfold record_proto_error. calm_act. Qed.

Lemma calm_rearm : calm safety_timer_rearm.
Proof. unfold safety_timer_rearm. calm_seqs. Qed.

Lemma calm_fifo_len : calm safety_fifo_len.
Proof. unfold safety_fifo_len. calm_act. Qed.

Lemma calm_tx_fifo_len : calm safety_tx_fifo_len.
Proof. unfold safety_tx_fifo_len. calm_act. Qed.

Lemma calm_get_stats ok : calm (ioc_get_stats ok).
Proof.
  unfold ioc_get_stats. apply calm_seq; [calm_act|intros d]. apply calm_seq; [apply calm_percpu_sum|intros s].
  apply calm_seq; [apply calm_fifo_len|intros n]. apply calm_seq; [apply calm_tx_fifo_len|intros n']. by destruct ok.
Qed.

Lemma calm_poll : calm safety_poll.
Proof.
  unfold safety_poll. apply calm_seq; [apply calm_fifo_len|intros n].
  apply calm_seq; [destruct (n >? 0); calm_seqs|intros m]. by apply calm_seq; [apply calm_tx_fifo_len|intros n'].
Qed.

(** ** Programs that are one operation *)

Lemma link_tx_same w q f :
  kfifo_view q = kfifo_view (tx_fifo (w_dev w)) ++ [f] ->
  mkLink (l_rx (link_of w)) (slot_data <$> kfifo_view q) = mkLink (l_rx (link_of w)) (l_tx (link_of w) ++ [slot_data f]).
Proof. intros ->. by rewrite fmap_app. Qed.

(** The critical section of the RX queue. *)
Lemma push_rx_step slot seq ev w :
  wf depth w -> framed (slot_data slot) -> Z.of_nat (length (slot_data slot)) <= 272 ->
  let r := push_rx_locked slot seq ev w in
  link_step depth (Push (slot_data slot)) (link_of w) =
  ((if r.1 is Some _ then 0 else - ENOSPC, []), link_of r.2).
Proof.
  intros Hwf Hf Hl. cbn [link_step]. rewrite decide_False by lia. rewrite decide_False by tauto.
  cbn [link_of l_rx]. rewrite length_fmap. destruct (kfifo_is_full (rx_fifo (w_dev w))) eqn:E.
  - rewrite push_rx_locked_full by done. rewrite full_view, (wf_rx_size _ _ Hwf) in E. by rewrite decide_False by lia.
  - destruct (push_rx_locked_ok slot seq ev w E) as (q & w' & -> & Hv & _ & (? & ? & ? & ? & ? & HB) & _).
    rewrite full_view, (wf_rx_size _ _ Hwf) in E. rewrite decide_True by lia. cbn [fst snd]. do 2 f_equal.
    unfold link_of. rewrite HB. cbn. by rewrite Hv, fmap_app.
Qed.

Lemma does_push_frame frame len seq ty ev :
  let f := take (Z.to_nat len) frame in
  0 < len <= 272 -> framed f -> Z.of_nat (length f) <= 272 ->
  does (fun es rc => es = [(Push f, (rc, []))] /\ (rc = 0 \/ rc = - ENOSPC))
    (safety_fifo_push_frame frame len seq ty ev).
Proof.
  intros f Hlen Hf Hl. unfold safety_fifo_push_frame. change SAFETY_MAX_FRAME_SIZE with 272.
  rewrite (proj2 (orb_false_iff _ _)) by lia.
  eapply does_bind with (P := fun es r => es = [(Push f, (if r is Some _ then 0 else - ENOSPC, []))]).
  - apply does_op. intros w Hw. eexists (_, _). split; [by apply (push_rx_step (mkSlot len f))|].
    cbn [fst snd slot_data]. by destruct (push_rx_locked _ _ _ _).1.
  - intros es [qlen|] ->; [|split; [done|by right]].
    apply does_calm; [apply calm_inc_rx|intros _]. apply does_calm; [calm_act|intros _].
    apply does_calm; [calm_act|intros _]. split; [done|by left].
Qed.

(** What the link daemon hands over: at least a header, at most a frame. *)
Lemma does_accepted f v seq ty :
  bytes_ok f -> framed f ->
  does (fun es rc => es = [(Push f, (rc, []))]) (queue_rx_accepted f (Z.of_nat (length f)) v seq ty).
Proof.
  intros Hb Hf. destruct (framed_length _ Hb Hf) as [Hl _]. unfold queue_rx_accepted.
  rewrite u16_small by (cbn; lia).
  pose proof (does_push_frame f (Z.of_nat (length f)) seq ty
    (if ty =? SAFETY_FRAME_HEARTBEAT then SAFETY_TL_HEARTBEAT else SAFETY_TL_FRAME_RX)) as Hp.
  cbv zeta in Hp. rewrite Nat2Z.id, take_ge in Hp by lia.
  eapply does_bind; [apply Hp; [lia|done|lia]|]. intros es rc [-> [-> | ->]].
  - change (0 =? - ENOSPC) with false. change (0 <? 0) with false. cbn match. destruct (_ && _); [|done].
    apply does_calm; [calm_act|intros _]. by apply does_calm; [apply calm_rearm|intros _].
  - rewrite Z.eqb_refl. by apply does_calm; [apply calm_record_drop|intros _].
Qed.

Lemma does_reject f v :
  ~ framed f -> Z.of_nat (length f) <= 272 ->
  does (fun es rc => es = [(Push f, (rc, []))]) (_ ← record_proto_error v; mret (- EINVAL)).
Proof.
  intros Hf Hl. eapply (does_bind (fun es _ => es = [(Push f, (- EINVAL, []))])); [|by intros es ? ->].
  unfold record_proto_error. apply does_op. intros w Hw. eexists (_, _). split; [|reflexivity]. cbn [fst snd link_step].
  rewrite decide_False by lia. rewrite decide_True by done. f_equal. symmetry. apply link_of_eq; by repeat case_match.
Qed.

Lemma does_queue_rx f :
  bytes_ok f -> 16 <= Z.of_nat (length f) <= 272 ->
  does (fun es rc => es = [(Push f, (rc, []))]) (queue_rx_from_linkd f (Z.of_nat (length f))).
Proof.
  intros Hb Hl. unfold queue_rx_from_linkd. change SAFETY_MAX_FRAME_SIZE with 272. unfold SAFETY_HEADER_SIZE.
  rewrite (proj2 (Z.ltb_ge _ _)), Z.gtb_ltb, (proj2 (Z.ltb_ge _ _)) by lia.
  destruct (decide (framed f)) as [Hf|Hf].
  - pose proof (framed_validate f Hb Hf) as Hv. destruct (framed_length _ Hb Hf) as [_ Hp].
    pose proof Hf as (Hm & Hve & Hmax & Hlen). unfold SAFETY_MAX_PAYLOAD, SAFETY_HEADER_SIZE in *.
    rewrite Hm, Hve, !Z.eqb_refl. cbn [negb]. rewrite Z.gtb_ltb, (proj2 (Z.ltb_ge 256 _)) by lia.
    rewrite (proj2 (Z.eqb_eq _ _) Hlen). cbn [negb].
    destruct Hv as [-> | ->]; cbn [bool_decide decide_rel negb andb].
    + apply does_calm; [done|intros _]. by apply does_accepted.
    + apply does_calm; [apply calm_proto_error|intros _]. by apply does_accepted.
  - do 5 (apply does_if; intros ?; [apply does_reject; [done|lia]|]).
    exfalso. apply Hf. unfold framed, SAFETY_HEADER_SIZE. lia.
Qed.

(** Any buffer. *)
Lemma does_queue_rx_any frame count :
  bytes_ok frame -> count <= Z.of_nat (length frame) ->
  does (fun _ _ => True) (queue_rx_from_linkd frame count).
Proof.
  intros Hb Hc. destruct (decide (16 <= count <= 272)) as [Hl|Hl].
  - rewrite <- (take_drop (Z.to_nat count) frame).
    assert (Z.of_nat (length (take (Z.to_nat count) frame)) = count) as E by (rewrite length_take; lia).
    rewrite <- E at 3. rewrite queue_rx_prefix. eapply does_mono; [by intros|].
    apply does_queue_rx; [by apply bytes_ok_take|lia].
  - unfold queue_rx_from_linkd. change SAFETY_MAX_FRAME_SIZE with 272. unfold SAFETY_HEADER_SIZE.
    apply does_if; intros ?; [done|]. apply does_if; intros ?; [done|]. lia.
Qed.

(** Taking a frame off the RX queue. *)
Lemma does_pop_frame count s : does (fun _ _ => True) (safety_fifo_pop_frame s) /\
  does (fun es _ => exists r, es = [(Read count, r)]) (safety_fifo_pop_frame s).
Proof.
  enough (does (fun es _ => exists r, es = [(Read count, r)]) (safety_fifo_pop_frame s)) as H
    by (split; [by eapply does_mono|done]).
  apply does_op. intros w Hw.
  assert (forall r, run (safety_fifo_pop_frame s) w = r ->
    exists e, link_step depth (Read count) (link_of w) = (e, link_of r.2)) as H.
  { intros r <-. cbn [link_step link_of l_rx]. destruct (kfifo_view (rx_fifo (w_dev w))) as [|x q] eqn:E; cbn [fmap list_fmap].
    - eexists. by rewrite pop_frame_none by done.
    - destruct (pop_frame_some x q w s E) as (f & -> & Hf & _). eexists. cbn [snd]. f_equal.
      unfold link_of. cbn. by rewrite Hf. }
  destruct (H _ eq_refl) as (e & He). unfold safety_fifo_pop_frame in He. rewrite run_atomic in He.
  exists (Read count, e). split; [exact He|]. by exists e.
Qed.

(** Taking a frame off the TX queue. *)
Lemma does_pop_tx s :
  does (fun es r => (es = [(Pop, (- EAGAIN, []))] /\ r = (0, s)) \/
    exists x, es = [(Pop, (0, io_bytes (slot_data x)))] /\ r = (slot_len x, x) /\ tx_slot_ok x)
    (safety_fifo_pop_tx_frame s).
Proof.
  apply does_op. intros w Hw. pose proof (wf_tx _ _ Hw) as Htx.
  assert (forall r, run (safety_fifo_pop_tx_frame s) w = r ->
    (link_step depth Pop (link_of w) = ((- EAGAIN, []), link_of r.2) /\ r.1 = (0, s)) \/
    exists x, link_step depth Pop (link_of w) = ((0, io_bytes (slot_data x)), link_of r.2) /\
              r.1 = (slot_len x, x) /\ tx_slot_ok x) as H.
  { intros r <-. cbn [link_step link_of l_tx]. destruct (kfifo_view (tx_fifo (w_dev w))) as [|x q] eqn:E; cbn [fmap list_fmap].
    - left. by rewrite pop_tx_none by done.
    - right. destruct (pop_tx_some x q w s E) as (f & -> & Hf & _). exists x. cbn [fst snd].
      apply Forall_cons_1 in Htx as [Hx _]. split; [|by split]. f_equal. unfold link_of. cbn. by rewrite Hf. }
  specialize (H _ eq_refl). unfold safety_fifo_pop_tx_frame in H. rewrite run_atomic in H.
  destruct H as [[H1 H2]|(x & H1 & H2 & H3)]; eexists (_, _); (split; [exact H1|]); [by left|right; by exists x].
Qed.

Lemma tx_slot_length x : tx_slot_ok x -> slot_len x = Z.of_nat (length (slot_data x)) /\ (16 <= length (slot_data x) <= 272)%nat.
Proof.
  intros (Hb & Hl & Hm & Hok). split; [done|].
  destruct (validate_ok_inv (slot_data x) (slot_len x) Hb ltac:(lia) Hok) as (h & p & rest & _ & Hd & Hlen & _).
  change SAFETY_MAX_FRAME_SIZE with 272 in Hm. lia.
Qed.

Lemma does_ioc_pop_tx :
  does (fun es r => es = [(Pop, r)] /\
    (r = (- EAGAIN, []) \/ exists f, r = (0, io_bytes f) /\ (0 < length f <= 272)%nat)) (ioc_pop_tx_frame true).
Proof.
  unfold ioc_pop_tx_frame. eapply does_bind; [apply does_pop_tx|].
  intros es r [[-> ->]|(x & -> & -> & Hx)]; [by split; [|left]|].
  destruct (tx_slot_length x Hx) as [Hl Hb]. cbn match. rewrite (proj2 (Z.eqb_neq _ _)) by lia. cbn [negb].
  change SAFETY_MAX_FRAME_SIZE with 272. rewrite Hl, Nat2Z.id, take_ge by lia.
  assert (le_bytes 4 (Z.of_nat (length (slot_data x))) ++ overwrite 0 (slot_data x) (replicate (Z.to_nat 272) 0) =
    io_bytes (slot_data x)) as ->.
  { unfold io_bytes. rewrite io_bytes_data_short by lia. unfold overwrite. rewrite take_0, app_nil_l, drop_replicate. change (Z.to_nat 272) with 272%nat. reflexivity. }
  split; [done|right]. exists (slot_data x). split; [done|lia].
Qed.

(** The critical section of the TX queue. *)
Lemma push_tx_step slot seq w :
  wf depth w -> tx_slot_ok slot ->
  exists r, link_step depth (Write (slot_data slot)) (link_of w) = (r, link_of (push_tx_locked slot seq w).2).
Proof.
  intros Hwf Hs. destruct (tx_slot_length slot Hs) as [Hl Hb]. destruct Hs as (Hby & _ & _ & Hv). rewrite Hl in Hv.
  cbn [link_step]. rewrite decide_False by lia. rewrite decide_False by lia. rewrite decide_False by (rewrite Hv; tauto).
  cbn [link_of l_tx]. rewrite length_fmap. unfold push_tx_locked, mbind, st_bind. cbn [dev_get fst snd].
  destruct (kfifo_is_full (tx_fifo (w_dev w))) eqn:E.
  - rewrite full_view, (wf_tx_size _ _ Hwf) in E. rewrite decide_False by lia. by eexists.
  - destruct (kfifo_in_room _ slot E) as [Hn Hview]. destruct (kfifo_in (tx_fifo (w_dev w)) slot) as [n q]. cbn in Hn, Hview. subst n.
    cbn [Z.eqb negb]. rewrite full_view, (wf_tx_size _ _ Hwf) in E. rewrite decide_True by lia. eexists. f_equal.
    set (w1 := (dev_set (fun d => d <| tx_fifo := q |>) w).2).
    change (mkLink (slot_data <$> kfifo_view (rx_fifo (w_dev w))) ((slot_data <$> kfifo_view (tx_fifo (w_dev w))) ++ [slot_data slot]) =
      link_of (safety_timeline_record_locked SAFETY_TL_RECOVERY seq w1).2).
    rewrite (link_of_eq w1 _) by apply still_timeline. unfold link_of, w1. cbn. by rewrite Hview, fmap_app.
Qed.

Lemma does_push_tx_frame frame len seq ty :
  tx_slot_ok (mkSlot len (take (Z.to_nat len) frame)) ->
  does (fun _ _ => True) (safety_fifo_push_tx_frame frame len seq ty).
Proof.
  intros Hs. unfold safety_fifo_push_tx_frame. apply does_if; intros _; [done|].
  eapply (does_bind (fun _ _ => True)).
  - apply does_op. intros w Hw. destruct (push_tx_step _ seq w Hw Hs) as (r & Hr). by exists (Write (take (Z.to_nat len) frame), r).
  - intros _ ok _. destruct ok; [|done]. cbn [negb]. apply does_calm; [apply calm_tx_fifo_len|intros n].
    apply does_calm; [calm_act|intros _]. by apply does_calm; [calm_act|intros _].
Qed.

(** ** Every entry point *)

(** Nothing is said of the operations or of the result. *)
Definition opwise {A} (p : prog (world K) A) : Prop := does (fun _ _ => True) p.

Lemma opwise_calm {A} (p : prog (world K) A) : calm p -> opwise p.
Proof. by apply does_mono. Qed.

Lemma opwise_seq {A C} (p : prog (world K) A) (f : A -> prog (world K) C) :
  opwise p -> (forall a, opwise (f a)) -> opwise (p ≫= f).
Proof. intros Hp Hf. eapply does_bind; [exact Hp|]. intros es a _. apply Hf. Qed.

(** The value read by an action that leaves the queues alone. *)
Lemma opwise_value {A C} (Q : A -> Prop) (act : st (world K) A) (f : A -> prog (world K) C) :
  still act -> stsafe (wf depth) Q act -> (forall a, Q a -> opwise (f a)) -> opwise (atomic act ≫= f).
Proof.
  intros Hs HQ Hf w Hw. exists None. split; [|by apply Hf, HQ].
  unfold happened. cbn. by rewrite (link_of_eq w (act w).2); [|apply Hs..].
Qed.

Lemma does_push_small frame len seq ty ev :
  framed (take (Z.to_nat len) frame) -> Z.of_nat (length (take (Z.to_nat len) frame)) = len -> 0 < len <= 272 ->
  opwise (safety_fifo_push_frame frame len seq ty ev).
Proof. intros Hf Hl Hlen. eapply does_mono; [|apply does_push_frame; [done|done|lia]]. done. Qed.

Lemma opwise_synth_and_push ty p ev :
  is_u8 ty -> bytes_ok p -> (length p <= 256)%nat ->
  opwise (safety_synth_and_push ty p (Z.of_nat (length p)) ev).
Proof.
  intros Hty Hp Hlen. unfold safety_synth_and_push. apply does_if; intros _; [done|].
  apply (opwise_value is_u16); [by intros w|apply safe_next_synth_seq|].
  intros seq Hseq. apply (opwise_value is_u32); [by intros w|apply safe_now_ms|].
  intros ts Hts. destruct (synth_pack ty seq p ts Hty Hseq Hts Hp Hlen) as (frame & -> & Htake).
  apply does_if; intros _; [done|]. apply opwise_seq.
  - rewrite u16_small by (cbn; lia).
    assert (take (Z.to_nat (16 + Z.of_nat (length p))) frame =
      frame_bytes (safety_frame_init ty seq (Z.of_nat (length p)) ts) p) as E
      by (rewrite <- Htake; f_equal; lia).
    apply does_push_small; rewrite ?E; [|rewrite length_frame_bytes; lia|lia].
    apply (frame_slot_ok _ p). by apply frame_init_ok.
  - intros rc. apply does_if; intros _; [|done]. apply opwise_calm.
    apply calm_seq; [calm_act|intros _]. apply calm_seq; [apply calm_inc_dropped|intros _].
    by apply calm_seq; [calm_act|intros _].
Qed.

Lemma opwise_synth_fault_event ft sev detail : opwise (safety_synth_fault_event ft sev detail).
Proof.
  unfold safety_synth_fault_event. apply opwise_seq; [apply opwise_calm; calm_act|intros now].
  apply (opwise_synth_and_push _ (fault_event_bytes (mkFaultEvent ft sev detail now)));
    [unfold SAFETY_FRAME_FAULT_EVENT; cbn; lia| |by apply Nat.leb_le].
  unfold fault_event_bytes. rewrite !bytes_ok_app. auto with safety.
Qed.

Lemma opwise_synth_recovery_report r s : opwise (safety_synth_recovery_report r s).
Proof.
  unfold safety_synth_recovery_report. apply opwise_seq; [apply opwise_calm; calm_act|intros now].
  apply (opwise_synth_and_push _ (recovery_report_bytes (mkRecoveryReport r s 0 now)));
    [unfold SAFETY_FRAME_RECOVERY_REPORT; cbn; lia| |by apply Nat.leb_le].
  unfold recovery_report_bytes. rewrite !bytes_ok_app. auto with safety.
Qed.

Lemma calm_recovery_schedule : calm safety_recovery_schedule.
Proof. unfold safety_recovery_schedule. calm_act. Qed.

Lemma opwise_recovery_work : opwise recovery_work_fn.
Proof.
  unfold recovery_work_fn. apply opwise_seq; [apply opwise_calm; calm_act|intros _].
  apply opwise_seq; [apply opwise_calm; unfold recovery_locked; calm_act|intros c].
  apply opwise_seq; [apply opwise_calm; calm_act|intros _].
  by apply opwise_seq; [apply opwise_synth_recovery_report|intros _].
Qed.

Lemma opwise_hb_timer : opwise hb_timer_fn.
Proof.
  unfold hb_timer_fn. apply opwise_seq; [apply opwise_calm; calm_act|intros _].
  apply opwise_seq; [apply opwise_calm; unfold hb_timeout_locked; calm_act|intros r].
  apply opwise_seq; [apply opwise_calm; calm_act|intros _].
  apply opwise_seq; [apply opwise_synth_fault_event|intros _]. apply opwise_calm, calm_recovery_schedule.
Qed.

Lemma opwise_write ubuf count : user_buffer ubuf count -> opwise (safety_write ubuf count).
Proof.
  intros Hu. unfold safety_write. apply does_if; intros ?; [done|]. apply does_if; intros ?; [done|].
  destruct ubuf as [l|]; [|done]. destruct (Hu l eq_refl) as [Hb Hlen].
  unfold SAFETY_HEADER_SIZE, SAFETY_MAX_FRAME_SIZE, SAFETY_MAX_PAYLOAD, SAFETY_HEADER_SIZE in *.
  apply does_if; intros Hv.
  { apply opwise_seq; [|done]. apply opwise_calm, calm_proto_error. }
  apply negb_false_iff, bool_decide_eq_true in Hv. rewrite u16_small by (cbn; lia). apply opwise_seq.
  { apply does_push_tx_frame. rewrite take_take, Nat.min_l by lia.
    split; [by apply bytes_ok_take|]. cbn [slot_data slot_len].
    rewrite length_take. repeat split; [lia| |done].
    unfold SAFETY_MAX_FRAME_SIZE, SAFETY_MAX_PAYLOAD, SAFETY_HEADER_SIZE. lia. }
  intros rc. apply does_if; intros _; [|by apply does_if].
  apply opwise_seq; [|done]. apply opwise_calm, calm_record_drop.
Qed.

Lemma opwise_read nonblock waits count ok : opwise (safety_read nonblock waits count ok).
Proof.
  apply opwise_seq.
  - induction waits as [|x waits IH]; cbn [safety_read_wait];
      (apply opwise_seq; [apply (does_pop_frame count)|intros r]);
      repeat (apply does_if; intros _; try done).
  - intros [[e|[len slot]]|]; [done| |done]. repeat (apply does_if; intros _; [done|]). done.
Qed.

Lemma opwise_pop_tx_frame ok : opwise (ioc_pop_tx_frame ok).
Proof.
  unfold ioc_pop_tx_frame. eapply does_bind; [apply does_pop_tx|]. intros es [len slot] _.
  by repeat (apply does_if; intros _; [done|]).
Qed.

Lemma opwise_no_out (p : prog (world K) Z) : opwise p -> opwise (no_out p).
Proof. intros Hp. by apply opwise_seq. Qed.

Lemma opwise_ioctl cmd arg ok : user_memory arg -> opwise (safety_ioctl cmd arg ok).
Proof.
  intros Hu. unfold safety_ioctl.
  apply does_if; intros _; [done|]. apply does_if; intros _; [done|].
  apply does_if; intros _; [apply opwise_calm, calm_get_stats|].
  apply does_if; intros _.
  { apply opwise_no_out, opwise_calm, calm_seq; [calm_act|intros _].
    by apply calm_seq; [apply calm_percpu_reset|intros _]. }
  apply does_if; intros _.
  { apply opwise_no_out. unfold ioc_set_hb_timeout. destruct arg as [mem|]; [|done].
    apply does_if; intros _; [done|]. apply opwise_calm, calm_seq; [calm_act|intros _].
    by apply calm_seq; [apply calm_rearm|intros _]. }
  apply does_if; intros _.
  { apply opwise_seq; [apply opwise_calm; calm_act|intros s]. by apply does_if. }
  apply does_if; intros _.
  { apply opwise_seq; [apply opwise_calm, calm_recovery_schedule|done]. }
  apply does_if; intros _.
  { apply opwise_no_out. unfold ioc_inject_fault. destruct arg as [mem|]; [|done].
    apply opwise_seq; [apply opwise_calm; calm_act|intros _].
    by apply opwise_seq; [apply opwise_synth_fault_event|intros _]. }
  apply does_if; intros _.
  { apply opwise_no_out. unfold ioc_push_rx_frame. destruct arg as [mem|]; [|done].
    apply does_if; intros Hlen; [done|]. destruct (Hu mem eq_refl) as [Hb Hl].
    unfold SAFETY_MAX_FRAME_SIZE, SAFETY_MAX_PAYLOAD, SAFETY_HEADER_SIZE in *.
    apply does_queue_rx_any; unfold slice; [by apply bytes_ok_take, bytes_ok_drop|].
    rewrite length_take, length_drop. lia. }
  apply does_if; intros _; [apply opwise_pop_tx_frame|done].
Qed.

Lemma opwise_entry p : driver_entry p -> opwise p.
Proof.
  destruct 1; try (apply opwise_seq; [|done]).
  - apply opwise_read.
  - by apply opwise_write.
  - apply opwise_calm, calm_poll.
  - by apply opwise_ioctl.
  - apply opwise_hb_timer.
  - apply opwise_recovery_work.
Qed.

End Steps.

(** ** Histories

    What happened on the queues, with whether it was thread 0 that did it. *)

Abbreviation history := (list (bool * link_event)).

Definition own (hist : history) : list link_event := (filter (fun e => e.1 = true) hist).*2.
Definition theirs (hist : history) : list link_event := (filter (fun e => e.1 = false) hist).*2.

Lemma own_app h1 h2 : own (h1 ++ h2) = own h1 ++ own h2.
Proof. unfold own. by rewrite filter_app, fmap_app. Qed.
Lemma theirs_app h1 h2 : theirs (h1 ++ h2) = theirs h1 ++ theirs h2.
Proof. unfold theirs. by rewrite filter_app, fmap_app. Qed.

Lemma tag_keep {A} (b : bool) (es : list A) : filter (fun e => e.1 = b) (pair b <$> es) = pair b <$> es.
Proof. induction es as [|e es IH]; [done|]. rewrite fmap_cons, filter_cons, decide_True by done. by rewrite IH. Qed.
Lemma tag_drop {A} (b b' : bool) (es : list A) : b <> b' -> filter (fun e => e.1 = b) (pair b' <$> es) = [].
Proof. intros Hb. induction es as [|e es IH]; [done|]. rewrite fmap_cons, filter_cons, decide_False by (cbn; congruence). done. Qed.

Lemma snd_tag {A} (b : bool) (es : list A) : (pair b <$> es).*2 = es.
Proof. rewrite <- list_fmap_compose. apply list_fmap_id. Qed.

Lemma own_tag es : own (pair true <$> es) = es /\ theirs (pair true <$> es) = [].
Proof. unfold own, theirs. by rewrite tag_keep, tag_drop, snd_tag. Qed.
Lemma theirs_tag es : own (pair false <$> es) = [] /\ theirs (pair false <$> es) = es.
Proof. unfold own, theirs. by rewrite tag_keep, tag_drop, snd_tag. Qed.

(** The steps of a schedule that are not those of thread 0. *)
Definition others_steps (sched : list nat) : nat := length (filter (fun i => i <> 0%nat) sched).

(** Thread 0 after a schedule, run to its end alone. *)
Definition finish {W A} (c : list (prog W A) * W) : option (A * W) := (fun p => run p c.2) <$> c.1 !! 0%nat.

Section Histories.
Context {K : KernelApi safety_fifo_slot} {KO : KernelOk K}.
Context (depth : Z).

Lemma run_happened {A} (P : list link_event -> A -> Prop) p (w : world K) :
  wf depth w -> does depth P p -> safe (wf depth) (fun _ => True) p ->
  exists es, happened depth es (link_of w) (link_of (run p w).2) /\ P es (run p w).1.
Proof.
  revert P w. induction p as [a|B act k IH]; intros P w Hw Hp Hs.
  - exists []. by split.
  - destruct (Hp w Hw) as (o & Ho & Hk), (Hs w Hw) as [Hw' Hs'].
    destruct (IH _ _ _ Hw' Hk Hs') as (es & Hes & HP).
    exists (option_list o ++ es). split; [by eapply happened_app|exact HP].
Qed.

(** A pool [c] that a schedule has reached from queues [l]: what happened, and what
    thread 0 is still going to do. *)
Definition explained {A} (P : list link_event -> A -> Prop) (sched : list nat) (l : link)
    (c : list (prog (world K) A) * world K) : Prop :=
  exists hist p, c.1 !! 0%nat = Some p /\ wf depth c.2 /\ happened depth hist.*2 l (link_of c.2) /\
    (length (theirs hist) <= others_steps sched)%nat /\
    does depth (fun es a => P (own hist ++ es) a) p /\ safe (wf depth) (fun _ => True) p.

(** One step more at the front. *)
Lemma explained_step {A} (P P' : list link_event -> A -> Prop) b o i sched l l' (c : list (prog (world K) A) * world K) :
  (b = false -> i <> 0%nat) -> happened depth (option_list o) l l' ->
  (forall es a, P' es a -> P (own (pair b <$> option_list o) ++ es) a) ->
  explained P' sched l' c -> explained P (i :: sched) l c.
Proof.
  intros Hb Ho HP (hist & p & H1 & H2 & H3 & H4 & H5 & H6).
  exists ((pair b <$> option_list o) ++ hist), p. split; [exact H1|]. split; [exact H2|].
  split; [rewrite fmap_app, snd_tag; by eapply happened_app|]. split; [|split; [|exact H6]].
  - rewrite theirs_app, length_app. unfold others_steps in *. destruct b.
    + rewrite (proj2 (own_tag _)), filter_cons. case_decide; cbn [length]; lia.
    + rewrite (proj2 (theirs_tag _)), filter_cons, decide_True by auto. destruct o; cbn; lia.
  - eapply does_mono; [|exact H5]. intros es a Ha. rewrite own_app, <- app_assoc. by apply HP.
Qed.

Lemma exec_explained {A} (P : list link_event -> A -> Prop) p others sched (w : world K) :
  wf depth w -> does depth P p -> safe (wf depth) (fun _ => True) p ->
  Forall (fun q => opwise depth q /\ safe (wf depth) (fun _ => True) q) others ->
  explained P sched (link_of w) (exec sched (p :: others, w)).
Proof.
  revert P p others w. induction sched as [|i sched IH]; intros P p others w Hw Hp Hs Hothers.
  { exists [], p. by repeat (split; [done|]). }
  assert (step_thread (p :: others, w) i = (p :: others, w) -> explained P (i :: sched) (link_of w) (exec (i :: sched) (p :: others, w))) as Hidle.
  { intros E. unfold exec. cbn [foldl]. rewrite E. eapply (explained_step P P true None); [done|apply happened_nil|done|by apply IH]. }
  destruct i as [|i].
  - destruct p as [a|B act k]; [by apply Hidle|].
    destruct (Hp w Hw) as (o & Ho & Hk), (Hs w Hw) as [Hw' Hs'].
    eapply (explained_step P _ true o); [done|exact Ho| |by apply (IH _ (k (act w).1) others (act w).2 Hw' Hk)].
    intros es a. by rewrite (proj1 (own_tag _)).
  - destruct (others !! i) as [[a|B act k]|] eqn:Ei;
      [apply Hidle; unfold step_thread; cbn [fst snd]; by rewrite lookup_cons, Ei| |
       apply Hidle; unfold step_thread; cbn [fst snd]; by rewrite lookup_cons, Ei].
    pose proof (Forall_lookup_1 _ _ _ _ Hothers Ei) as [Hq Hqs].
    destruct (Hq w Hw) as (o & Ho & Hk), (Hqs w Hw) as [Hw' Hs'].
    assert (step_thread (p :: others, w) (S i) = (p :: <[i := k (act w).1]> others, (act w).2)) as E
      by (unfold step_thread; cbn [fst snd]; by rewrite lookup_cons, Ei).
    unfold exec. cbn [foldl]. rewrite E.
    eapply (explained_step P P false o); [done|exact Ho| |apply IH; [done..|]].
    + intros es a. by rewrite (proj1 (theirs_tag _)).
    + apply Forall_insert; [done|]. by split.
Qed.

(** Any schedule, and then thread 0 to its end. *)
Lemma finish_happened {A} (P : list link_event -> A -> Prop) p others sched (w : world K) :
  wf depth w -> does depth P p -> safe (wf depth) (fun _ => True) p ->
  Forall (fun q => opwise depth q /\ safe (wf depth) (fun _ => True) q) others ->
  exists hist a w', finish (exec sched (p :: others, w)) = Some (a, w') /\
    happened depth hist.*2 (link_of w) (link_of w') /\
    (length (theirs hist) <= others_steps sched)%nat /\ P (own hist) a.
Proof.
  intros Hw Hp Hs Ho. destruct (exec_explained P p others sched w Hw Hp Hs Ho) as (hist & p' & H1 & H2 & H3 & H4 & H5 & H6).
  destruct (run_happened _ p' _ H2 H5 H6) as (es & Hes & HP).
  exists (hist ++ (pair true <$> es)), (run p' (exec sched (p :: others, w)).2).1, (run p' (exec sched (p :: others, w)).2).2.
  unfold finish. rewrite H1. split; [cbn; by destruct (run p' _)|].
  split; [rewrite fmap_app, snd_tag; by eapply happened_app|].
  rewrite theirs_app, own_app, (proj1 (own_tag _)), (proj2 (own_tag _)), app_nil_r. by split.
Qed.

End Histories.

(** ** Frames that left the TX queue *)

(** The frame in a [struct safety_copro_frame_io]. *)
Definition frame_of_io (io : list Z) : list Z := take (Z.to_nat (field 0 4 io)) (slice 4 272 io).

Lemma frame_of_io_bytes f : (length f <= 272)%nat -> frame_of_io (io_bytes f) = f.
Proof.
  intros H. unfold frame_of_io. rewrite io_bytes_len, io_bytes_data, io_bytes_data_short by lia.
  by rewrite Nat2Z.id, take_app_length.
Qed.

(** The frames of the successful pops. *)
Definition popped (es : list link_event) : list (list Z) :=
  omap (fun e => match e with (Pop, (r, io)) => if r =? 0 then Some (frame_of_io io) else None | _ => None end) es.

Lemma popped_app es1 es2 : popped (es1 ++ es2) = popped es1 ++ popped es2.
Proof. apply omap_app. Qed.

Lemma popped_size es : (length (concat (popped es)) <= 272 * length (popped es))%nat.
Proof.
  induction es as [|[op [r io]] es IH]; [done|]. unfold popped in *. cbn [omap list_omap].
  destruct op; try exact IH. destruct (r =? 0); [|exact IH]. cbn [concat length]. rewrite length_app.
  unfold frame_of_io at 1, slice. rewrite !length_take. lia.
Qed.

Definition is_write (e : link_event) : bool := if e.1 is Write _ then true else false.

(** Frames are not made up: each was in the queue or has been written. *)
Lemma popped_bound depth es l l' :
  happened depth es l l' -> (length (popped es) <= length (l_tx l) + length (filter (fun e => is_write e = true) es))%nat.
Proof.
  revert l. induction es as [|[op r] es IH]; intros l H; [cbn; lia|].
  unfold happened in H. cbn [fmap list_fmap link_run fst snd] in H.
  destruct (link_step depth op l) as [r1 l1] eqn:E, (link_run depth es.*1 l1) as [rs l2] eqn:E'.
  injection H as -> -> ->. specialize (IH l1 E'). rewrite filter_cons. unfold popped in *. cbn [omap list_omap].
  destruct op as [f|count|f|]; unfold is_write at 1; cbn [fst]; cbn [link_step] in E.
  - rewrite decide_False by done. replace (length (l_tx l)) with (length (l_tx l1)); [exact IH|].
    repeat case_decide; by injection E as _ <-.
  - rewrite decide_False by done. replace (length (l_tx l)) with (length (l_tx l1)); [exact IH|].
    destruct (l_rx l); by injection E as _ <-.
  - rewrite decide_True by done. cbn [length].
    enough (length (l_tx l1) <= S (length (l_tx l)))%nat by lia.
    repeat case_decide; injection E as _ <-; cbn [l_tx]; rewrite ?length_app; cbn [length]; lia.
  - rewrite decide_False by done. destruct (l_tx l) as [|f q] eqn:El; injection E as <- <-; [rewrite El in IH; exact IH|].
    cbn in *. lia.
Qed.
