(* ===== verification/Debugfs.v ===== *)
(** * The debugfs files: [linux/drivers/safety_copro/safety_copro_debugfs.c]

    Each [*_show] function takes its snapshot of the device and prints it; the
    text is a [string] with explicit newlines.  The timeline file is specified
    against the history of recorded events. *)

From S2P Require Import Prelude Crc32 Protocol KernelApi Device Kfifo Watchdog Chrdev DriverMain DriverInv DriverSim.
From Stdlib Require Import Ascii.

(** ** printf conversions *)

Definition nl : string := String "010"%char EmptyString.

(** Padding to a minimal width: [%-ns] and [%ns]. *)
Fixpoint spaces (n : nat) : string :=
  match n with O => EmptyString | S n => String " "%char (spaces n) end.
Definition pad_right (n : nat) (s : string) : string := s +:+ spaces (n - String.length s).
Definition pad_left (n : nat) (s : string) : string := spaces (n - String.length s) +:+ s.

(** [%u], [%d] and [%llu] of a non-negative value. *)
Definition dec (x : Z) : string := pretty (Z.to_N x).

(** ** Names *)

Definition tl_event_name (ev : safety_timeline_event) : string :=
  match ev with
  | SAFETY_TL_FRAME_RX => "FRAME_RX"
  | SAFETY_TL_FRAME_DROP => "FRAME_DROP"
  | SAFETY_TL_HEARTBEAT => "HEARTBEAT"
  | SAFETY_TL_TIMEOUT => "TIMEOUT"
  | SAFETY_TL_RECOVERY => "RECOVERY"
  | SAFETY_TL_FAULT_INJECT => "FAULT_INJECT"
  | SAFETY_TL_NONE => "NONE"
  end.

Definition fault_type_name (ft : Z) : string :=
  if ft =? SAFETY_FAULT_NONE then "NONE"
  else if ft =? SAFETY_FAULT_TASK_HANG then "HEARTBEAT_STOP"
  else if ft =? SAFETY_FAULT_CHECKSUM_ERROR then "CHECKSUM_ERROR"
  else if ft =? SAFETY_FAULT_CRITICAL then "CRITICAL"
  else "UNKNOWN".

Definition validate_name (v : safety_validate_result) : string :=
  match v with
  | SAFETY_VALIDATE_OK => "OK"
  | SAFETY_VALIDATE_BAD_MAGIC => "BAD_MAGIC"
  | SAFETY_VALIDATE_BAD_VERSION => "BAD_VERSION"
  | SAFETY_VALIDATE_BAD_LENGTH => "BAD_LENGTH"
  | SAFETY_VALIDATE_BAD_CHECKSUM => "BAD_CHECKSUM"
  end.

(** ** The files *)

Section Debugfs.
Context {K : KernelApi safety_fifo_slot}.

Definition stats_show : prog (world K) string :=
  d ← atomic (dev_get id);
  rx_depth ← safety_fifo_len;
  tx_depth ← safety_tx_fifo_len;
  mret ("current_state        " +:+ safety_link_state_name (state d) +:+ nl +:+
        "heartbeat_count      " +:+ dec (heartbeat_count d) +:+ nl +:+
        "fault_count          " +:+ dec (fault_count d) +:+ nl +:+
        "dropped_frame_count  " +:+ dec (dropped_frame_count d) +:+ nl +:+
        "timeout_count        " +:+ dec (timeout_count d) +:+ nl +:+
        "retry_count          " +:+ dec (retry_count d) +:+ nl +:+
        "protocol_error_count " +:+ dec (protocol_error_count d) +:+ nl +:+
        "rx_queue_depth       " +:+ dec rx_depth +:+ nl +:+
        "tx_queue_depth       " +:+ dec tx_depth +:+ nl).

Definition percpu_line (name : string) (p : safety_copro_pcpu) : string :=
  pad_right 6 name +:+ " " +:+ pad_left 12 (dec (rx_frames p)) +:+ " " +:+
  pad_left 12 (dec (dropped p)) +:+ " " +:+ pad_left 14 (dec (bytes p)) +:+ nl.

(** The unlocked loop over the possible CPUs. *)
Fixpoint percpu_lines (cpu n : nat) : prog (world K) string :=
  match n with
  | O => mret ""
  | S n =>
      p ← percpu_read cpu;
      rest ← percpu_lines (S cpu) n;
      mret (percpu_line (dec (Z.of_nat cpu)) p +:+ rest)
  end.

Definition percpu_stats_show : prog (world K) string :=
  lines ← percpu_lines 0 nr_cpus;
  sum ← safety_percpu_sum;
  mret (pad_right 6 "cpu" +:+ " " +:+ pad_left 12 "rx_frames" +:+ " " +:+
        pad_left 12 "dropped" +:+ " " +:+ pad_left 14 "bytes" +:+ nl +:+
        lines +:+ percpu_line "total" sum).

Definition ringbuf_status_show : prog (world K) string :=
  d ← atomic (dev_get id);
  mret ("rx_len          " +:+ dec (kfifo_len (rx_fifo d)) +:+ nl +:+
        "tx_len          " +:+ dec (kfifo_len (tx_fifo d)) +:+ nl +:+
        "capacity        " +:+ dec (kfifo_size (rx_fifo d)) +:+ nl +:+
        "high_watermark  " +:+ dec (fifo_high_watermark d) +:+ nl).

Definition last_fault_show : prog (world K) string :=
  d ← atomic (dev_get id);
  mret ("last_fault_type   " +:+ dec (last_fault_type d) +:+ " (" +:+
        fault_type_name (last_fault_type d) +:+ ")" +:+ nl +:+
        "detail_code       " +:+ dec (last_fault_detail d) +:+ nl +:+
        "timestamp_ns      " +:+ dec (last_fault_ts_ns d) +:+ nl).

Definition protocol_error_show : prog (world K) string :=
  d ← atomic (dev_get id);
  mret ("last_error        " +:+ validate_name (last_proto_err d) +:+ nl +:+
        "total             " +:+ dec (protocol_error_count d) +:+ nl +:+
        "bad_magic         " +:+ dec (proto_err_magic d) +:+ nl +:+
        "bad_version       " +:+ dec (proto_err_version d) +:+ nl +:+
        "bad_length        " +:+ dec (proto_err_length d) +:+ nl +:+
        "bad_checksum      " +:+ dec (proto_err_checksum d) +:+ nl).

Definition timeline_header : string :=
  pad_right 18 "ts_ns" +:+ " " +:+ pad_right 14 "event" +:+ " " +:+ pad_right 6 "seq" +:+ nl.

Definition timeline_line (e : safety_timeline_entry) : string :=
  pad_right 18 (dec (ts_ns e)) +:+ " " +:+ pad_right 14 (tl_event_name (event e)) +:+ " " +:+
  pad_right 6 (dec (entry_seq e)) +:+ nl.

(** The entries the loop [for (i = 0; i < filled; i++)] visits, from [i] on. *)
Fixpoint timeline_loop (snap : list safety_timeline_entry) (start : Z) (i n : nat) : string :=
  match n with
  | O => ""
  | S n =>
      let idx := (start + Z.of_nat i) mod SAFETY_TIMELINE_DEPTH in
      timeline_line (default (mkEntry 0 SAFETY_TL_NONE 0) (snap !! Z.to_nat idx)) +:+
      timeline_loop snap start (S i) n
  end.

Definition timeline_show : prog (world K) string :=
  d ← atomic (dev_get id);
  let head := timeline_head d in
  let filled := timeline_filled d in
  let snap := timeline d in
  if filled =? 0 then mret timeline_header
  else
    let start := if filled <? SAFETY_TIMELINE_DEPTH then 0 else head in
    mret (timeline_header +:+ timeline_loop snap start 0 (Z.to_nat filled)).

End Debugfs.

(** ** The timeline as a bounded history *)

(** The last [n] elements of a list. *)
Definition lastn {A} (n : nat) (l : list A) : list A := drop (length l - n) l.

Fixpoint concat_lines (l : list string) : string :=
  match l with [] => "" | s :: l => s +:+ concat_lines l end.

Section Timeline.
Context {K : KernelApi safety_fifo_slot}.
Implicit Types d : safety_copro_dev K.

(** What the ring holds, oldest first. *)
Definition timeline_entries d : list safety_timeline_entry :=
  if timeline_filled d <? SAFETY_TIMELINE_DEPTH
  then take (Z.to_nat (timeline_filled d)) (timeline d)
  else drop (Z.to_nat (timeline_head d)) (timeline d) ++
       take (Z.to_nat (timeline_head d)) (timeline d).

Lemma timeline_loop_map snap start i n :
  timeline_loop snap start i n =
  concat_lines (timeline_line <$>
    ((fun j => default (mkEntry 0 SAFETY_TL_NONE 0)
       (snap !! Z.to_nat ((start + Z.of_nat j) mod SAFETY_TIMELINE_DEPTH))) <$> seq i n)).
Proof.
  revert i; induction n as [|n IH]; intros i; [done|].
  cbn [timeline_loop seq fmap list_fmap concat_lines]. by rewrite IH.
Qed.

Lemma ring_visit (snap : list safety_timeline_entry) (head n : nat) x0 :
  length snap = 64%nat -> (head < 64)%nat -> (n <= 64)%nat ->
  (fun j => default x0 (snap !! Z.to_nat ((Z.of_nat head + Z.of_nat j) mod 64))) <$> seq 0 n =
  take n (drop head snap ++ take head snap).
Proof.
  intros Hl Hh Hn. apply list_eq_same_length with n.
  - rewrite length_take, length_app, length_drop, length_take. lia.
  - by rewrite length_fmap, length_seq.
  - intros i x y Hi Hx Hy.
    rewrite list_lookup_fmap, lookup_seq_lt in Hx by done. cbn in Hx.
    rewrite lookup_take_lt in Hy by done. simplify_eq.
    assert (snap !! Z.to_nat ((Z.of_nat head + Z.of_nat i) mod 64) = Some y) as ->; [|done].
    destruct (decide (head + i < 64)%nat) as [Hlt|Hge].
    + rewrite lookup_app_l in Hy by (rewrite length_drop; lia).
      rewrite lookup_drop in Hy. rewrite Z.mod_small by lia. rewrite <- Hy. f_equal. lia.
    + rewrite lookup_app_r in Hy by (rewrite length_drop; lia).
      rewrite length_drop, lookup_take_lt in Hy by lia. rewrite <- Hy. f_equal.
      replace (Z.of_nat head + Z.of_nat i) with (Z.of_nat head + Z.of_nat i - 64 + 1 * 64) by lia.
      rewrite Z_mod_plus_full, Z.mod_small by lia. lia.
Qed.

Lemma timeline_show_entries (w : world K) :
  timeline_ok (w_dev w) ->
  run timeline_show w =
    (timeline_header +:+ concat_lines (timeline_line <$> timeline_entries (w_dev w)), w).
Proof.
  intros (Hl & Hh & Hf & _). unfold timeline_show, timeline_entries, SAFETY_TIMELINE_DEPTH in *.
  rewrite run_bind, run_atomic. cbn [dev_get fst snd id].
  destruct (timeline_filled (w_dev w) =? 0) eqn:E0.
  { rewrite (proj2 (Z.ltb_lt _ _)), run_ret by lia.
    assert (timeline_filled (w_dev w) = 0) as -> by lia.
    reflexivity. }
  rewrite run_ret, timeline_loop_map. unfold SAFETY_TIMELINE_DEPTH.
  destruct (timeline_filled (w_dev w) <? 64) eqn:E.
  - pose proof (fun x0 => ring_visit (timeline (w_dev w)) 0
      (Z.to_nat (timeline_filled (w_dev w))) x0 ltac:(lia) ltac:(lia) ltac:(lia)) as H.
    change (Z.of_nat 0) with 0 in H. by rewrite H, drop_0, take_0, app_nil_r.
  - pose proof (fun x0 => ring_visit (timeline (w_dev w)) (Z.to_nat (timeline_head (w_dev w)))
      (Z.to_nat (timeline_filled (w_dev w))) x0 ltac:(lia) ltac:(lia) ltac:(lia)) as H.
    rewrite Z2Nat.id in H by lia. rewrite H, take_ge; [done|].
    rewrite length_app, length_drop, length_take. lia.
Qed.

(** Recording keeps the ring well formed and appends to the history. *)
Lemma timeline_record_history ev seq (w : world K) :
  timeline_ok (w_dev w) ->
  let w' := (safety_timeline_record_locked ev seq w).2 in
  timeline_ok (w_dev w') /\ w_now w' = S (w_now w) /\
  timeline_entries (w_dev w') =
    lastn 64 (timeline_entries (w_dev w) ++ [mkEntry (ktime_get_ns (w_now w)) ev seq]).
Proof.
  intros (Hl & Hh & Hf & Hfh). set (e := mkEntry _ ev seq).
  unfold timeline_ok, timeline_entries, SAFETY_TIMELINE_DEPTH in *.
  pose proof (timeline_step _ Hh) as Hstep. unfold SAFETY_TIMELINE_DEPTH in Hstep.
  unfold safety_timeline_record_locked, mbind, st_bind, dev_set, get_ktime. cbn. fold e.
  unfold SAFETY_TIMELINE_DEPTH. rewrite Hstep.
  assert (timeline_filled (w_dev w) < 64 ->
          u32 (timeline_filled (w_dev w) + 1) = timeline_filled (w_dev w) + 1) as Hu
    by (intros; apply u32_small; cbn; lia).
  destruct (timeline_filled (w_dev w) <? 64) eqn:E; cbn; rewrite ?length_insert, ?Hu by lia;
    set (h := timeline_head (w_dev w)) in *; set (f := timeline_filled (w_dev w)) in *;
    set (t := timeline (w_dev w)) in *; clearbody h f t.
  - assert (h = f) as -> by lia. split; [case_test; lia|]. split; [done|].
    assert (<[Z.to_nat f:=e]> t = take (Z.to_nat f) t ++ e :: drop (S (Z.to_nat f)) t) as ->
      by (apply insert_take_drop; lia).
    assert (take (Z.to_nat (f + 1)) (take (Z.to_nat f) t ++ e :: drop (S (Z.to_nat f)) t) =
            take (Z.to_nat f) t ++ [e]) as Htake.
    { rewrite take_app_ge by (rewrite length_take; lia). f_equal. rewrite length_take.
      replace (Z.to_nat (f + 1) - _)%nat with 1%nat by lia. done. }
    unfold lastn. rewrite length_app, length_take. cbn [length].
    replace (_ - 64)%nat with 0%nat by lia. rewrite drop_0.
    destruct (f + 1 <? 64) eqn:E1; [exact Htake|].
    assert (f = 63) as -> by lia. cbn [Z.eqb Z.to_nat]. rewrite drop_0, take_0, app_nil_r.
    rewrite (drop_ge t) by lia. done.
  - split; [case_test; lia|]. split; [done|].
    rewrite (proj2 (Z.ltb_ge f 64)) by lia.
    assert (<[Z.to_nat h:=e]> t = take (Z.to_nat h) t ++ e :: drop (S (Z.to_nat h)) t) as ->
      by (apply insert_take_drop; lia).
    unfold lastn. rewrite !length_app, length_drop, length_take. cbn [length].
    replace (_ - 64)%nat with 1%nat by lia.
    destruct (h =? 63) eqn:E1.
    + assert (h = 63) as -> by lia. cbn [Z.to_nat]. rewrite drop_0, take_0, app_nil_r.
      rewrite drop_app_le by (rewrite length_app, length_drop, length_take; lia).
      rewrite drop_app_ge by (rewrite length_drop; lia). rewrite length_drop.
      replace (1 - _)%nat with 0%nat by lia. rewrite drop_0.
      rewrite (drop_ge t (S _)) by lia. done.
    + rewrite drop_app_ge by (rewrite length_take; lia).
      rewrite take_app_ge by (rewrite length_take; lia). rewrite length_take.
      replace (Z.to_nat (h + 1) - Z.to_nat h `min` length t)%nat with 1%nat by lia.
      cbn [drop take].
      rewrite drop_app_le by (rewrite length_app, length_drop; lia).
      rewrite drop_app_le by (rewrite length_drop; lia).
      rewrite (drop_drop t 1 (Z.to_nat h)), Nat.add_1_r, <- app_assoc. done.
Qed.

End Timeline.

Section History.
Context {K : KernelApi safety_fifo_slot}.

(** A history of events recorded one after the other. *)
Fixpoint record_all (evs : list (safety_timeline_event * Z)) : st (world K) unit :=
  match evs with
  | [] => mret tt
  | e :: evs => _ ← safety_timeline_record_locked e.1 e.2; record_all evs
  end.

Lemma lastn_app {A} n (l k : list A) : lastn n (lastn n l ++ k) = lastn n (l ++ k).
Proof.
  unfold lastn. rewrite !length_app, !length_drop.
  destruct (decide (length l <= n)%nat) as [H|H].
  - replace (length l - n)%nat with 0%nat by lia. rewrite drop_0. f_equal. lia.
  - replace (drop (length l - n) l ++ k) with (drop (length l - n) (l ++ k))
      by (rewrite drop_app_le by lia; done).
    rewrite drop_drop. f_equal. lia.
Qed.

(** The entries those events leave, with the clock readings they took. *)
Definition entries_from (now : nat) (evs : list (safety_timeline_event * Z)) :
    list safety_timeline_entry :=
  imap (fun i e => mkEntry (ktime_get_ns (now + i)) e.1 e.2) evs.

Lemma record_all_history evs (w : world K) :
  timeline_ok (w_dev w) ->
  let w' := (record_all evs w).2 in
  timeline_ok (w_dev w') /\
  timeline_entries (w_dev w') =
    lastn 64 (timeline_entries (w_dev w) ++ entries_from (w_now w) evs).
Proof.
  revert w. induction evs as [|e evs IH]; intros w Hok.
  - split; [exact Hok|]. cbn. rewrite app_nil_r. unfold lastn.
    destruct Hok as (Hl & Hh & Hf & _). unfold timeline_entries, SAFETY_TIMELINE_DEPTH in *.
    case_test; rewrite ?length_app, ?length_drop, ?length_take;
      replace (_ - 64)%nat with 0%nat by lia; done.
  - destruct (timeline_record_history e.1 e.2 w Hok) as (Hok1 & Hnow & Hent).
    destruct (IH _ Hok1) as [Hok' Hent']. split; [exact Hok'|].
    cbn [record_all]. unfold mbind, st_bind. rewrite Hent', Hent, Hnow, lastn_app, <- app_assoc.
    do 2 f_equal. unfold entries_from. cbn [imap app]. rewrite Nat.add_0_r. f_equal.
    apply imap_ext. intros i x _. cbn. by rewrite Nat.add_succ_r.
Qed.

End History.

Module Props.
Section Props.
Context {K : KernelApi safety_fifo_slot}.

(** C18. The debugfs timeline shows the recent history: after any sequence of
    recorded events, reading [timeline] prints the header and then exactly the
    last 64 events of the ring's previous content followed by the new ones,
    oldest first, however often the ring has wrapped, and changes nothing. *)
Theorem timeline_shows_history evs (w : world K) :
  timeline_ok (w_dev w) ->
  let w' := (record_all evs w).2 in
  run timeline_show w' =
    (timeline_header +:+
     concat_lines (timeline_line <$>
       lastn 64 (timeline_entries (w_dev w) ++ entries_from (w_now w) evs)), w').
Proof.
  intros Hok w'. destruct (record_all_history evs w Hok) as [Hok' <-].
  by apply timeline_show_entries.
Qed.

End Props.

Lemma timeline_shows_history_witness :
  let evs := (fun n => (SAFETY_TL_FRAME_RX, Z.of_nat n)) <$> seq 0 66 in
  (run timeline_show (record_all evs sim_world).2).1 =
    timeline_header +:+ concat_lines
      ((fun n => timeline_line (mkEntry (Z.of_nat n * 1000000) SAFETY_TL_FRAME_RX (Z.of_nat n)))
         <$> seq 2 64).
Proof.
  intros evs. etrans.
  - apply (f_equal fst), (timeline_shows_history evs sim_world).
    vm_compute. repeat split; congruence.
  - vm_compute. reflexivity.
Defined.

End Props.
