(* ===== verification/Firmware.v ===== *)
(** * The co-processor firmware: [zephyr/safety_copro_firmware]

    Shared fault state ([include/safety_app.h]), frame transmission and the RX
    state machine ([src/safety_protocol.c]), the four tasks and [main].  The
    Zephyr kernel (message queue, clock, UART driver) is outside the repository
    and a parameter, [ZephyrApi]. *)

From S2P Require Import Prelude Crc32 Protocol.

(** ** Messages *)

(** [struct safety_rx_frame]: the header and the [payload_length] bytes copied;
    the rest of the payload array is uninitialised and never read. *)
Record safety_rx_frame := mkRxFrame { hdr : SafetyFrameHeader; payload : list Z }.

#[global] Instance rx_frame_eq_dec : EqDecision safety_rx_frame.
Proof. solve_decision. Defined.

(** ** The Zephyr kernel *)

Class ZephyrApi := {
  k_uptime_get : nat -> Z;                       (* the n-th reading, in ms *)
  k_msgq : Type;                                 (* of [safety_rx_frame] *)
  K_MSGQ_DEFINE : nat -> k_msgq;                 (* a queue of that many messages *)
  k_msgq_put : k_msgq -> safety_rx_frame -> Z * k_msgq;        (* K_NO_WAIT *)
  k_msgq_get : k_msgq -> option (safety_rx_frame * k_msgq);    (* None: still waiting *)
}.

Class ZephyrOk (Z0 : ZephyrApi) := {
  msgq_view : k_msgq -> list safety_rx_frame;    (* oldest first *)
  msgq_size : k_msgq -> nat;
  msgq_define n : msgq_view (K_MSGQ_DEFINE n) = [] /\ msgq_size (K_MSGQ_DEFINE n) = n;
  msgq_put_room q m :
    (length (msgq_view q) < msgq_size q)%nat ->
    (k_msgq_put q m).1 = 0 /\ msgq_view (k_msgq_put q m).2 = msgq_view q ++ [m];
  msgq_put_full q m :
    (msgq_size q <= length (msgq_view q))%nat ->
    (k_msgq_put q m).1 < 0 /\ msgq_view (k_msgq_put q m).2 = msgq_view q;
  msgq_put_size q m : msgq_size (k_msgq_put q m).2 = msgq_size q;
  msgq_get_empty q : msgq_view q = [] -> k_msgq_get q = None;
  msgq_get_some q m l :
    msgq_view q = m :: l ->
    exists q', k_msgq_get q = Some (m, q') /\ msgq_view q' = l /\ msgq_size q' = msgq_size q;
}.

Definition ENODEV : Z := 19.
Definition EINVAL : Z := 22.
Definition ENOSYS : Z := 88.
Definition ENOTSUP : Z := 134.

(** ** Shared state: [safety_app.h] *)

Definition SAFETY_DEFAULT_HEARTBEAT_MS : Z := 100.
Definition SAFETY_TELEMETRY_PERIOD_MS : Z := 250.
Definition SAFETY_FAULT_SCAN_MS : Z := 100.

(** [atomic_t] fields; [atomic_inc] wraps at the width of the 64-bit word. *)
Record safety_fault_state := mkFaultState {
  inject_task_hang : Z;
  inject_checksum_error : Z;
  inject_critical_fault : Z;
  fault_count : Z;
  in_safe_mode : Z;
  heartbeat_interval_ms : Z;
}.

#[global] Instance fault_state_rebuild : Rebuild safety_fault_state :=
  fun s => mkFaultState (inject_task_hang s) (inject_checksum_error s)
             (inject_critical_fault s) (fault_count s) (in_safe_mode s)
             (heartbeat_interval_ms s).
#[global] Instance update_hang : Update inject_task_hang := ltac:(derive_update).
#[global] Instance update_checksum_error : Update inject_checksum_error := ltac:(derive_update).
#[global] Instance update_critical : Update inject_critical_fault := ltac:(derive_update).
#[global] Instance update_fault_count : Update fault_count := ltac:(derive_update).
#[global] Instance update_safe_mode : Update in_safe_mode := ltac:(derive_update).
#[global] Instance update_interval : Update heartbeat_interval_ms := ltac:(derive_update).

Definition safety_state_init : safety_fault_state :=
  mkFaultState 0 0 0 0 0 SAFETY_DEFAULT_HEARTBEAT_MS.

(** ** RX state machine data: [safety_protocol.c] *)

Inductive rx_phase := RX_HUNT_MAGIC_LO | RX_HUNT_MAGIC_HI | RX_HEADER | RX_PAYLOAD.

#[global] Instance rx_phase_eq_dec : EqDecision rx_phase.
Proof. solve_decision. Defined.

Record rx_state := mkRx {
  phase : rx_phase;
  buf : list Z;          (* SAFETY_MAX_FRAME_SIZE bytes *)
  need : Z;              (* size_t *)
  got : Z;               (* size_t *)
  payload_len : Z;       (* u16 *)
}.

#[global] Instance rx_state_rebuild : Rebuild rx_state :=
  fun r => mkRx (phase r) (buf r) (need r) (got r) (payload_len r).
#[global] Instance update_phase : Update phase := ltac:(derive_update).
#[global] Instance update_buf : Update buf := ltac:(derive_update).
#[global] Instance update_need : Update need := ltac:(derive_update).
#[global] Instance update_got : Update got := ltac:(derive_update).
#[global] Instance update_payload_len : Update payload_len := ltac:(derive_update).

Definition MAGIC_LO : Z := Z.land SAFETY_PROTO_MAGIC 0xFF.
Definition MAGIC_HI : Z := Z.land (Z.shiftr SAFETY_PROTO_MAGIC 8) 0xFF.

Section Firmware.
Context {Zep : ZephyrApi}.

(** ** The firmware as a whole *)

Record fw := mkFw {
  g_fault_state : safety_fault_state;
  tx_sequence : Z;
  uart_ready : bool;               (* device_is_ready(uart_dev) *)
  uart_out : list Z;               (* bytes handed to uart_poll_out *)
  rxs : rx_state;
  g_rx_msgq : k_msgq;
  fw_now : nat;                    (* clock readings so far *)
}.

#[global] Instance fw_rebuild : Rebuild fw :=
  fun w => mkFw (g_fault_state w) (tx_sequence w) (uart_ready w) (uart_out w) (rxs w)
             (g_rx_msgq w) (fw_now w).
#[global] Instance update_g_fault_state : Update g_fault_state := ltac:(derive_update).
#[global] Instance update_tx_sequence : Update tx_sequence := ltac:(derive_update).
#[global] Instance update_uart_ready : Update uart_ready := ltac:(derive_update).
#[global] Instance update_uart_out : Update uart_out := ltac:(derive_update).
#[global] Instance update_rxs : Update rxs := ltac:(derive_update).
#[global] Instance update_g_rx_msgq : Update g_rx_msgq := ltac:(derive_update).
#[global] Instance update_fw_now : Update fw_now := ltac:(derive_update).

Definition fw_get {T} (f : fw -> T) : st fw T := fun w => (f w, w).
Definition fw_set (f : fw -> fw) : st fw unit := fun w => (tt, f w).

(** [atomic_get], [atomic_set] and [atomic_inc] (which returns the old value)
    on a field of the shared state. *)
Definition atomic_get (f : safety_fault_state -> Z) : prog fw Z :=
  atomic (fw_get (fun w => f (g_fault_state w))).
Definition atomic_set (f : safety_fault_state -> Z) {U : Update f} (v : Z) : prog fw unit :=
  atomic (fw_set (fun w => w <| g_fault_state ::= fun s => s <| f := v |> |>)).
Definition atomic_inc (f : safety_fault_state -> Z) {U : Update f} : prog fw Z :=
  atomic (fun w => (f (g_fault_state w),
                    w <| g_fault_state ::= fun s => s <| f ::= fun x => u64 (x + 1) |> |>)).

(** ** Transmission *)

Definition safety_now_ms : prog fw Z :=
  atomic (fun w => (u32 (k_uptime_get (fw_now w)), w <| fw_now ::= S |>)).

Definition safety_tx_seq_peek : prog fw Z := atomic (fw_get (fun w => u32 (tx_sequence w))).

(** [frame_buf] is static and overwritten by every call: only the bytes
    [safety_frame_pack] writes are sent. *)
Definition frame_buf : list Z := replicate (Z.to_nat SAFETY_MAX_FRAME_SIZE) 0.

(** The section that holds [tx_mutex]: pack, then send byte by byte.  No other
    task touches [frame_buf] or the transmitter while the mutex is held, so it
    is one action. *)
Definition send_locked (h : SafetyFrameHeader) (pl : option (list Z)) : st fw Z :=
  let '(total, _, out) := safety_frame_pack frame_buf h pl in
  if total =? 0 then mret (- EINVAL)
  else
    _ ← fw_set (fun w => w <| uart_out ::= fun o => o ++ take (Z.to_nat total) out |>);
    mret total.

Definition safety_send_frame (ty : Z) (pl : option (list Z)) (payload_len : Z) : prog fw Z :=
  if payload_len >? SAFETY_MAX_PAYLOAD then mret (- EINVAL)
  else
    ready ← atomic (fw_get uart_ready);
    if negb ready then mret (- ENODEV)
    else
      old ← atomic (fun w => (tx_sequence w, w <| tx_sequence ::= fun x => u64 (x + 1) |>));
      let seq := u16 old in
      now ← safety_now_ms;
      let h := safety_frame_init ty seq payload_len now in
      atomic (send_locked h pl).

(** ** Reception *)

Definition rx_reset : st fw unit :=
  fw_set (fun w => w <| rxs ::= fun r => r <| phase := RX_HUNT_MAGIC_LO |> <| need := 0 |>
                                           <| got := 0 |> <| payload_len := 0 |> |>).

(** The label [frame_complete]. *)
Definition frame_complete : st fw unit :=
  r ← fw_get rxs;
  _ ← (if bool_decide (safety_frame_validate (buf r) (got r) = SAFETY_VALIDATE_OK) then
         let msg := mkRxFrame (header_of_bytes (buf r))
                      (slice 16 (Z.to_nat (payload_len r)) (buf r)) in
         fw_set (fun w => w <| g_rx_msgq ::= fun q => (k_msgq_put q msg).2 |>)
       else mret tt);
  rx_reset.

(** [rxs.buf[rxs.got++] = b; rxs.need--]; [size_t] arithmetic. *)
Definition rx_store (b : Z) (r : rx_state) : rx_state :=
  r <| buf ::= <[Z.to_nat (got r) := b]> |> <| got := u64 (got r + 1) |>
    <| need := u64 (need r - 1) |>.

Definition rx_feed_byte (b : Z) : st fw unit :=
  r ← fw_get rxs;
  match phase r with
  | RX_HUNT_MAGIC_LO =>
      if b =? MAGIC_LO then
        fw_set (fun w => w <| rxs ::= fun r => r <| buf ::= <[0%nat := b]> |> <| got := 1 |>
                                               <| phase := RX_HUNT_MAGIC_HI |> |>)
      else mret tt
  | RX_HUNT_MAGIC_HI =>
      if b =? MAGIC_HI then
        fw_set (fun w => w <| rxs ::= fun r => r <| buf ::= <[1%nat := b]> |> <| got := 2 |>
                                               <| need := SAFETY_HEADER_SIZE - 2 |>
                                               <| phase := RX_HEADER |> |>)
      else if b =? MAGIC_LO then
        fw_set (fun w => w <| rxs ::= fun r => r <| buf ::= <[0%nat := b]> |> <| got := 1 |> |>)
      else rx_reset
  | RX_HEADER =>
      _ ← fw_set (fun w => w <| rxs ::= rx_store b |>);
      r ← fw_get rxs;
      if need r =? 0 then
        let h := header_of_bytes (buf r) in
        if payload_length h >? SAFETY_MAX_PAYLOAD then rx_reset
        else
          _ ← fw_set (fun w => w <| rxs ::= fun r => r <| payload_len := payload_length h |> |>);
          if payload_length h =? 0 then frame_complete
          else fw_set (fun w => w <| rxs ::= fun r => r <| need := payload_length h |>
                                                   <| phase := RX_PAYLOAD |> |>)
      else mret tt
  | RX_PAYLOAD =>
      _ ← fw_set (fun w => w <| rxs ::= rx_store b |>);
      r ← fw_get rxs;
      if need r =? 0 then frame_complete else mret tt
  end.

(** Feeding bytes one after the other; each is one action of the ISR. *)
Fixpoint rx_feed (bs : list Z) : prog fw unit :=
  match bs with
  | [] => mret tt
  | b :: bs => _ ← atomic (rx_feed_byte b); rx_feed bs
  end.

(** One pass of the loop of [uart_isr]: the answers of [uart_irq_is_pending] and
    [uart_irq_rx_ready], and the bytes [uart_fifo_read] hands out before it
    returns something else than 1.  The list ends when [uart_irq_update] is no
    longer positive. *)
Record uart_pass := mkPass { is_pending : bool; rx_ready : bool; fifo_bytes : list Z }.

Fixpoint uart_isr (passes : list uart_pass) : prog fw unit :=
  match passes with
  | [] => mret tt
  | p :: passes =>
      if negb (is_pending p) then mret tt
      else if rx_ready p then _ ← rx_feed (fifo_bytes p); uart_isr passes
      else mret tt
  end.

(** [cb_ret] is what [uart_irq_callback_set] returns. *)
Definition safety_uart_init (cb_ret : Z) : prog fw Z :=
  ready ← atomic (fw_get uart_ready);
  if negb ready then mret (- ENODEV)
  else
    _ ← atomic rx_reset;
    if (cb_ret <? 0) && negb (cb_ret =? - ENOSYS) && negb (cb_ret =? - ENOTSUP)
    then mret cb_ret
    else mret 0.

End Firmware.

#[global] Arguments fw Zep : clear implicits.
