(* ===== verification/FirmwareTasks.v ===== *)
(** * The firmware tasks: [zephyr/safety_copro_firmware/src/*_task.c] and [main.c]

    Each task body is the loop body as a thread with its local variables passed
    along; [*_task_entry n] runs [n] rounds of the endless loop, and [k_msleep]
    between two rounds lets every other task run. *)

From S2P Require Import Prelude Crc32 Protocol Firmware.

Section Tasks.
Context {Zep : ZephyrApi}.

(** ** [command_handler_task.c] *)

Definition send_ack (acked_seq : Z) : prog (fw Zep) unit :=
  let ack := mkAck acked_seq 0 in
  _ ← safety_send_frame SAFETY_FRAME_ACK (Some (ack_bytes ack)) 4; mret tt.

Definition send_nack (nacked_seq reason : Z) : prog (fw Zep) unit :=
  let nack := mkNack nacked_seq reason 0 in
  _ ← safety_send_frame SAFETY_FRAME_NACK (Some (nack_bytes nack)) 4; mret tt.

Definition reply_status : prog (fw Zep) unit :=
  fc ← atomic_get fault_count;
  let tm := mkTelemetry 250 3300 25 (u16 fc) in
  _ ← safety_send_frame SAFETY_FRAME_TELEMETRY (Some (telemetry_bytes tm)) 8; mret tt.

Definition apply_inject (ft : Z) : prog (fw Zep) bool :=
  if ft =? SAFETY_FAULT_TASK_HANG then _ ← atomic_set inject_task_hang 1; mret true
  else if ft =? SAFETY_FAULT_CHECKSUM_ERROR then
    _ ← atomic_set inject_checksum_error 1; mret true
  else if ft =? SAFETY_FAULT_CRITICAL then
    _ ← atomic_set inject_critical_fault 1; mret true
  else mret false.

Definition clear_all_injects : prog (fw Zep) unit :=
  _ ← atomic_set inject_task_hang 0;
  _ ← atomic_set inject_checksum_error 0;
  atomic_set inject_critical_fault 0.

Definition handle_command (frame : safety_rx_frame) : prog (fw Zep) unit :=
  let seq := sequence_id (hdr frame) in
  if negb (payload_length (hdr frame) =? 8) then send_nack seq SAFETY_NACK_PAYLOAD
  else
    let cmd := command_of_bytes (payload frame) in
    if command cmd =? SAFETY_CMD_GET_STATUS then
      _ ← reply_status; send_ack seq
    else if command cmd =? SAFETY_CMD_INJECT_FAULT then
      known ← apply_inject (arg8 cmd);
      if negb known then send_nack seq SAFETY_NACK_PAYLOAD else send_ack seq
    else if command cmd =? SAFETY_CMD_RESET_FAULT_STATE then
      _ ← clear_all_injects;
      _ ← atomic_set fault_count 0;
      _ ← atomic_set in_safe_mode 0;
      send_ack seq
    else if command cmd =? SAFETY_CMD_ENTER_SAFE_MODE then
      _ ← atomic_set in_safe_mode 1;
      send_ack seq
    else if command cmd =? SAFETY_CMD_REQUEST_RECOVERY then
      _ ← clear_all_injects;
      _ ← atomic_set in_safe_mode 0;
      now ← safety_now_ms;
      let rr := mkRecoveryReport 1 0 0 now in
      _ ← safety_send_frame SAFETY_FRAME_RECOVERY_REPORT (Some (recovery_report_bytes rr)) 8;
      send_ack seq
    else send_nack seq SAFETY_NACK_UNKNOWN_TYPE.

(** What the loop does with a message. *)
Definition dispatch_frame (frame : safety_rx_frame) : prog (fw Zep) unit :=
  if type (hdr frame) =? SAFETY_FRAME_COMMAND then handle_command frame
  else send_nack (sequence_id (hdr frame)) SAFETY_NACK_UNKNOWN_TYPE.

(** One round; nothing happens while the queue is empty ([K_FOREVER]). *)
Definition command_handler_round : prog (fw Zep) unit :=
  m ← atomic (fun w => match k_msgq_get (g_rx_msgq w) with
                       | Some (m, q) => (Some m, w <| g_rx_msgq := q |>)
                       | None => (None, w)
                       end);
  match m with
  | None => mret tt
  | Some frame => dispatch_frame frame
  end.

Fixpoint command_handler_task_entry (n : nat) : prog (fw Zep) unit :=
  match n with
  | O => mret tt
  | S n => _ ← command_handler_round; command_handler_task_entry n
  end.

(** ** [heartbeat_task.c] *)

(** One round with the local [beat_seq]: its new value and the time slept. *)
Definition heartbeat_round (beat_seq : Z) : prog (fw Zep) (Z * Z) :=
  v ← atomic_get heartbeat_interval_ms;
  let interval := if u32 v =? 0 then SAFETY_DEFAULT_HEARTBEAT_MS else u32 v in
  h ← atomic_get inject_task_hang;
  s ← atomic_get in_safe_mode;
  let hang := negb (h =? 0) in
  let safe := negb (s =? 0) in
  if negb hang && negb safe then
    now ← safety_now_ms;
    let hb := mkHeartbeat now beat_seq in
    _ ← safety_send_frame SAFETY_FRAME_HEARTBEAT (Some (heartbeat_bytes hb)) 8;
    mret (u32 (beat_seq + 1), interval)
  else mret (beat_seq, interval).

Fixpoint heartbeat_task_entry (n : nat) (beat_seq : Z) : prog (fw Zep) unit :=
  match n with
  | O => mret tt
  | S n => r ← heartbeat_round beat_seq; heartbeat_task_entry n r.1
  end.

(** ** [telemetry_task.c] *)

Definition TEMP_BASE_X10 : Z := 250.
Definition TEMP_SWING_X10 : Z := 150.
Definition VOLTAGE_NOMINAL : Z := 3300.

Definition telemetry_sample (tick fc : Z) : SafetyTelemetryPayload :=
  let phase := tick mod 20 in
  let delta := if phase <? 10 then phase * (TEMP_SWING_X10 / 10)
               else (20 - phase) * (TEMP_SWING_X10 / 10) in
  mkTelemetry (u16 (TEMP_BASE_X10 + delta)) VOLTAGE_NOMINAL (u16 (20 + tick mod 30)) (u16 fc).

Definition telemetry_round (tick : Z) : prog (fw Zep) Z :=
  s ← atomic_get in_safe_mode;
  if s =? 0 then
    fc ← atomic_get fault_count;
    let tm := telemetry_sample tick fc in
    _ ← safety_send_frame SAFETY_FRAME_TELEMETRY (Some (telemetry_bytes tm)) 8;
    mret (u32 (tick + 1))
  else mret (u32 (tick + 1)).

Fixpoint telemetry_task_entry (n : nat) (tick : Z) : prog (fw Zep) unit :=
  match n with
  | O => mret tt
  | S n => tick ← telemetry_round tick; telemetry_task_entry n tick
  end.

(** ** [fault_monitor_task.c] *)

Definition SEV_INFO : Z := 0.
Definition SEV_WARN : Z := 1.
Definition SEV_CRITICAL : Z := 2.

Definition emit_fault (ft sev detail : Z) : prog (fw Zep) unit :=
  now ← safety_now_ms;
  let ev := mkFaultEvent ft sev detail now in
  _ ← atomic_inc fault_count;
  _ ← safety_send_frame SAFETY_FRAME_FAULT_EVENT (Some (fault_event_bytes ev)) 8;
  mret tt.

(** One scan with the locals [prev_checksum] and [prev_critical]. *)
Definition fault_monitor_round (prev : bool * bool) : prog (fw Zep) (bool * bool) :=
  c ← atomic_get inject_checksum_error;
  k ← atomic_get inject_critical_fault;
  let checksum := negb (c =? 0) in
  let critical := negb (k =? 0) in
  _ ← (if checksum && negb prev.1
       then emit_fault SAFETY_FAULT_CHECKSUM_ERROR SEV_WARN 0x0002 else mret tt);
  _ ← (if critical && negb prev.2 then
         _ ← emit_fault SAFETY_FAULT_CRITICAL SEV_CRITICAL 0x0003;
         atomic_set in_safe_mode 1
       else mret tt);
  mret (checksum, critical).

Fixpoint fault_monitor_task_entry (n : nat) (prev : bool * bool) : prog (fw Zep) unit :=
  match n with
  | O => mret tt
  | S n => prev ← fault_monitor_round prev; fault_monitor_task_entry n prev
  end.

(** ** [main.c] *)

(** Memory at power-on: [.bss] is zero and the statics are initialised. *)
Definition fw_boot (ready : bool) : fw Zep :=
  mkFw (mkFaultState 0 0 0 0 0 0) 0 ready []
    (mkRx RX_HUNT_MAGIC_LO (replicate (Z.to_nat SAFETY_MAX_FRAME_SIZE) 0) 0 0 0)
    (K_MSGQ_DEFINE 8) 0.

Inductive task := THeartbeat | TTelemetry | TCommand | TFaultMonitor.

#[global] Instance task_eq_dec : EqDecision task.
Proof. solve_decision. Defined.

(** What [main] returns and the tasks it has started, with their priority and
    the CPU they are pinned to. *)
Definition spawn_pinned (t : task) (prio : Z) (cpu : Z) : task * Z * option Z :=
  (t, prio, if 0 <=? cpu then Some cpu else None).

Definition main (cb_ret : Z) : prog (fw Zep) (Z * list (task * Z * option Z)) :=
  _ ← atomic (fw_set (fun w => w <| g_fault_state := safety_state_init |>));
  r ← safety_uart_init cb_ret;
  if negb (r =? 0) then mret (- 1, [])
  else mret (0, [spawn_pinned THeartbeat 4 0; spawn_pinned TTelemetry 7 1;
                 spawn_pinned TCommand 5 (- 1); spawn_pinned TFaultMonitor 6 (- 1)]).

End Tasks.
