(* ===== verification/FirmwareRx.v ===== *)
(** * The firmware receiver, as an automaton on frames

    [rx_step] is the receiver of [src/safety_protocol.c] as a pure function of
    the state and the byte, [rx_feed_byte_step] shows it is what the code
    computes, and [rx_ok] is the invariant that keeps every buffer access in
    range.  [segments] is the declarative meaning of a received stream. *)

From S2P Require Import Prelude Crc32 Protocol Firmware.

(** ** The automaton *)

Definition rx_idle (r : rx_state) : rx_state :=
  r <| phase := RX_HUNT_MAGIC_LO |> <| need := 0 |> <| got := 0 |> <| payload_len := 0 |>.

Definition rx_finish (r : rx_state) : rx_state * option safety_rx_frame :=
  (rx_idle r,
   if bool_decide (safety_frame_validate (buf r) (got r) = SAFETY_VALIDATE_OK)
   then Some (mkRxFrame (header_of_bytes (buf r))
                (slice 16 (Z.to_nat (payload_len r)) (buf r)))
   else None).

Definition rx_step (b : Z) (r : rx_state) : rx_state * option safety_rx_frame :=
  match phase r with
  | RX_HUNT_MAGIC_LO =>
      if b =? MAGIC_LO then
        (r <| buf ::= <[0%nat := b]> |> <| got := 1 |> <| phase := RX_HUNT_MAGIC_HI |>, None)
      else (r, None)
  | RX_HUNT_MAGIC_HI =>
      if b =? MAGIC_HI then
        (r <| buf ::= <[1%nat := b]> |> <| got := 2 |> <| need := SAFETY_HEADER_SIZE - 2 |>
           <| phase := RX_HEADER |>, None)
      else if b =? MAGIC_LO then (r <| buf ::= <[0%nat := b]> |> <| got := 1 |>, None)
      else (rx_idle r, None)
  | RX_HEADER =>
      let r := rx_store b r in
      if need r =? 0 then
        let h := header_of_bytes (buf r) in
        if payload_length h >? SAFETY_MAX_PAYLOAD then (rx_idle r, None)
        else
          let r := r <| payload_len := payload_length h |> in
          if payload_length h =? 0 then rx_finish r
          else (r <| need := payload_length h |> <| phase := RX_PAYLOAD |>, None)
      else (r, None)
  | RX_PAYLOAD =>
      let r := rx_store b r in
      if need r =? 0 then rx_finish r else (r, None)
  end.

(** The frames a stream of bytes delivers. *)
Fixpoint rx_run (bs : list Z) (r : rx_state) : rx_state * list safety_rx_frame :=
  match bs with
  | [] => (r, [])
  | b :: bs =>
      let '(r, m) := rx_step b r in
      let '(r, ms) := rx_run bs r in
      (r, match m with Some m => m :: ms | None => ms end)
  end.

Lemma rx_run_app bs1 bs2 r :
  rx_run (bs1 ++ bs2) r =
  ((rx_run bs2 (rx_run bs1 r).1).1, (rx_run bs1 r).2 ++ (rx_run bs2 (rx_run bs1 r).1).2).
Proof.
  revert r. induction bs1 as [|b bs1 IH]; intros r; cbn [rx_run app].
  - cbn. by destruct (rx_run bs2 r).
  - destruct (rx_step b r) as [r1 m]. rewrite IH. destruct (rx_run bs1 r1) as [r2 ms]. cbn.
    by destruct m.
Qed.

Section Step.
Context {Zep : ZephyrApi} {ZO : ZephyrOk Zep}.

(** Posting a delivered frame to the queue. *)
Definition post (m : option safety_rx_frame) (q : k_msgq) : k_msgq :=
  match m with Some m => (k_msgq_put q m).2 | None => q end.

Lemma rx_feed_byte_step b (w : fw Zep) :
  rx_feed_byte b w =
  (tt, w <| rxs := (rx_step b (rxs w)).1 |> <| g_rx_msgq ::= post (rx_step b (rxs w)).2 |>).
Proof.
  destruct w as [s tx rdy out r q n]. unfold rx_feed_byte, rx_step, mbind, st_bind.
  cbn [fw_get fst snd rxs]. destruct r as [ph bf nd gt pl]. cbn [phase]. destruct ph.
  - by destruct (b =? MAGIC_LO).
  - destruct (b =? MAGIC_HI); [done|]. by destruct (b =? MAGIC_LO).
  - unfold rx_store. cbn. case_test; [|done]. case_test; [done|].
    case_test; [|done]. unfold frame_complete, mbind, st_bind, rx_finish. cbn.
    by case_test.
  - unfold rx_store. cbn. case_test; [|done].
    unfold frame_complete, mbind, st_bind, rx_finish. cbn. by case_test.
Qed.

(** The queue after posting a list of frames, as long as nothing is taken. *)
Lemma post_view m q :
  (length (msgq_view q) <= msgq_size q)%nat ->
  msgq_size (post m q) = msgq_size q /\
  msgq_view (post m q) = take (msgq_size q) (msgq_view q ++ option_list m).
Proof.
  intros Hl. destruct m as [m|]; cbn.
  - split; [apply msgq_put_size|].
    destruct (decide (length (msgq_view q) < msgq_size q)%nat) as [H|H].
    + destruct (msgq_put_room q m H) as [_ ->]. rewrite take_ge; [done|].
      rewrite length_app. cbn. lia.
    + destruct (msgq_put_full q m ltac:(lia)) as [_ ->].
      rewrite take_app_le, take_ge by lia. done.
  - split; [done|]. by rewrite app_nil_r, take_ge.
Qed.

Lemma rx_feed_run bs (w : fw Zep) :
  (length (msgq_view (g_rx_msgq w)) <= msgq_size (g_rx_msgq w))%nat ->
  let w' := (run (rx_feed bs) w).2 in
  rxs w' = (rx_run bs (rxs w)).1 /\ msgq_size (g_rx_msgq w') = msgq_size (g_rx_msgq w) /\
  msgq_view (g_rx_msgq w') =
    take (msgq_size (g_rx_msgq w)) (msgq_view (g_rx_msgq w) ++ (rx_run bs (rxs w)).2) /\
  g_fault_state w' = g_fault_state w /\ uart_out w' = uart_out w /\
  tx_sequence w' = tx_sequence w /\ uart_ready w' = uart_ready w.
Proof.
  revert w. induction bs as [|b bs IH]; intros w Hq; cbn [rx_feed rx_run].
  - rewrite app_nil_r, take_ge by done. done.
  - rewrite run_bind, run_atomic, rx_feed_byte_step. cbn [fst snd].
    destruct (rx_step b (rxs w)) as [r m]. cbn [fst snd].
    destruct (post_view m (g_rx_msgq w) Hq) as [Hs Hv].
    set (w1 := (w <| rxs := r |>) <| g_rx_msgq ::= post m |>).
    destruct (IH w1) as (H1 & H2 & H3 & H4).
    { change (g_rx_msgq w1) with (post m (g_rx_msgq w)). rewrite Hs, Hv, length_take. lia. }
    cbv zeta. change (g_rx_msgq w1) with (post m (g_rx_msgq w)) in *.
    change (rxs w1) with r in *. destruct (rx_run bs r) as [r' ms]. cbn [fst snd] in *.
    split; [done|]. split; [congruence|]. split; [|done].
    rewrite H3, Hs, Hv. set (n := msgq_size (g_rx_msgq w)) in *.
    set (v := msgq_view (g_rx_msgq w)) in *.
    destruct (decide (length v + length (option_list m) <= n)%nat) as [Hle|Hgt].
    + rewrite (take_ge (v ++ option_list m)) by (rewrite length_app; lia).
      rewrite <- app_assoc. by destruct m.
    + assert (length v = n) as Hv' by (destruct m; cbn in *; lia).
      rewrite !(take_app_le v) by lia. rewrite (take_ge v) by lia.
      rewrite take_app_le by lia. by rewrite take_ge by lia.
Qed.

End Step.

(** ** The invariant *)

(** The bytes of the frame being assembled. *)
Definition pending (r : rx_state) : list Z := take (Z.to_nat (got r)) (buf r).

Definition rx_ok (r : rx_state) : Prop :=
  length (buf r) = 272%nat /\ bytes_ok (buf r) /\
  match phase r with
  | RX_HUNT_MAGIC_LO => got r = 0
  | RX_HUNT_MAGIC_HI => got r = 1
  | RX_HEADER => 2 <= got r < 16 /\ need r = 16 - got r
  | RX_PAYLOAD =>
      16 <= got r < 16 + payload_len r /\ need r = 16 + payload_len r - got r /\
      payload_len r = payload_length (header_of_bytes (buf r)) /\ payload_len r <= 256
  end.

Lemma header_of_bytes_take buf :
  (16 <= length buf)%nat -> header_of_bytes (take 16 buf) = header_of_bytes buf.
Proof.
  intros H. rewrite <- (take_drop 16 buf) at 2.
  symmetry. apply header_of_bytes_app. rewrite length_take. lia.
Qed.

Lemma take_snoc_insert (l : list Z) n b :
  (n < length l)%nat -> take (S n) (<[n := b]> l) = take n l ++ [b].
Proof.
  intros H. rewrite (take_S_r _ n b) by (by rewrite list_lookup_insert_eq).
  by rewrite take_insert_ge by lia.
Qed.

Lemma bytes_ok_insert n b l : is_u8 b -> bytes_ok l -> bytes_ok (<[n := b]> l).
Proof. intros Hb Hl. by apply Forall_insert. Qed.

Lemma rx_store_spec b r :
  length (buf r) = 272%nat -> bytes_ok (buf r) -> is_u8 b -> 0 <= got r < 272 -> 0 < need r < 2 ^ 32 ->
  let r' := rx_store b r in
  length (buf r') = 272%nat /\ bytes_ok (buf r') /\ got r' = got r + 1 /\ need r' = need r - 1 /\
  pending r' = pending r ++ [b] /\ payload_len r' = payload_len r /\ phase r' = phase r /\
  (16 <= got r -> header_of_bytes (buf r') = header_of_bytes (buf r)).
Proof.
  intros Hl Hb Hu Hg Hn r'. unfold r', rx_store, pending. cbn.
  rewrite !u64_small by (cbn; lia). rewrite length_insert.
  split; [done|]. split; [by apply bytes_ok_insert|]. do 2 (split; [done|]).
  split; [|split; [done|split; [done|]]].
  - replace (Z.to_nat (got r + 1)) with (S (Z.to_nat (got r))) by lia.
    apply take_snoc_insert. lia.
  - intros H16. rewrite <- header_of_bytes_take by (rewrite length_insert; lia).
    rewrite take_insert_ge by lia. apply header_of_bytes_take. lia.
Qed.

Lemma rx_idle_ok r : length (buf r) = 272%nat -> bytes_ok (buf r) -> rx_ok (rx_idle r).
Proof. done. Qed.

Lemma pending_idle r : pending (rx_idle r) = [].
Proof. done. Qed.

(** A finished frame, delivered or not. *)
Lemma rx_finish_spec r :
  length (buf r) = 272%nat -> bytes_ok (buf r) ->
  got r = 16 + payload_len r -> 0 <= payload_len r <= 256 ->
  payload_len r = payload_length (header_of_bytes (buf r)) ->
  forall f, (rx_finish r).2 = Some f ->
  exists h p, frame_ok h p /\ pending r = frame_bytes h p /\ f = mkRxFrame (seal h p) p.
Proof.
  intros Hl Hb Hg Hp Hpl f Hf. unfold rx_finish in Hf. cbn in Hf.
  case_bool_decide as Hv; [|done]. injection Hf as <-.
  destruct (validate_ok_inv (buf r) (got r) Hb ltac:(lia) Hv) as (h & p & rest & Hok & Hbuf & _ & Hh).
  assert (payload_len r = Z.of_nat (length p)) as Hlp.
  { rewrite Hpl, Hh. apply Hok. }
  exists h, p. split; [done|]. unfold pending. rewrite Hh, Hg, Hlp, Hbuf. split.
  - rewrite take_app_length'; [done|]. rewrite length_frame_bytes. lia.
  - f_equal. unfold slice. rewrite drop_frame_bytes, Nat2Z.id, take_app_length. done.
Qed.

(** Each byte either extends the pending bytes, drops some of them, or
    completes a frame made of exactly the pending bytes and this one. *)
Lemma rx_step_spec b r :
  rx_ok r -> is_u8 b ->
  rx_ok (rx_step b r).1 /\
  match (rx_step b r).2 with
  | Some f => pending (rx_step b r).1 = [] /\
      exists h p, frame_ok h p /\ pending r ++ [b] = frame_bytes h p /\
                  f = mkRxFrame (seal h p) p
  | None => exists junk, pending r ++ [b] = junk ++ pending (rx_step b r).1
  end.
Proof.
  intros (Hl & Hb & Hph) Hu. unfold rx_step. destruct (phase r) eqn:Eph.
  - case_test; unfold rx_ok; cbn.
    + split; [split; [by rewrite length_insert|split; [by apply bytes_ok_insert|done]]|].
      exists []. unfold pending. rewrite Hph. symmetry.
      apply (take_snoc_insert (buf r) 0). lia.
    + split; [by rewrite Eph|]. exists [b].
      unfold pending. by rewrite Hph.
  - case_test; [|case_test]; unfold rx_ok; cbn.
    + split; [split; [by rewrite length_insert|split; [by apply bytes_ok_insert|]]|].
      { cbn. unfold SAFETY_HEADER_SIZE. lia. }
      exists []. unfold pending. rewrite Hph. symmetry.
      apply (take_snoc_insert (buf r) 1). lia.
    + split; [split; [by rewrite length_insert|split; [by apply bytes_ok_insert|]]|].
      { cbn. by rewrite Eph. }
      exists (pending r). f_equal. unfold pending. symmetry.
      apply (take_snoc_insert (buf r) 0). lia.
    + split; [done|]. exists (pending r ++ [b]). by rewrite app_nil_r.
  - destruct Hph as [Hg Hn].
    destruct (rx_store_spec b r Hl Hb Hu) as (Hl' & Hb' & Hg' & Hn' & Hpend & Hpl & Hph' & _);
      [lia|lia|]. rewrite Hn'. set (r' := rx_store b r) in *. clearbody r'.
    pose proof (header_of_bytes_ok (buf r') Hb' ltac:(lia)) as (_ & _ & _ & _ & Hr & _).
    unfold is_u16 in Hr. case_test.
    + case_test; [split; [by apply rx_idle_ok|]; exists (pending r ++ [b]); by rewrite app_nil_r|].
      unfold SAFETY_MAX_PAYLOAD in *. case_test.
      * set (r2 := r' <| payload_len := _ |>).
        assert (forall f, (rx_finish r2).2 = Some f ->
          exists h p, frame_ok h p /\ pending r2 = frame_bytes h p /\ f = mkRxFrame (seal h p) p) as Hf.
        { apply rx_finish_spec; try done; cbn -[header_of_bytes]; lia. }
        change (pending r2) with (pending r') in Hf. rewrite Hpend in Hf.
        split; [by apply rx_idle_ok|]. destruct (rx_finish r2).2 as [f|]; [by auto|].
        exists (pending r ++ [b]). by rewrite app_nil_r.
      * cbn [fst snd]. split; [|exists []; by rewrite <- Hpend].
        split; [done|]. split; [done|]. cbn -[header_of_bytes]. lia.
    + cbn. split; [|exists []; by rewrite Hpend]. split; [done|]. split; [done|].
      rewrite Hph', Eph. lia.
  - destruct Hph as (Hg & Hn & Hpl0 & Hmax).
    destruct (rx_store_spec b r Hl Hb Hu) as (Hl' & Hb' & Hg' & Hn' & Hpend & Hpl & Hph' & Hh);
      [lia|lia|]. rewrite Hn'. set (r' := rx_store b r) in *. clearbody r'.
    case_test.
    + assert (forall f, (rx_finish r').2 = Some f ->
        exists h p, frame_ok h p /\ pending r' = frame_bytes h p /\ f = mkRxFrame (seal h p) p) as Hf.
      { apply rx_finish_spec; try done; rewrite ?Hh, ?Hpl by lia; lia. }
      rewrite Hpend in Hf.
      split; [by apply rx_idle_ok|]. destruct (rx_finish r').2 as [f|]; [by auto|].
      exists (pending r ++ [b]). by rewrite app_nil_r.
    + cbn. split; [|exists []; by rewrite Hpend]. split; [done|]. split; [done|].
      rewrite Hph', Eph, Hh, Hpl by lia. lia.
Qed.

(** ** Soundness: what a stream delivers *)

(** [segments s ms]: the stream [s] consists of the frames [ms], in order, with
    bytes in between that belong to no delivered frame. *)
Inductive segments : list Z -> list safety_rx_frame -> Prop :=
| segments_nil : segments [] []
| segments_junk s ms junk : segments s ms -> segments (s ++ junk) ms
| segments_frame s ms h p :
    segments s ms -> frame_ok h p ->
    segments (s ++ frame_bytes h p) (ms ++ [mkRxFrame (seal h p) p]).

Lemma rx_run_segments bs r s ms :
  rx_ok r -> bytes_ok bs -> segments s ms ->
  let '(r', ms') := rx_run bs r in
  rx_ok r' /\
  exists s', s ++ pending r ++ bs = s' ++ pending r' /\ segments s' (ms ++ ms').
Proof.
  revert r s ms. induction bs as [|b bs IH]; intros r s ms Hr Hbs Hs; cbn [rx_run].
  - split; [done|]. exists s. by rewrite !app_nil_r.
  - apply Forall_cons_1 in Hbs as [Hb Hbs]. destruct (rx_step_spec b r Hr Hb) as [Hr1 Hm].
    destruct (rx_step b r) as [r1 m]. cbn [fst snd] in *.
    change (b :: bs) with ([b] ++ bs). rewrite (app_assoc (pending r)).
    destruct m as [f|].
    + destruct Hm as (Hp & h & p & Hok & -> & ->).
      specialize (IH r1 _ _ Hr1 Hbs (segments_frame s ms h p Hs Hok)).
      destruct (rx_run bs r1) as [r' ms']. rewrite Hp in IH.
      destruct IH as (Hr' & s' & Heq & Hseg). split; [done|]. exists s'.
      rewrite <- !app_assoc in *. done.
    + destruct Hm as (junk & ->). specialize (IH r1 _ _ Hr1 Hbs (segments_junk s ms junk Hs)).
      destruct (rx_run bs r1) as [r' ms']. destruct IH as (Hr' & s' & Heq & Hseg).
      split; [done|]. exists s'. rewrite <- !app_assoc in *. done.
Qed.

(** ** Completeness: clean frames are delivered *)

Lemma frame_first_bytes h p b0 b1 rest :
  frame_ok h p -> frame_bytes h p = b0 :: b1 :: rest -> b0 = MAGIC_LO /\ b1 = MAGIC_HI.
Proof.
  intros (_ & Hm & _) Hf. unfold frame_bytes, header_bytes in Hf. cbn in Hf.
  rewrite Hm in Hf. injection Hf as <- <- _. done.
Qed.

(** A proper prefix of a frame is pending, in the phase its length tells. *)
Definition prefix_phase (n : nat) : rx_phase :=
  match n with
  | O => RX_HUNT_MAGIC_LO
  | S O => RX_HUNT_MAGIC_HI
  | _ => if (n <? 16)%nat then RX_HEADER else RX_PAYLOAD
  end.

Definition mid_frame (pre : list Z) (r : rx_state) : Prop :=
  rx_ok r /\ pending r = pre /\ phase r = prefix_phase (length pre) /\
  got r = Z.of_nat (length pre).

Lemma pending_header h p pre b suf r :
  frame_ok h p -> frame_bytes h p = pre ++ b :: suf -> (15 <= length pre)%nat ->
  pending r = pre ++ [b] -> (length (buf r) = 272)%nat ->
  header_of_bytes (buf r) = seal h p.
Proof.
  intros Hok Hf Hlen Hp Hl. pose proof (f_equal (take 16) Hp) as Ht. unfold pending in Ht.
  assert (16 <= Z.to_nat (got r))%nat as Hg.
  { apply (f_equal length) in Hp. unfold pending in Hp.
    rewrite length_take, length_app in Hp. cbn in Hp. lia. }
  rewrite take_take, Nat.min_l in Ht by lia.
  rewrite <- header_of_bytes_take, Ht by lia.
  assert (take 16 (pre ++ [b]) = take 16 (frame_bytes h p)) as ->.
  { rewrite Hf. change (b :: suf) with ([b] ++ suf). rewrite app_assoc.
    symmetry. apply take_app_le. rewrite length_app. cbn. lia. }
  rewrite header_of_bytes_take by (rewrite length_frame_bytes; lia).
  rewrite <- (app_nil_r (frame_bytes h p)). apply frame_header; apply Hok.
Qed.

(** Bytes received before the last one. *)
Lemma mid_frame_step h p pre b suf r :
  frame_ok h p -> frame_bytes h p = pre ++ b :: suf -> suf <> [] -> is_u8 b ->
  mid_frame pre r ->
  (rx_step b r).2 = None /\ mid_frame (pre ++ [b]) (rx_step b r).1.
Proof.
  intros Hok Hf Hsuf Hu (Hr & Hp & Hph & Hg).
  pose proof (f_equal length Hf) as Hlen. rewrite length_frame_bytes, length_app in Hlen.
  assert (length suf <> 0)%nat by (destruct suf; done). cbn in Hlen.
  destruct Hok as (Hh & Hrest). pose proof (conj Hh Hrest : frame_ok h p) as Hok.
  destruct Hrest as (Hm & _ & Hpl & Hmax & Hbp). unfold SAFETY_MAX_PAYLOAD in Hmax.
  destruct (rx_step_spec b r Hr Hu) as [Hr' _]. destruct Hr as (Hl & Hb & Hinv).
  unfold mid_frame. rewrite length_app. cbn [length]. rewrite Nat.add_1_r.
  unfold rx_step in *. rewrite Hph in *.
  destruct (length pre) as [|[|n]] eqn:En; cbn [prefix_phase] in *.
  - destruct pre; [|done]. destruct suf as [|b1 suf]; [done|].
    destruct (frame_first_bytes h p b b1 suf Hok Hf) as [-> _]. cbn -[MAGIC_LO].
    rewrite Z.eqb_refl. split; [done|]. split; [by rewrite Z.eqb_refl in Hr'|].
    split; [apply (take_snoc_insert (buf r) 0); lia|done].
  - destruct pre as [|b0 [|]]; try done.
    destruct (frame_first_bytes h p b0 b suf Hok Hf) as [_ ->].
    rewrite Z.eqb_refl in *. cbn [fst snd] in *. split; [done|]. split; [done|].
    split; [|done]. rewrite <- Hp. unfold pending. rewrite Hg.
    apply (take_snoc_insert (buf r) 1). lia.
  - destruct (S (S n) <? 16)%nat eqn:E16.
    + apply Nat.ltb_lt in E16. destruct Hinv as [Hgr Hn].
      destruct (rx_store_spec b r Hl Hb Hu)
        as (Hl' & Hb' & Hg' & Hn' & Hpend & _ & Hph' & _); [lia|lia|].
      rewrite Hn' in *. set (r' := rx_store b r) in *. clearbody r'. rewrite Hp in Hpend.
      destruct (need r - 1 =? 0) eqn:E.
      * assert (header_of_bytes (buf r') = seal h p) as Hhd
          by (apply (pending_header h p pre b suf); done || lia).
        rewrite Hhd in *. change (payload_length (seal h p)) with (payload_length h) in *.
        unfold SAFETY_MAX_PAYLOAD in *. rewrite Z.gtb_ltb, (proj2 (Z.ltb_ge 256 (payload_length h))) in * by lia.
        rewrite (proj2 (Z.eqb_neq (payload_length h) 0)) in * by lia. cbn [fst snd] in *.
        split; [done|]. split; [done|]. split; [done|].
        assert (n = 13%nat) as -> by lia. split; [done|]. cbn. lia.
      * cbn [fst snd] in *. split; [done|]. split; [done|]. split; [done|].
        rewrite Hph', Hg', Hph, Hg. destruct (S (S (S n)) <? 16)%nat eqn:E'.
        -- split; [done|lia].
        -- apply Nat.ltb_ge in E'. lia.
    + apply Nat.ltb_ge in E16. destruct Hinv as (Hgr & Hn & Hplr & Hmaxr).
      destruct (rx_store_spec b r Hl Hb Hu)
        as (Hl' & Hb' & Hg' & Hn' & Hpend & _ & Hph' & Hhd'); [lia|lia|].
      rewrite Hn' in *. set (r' := rx_store b r) in *. clearbody r'. rewrite Hp in Hpend.
      assert (payload_len r = payload_length h) as Hplh.
      { rewrite Hplr, <- Hhd' by lia.
        rewrite (pending_header h p pre b suf) by (done || lia). done. }
      rewrite (proj2 (Z.eqb_neq (need r - 1) 0)) in * by lia. cbn [fst snd] in *.
      split; [done|]. split; [done|]. split; [done|].
      rewrite Hph', Hg', Hph, Hg. rewrite (proj2 (Nat.ltb_ge _ _)) by lia. split; [done|lia].
Qed.

Lemma rx_finish_frame h p r :
  frame_ok h p -> pending r = frame_bytes h p -> got r = 16 + Z.of_nat (length p) ->
  payload_len r = Z.of_nat (length p) ->
  rx_finish r = (rx_idle r, Some (mkRxFrame (seal h p) p)).
Proof.
  intros Hok Hp Hg Hpl. unfold rx_finish.
  rewrite <- (take_drop (Z.to_nat (got r)) (buf r)). fold (pending r). rewrite Hp.
  rewrite Hg, validate_frame by (done || lia). cbn [bool_decide].
  rewrite bool_decide_eq_true_2 by done.
  rewrite frame_header by apply Hok. unfold slice.
  by rewrite drop_frame_bytes, Hpl, Nat2Z.id, take_app_length.
Qed.

(** The last byte of a frame delivers it. *)
Lemma mid_frame_last h p pre b r :
  frame_ok h p -> frame_bytes h p = pre ++ [b] -> is_u8 b -> mid_frame pre r ->
  rx_ok (rx_step b r).1 /\ phase (rx_step b r).1 = RX_HUNT_MAGIC_LO /\
  (rx_step b r).2 = Some (mkRxFrame (seal h p) p).
Proof.
  intros Hok Hf Hu (Hr & Hp & Hph & Hg).
  pose proof (f_equal length Hf) as Hlen. rewrite length_frame_bytes, length_app in Hlen.
  cbn in Hlen. destruct (rx_step_spec b r Hr Hu) as [Hr' _]. split; [done|].
  destruct Hr as (Hl & Hb & Hinv). pose proof Hok as (Hh & _ & _ & Hpl & Hmax & _).
  unfold SAFETY_MAX_PAYLOAD in Hmax. unfold rx_step in *. rewrite Hph in *.
  assert (length pre = S (S (length pre - 2))) as En by lia.
  rewrite En in *. cbn [prefix_phase] in *.
  destruct (S (S (length pre - 2)) <? 16)%nat eqn:E16.
  - apply Nat.ltb_lt in E16. destruct Hinv as [Hgr Hn].
    destruct (rx_store_spec b r Hl Hb Hu)
      as (Hl' & Hb' & Hg' & Hn' & Hpend & _ & _ & _); [lia|lia|].
    rewrite Hn'. set (r' := rx_store b r) in *. clearbody r'. rewrite Hp in Hpend.
    rewrite (proj2 (Z.eqb_eq (need r - 1) 0)) by lia.
    rewrite (pending_header h p pre b []) by (done || lia).
    change (payload_length (seal h p)) with (payload_length h).
    unfold SAFETY_MAX_PAYLOAD. rewrite Z.gtb_ltb, (proj2 (Z.ltb_ge 256 (payload_length h))) by lia.
    rewrite (proj2 (Z.eqb_eq (payload_length h) 0)) by lia.
    rewrite (rx_finish_frame h p); [done|done| |cbn; lia|cbn; lia].
    rewrite Hf. exact Hpend.
  - apply Nat.ltb_ge in E16. destruct Hinv as (Hgr & Hn & Hplr & Hmaxr).
    destruct (rx_store_spec b r Hl Hb Hu)
      as (Hl' & Hb' & Hg' & Hn' & Hpend & Hpl' & _ & Hhd'); [lia|lia|].
    rewrite Hn'. set (r' := rx_store b r) in *. clearbody r'. rewrite Hp in Hpend.
    assert (payload_len r = payload_length h) as Hplh.
    { rewrite Hplr, <- Hhd' by lia.
      rewrite (pending_header h p pre b []) by (done || lia). done. }
    rewrite (proj2 (Z.eqb_eq (need r - 1) 0)) by lia.
    rewrite (rx_finish_frame h p); [done|done|by rewrite Hf|lia|lia].
Qed.

Lemma mid_frame_run h p suf pre r :
  frame_ok h p -> frame_bytes h p = pre ++ suf -> suf <> [] -> mid_frame pre r ->
  exists r', rx_run suf r = (r', [mkRxFrame (seal h p) p]) /\ rx_ok r' /\
             phase r' = RX_HUNT_MAGIC_LO.
Proof.
  intros Hok. revert pre r. induction suf as [|b suf IH]; intros pre r Hf Hne Hmid; [done|].
  assert (is_u8 b) as Hu.
  { assert (bytes_ok (frame_bytes h p)) as Hb by (apply bytes_ok_frame, Hok).
    rewrite Hf, bytes_ok_app in Hb. destruct Hb as [_ Hb]. by apply Forall_cons_1 in Hb as [Hb _]. }
  destruct suf as [|b' suf].
  - destruct (mid_frame_last h p pre b r Hok Hf Hu Hmid) as (Hr & Hph & Hm).
    cbn [rx_run]. destruct (rx_step b r) as [r' m]. cbn [fst snd] in *. subst m. by exists r'.
  - destruct (mid_frame_step h p pre b (b' :: suf) r Hok Hf) as [Hm Hmid']; [done|done|done|].
    destruct (IH (pre ++ [b]) (rx_step b r).1) as (r' & Hrun & H); [|done|done|].
    { by rewrite <- app_assoc. }
    exists r'. split; [|done]. remember (b' :: suf) as suf' eqn:Es. cbn [rx_run].
    destruct (rx_step b r) as [r1 m]. cbn [fst snd] in *. by rewrite Hrun, Hm.
Qed.

Lemma idle_mid_frame r : rx_ok r -> phase r = RX_HUNT_MAGIC_LO -> mid_frame [] r.
Proof.
  intros Hr Hph. pose proof Hr as (_ & _ & Hg). rewrite Hph in Hg.
  split; [done|]. unfold pending. by rewrite Hg.
Qed.

Lemma rx_run_frame h p r :
  frame_ok h p -> rx_ok r -> phase r = RX_HUNT_MAGIC_LO ->
  exists r', rx_run (frame_bytes h p) r = (r', [mkRxFrame (seal h p) p]) /\ rx_ok r' /\
             phase r' = RX_HUNT_MAGIC_LO.
Proof.
  intros Hok Hr Hph. apply (mid_frame_run h p _ []); [done|done| |by apply idle_mid_frame].
  intros H. apply (f_equal length) in H. by rewrite length_frame_bytes in H.
Qed.

(** Bytes that cannot start a frame are skipped. *)
Lemma rx_run_noise noise r :
  Forall (fun b => b <> MAGIC_LO) noise -> phase r = RX_HUNT_MAGIC_LO ->
  rx_run noise r = (r, []).
Proof.
  intros Hn Hph. induction Hn as [|b noise Hb _ IH]; [done|].
  cbn [rx_run]. unfold rx_step. rewrite Hph, (proj2 (Z.eqb_neq _ _)) by done. by rewrite IH.
Qed.

(** A stream of noise and frames. *)
Definition stream (l : list (list Z * (SafetyFrameHeader * list Z))) : list Z :=
  mjoin ((fun x => x.1 ++ frame_bytes x.2.1 x.2.2) <$> l).

Definition clean (x : list Z * (SafetyFrameHeader * list Z)) : Prop :=
  Forall (fun b => b <> MAGIC_LO) x.1 /\ frame_ok x.2.1 x.2.2.

Definition rx_message (x : list Z * (SafetyFrameHeader * list Z)) : safety_rx_frame :=
  mkRxFrame (seal x.2.1 x.2.2) x.2.2.

Lemma rx_run_stream l r :
  Forall clean l -> rx_ok r -> phase r = RX_HUNT_MAGIC_LO ->
  exists r', rx_run (stream l) r = (r', rx_message <$> l) /\ rx_ok r' /\
             phase r' = RX_HUNT_MAGIC_LO.
Proof.
  intros Hl. revert r. induction Hl as [|[noise [h p]] l [Hn Hok] _ IH]; intros r Hr Hph.
  { by exists r. }
  destruct (rx_run_frame h p r Hok Hr Hph) as (r1 & Hrun & Hr1 & Hph1).
  destruct (IH r1 Hr1 Hph1) as (r' & Hrun' & H). exists r'. split; [|done].
  change (stream ((noise, (h, p)) :: l)) with ((noise ++ frame_bytes h p) ++ stream l).
  rewrite !rx_run_app, (rx_run_noise noise r Hn Hph). cbn [fst snd]. rewrite Hrun. cbn [fst snd].
  by rewrite Hrun'.
Qed.
