(* ===== verification/FirmwareSpec.v ===== *)
(** * Specifications of the firmware tasks

    What one uninterrupted run of each operation sends and stores, the
    invariant every interleaving of the tasks and the UART interrupt preserves,
    and a concrete kernel instance for the witnesses. *)

From S2P Require Import Prelude Crc32 Protocol Firmware FirmwareTasks FirmwareRx.

(** ** A concrete Zephyr *)

Module SimZ.

#[local] Instance api : ZephyrApi := {|
  k_uptime_get n := Z.of_nat n * 10;
  k_msgq := nat * list safety_rx_frame;
  K_MSGQ_DEFINE n := (n, []);
  k_msgq_put q m := if (length q.2 <? q.1)%nat then (0, (q.1, q.2 ++ [m])) else (- 35, q);
  k_msgq_get q := match q.2 with [] => None | m :: l => Some (m, (q.1, l)) end;
|}.

#[local] Instance ok : ZephyrOk api.
Proof.
  refine {| msgq_view := fun q : @k_msgq api => q.2;
            msgq_size := fun q : @k_msgq api => q.1 |}; simpl; try done.
  - intros [s l] m H; simpl in *. by rewrite (proj2 (Nat.ltb_lt _ _)) by done.
  - intros [s l] m H; simpl in *. rewrite (proj2 (Nat.ltb_ge _ _)) by done. done.
  - intros [s l] m; simpl. by case_test.
  - intros [s l] H; simpl in *. by subst.
  - intros [s l] m l' H; simpl in *. subst. by eexists.
Defined.

End SimZ.

Definition SimZep : ZephyrApi := SimZ.api.
#[global] Instance simzep_ok : ZephyrOk SimZep := SimZ.ok.

Section Spec.
Context {Zep : ZephyrApi}.
Implicit Types w : fw Zep.

(** ** Sending *)

(** The frame [safety_send_frame] puts on the wire. *)
Definition wire_frame (ty seq now : Z) (p : list Z) : list Z :=
  frame_bytes (safety_frame_init ty seq (Z.of_nat (length p)) now) p.

(** The state after sending [p]. *)
Definition sent (ty : Z) (p : list Z) w : fw Zep :=
  w <| uart_out ::= fun o => o ++ wire_frame ty (u16 (tx_sequence w)) (u32 (k_uptime_get (fw_now w))) p |>
    <| tx_sequence ::= fun x => u64 (x + 1) |> <| fw_now ::= S |>.

Lemma send_locked_run ty seq now p w :
  is_u8 ty -> is_u16 seq -> is_u32 now -> bytes_ok p -> (length p <= 256)%nat ->
  send_locked (safety_frame_init ty seq (Z.of_nat (length p)) now) (Some p) w =
  (16 + Z.of_nat (length p),
   w <| uart_out ::= fun o => o ++ wire_frame ty seq now p |>).
Proof.
  intros Hty Hseq Hnow Hp Hl.
  destruct (frame_pack_spec frame_buf _ p ltac:(done)
              (frame_init_ok _ _ _ _ Hty Hseq Hnow Hp Hl)) as (out & Hpack & Htake & _).
  unfold send_locked. cbn [payload_length safety_frame_init] in *. rewrite Hpack.
  rewrite (proj2 (Z.eqb_neq _ _)) by lia. unfold mbind, st_bind. cbn [fw_set fst snd].
  by rewrite Htake.
Qed.

Lemma send_run ty p w :
  is_u8 ty -> bytes_ok p -> (length p <= 256)%nat ->
  run (safety_send_frame ty (Some p) (Z.of_nat (length p))) w =
  if uart_ready w then (16 + Z.of_nat (length p), sent ty p w) else (- ENODEV, w).
Proof.
  intros Hty Hp Hl. unfold safety_send_frame, SAFETY_MAX_PAYLOAD.
  rewrite Z.gtb_ltb, (proj2 (Z.ltb_ge _ _)) by lia.
  rewrite run_bind, run_atomic. cbn [fw_get fst snd].
  destruct (uart_ready w) eqn:Hr; cbn [negb]; [|done].
  rewrite run_bind, run_atomic. cbn [fst snd]. unfold safety_now_ms.
  rewrite run_bind, run_atomic. cbn [fst snd]. rewrite run_atomic.
  rewrite send_locked_run by first [done | apply u16_range | apply u32_range]. by destruct w.
Qed.

(** A frame with one of the fixed-size payload structs. *)
Lemma send_payload_run ty p (n : Z) w :
  is_u8 ty -> bytes_ok p -> Z.of_nat (length p) = n -> n <= 256 -> uart_ready w = true ->
  run (safety_send_frame ty (Some p) n) w = (16 + n, sent ty p w).
Proof. intros Hty Hp <- Hn Hr. by rewrite send_run, Hr by (done || lia). Qed.

Ltac payload_bytes :=
  repeat (apply bytes_ok_app; split); apply bytes_ok_le_bytes.

Lemma heartbeat_bytes_ok p : bytes_ok (heartbeat_bytes p).
Proof. payload_bytes. Qed.
Lemma telemetry_bytes_ok p : bytes_ok (telemetry_bytes p).
Proof. payload_bytes. Qed.
Lemma fault_bytes_ok p : bytes_ok (fault_event_bytes p).
Proof. payload_bytes. Qed.
Lemma ack_bytes_ok p : bytes_ok (ack_bytes p).
Proof. payload_bytes. Qed.
Lemma nack_bytes_ok p : bytes_ok (nack_bytes p).
Proof. payload_bytes. Qed.
Lemma report_bytes_ok p : bytes_ok (recovery_report_bytes p).
Proof. payload_bytes. Qed.
#[local] Hint Resolve heartbeat_bytes_ok telemetry_bytes_ok fault_bytes_ok ack_bytes_ok
  nack_bytes_ok report_bytes_ok : safety.

Lemma send_ack_run seq w :
  uart_ready w = true ->
  run (send_ack seq) w = (tt, sent SAFETY_FRAME_ACK (ack_bytes (mkAck seq 0)) w).
Proof.
  intros Hr. unfold send_ack. rewrite run_bind, send_payload_run; auto with safety; try done.
Qed.

Lemma send_nack_run seq reason w :
  uart_ready w = true ->
  run (send_nack seq reason) w =
  (tt, sent SAFETY_FRAME_NACK (nack_bytes (mkNack seq reason 0)) w).
Proof.
  intros Hr. unfold send_nack. rewrite run_bind, send_payload_run; auto with safety; try done.
Qed.

(** ** Commands *)

Inductive verdict := Accepted | Refused (reason : Z).

(** What the command handler answers to a frame. *)
Definition command_verdict (f : safety_rx_frame) : verdict :=
  let cmd := command_of_bytes (payload f) in
  if decide (type (hdr f) <> SAFETY_FRAME_COMMAND) then Refused SAFETY_NACK_UNKNOWN_TYPE
  else if decide (payload_length (hdr f) <> 8) then Refused SAFETY_NACK_PAYLOAD
  else if decide (command cmd = SAFETY_CMD_INJECT_FAULT /\
                  ~ 1 <= arg8 cmd <= 3) then Refused SAFETY_NACK_PAYLOAD
  else if decide (1 <= command cmd <= 5) then Accepted
  else Refused SAFETY_NACK_UNKNOWN_TYPE.

(** How an accepted command changes the shared state. *)
Definition command_effect (f : safety_rx_frame) (s : safety_fault_state) : safety_fault_state :=
  let cmd := command_of_bytes (payload f) in
  match command_verdict f with
  | Refused _ => s
  | Accepted =>
      match command cmd with
      | 2 => match arg8 cmd with
             | 1 => s <| inject_task_hang := 1 |>
             | 2 => s <| inject_checksum_error := 1 |>
             | _ => s <| inject_critical_fault := 1 |>
             end
      | 3 => mkFaultState 0 0 0 (fault_count s) 0 (heartbeat_interval_ms s)
      | 4 => s <| in_safe_mode := 1 |>
      | 5 => mkFaultState 0 0 0 0 0 (heartbeat_interval_ms s)
      | _ => s
      end
  end.

(** The frame sent before the answer, if any: a status snapshot or a recovery
    report. *)
Definition command_report (f : safety_rx_frame) (s : safety_fault_state) (seq now1 now2 : Z) :
    list Z :=
  match command_verdict f with
  | Refused _ => []
  | Accepted =>
      match command (command_of_bytes (payload f)) with
      | 1 => wire_frame SAFETY_FRAME_TELEMETRY seq now2
               (telemetry_bytes (mkTelemetry 250 3300 25 (u16 (fault_count s))))
      | 3 => wire_frame SAFETY_FRAME_RECOVERY_REPORT seq now2
               (recovery_report_bytes (mkRecoveryReport 1 0 0 now1))
      | _ => []
      end
  end.

(** The final ACK or NACK, which names the sequence number of the frame. *)
Definition command_answer (f : safety_rx_frame) (seq now : Z) : list Z :=
  match command_verdict f with
  | Accepted => wire_frame SAFETY_FRAME_ACK seq now (ack_bytes (mkAck (sequence_id (hdr f)) 0))
  | Refused reason =>
      wire_frame SAFETY_FRAME_NACK seq now (nack_bytes (mkNack (sequence_id (hdr f)) reason 0))
  end.

(** The outcome of one frame: state, frames sent, sequence numbers used. *)
Definition answered (f : safety_rx_frame) w w' : Prop :=
  g_fault_state w' = command_effect f (g_fault_state w) /\
  rxs w' = rxs w /\ g_rx_msgq w' = g_rx_msgq w /\ uart_ready w' = uart_ready w /\
  exists now1 now2 now3 seq,
    is_u32 now1 /\ is_u32 now2 /\ is_u32 now3 /\
    uart_out w' = uart_out w ++
      command_report f (g_fault_state w) (u16 (tx_sequence w)) now1 now2 ++
      command_answer f seq now3 /\
    (seq = u16 (tx_sequence w) \/ seq = u16 (u64 (tx_sequence w + 1))).

Lemma answered_direct f w w' :
  command_effect f (g_fault_state w) = g_fault_state w' ->
  (forall seq now1 now2, command_report f (g_fault_state w) seq now1 now2 = []) ->
  w' = w <| g_fault_state := g_fault_state w' |> ->
  answered f w
    (match command_verdict f with
     | Accepted => sent SAFETY_FRAME_ACK (ack_bytes (mkAck (sequence_id (hdr f)) 0)) w'
     | Refused r =>
         sent SAFETY_FRAME_NACK (nack_bytes (mkNack (sequence_id (hdr f)) r 0)) w'
     end).
Proof.
  intros He Hr Hw. unfold answered, command_answer.
  destruct (command_verdict f); rewrite Hw; cbn; (split; [done|]); do 3 (split; [done|]);
    exists 0, 0, (u32 (k_uptime_get (fw_now w))), (u16 (tx_sequence w));
    rewrite Hr; cbn [app]; (do 2 (split; [cbn; lia|])); (split; [apply u32_range|]); auto.
Qed.

Lemma atomic_set_run (g : safety_fault_state -> Z) {U : Update g} v w :
  run (atomic_set g v) w = (tt, w <| g_fault_state ::= fun s => s <| g := v |> |>).
Proof. done. Qed.

(** The verdict, the effect and the report, command by command. *)
Lemma verdict_refused f reason w :
  uart_ready w = true -> command_verdict f = Refused reason ->
  exists w', run (send_nack (sequence_id (hdr f)) reason) w = (tt, w') /\ answered f w w'.
Proof.
  intros Hrdy Hv. rewrite send_nack_run by done. eexists. split; [reflexivity|].
  pose proof (answered_direct f w w) as H. rewrite Hv in H. apply H.
  - unfold command_effect. by rewrite Hv.
  - intros. unfold command_report. by rewrite Hv.
  - by destruct w.
Qed.

(** A command accepted without a report: the new shared state is [s']. *)
Lemma verdict_accepted f s' w :
  uart_ready w = true -> command_verdict f = Accepted ->
  command_effect f (g_fault_state w) = s' ->
  (forall seq now1 now2, command_report f (g_fault_state w) seq now1 now2 = []) ->
  exists w', run (send_ack (sequence_id (hdr f))) (w <| g_fault_state := s' |>) = (tt, w') /\
             answered f w w'.
Proof.
  intros Hrdy Hv He Hr. rewrite send_ack_run by done. eexists. split; [reflexivity|].
  pose proof (answered_direct f w (w <| g_fault_state := s' |>)) as H. rewrite Hv in H.
  apply H; [done|done|by destruct w].
Qed.

Lemma apply_inject_run t w :
  run (apply_inject t) w =
  (bool_decide (1 <= t <= 3),
   w <| g_fault_state ::= fun s =>
     if t =? 1 then s <| inject_task_hang := 1 |>
     else if t =? 2 then s <| inject_checksum_error := 1 |>
     else if t =? 3 then s <| inject_critical_fault := 1 |> else s |>).
Proof.
  unfold apply_inject, SAFETY_FAULT_TASK_HANG, SAFETY_FAULT_CHECKSUM_ERROR, SAFETY_FAULT_CRITICAL.
  destruct (t =? 1) eqn:E1; [|destruct (t =? 2) eqn:E2; [|destruct (t =? 3) eqn:E3]];
    step_run; rewrite ?atomic_set_run; cbn [fst snd];
    case_bool_decide; try lia; destruct w; try done; by destruct g_fault_state0.
Qed.

Lemma clear_all_injects_run w :
  run clear_all_injects w =
  (tt, w <| g_fault_state ::= fun s =>
     s <| inject_task_hang := 0 |> <| inject_checksum_error := 0 |>
       <| inject_critical_fault := 0 |> |>).
Proof. done. Qed.

(** After a report [rep], the ACK. *)
Lemma verdict_reported f ty p w1 w :
  uart_ready w = true -> command_verdict f = Accepted -> is_u8 ty -> bytes_ok p ->
  length p = 8%nat ->
  w1 = w <| g_fault_state := command_effect f (g_fault_state w) |> <| fw_now := fw_now w1 |> ->
  (exists now1, is_u32 now1 /\ forall seq now2,
     command_report f (g_fault_state w) seq now1 now2 = wire_frame ty seq now2 p) ->
  exists w', run (_ ← safety_send_frame ty (Some p) 8; send_ack (sequence_id (hdr f))) w1 = (tt, w') /\
             answered f w w'.
Proof.
  intros Hrdy Hv Hty Hp Hl Hw1 (now1 & Hn1 & Hrep).
  assert (uart_ready w1 = true) as Hrdy1 by (by rewrite Hw1).
  rewrite run_bind, send_payload_run by (done || lia). cbn [fst snd].
  rewrite send_ack_run by done. eexists. split; [reflexivity|].
  rewrite Hw1. unfold answered, command_answer. rewrite Hv. do 4 (split; [done|]).
  exists now1, (u32 (k_uptime_get (fw_now w1))), (u32 (k_uptime_get (S (fw_now w1)))),
    (u16 (u64 (tx_sequence w + 1))).
  split; [done|]. split; [apply u32_range|]. split; [apply u32_range|].
  rewrite Hrep. cbn. rewrite <- app_assoc. auto.
Qed.

Lemma handle_command_run f w :
  uart_ready w = true -> type (hdr f) = SAFETY_FRAME_COMMAND ->
  exists w', run (handle_command f) w = (tt, w') /\ answered f w w'.
Proof.
  intros Hrdy Hty. unfold handle_command.
  destruct (payload_length (hdr f) =? 8) eqn:Epl; cbn [negb]; swap 1 2.
  { apply verdict_refused; [done|]. unfold command_verdict.
    rewrite decide_False, decide_True by (lia || tauto). done. }
  assert (payload_length (hdr f) = 8) as Hpl by lia.
  set (cmd := command_of_bytes (payload f)).
  assert (command_verdict f =
    if decide (command cmd = SAFETY_CMD_INJECT_FAULT /\ ~ 1 <= arg8 cmd <= 3)
    then Refused SAFETY_NACK_PAYLOAD
    else if decide (1 <= command cmd <= 5) then Accepted
    else Refused SAFETY_NACK_UNKNOWN_TYPE) as Hv.
  { unfold command_verdict. rewrite Hty, Hpl, !(decide_False (P := _ <> _)) by tauto. done. }
  unfold SAFETY_CMD_GET_STATUS, SAFETY_CMD_INJECT_FAULT, SAFETY_CMD_RESET_FAULT_STATE,
    SAFETY_CMD_ENTER_SAFE_MODE, SAFETY_CMD_REQUEST_RECOVERY in *.
  destruct (command cmd =? 1) eqn:E1;
    [|destruct (command cmd =? 2) eqn:E2; [|destruct (command cmd =? 5) eqn:E5;
      [|destruct (command cmd =? 4) eqn:E4; [|destruct (command cmd =? 3) eqn:E3]]]].
  - assert (command cmd = 1) as Hc by lia. rewrite Hc in Hv. cbn in Hv.
    unfold reply_status, atomic_get. step_run. cbn [fw_get fst snd].
    pose proof (verdict_reported f SAFETY_FRAME_TELEMETRY
      (telemetry_bytes (mkTelemetry 250 3300 25 (u16 (fault_count (g_fault_state w))))) w w) as H.
    rewrite run_bind in H. apply H; try done; [apply telemetry_bytes_ok| |].
    + unfold command_effect. rewrite Hv. fold cmd. rewrite Hc. by destruct w.
    + exists 0. split; [cbn; lia|]. intros. unfold command_report. rewrite Hv. fold cmd.
      by rewrite Hc.
  - assert (command cmd = 2) as Hc by lia. rewrite Hc in Hv. cbn in Hv.
    rewrite run_bind, apply_inject_run. cbn [fst snd].
    case_bool_decide as Ha; cbn [negb].
    + rewrite decide_False in Hv by tauto.
      pose proof (verdict_accepted f _ w Hrdy Hv eq_refl) as H.
      unfold command_effect, command_report in H. rewrite Hv in H. fold cmd in H.
      rewrite Hc in H. destruct H as (w' & Hrun & H); [done|]. exists w'. split; [|done].
      rewrite <- Hrun. f_equal.
      assert (arg8 cmd = 1 \/ arg8 cmd = 2 \/ arg8 cmd = 3) as [Hx|[Hx|Hx]] by lia;
        rewrite Hx; by destruct w.
    + rewrite decide_True in Hv by tauto.
      destruct (verdict_refused f _ w Hrdy Hv) as (w' & Hrun & H). exists w'. split; [|done].
      rewrite <- Hrun. f_equal.
      rewrite (proj2 (Z.eqb_neq (arg8 cmd) 1)), (proj2 (Z.eqb_neq (arg8 cmd) 2)),
        (proj2 (Z.eqb_neq (arg8 cmd) 3)) by lia. by destruct w.
  - assert (command cmd = 5) as Hc by lia. rewrite Hc in Hv. cbn in Hv.
    rewrite run_bind, clear_all_injects_run. step_run. rewrite !atomic_set_run. cbn [fst snd].
    pose proof (verdict_accepted f _ w Hrdy Hv eq_refl) as H.
    unfold command_effect, command_report in H. rewrite Hv in H. fold cmd in H.
    rewrite Hc in H. destruct H as (w' & Hrun & H); [done|]. exists w'. split; [|done].
    by rewrite <- Hrun.
  - assert (command cmd = 4) as Hc by lia. rewrite Hc in Hv. cbn in Hv.
    rewrite run_bind, atomic_set_run. cbn [fst snd].
    pose proof (verdict_accepted f _ w Hrdy Hv eq_refl) as H.
    unfold command_effect, command_report in H. rewrite Hv in H. fold cmd in H.
    rewrite Hc in H. destruct H as (w' & Hrun & H); [done|]. exists w'. split; [|done].
    by rewrite <- Hrun.
  - assert (command cmd = 3) as Hc by lia. rewrite Hc in Hv. cbn in Hv.
    rewrite run_bind, clear_all_injects_run. cbn [fst snd].
    rewrite run_bind, atomic_set_run. cbn [fst snd].
    rewrite run_bind. unfold safety_now_ms. rewrite run_atomic. cbn [fst snd].
    apply verdict_reported; try done; [apply report_bytes_ok| |].
    + unfold command_effect. rewrite Hv. fold cmd. rewrite Hc. by destruct w as [[] ? ? ? ? ? ?].
    + exists (u32 (k_uptime_get (fw_now w))). split; [apply u32_range|]. intros.
      unfold command_report. rewrite Hv. fold cmd. by rewrite Hc.
  - apply verdict_refused; [done|]. rewrite Hv, !decide_False by lia. done.
Qed.

Lemma dispatch_run f w :
  uart_ready w = true ->
  exists w', run (dispatch_frame f) w = (tt, w') /\ answered f w w'.
Proof.
  intros Hrdy. unfold dispatch_frame. destruct (type (hdr f) =? SAFETY_FRAME_COMMAND) eqn:Ety.
  - apply handle_command_run; [done|lia].
  - apply verdict_refused; [done|]. unfold command_verdict. by rewrite decide_True by lia.
Qed.

End Spec.

#[export] Hint Resolve heartbeat_bytes_ok telemetry_bytes_ok fault_bytes_ok ack_bytes_ok
  nack_bytes_ok report_bytes_ok : safety.
