(* ===== verification/FirmwareInv.v ===== *)
(** * The firmware invariant under preemption and interrupts

    Every atomic action of the four tasks and of the UART interrupt preserves
    [fw_ok], so it holds in every state any interleaving reaches. *)

From S2P Require Import Prelude Crc32 Protocol Firmware FirmwareTasks FirmwareRx FirmwareSpec.

Section Inv.
Context {Zep : ZephyrApi} {ZO : ZephyrOk Zep}.

(** ** The invariant *)

Definition is_frame (f : list Z) : Prop := exists h p, frame_ok h p /\ f = frame_bytes h p.

(** The bytes sent so far are whole frames, back to back. *)
Definition wire_ok (out : list Z) : Prop := exists fs, Forall is_frame fs /\ out = mjoin fs.

Definition message_ok (m : safety_rx_frame) : Prop :=
  exists h p, frame_ok h p /\ m = mkRxFrame (seal h p) p.

Definition is_flag (x : Z) : Prop := x = 0 \/ x = 1.

Definition flags_ok (s : safety_fault_state) : Prop :=
  is_flag (inject_task_hang s) /\ is_flag (inject_checksum_error s) /\
  is_flag (inject_critical_fault s) /\ is_flag (in_safe_mode s) /\ is_u64 (fault_count s) /\
  heartbeat_interval_ms s = SAFETY_DEFAULT_HEARTBEAT_MS.

Record fw_ok (w : fw Zep) : Prop := {
  ok_wire : wire_ok (uart_out w);
  ok_rx : rx_ok (rxs w);
  ok_msgs : Forall message_ok (msgq_view (g_rx_msgq w));
  ok_queue : (length (msgq_view (g_rx_msgq w)) <= 8)%nat /\ msgq_size (g_rx_msgq w) = 8%nat;
  ok_flags : flags_ok (g_fault_state w);
}.

Abbreviation safe0 := (safe fw_ok (fun _ => True)).

Lemma safe_fw_get {T} (f : fw Zep -> T) : safe0 (atomic (fw_get f)).
Proof. intros w Hw. done. Qed.

Lemma safe_atomic_get f : safe0 (atomic_get f).
Proof. apply safe_fw_get. Qed.

Lemma safe_flags (g : safety_fault_state -> safety_fault_state) :
  (forall s, flags_ok s -> flags_ok (g s)) ->
  safe0 (atomic (fw_set (fun w => w <| g_fault_state ::= g |>))).
Proof. intros Hg w []. split; [|done]. constructor; try done. by apply Hg. Qed.

Ltac flags := intros [] (? & ? & ? & ? & ? & ?); unfold flags_ok, is_flag in *; cbn in *; tauto.

Lemma safe_set_hang v : is_flag v -> safe0 (atomic_set inject_task_hang v).
Proof. intros Hv. apply safe_flags. flags. Qed.
Lemma safe_set_checksum v : is_flag v -> safe0 (atomic_set inject_checksum_error v).
Proof. intros Hv. apply safe_flags. flags. Qed.
Lemma safe_set_critical v : is_flag v -> safe0 (atomic_set inject_critical_fault v).
Proof. intros Hv. apply safe_flags. flags. Qed.
Lemma safe_set_safe_mode v : is_flag v -> safe0 (atomic_set in_safe_mode v).
Proof. intros Hv. apply safe_flags. flags. Qed.
Lemma safe_clear_count : safe0 (atomic_set fault_count 0).
Proof. apply safe_flags. intros [] (? & ? & ? & ? & ? & ?). repeat split; try done; cbn; lia. Qed.
Lemma safe_inc_count : safe0 (atomic_inc fault_count).
Proof.
  intros w []. split; [|done]. constructor; try done.
  destruct ok_flags0 as (? & ? & ? & ? & ? & ?).
  do 4 (split; [done|]). split; [apply u64_range|done].
Qed.

(** ** Sending *)

Lemma wire_ok_app out f : wire_ok out -> is_frame f -> wire_ok (out ++ f).
Proof.
  intros (fs & Hfs & ->) Hf. exists (fs ++ [f]). split; [by apply Forall_app_2; [|constructor]|].
  rewrite join_app. cbn. by rewrite app_nil_r.
Qed.

Lemma wire_frame_is_frame ty seq now p :
  is_u8 ty -> is_u16 seq -> is_u32 now -> bytes_ok p -> (length p <= 256)%nat ->
  is_frame (wire_frame ty seq now p).
Proof. intros. eexists _, p. split; [by apply frame_init_ok|done]. Qed.

Lemma safe_uptime : safe fw_ok is_u32 safety_now_ms.
Proof. intros w []. split; [by constructor|]. apply u32_range. Qed.

Lemma safe_send ty p n :
  is_u8 ty -> bytes_ok p -> Z.of_nat (length p) = n ->
  safe0 (safety_send_frame ty (Some p) n).
Proof.
  intros Hty Hp <-. unfold safety_send_frame. apply safe_if; intros Hl; [done|].
  unfold SAFETY_MAX_PAYLOAD in Hl.
  apply safe_seq; [apply safe_fw_get|intros ready]. apply safe_if; intros _; [done|].
  apply safe_seq; [intros w []; split; [by constructor|done]|intros old].
  eapply safe_bind; [apply safe_uptime|]. intros now Hnow. intros w Hw.
  rewrite send_locked_run by (done || apply u16_range || lia). cbn [fst snd]. split; [|done].
  destruct Hw. constructor; try done. cbn. apply wire_ok_app; [done|].
  apply wire_frame_is_frame; done || apply u16_range || lia.
Qed.

Lemma safe_send_tt ty p n :
  is_u8 ty -> bytes_ok p -> Z.of_nat (length p) = n ->
  safe0 (_ ← safety_send_frame ty (Some p) n; mret tt).
Proof. intros. by apply safe_seq; [apply safe_send|]. Qed.

(** ** Tasks *)

Lemma safe_ack seq : safe0 (send_ack seq).
Proof. apply safe_send_tt; [done|apply ack_bytes_ok|done]. Qed.
Lemma safe_nack seq r : safe0 (send_nack seq r).
Proof. apply safe_send_tt; [done|apply nack_bytes_ok|done]. Qed.

Lemma safe_clear_injects : safe0 clear_all_injects.
Proof.
  apply safe_seq; [apply safe_set_hang; by left|intros _].
  apply safe_seq; [apply safe_set_checksum; by left|intros _]. apply safe_set_critical. by left.
Qed.

Lemma safe_dispatch f : safe0 (dispatch_frame f).
Proof.
  unfold dispatch_frame. apply safe_if; intros _; [|apply safe_nack].
  unfold handle_command. apply safe_if; intros _; [apply safe_nack|].
  repeat (apply safe_if; intros _).
  - apply safe_seq; [|intros _; apply safe_ack].
    apply safe_seq; [apply safe_atomic_get|intros fc].
    apply safe_send_tt; [done|apply telemetry_bytes_ok|done].
  - apply safe_seq; [|intros k; apply safe_if; intros _; [apply safe_nack|apply safe_ack]].
    unfold apply_inject. repeat (apply safe_if; intros _); try done;
      (apply safe_seq; [|done]); [apply safe_set_hang|apply safe_set_checksum|apply safe_set_critical];
      by right.
  - apply safe_seq; [apply safe_clear_injects|intros _].
    apply safe_seq; [apply safe_clear_count|intros _].
    apply safe_seq; [apply safe_set_safe_mode; by left|intros _; apply safe_ack].
  - apply safe_seq; [apply safe_set_safe_mode; by right|intros _; apply safe_ack].
  - apply safe_seq; [apply safe_clear_injects|intros _].
    apply safe_seq; [apply safe_set_safe_mode; by left|intros _].
    apply safe_seq; [eapply safe_weaken, safe_uptime|intros now].
    apply safe_seq; [|intros _; apply safe_ack].
    apply safe_send; [done|apply report_bytes_ok|done].
  - apply safe_nack.
Qed.

Lemma safe_command_round : safe0 command_handler_round.
Proof.
  apply safe_seq.
  - intros w Hw. pose proof Hw as []. destruct (msgq_view (g_rx_msgq w)) as [|m l] eqn:Hv.
    + rewrite msgq_get_empty by done. by split.
    + destruct (msgq_get_some _ m l Hv) as (q & -> & Hq & Hs). cbn. split; [|done].
      apply Forall_cons_1 in ok_msgs0 as [_ Hl]. destruct ok_queue0 as [Hlen Hsz].
      cbn in Hlen. constructor; try done; cbn; rewrite Hq; [done|]. rewrite Hs. lia.
  - intros [f|]; [apply safe_dispatch|done].
Qed.

Lemma safe_command_task n : safe0 (command_handler_task_entry n).
Proof.
  induction n as [|n IH]; [done|]. by apply safe_seq; [apply safe_command_round|intros _].
Qed.

Lemma safe_heartbeat_round b : safe0 (heartbeat_round b).
Proof.
  apply safe_seq; [apply safe_atomic_get|intros v].
  apply safe_seq; [apply safe_atomic_get|intros h].
  apply safe_seq; [apply safe_atomic_get|intros s].
  apply safe_if; intros _; [|done].
  apply safe_seq; [eapply safe_weaken, safe_uptime|intros now].
  apply safe_seq; [|done]. apply safe_send; [done|apply heartbeat_bytes_ok|done].
Qed.

Lemma safe_heartbeat_task n b : safe0 (heartbeat_task_entry n b).
Proof.
  revert b. induction n as [|n IH]; intros b; [done|].
  apply safe_seq; [apply safe_heartbeat_round|intros r; apply IH].
Qed.

Lemma safe_telemetry_task n tick : safe0 (telemetry_task_entry n tick).
Proof.
  revert tick. induction n as [|n IH]; intros tick; [done|].
  apply safe_seq; [|intros t; apply IH].
  apply safe_seq; [apply safe_atomic_get|intros s]. apply safe_if; intros _; [|done].
  apply safe_seq; [apply safe_atomic_get|intros fc].
  apply safe_seq; [|done]. apply safe_send; [done|apply telemetry_bytes_ok|done].
Qed.

Lemma safe_emit_fault ft sev detail : safe0 (emit_fault ft sev detail).
Proof.
  apply safe_seq; [eapply safe_weaken, safe_uptime|intros now].
  apply safe_seq; [apply safe_inc_count|intros _].
  apply safe_send_tt; [done|apply fault_bytes_ok|done].
Qed.

Lemma safe_fault_monitor_task n prev : safe0 (fault_monitor_task_entry n prev).
Proof.
  revert prev. induction n as [|n IH]; intros prev; [done|].
  apply safe_seq; [|intros t; apply IH].
  apply safe_seq; [apply safe_atomic_get|intros c].
  apply safe_seq; [apply safe_atomic_get|intros k].
  apply safe_seq; [apply safe_if; intros _; [apply safe_emit_fault|done]|intros _].
  apply safe_seq; [|done]. apply safe_if; intros _; [|done].
  apply safe_seq; [apply safe_emit_fault|intros _]. apply safe_set_safe_mode. by right.
Qed.

(** ** The interrupt *)

Lemma safe_rx_byte b : is_u8 b -> safe0 (atomic (rx_feed_byte b)).
Proof.
  intros Hb w []. rewrite rx_feed_byte_step. cbn [fst snd]. split; [|done].
  destruct (rx_step_spec b (rxs w) ok_rx0 Hb) as [Hr Hm]. destruct ok_queue0 as [Hl Hs].
  destruct (post_view (rx_step b (rxs w)).2 (g_rx_msgq w) ltac:(lia)) as [Hs' Hv'].
  constructor; try done; cbn.
  - rewrite Hv'. apply Forall_take, Forall_app. split; [done|].
    destruct (rx_step b (rxs w)).2 as [m|]; [|constructor]. constructor; [|constructor].
    destruct Hm as (_ & h & p & Hok & _ & ->). by exists h, p.
  - rewrite Hs', Hv', length_take. lia.
Qed.

Lemma safe_rx_feed bs : bytes_ok bs -> safe0 (rx_feed bs).
Proof. induction 1 as [|b bs Hb _ IH]; [done|]. by apply safe_seq; [apply safe_rx_byte|intros _]. Qed.

Lemma safe_uart_isr passes :
  Forall (fun p => bytes_ok (fifo_bytes p)) passes -> safe0 (uart_isr passes).
Proof.
  induction 1 as [|p passes Hp _ IH]; [done|]. cbn [uart_isr].
  apply safe_if; intros _; [done|]. apply safe_if; intros _; [|done].
  by apply safe_seq; [apply safe_rx_feed|intros _].
Qed.

(** ** Boot *)

Lemma fw_boot_main ready cb_ret :
  let r := run (main cb_ret) (fw_boot ready) in
  (r.1.1 = 0 -> fw_ok r.2 /\ ready = true) /\ (r.1.1 <> 0 -> r.1.1 = - 1 /\ r.1.2 = []).
Proof.
  destruct (msgq_define 8) as [Hv Hs]. unfold main, safety_uart_init. step_run.
  cbn [fw_set fw_get fst snd uart_ready fw_boot update update_g_fault_state].
  destruct ready; cbn [negb]; [|done]. step_run.
  destruct ((cb_ret <? 0) && negb (cb_ret =? - ENOSYS) && negb (cb_ret =? - ENOTSUP)) eqn:E;
    step_run.
  - destruct (cb_ret =? 0) eqn:E'; [lia|done].
  - split; [|done]. intros _. split; [|done]. constructor; cbn; rewrite ?Hv, ?Hs.
    + exists []. split; [constructor|done].
    + split; [done|]. split; [|done]. apply (Forall_replicate _ 272). cbn. lia.
    + constructor.
    + cbn. lia.
    + unfold flags_ok, is_flag, SAFETY_DEFAULT_HEARTBEAT_MS. repeat split; cbn; auto; lia.
Qed.

End Inv.
