(* ===== verification/FirmwareRounds.v ===== *)
(** * Rounds of the periodic firmware tasks

    Heartbeats in a row, telemetry samples and the edge-triggered fault
    monitor, each run without interference. *)

From S2P Require Import Prelude Crc32 Protocol Firmware FirmwareTasks FirmwareRx FirmwareSpec.

Lemma u16_u64 x : u16 (u64 x) = u16 x.
Proof. unfold u16, u64. apply Z.mod_mod_divide. by exists (2 ^ 48). Qed.

Section Rounds.
Context {Zep : ZephyrApi}.
Implicit Types w : fw Zep.

(** ** Heartbeats *)

(** The [i]-th heartbeat sent from [w] by a task whose counter is [b]. *)
Definition heartbeat_frame (b : Z) w (i : nat) : list Z :=
  wire_frame SAFETY_FRAME_HEARTBEAT (u16 (tx_sequence w + Z.of_nat i))
    (u32 (k_uptime_get (fw_now w + 2 * i + 1)))
    (heartbeat_bytes (mkHeartbeat (u32 (k_uptime_get (fw_now w + 2 * i))) (u32 (b + Z.of_nat i)))).

Lemma heartbeat_round_sends b w :
  uart_ready w = true -> is_u32 b ->
  inject_task_hang (g_fault_state w) = 0 -> in_safe_mode (g_fault_state w) = 0 ->
  let r := run (heartbeat_round b) w in
  r.1.1 = u32 (b + 1) /\
  r.2 = w <| uart_out ::= fun o => o ++ heartbeat_frame b w 0 |>
          <| tx_sequence ::= fun x => u64 (x + 1) |> <| fw_now ::= fun n => S (S n) |>.
Proof.
  intros Hr Hb Hh Hs r. unfold r, heartbeat_round, atomic_get. step_run. cbn [fw_get fst snd].
  rewrite Hh, Hs. cbn [Z.eqb negb andb]. unfold safety_now_ms. step_run.
  rewrite send_payload_run by (done || apply heartbeat_bytes_ok). cbn [fst snd].
  split; [done|]. unfold sent, heartbeat_frame. destruct w. cbn.
  rewrite !Z.add_0_r, !Nat.add_0_r, Nat.add_1_r. by rewrite (u32_small b).
Qed.

Lemma heartbeat_round_silent b w :
  inject_task_hang (g_fault_state w) <> 0 \/ in_safe_mode (g_fault_state w) <> 0 ->
  (run (heartbeat_round b) w).1.1 = b /\ (run (heartbeat_round b) w).2 = w.
Proof.
  intros H. unfold heartbeat_round, atomic_get. step_run. cbn [fw_get fst snd].
  destruct H as [H|H]; rewrite (proj2 (Z.eqb_neq _ _) H); cbn [negb andb];
    rewrite ?andb_false_r; done.
Qed.

Lemma heartbeat_frame_shift b w w' i :
  tx_sequence w' = u64 (tx_sequence w + 1) -> fw_now w' = S (S (fw_now w)) ->
  heartbeat_frame (u32 (b + 1)) w' i = heartbeat_frame b w (S i).
Proof.
  intros Ht Hn. unfold heartbeat_frame. rewrite Ht, Hn. f_equal.
  - rewrite <- u16_u64, u64_add_u64_l, u16_u64. f_equal. lia.
  - do 2 f_equal. lia.
  - f_equal. f_equal; [do 2 f_equal; lia|]. rewrite u32_add_u32_l. f_equal. lia.
Qed.

Lemma heartbeat_task_sends n b w :
  uart_ready w = true -> is_u32 b ->
  inject_task_hang (g_fault_state w) = 0 -> in_safe_mode (g_fault_state w) = 0 ->
  uart_out (run (heartbeat_task_entry n b) w).2 =
  uart_out w ++ mjoin (heartbeat_frame b w <$> seq 0 n).
Proof.
  revert b w. induction n as [|n IH]; intros b w Hr Hb Hh Hs; cbn [heartbeat_task_entry].
  { cbn. by rewrite app_nil_r. }
  destruct (heartbeat_round_sends b w Hr Hb Hh Hs) as [H1 H2]. step_run. rewrite H1, H2.
  set (w' := update _ _). rewrite IH by (done || apply u32_range).
  change (uart_out w') with (uart_out w ++ heartbeat_frame b w 0).
  cbn [seq fmap list_fmap mjoin list_join]. rewrite <- app_assoc. f_equal. f_equal.
  rewrite <- fmap_S_seq, <- list_fmap_compose. f_equal. apply list_fmap_ext.
  intros i x _. by apply heartbeat_frame_shift.
Qed.

(** ** Fault monitor *)

(** A fault report: type, severity, detail code. *)
Definition report : Type := Z * Z * Z.
Definition checksum_report : report := (SAFETY_FAULT_CHECKSUM_ERROR, SEV_WARN, 2).
Definition critical_report : report := (SAFETY_FAULT_CRITICAL, SEV_CRITICAL, 3).

Definition edge (prev now : bool) (r : report) : list report :=
  if now && negb prev then [r] else [].

(** The reports a sequence of flag samples calls for: one per rising edge. *)
Fixpoint edges (prev : bool * bool) (samples : list (bool * bool)) : list report :=
  match samples with
  | [] => []
  | s :: samples =>
      edge prev.1 s.1 checksum_report ++ edge prev.2 s.2 critical_report ++ edges s samples
  end.

(** The environment sets the two flags, then the monitor scans, and so on. *)
Fixpoint monitor_trace (samples : list (bool * bool)) (prev : bool * bool) : prog (fw Zep) unit :=
  match samples with
  | [] => mret tt
  | s :: samples =>
      _ ← atomic_set inject_checksum_error (Z.b2z s.1);
      _ ← atomic_set inject_critical_fault (Z.b2z s.2);
      prev ← fault_monitor_round prev;
      monitor_trace samples prev
  end.

Definition report_frame (r : report) (f : list Z) : Prop :=
  exists seq ts now, is_u16 seq /\ is_u32 ts /\ is_u32 now /\
    f = wire_frame SAFETY_FRAME_FAULT_EVENT seq ts
          (fault_event_bytes (mkFaultEvent r.1.1 r.1.2 r.2 now)).

(** [rs] have been reported between [w] and [w'], safe mode entered if one of
    them is critical. *)
Definition reported_all (rs : list report) w w' : Prop :=
  uart_ready w' = uart_ready w /\
  (exists fs, Forall2 report_frame rs fs /\ uart_out w' = uart_out w ++ mjoin fs) /\
  fault_count (g_fault_state w') = u64 (fault_count (g_fault_state w) + Z.of_nat (length rs)) /\
  in_safe_mode (g_fault_state w') =
    if decide (critical_report ∈ rs) then 1 else in_safe_mode (g_fault_state w).

Lemma reported_all_app rs1 rs2 w1 w2 w3 :
  reported_all rs1 w1 w2 -> reported_all rs2 w2 w3 -> reported_all (rs1 ++ rs2) w1 w3.
Proof.
  intros (R1 & (fs1 & F1 & O1) & C1 & S1) (R2 & (fs2 & F2 & O2) & C2 & S2).
  split; [congruence|]. split; [|split].
  - exists (fs1 ++ fs2). split; [by apply Forall2_app|]. by rewrite O2, O1, join_app, app_assoc.
  - rewrite C2, C1, u64_add_u64_l, length_app. f_equal. lia.
  - rewrite S2, S1. repeat case_decide; try done; rewrite elem_of_app in *; tauto.
Qed.

Lemma reported_none w w' :
  uart_ready w' = uart_ready w -> uart_out w' = uart_out w ->
  fault_count (g_fault_state w') = fault_count (g_fault_state w) ->
  in_safe_mode (g_fault_state w') = in_safe_mode (g_fault_state w) ->
  is_u64 (fault_count (g_fault_state w)) -> reported_all [] w w'.
Proof.
  intros Hr Ho Hc Hs Hu. split; [done|]. split; [|split; [|done]].
  - exists []. split; [constructor|]. cbn. by rewrite Ho, app_nil_r.
  - cbn. by rewrite Z.add_0_r, u64_small.
Qed.

(** One report; [after] is what follows it in the code. *)
Lemma emit_fault_run (r : report) (after : prog (fw Zep) unit) (safe : fw Zep -> Z) w :
  uart_ready w = true ->
  (forall w, run after w =
     (tt, w <| g_fault_state ::= fun s => s <| in_safe_mode := safe w |> |>)) ->
  (forall w, safe w = if decide (critical_report ∈ [r]) then 1 else in_safe_mode (g_fault_state w)) ->
  exists w',
    run (_ ← emit_fault r.1.1 r.1.2 r.2; after) w = (tt, w') /\ reported_all [r] w w'.
Proof.
  intros Hr Hafter Hsafe. unfold emit_fault, safety_now_ms, atomic_inc. step_run.
  rewrite send_payload_run by (done || apply fault_bytes_ok). cbn [fst snd].
  rewrite Hafter. eexists. split; [reflexivity|].
  split; [done|]. split; [|split; [done|cbn; by rewrite Hsafe]].
  eexists [_]. split; [|cbn; by rewrite app_nil_r]. constructor; [|constructor].
  exists (u16 (tx_sequence w)), (u32 (k_uptime_get (S (fw_now w)))), (u32 (k_uptime_get (fw_now w))).
  split; [apply u16_range|]. split; [apply u32_range|]. by split; [apply u32_range|].
Qed.

Lemma emit_checksum_run w :
  uart_ready w = true ->
  exists w', run (emit_fault SAFETY_FAULT_CHECKSUM_ERROR SEV_WARN 0x0002) w = (tt, w') /\
             reported_all [checksum_report] w w'.
Proof.
  intros Hr. destruct (emit_fault_run checksum_report (mret tt)
    (fun w => in_safe_mode (g_fault_state w)) w Hr) as (w' & Hrun & H).
  - intros [[] ? ? ? ? ? ?]. done.
  - done.
  - exists w'. split; [|done]. rewrite <- Hrun, run_bind, run_ret.
    cbn [checksum_report fst snd]. by destruct (run (emit_fault _ _ _) w) as [[] ?].
Qed.

Lemma emit_critical_run w :
  uart_ready w = true ->
  exists w', run (_ ← emit_fault SAFETY_FAULT_CRITICAL SEV_CRITICAL 0x0003;
                  atomic_set in_safe_mode 1) w = (tt, w') /\
             reported_all [critical_report] w w'.
Proof.
  intros Hr. apply (emit_fault_run critical_report _ (fun _ => 1) w Hr); [done|].
  intros w0. by rewrite decide_True by (by constructor).
Qed.

(** One scan reports the rising edges since the previous one. *)
Lemma monitor_round_run prev s w :
  uart_ready w = true -> is_u64 (fault_count (g_fault_state w)) ->
  inject_checksum_error (g_fault_state w) = Z.b2z s.1 ->
  inject_critical_fault (g_fault_state w) = Z.b2z s.2 ->
  exists w', run (fault_monitor_round prev) w = (s, w') /\
    reported_all (edge prev.1 s.1 checksum_report ++ edge prev.2 s.2 critical_report) w w'.
Proof.
  intros Hr Hu Hc Hk. unfold fault_monitor_round, atomic_get. step_run. cbn [fw_get fst snd].
  rewrite Hc, Hk. destruct s as [c k]. cbn [fst snd].
  assert (forall b, negb (Z.b2z b =? 0) = b) as Hb by by intros [].
  rewrite !Hb. unfold edge.
  assert (exists w1, run (if c && negb prev.1
      then emit_fault SAFETY_FAULT_CHECKSUM_ERROR SEV_WARN 0x0002 else mret tt) w = (tt, w1) /\
      reported_all (if c && negb prev.1 then [checksum_report] else []) w w1) as (w1 & -> & H1).
  { destruct (c && negb prev.1); [by apply emit_checksum_run|].
    exists w. split; [done|by apply reported_none]. }
  cbn [fst snd]. assert (uart_ready w1 = true) as Hr1 by (destruct H1 as [-> _]; done).
  destruct (k && negb prev.2).
  - destruct (emit_critical_run w1 Hr1) as (w2 & Hrun & H2).
    rewrite Hrun. exists w2. split; [done|by eapply reported_all_app].
  - exists w1. by rewrite app_nil_r.
Qed.

Lemma monitor_trace_run samples prev w :
  uart_ready w = true -> is_u64 (fault_count (g_fault_state w)) ->
  exists w', run (monitor_trace samples prev) w = (tt, w') /\
             reported_all (edges prev samples) w w'.
Proof.
  revert prev w. induction samples as [|s samples IH]; intros prev w Hr Hu;
    cbn [monitor_trace edges].
  { exists w. split; [done|by apply reported_none]. }
  rewrite !run_bind, !atomic_set_run. cbn [fst snd].
  set (w1 := update _ (update _ w)).
  assert (reported_all [] w w1) as H0 by by apply reported_none.
  destruct (monitor_round_run prev s w1) as (w2 & Hrun & H1); [done..|].
  rewrite Hrun. cbn [fst snd].
  destruct (IH s w2) as (w3 & Hrun' & H2).
  - by destruct H1 as [-> _].
  - destruct H1 as (_ & _ & -> & _). apply u64_range.
  - exists w3. split; [done|]. rewrite app_assoc.
    change (edge prev.1 s.1 checksum_report ++ edge prev.2 s.2 critical_report)
      with ([] ++ (edge prev.1 s.1 checksum_report ++ edge prev.2 s.2 critical_report)).
    eapply reported_all_app; [|done]. by eapply reported_all_app.
Qed.

End Rounds.
