(* ===== verification/FirmwareProps.v ===== *)
(** * Properties of the co-processor firmware *)

From S2P Require Import Prelude Crc32 Protocol Firmware FirmwareTasks FirmwareRx FirmwareSpec FirmwareInv FirmwareRounds.

Section Entry.
Context {Zep : ZephyrApi}.

(** Every thread of the firmware: the four tasks, for any number of rounds, and
    any run of the UART interrupt on any received bytes. *)
Inductive firmware_entry : prog (fw Zep) unit -> Prop :=
| entry_heartbeat n b : firmware_entry (heartbeat_task_entry n b)
| entry_telemetry n t : firmware_entry (telemetry_task_entry n t)
| entry_command n : firmware_entry (command_handler_task_entry n)
| entry_fault_monitor n prev : firmware_entry (fault_monitor_task_entry n prev)
| entry_uart passes :
    Forall (fun p => bytes_ok (fifo_bytes p)) passes -> firmware_entry (uart_isr passes).

Lemma firmware_entry_safe {ZO : ZephyrOk Zep} p :
  firmware_entry p -> safe fw_ok (fun _ => True) p.
Proof.
  destruct 1; auto using safe_heartbeat_task, safe_telemetry_task, safe_command_task,
    safe_fault_monitor_task, safe_uart_isr.
Qed.

End Entry.

(** ** Concrete frames *)

Definition command_frame (seq cmd arg : Z) : list Z :=
  wire_frame SAFETY_FRAME_COMMAND seq 5 (command_bytes (mkCommand cmd arg 0 0)).

Definition sim_boot : fw SimZep := (run (main 0) (fw_boot true)).2.

Lemma command_frame_ok seq cmd arg :
  is_u16 seq ->
  frame_ok (safety_frame_init SAFETY_FRAME_COMMAND seq 8 5) (command_bytes (mkCommand cmd arg 0 0)).
Proof.
  intros Hs. apply (frame_init_ok _ _ _ (command_bytes (mkCommand cmd arg 0 0)));
    try (unfold SAFETY_FRAME_COMMAND; cbn; lia); [done| |by apply Nat.leb_le].
  unfold command_bytes. rewrite !bytes_ok_app. auto with safety.
Qed.

(** ** The recovery race

    Thread 0 is the interrupt that receives an INJECT_FAULT(critical) and then a
    REQUEST_RECOVERY command, thread 1 the command handler, thread 2 the fault
    monitor: it samples the critical flag and sends its report, the handler then
    carries out the whole recovery, and the monitor ends its round. *)

Definition race_threads : list (prog (fw SimZep) unit) :=
  [uart_isr [mkPass true true (command_frame 1 SAFETY_CMD_INJECT_FAULT SAFETY_FAULT_CRITICAL ++
                              command_frame 2 SAFETY_CMD_REQUEST_RECOVERY 0)];
   command_handler_task_entry 2; fault_monitor_task_entry 1 (false, false)].

Definition race_schedule : list nat :=
  replicate 48 0%nat ++ replicate 6 1%nat ++ replicate 8 2%nat ++ replicate 14 1%nat ++ [2%nat].

Definition race_end : fw SimZep := (exec race_schedule (race_threads, sim_boot)).2.

Module Props.
Section Props.
Context {Zep : ZephyrApi} {ZO : ZephyrOk Zep}.

(** C11. Firmware invariant under preemption: whenever [main] reports success,
    whatever rounds of the four tasks and UART interrupts then run and however
    they interleave, the bytes sent are whole valid frames back to back, the RX
    state machine stays in a state where every buffer index is in range, the
    message queue holds at most 8 messages, each a frame that passed
    validation, and the shared flags are 0 or 1. *)
Theorem firmware_invariant ready cb_ret c :
  (run (main cb_ret) (fw_boot ready)).1.1 = 0 ->
  pool_reach firmware_entry (run (main cb_ret) (fw_boot ready)).2 c ->
  wire_ok (uart_out c.2) /\ rx_ok (rxs c.2) /\
  Forall message_ok (msgq_view (g_rx_msgq c.2)) /\
  (length (msgq_view (g_rx_msgq c.2)) <= 8)%nat /\ flags_ok (g_fault_state c.2).
Proof.
  intros Hmain Hreach. destruct (fw_boot_main ready cb_ret) as [Hok _].
  destruct (Hok Hmain) as [Hw _].
  destruct (pool_invariant _ fw_ok _ _ Hw firmware_entry_safe Hreach) as [[] _]. tauto.
Qed.

(** C12. Receiver soundness: from any well-formed state, feeding any bytes to
    [rx_feed_byte] delivers only frames that are on the line: the bytes pending
    before followed by the bytes fed are a sequence of segments, the delivered
    messages are exactly the frames among them, in order and each with its own
    header and payload, and the message queue keeps the first of them that
    fit. *)
Theorem rx_delivers_only_frames bs (w : fw Zep) :
  rx_ok (rxs w) -> bytes_ok bs ->
  (length (msgq_view (g_rx_msgq w)) <= msgq_size (g_rx_msgq w))%nat ->
  let w' := (run (rx_feed bs) w).2 in
  rx_ok (rxs w') /\
  exists s ms, pending (rxs w) ++ bs = s ++ pending (rxs w') /\ segments s ms /\
    msgq_view (g_rx_msgq w') =
      take (msgq_size (g_rx_msgq w)) (msgq_view (g_rx_msgq w) ++ ms).
Proof.
  intros Hr Hbs Hq w'. destruct (rx_feed_run bs w Hq) as (H1 & _ & H3 & _).
  pose proof (rx_run_segments bs (rxs w) [] [] Hr Hbs segments_nil) as H.
  unfold w'. rewrite H1, H3. destruct (rx_run bs (rxs w)) as [r ms].
  destruct H as (Hr' & s & Heq & Hseg). split; [done|]. by exists s, ms.
Qed.

(** C13. Receiver completeness: valid frames separated by noise without the
    byte 'F' are all delivered, in order and as sent, as long as the message
    queue has room, and the receiver is back in its hunting state. *)
Theorem rx_delivers_stream l (w : fw Zep) :
  Forall clean l -> rx_ok (rxs w) -> phase (rxs w) = RX_HUNT_MAGIC_LO ->
  (length (msgq_view (g_rx_msgq w)) + length l <= msgq_size (g_rx_msgq w))%nat ->
  let w' := (run (rx_feed (stream l)) w).2 in
  msgq_view (g_rx_msgq w') = msgq_view (g_rx_msgq w) ++ (rx_message <$> l) /\
  phase (rxs w') = RX_HUNT_MAGIC_LO.
Proof.
  intros Hl Hr Hph Hq w'. destruct (rx_feed_run (stream l) w ltac:(lia)) as (H1 & _ & H3 & _).
  destruct (rx_run_stream l (rxs w) Hl Hr Hph) as (r & Hrun & _ & Hph').
  unfold w'. rewrite H1, H3, Hrun. cbn [fst snd]. split; [|done].
  rewrite take_ge; [done|]. rewrite length_app, length_fmap. lia.
Qed.

(** C14. Every frame taken from the queue is answered exactly once: the command
    handler applies the effect of the command to the shared state, sends the
    status snapshot or recovery report the command asks for, if any, and then
    exactly one ACK or NACK that names the sequence number of the frame and
    gives the reason of a refusal; nothing else is sent or changed. *)
Theorem command_answered f (w : fw Zep) :
  uart_ready w = true -> answered f w (run (dispatch_frame f) w).2.
Proof. intros Hr. by destruct (dispatch_run f w Hr) as (w' & -> & H). Qed.

(** Heartbeats: with no hang injected and not in safe mode, [n] rounds send
    [n] HEARTBEAT frames with consecutive sequence and beat numbers; with a
    hang or in safe mode they send nothing and do not advance the counter. *)
Theorem heartbeat_rounds n b (w : fw Zep) :
  is_u32 b -> uart_ready w = true ->
  let s := g_fault_state w in
  (inject_task_hang s = 0 -> in_safe_mode s = 0 ->
     uart_out (run (heartbeat_task_entry n b) w).2 =
     uart_out w ++ mjoin (heartbeat_frame b w <$> seq 0 n)) /\
  (inject_task_hang s <> 0 \/ in_safe_mode s <> 0 ->
     (run (heartbeat_task_entry n b) w).2 = w).
Proof.
  intros Hb Hr s. split; [by apply heartbeat_task_sends|].
  intros H. induction n as [|n IH]; [done|]. cbn [heartbeat_task_entry]. rewrite run_bind.
  destruct (heartbeat_round_silent b w H) as [-> ->]. exact IH.
Qed.

(** Telemetry samples are plausible at every 32-bit tick: the temperature
    stays between 25.0 and 40.0 degrees, moves by at most 1.5 degrees between
    consecutive ticks (the wrap of the tick counter apart), the load is between
    20 and 49 per cent, and no 16-bit field is truncated but the fault count. *)
Theorem telemetry_bounds tick fc :
  is_u32 tick ->
  let t := telemetry_sample tick fc in
  250 <= temperature_c_x10 t <= 400 /\ 20 <= cpu_load_pct t <= 49 /\
  voltage_mv t = 3300 /\ tm_fault_count t = u16 fc /\
  Z.abs (temperature_c_x10 (telemetry_sample (tick + 1) fc) - temperature_c_x10 t) <= 15.
Proof.
  intros Ht t. unfold t, telemetry_sample. cbn. cbn in Ht.
  unfold TEMP_BASE_X10, TEMP_SWING_X10, VOLTAGE_NOMINAL. change (150 / 10) with 15.
  assert (0 <= tick mod 20 < 20) by (apply Z.mod_pos_bound; lia).
  assert (0 <= tick mod 30 < 30) by (apply Z.mod_pos_bound; lia).
  assert ((tick + 1) mod 20 = if tick mod 20 =? 19 then 0 else tick mod 20 + 1) as ->.
  { destruct (tick mod 20 =? 19) eqn:E; Z.div_mod_to_equations; lia. }
  rewrite !u16_small by (cbn; repeat case_test; lia).
  repeat case_test; rewrite ?(u16_small (250 + _)) by (cbn; lia); repeat split; lia.
Qed.

(** C15. The fault monitor is edge-triggered: whatever values the checksum and
    critical flags take before each of its scans, it sends exactly one
    FAULT_EVENT per rising edge between consecutive scans (warning for
    checksum, critical for critical, checksum first), counts each, and enters
    safe mode exactly when a critical edge was seen. *)
Theorem fault_monitor_edges samples prev (w : fw Zep) :
  uart_ready w = true -> is_u64 (fault_count (g_fault_state w)) ->
  reported_all (edges prev samples) w (run (monitor_trace samples prev) w).2.
Proof. intros Hr Hu. by destruct (monitor_trace_run samples prev w Hr Hu) as (w' & -> & H). Qed.

End Props.

(** A recovery can be undone by the fault monitor: in a reachable state the
    firmware has received INJECT_FAULT(critical) and REQUEST_RECOVERY, has sent
    ACK, FAULT_EVENT, RECOVERY_REPORT (recovered = 1) and ACK, all injected
    flags are clear, and yet it is in safe mode, so that the heartbeat task
    stays silent for ever. *)
Theorem recovery_race :
  pool_reach firmware_entry sim_boot (exec race_schedule (race_threads, sim_boot)) /\
  uart_out race_end =
    wire_frame SAFETY_FRAME_ACK 0 0 (ack_bytes (mkAck 1 0)) ++
    wire_frame SAFETY_FRAME_FAULT_EVENT 1 20
      (fault_event_bytes (mkFaultEvent SAFETY_FAULT_CRITICAL SEV_CRITICAL 3 10)) ++
    wire_frame SAFETY_FRAME_RECOVERY_REPORT 2 40
      (recovery_report_bytes (mkRecoveryReport 1 0 0 30)) ++
    wire_frame SAFETY_FRAME_ACK 3 50 (ack_bytes (mkAck 2 0)) /\
  g_fault_state race_end = mkFaultState 0 0 0 1 1 SAFETY_DEFAULT_HEARTBEAT_MS /\
  forall n b, (run (heartbeat_task_entry n b) race_end).2 = race_end.
Proof.
  split; [|split; [|split]].
  - apply exec_reach, spawn_reach. constructor; [|repeat constructor].
    apply entry_uart. constructor; [|constructor].
    apply (bool_decide_unpack _). by vm_compute.
  - by vm_compute.
  - by vm_compute.
  - assert (in_safe_mode (g_fault_state race_end) <> 0) as H by by vm_compute.
    induction n as [|n IH]; intros b; [done|]. cbn [heartbeat_task_entry]. rewrite run_bind.
    destruct (heartbeat_round_silent b race_end (or_intror H)) as [-> ->]. apply IH.
Qed.

Lemma firmware_invariant_witness :
  let c := exec race_schedule (race_threads, sim_boot) in
  uart_out c.2 <> [] /\ wire_ok (uart_out c.2) /\ flags_ok (g_fault_state c.2).
Proof.
  split; [by vm_compute|].
  destruct (firmware_invariant (Zep := SimZep) true 0
    (exec race_schedule (race_threads, sim_boot))) as (H1 & _ & _ & _ & H5); [done| |done].
  apply exec_reach, spawn_reach. constructor; [|repeat constructor].
  apply entry_uart. constructor; [|constructor]. apply (bool_decide_unpack _). by vm_compute.
Defined.

Lemma rx_delivers_only_frames_witness :
  let bs := [1; 0x46; 2] ++ command_frame 9 SAFETY_CMD_GET_STATUS 0 ++ [0x46; 0x53] in
  let w' := (run (rx_feed bs) sim_boot).2 in
  length (msgq_view (g_rx_msgq w')) = 1%nat /\ rx_ok (rxs w').
Proof.
  intros bs w'. split; [by vm_compute|].
  apply (rx_delivers_only_frames bs sim_boot).
  - split; [done|]. split; [|done]. apply (Forall_replicate _ 272). cbn. lia.
  - apply (bool_decide_unpack _). by vm_compute.
  - vm_compute. lia.
Defined.

Lemma rx_delivers_stream_witness :
  let l := (fun i => ([0; i], (safety_frame_init SAFETY_FRAME_COMMAND i 8 5,
                               command_bytes (mkCommand SAFETY_CMD_GET_STATUS 0 0 0)))) <$> [1; 2; 3] in
  msgq_view (g_rx_msgq (run (rx_feed (stream l)) sim_boot).2) = rx_message <$> l.
Proof.
  intros l. refine (proj1 (rx_delivers_stream l sim_boot _ _ _ _)).
  - repeat constructor; try (by vm_compute); try apply (command_frame_ok _ SAFETY_CMD_GET_STATUS 0);
      cbn; lia.
  - split; [done|]. split; [|done]. apply (Forall_replicate _ 272). cbn. lia.
  - done.
  - vm_compute. lia.
Defined.

Lemma command_answered_witness :
  let f := mkRxFrame (safety_frame_init SAFETY_FRAME_COMMAND 7 8 5)
             (command_bytes (mkCommand SAFETY_CMD_ENTER_SAFE_MODE 0 0 0)) in
  command_verdict f = Accepted /\ in_safe_mode (command_effect f (g_fault_state sim_boot)) = 1 /\
  answered f sim_boot (run (dispatch_frame f) sim_boot).2.
Proof.
  intros f. split; [by vm_compute|]. split; [by vm_compute|].
  by apply (command_answered f sim_boot).
Defined.

Lemma telemetry_bounds_witness :
  temperature_c_x10 (telemetry_sample 10 7) = 400 /\
  250 <= temperature_c_x10 (telemetry_sample 10 7) <= 400.
Proof. split; [by vm_compute|]. apply (telemetry_bounds 10 7). cbn. lia. Defined.

Lemma fault_monitor_edges_witness :
  let samples := [(true, false); (true, true); (false, true); (true, true)] in
  edges (false, false) samples = [checksum_report; critical_report; checksum_report] /\
  reported_all (edges (false, false) samples) sim_boot
    (run (monitor_trace samples (false, false)) sim_boot).2.
Proof.
  intros samples. split; [by vm_compute|].
  apply (fault_monitor_edges samples (false, false) sim_boot); [done|]. vm_compute. split; congruence.
Defined.

End Props.
