(* ===== verification/EndToEnd.v ===== *)
(** * Firmware and driver together

    The two ends speak the same protocol: a heartbeat the firmware sends feeds
    the watchdog of the driver, and a command the supervisor writes reaches the
    command handler of the firmware.  The link daemon in between carries the
    bytes. *)

From S2P Require Import Prelude Crc32 Protocol KernelApi Device Kfifo Watchdog Chrdev DriverMain DriverInv DriverSpec DriverSim DriverRefine.
From S2P Require Import Firmware FirmwareTasks FirmwareRx FirmwareSpec FirmwareInv FirmwareRounds FirmwareProps.

Lemma frame_framed h p : frame_ok h p -> framed (frame_bytes h p).
Proof.
  intros Hok. pose proof (frame_slot_ok h p Hok) as (_ & _ & Hf). exact Hf.
Qed.

Lemma frame_length_bound h p :
  frame_ok h p -> 16 <= Z.of_nat (length (frame_bytes h p)) <= 272.
Proof.
  intros (_ & _ & _ & Hl & Hm & _). rewrite length_frame_bytes.
  unfold SAFETY_MAX_PAYLOAD in Hm. lia.
Qed.

Lemma frame_validates h p :
  frame_ok h p ->
  safety_frame_validate (frame_bytes h p) (Z.of_nat (length (frame_bytes h p))) = SAFETY_VALIDATE_OK.
Proof.
  intros Hok. rewrite <- (app_nil_r (frame_bytes h p)) at 1.
  apply validate_frame; [done|]. rewrite length_frame_bytes. lia.
Qed.

Lemma frame_type h p : frame_ok h p -> type (header_of_bytes (frame_bytes h p)) = type h.
Proof.
  intros Hok. rewrite <- (app_nil_r (frame_bytes h p)), frame_header by apply Hok. done.
Qed.

(** A valid frame on the line of an idle firmware is answered. *)
Lemma firmware_answers {Zep : ZephyrApi} {ZO : ZephyrOk Zep} h p (f : fw Zep) :
  frame_ok h p -> rx_ok (rxs f) -> phase (rxs f) = RX_HUNT_MAGIC_LO -> uart_ready f = true ->
  msgq_view (g_rx_msgq f) = [] -> (0 < msgq_size (g_rx_msgq f))%nat ->
  exists f1, answered (mkRxFrame (seal h p) p) f1
               (run (_ ← rx_feed (frame_bytes h p); command_handler_round) f).2 /\
             g_fault_state f1 = g_fault_state f /\ uart_out f1 = uart_out f /\
             tx_sequence f1 = tx_sequence f /\ uart_ready f1 = uart_ready f.
Proof.
  intros Hok Hrx Hph Hrdy Hq Hsz.
  destruct (rx_feed_run (frame_bytes h p) f ltac:(rewrite Hq; cbn; lia))
    as (H1 & H2 & H3 & H4 & H5 & H6 & H7).
  destruct (rx_run_frame h p (rxs f) Hok Hrx Hph) as (r & Hrun & _).
  rewrite Hrun, Hq in H3. cbn [snd app] in H3. rewrite take_ge in H3 by (cbn; lia).
  set (f0 := (run (rx_feed (frame_bytes h p)) f).2) in *. rewrite run_bind. fold f0. clearbody f0.
  unfold command_handler_round. rewrite run_bind, run_atomic.
  destruct (msgq_get_some (g_rx_msgq f0) _ [] H3) as (q' & -> & _). cbn [fst snd].
  exists (f0 <| g_rx_msgq := q' |>). split; [|done].
  destruct (dispatch_run (mkRxFrame (seal h p) p) (f0 <| g_rx_msgq := q' |>))
    as (w' & Hd & Hans); [by rewrite <- Hrdy|]. by rewrite Hd.
Qed.

Module Props.
Section Props.
Context {K : KernelApi safety_fifo_slot} {KO : KernelOk K}.
Context {Zep : ZephyrApi} {ZO : ZephyrOk Zep}.

(** C8. A live firmware keeps the driver's watchdog fed: the bytes one
    heartbeat round of a healthy firmware adds to the line, handed to the
    driver by the link daemon when its RX queue has room, are accepted, put the
    link in HB_OK, count one heartbeat and re-arm the watchdog for the
    configured timeout; and they are what the supervisor reads next when the
    queue was empty. *)
Theorem heartbeat_feeds_watchdog b (f : fw Zep) (w : world K) :
  uart_ready f = true -> is_u32 b ->
  inject_task_hang (g_fault_state f) = 0 -> in_safe_mode (g_fault_state f) = 0 ->
  kfifo_is_full (rx_fifo (w_dev w)) = false ->
  exists frame,
    uart_out (run (heartbeat_round b) f).2 = uart_out f ++ frame /\
    let r := run (device_op (Push frame)) w in
    let d := w_dev r.2 in
    r.1 = (0, []) /\ state d = SAFETY_LINK_HB_OK /\
    heartbeat_count d = u32 (heartbeat_count (w_dev w) + 1) /\
    hrtimer_pending (hb_timer d) = Some (hb_timeout_ms (w_dev w) * 1000000) /\
    (kfifo_view (rx_fifo (w_dev w)) = [] ->
       (run (safety_read true [] 272 true) r.2).1 =
         Some (Z.of_nat (length frame), frame)).
Proof.
  intros Hr Hb Hh Hs Hroom.
  destruct (heartbeat_round_sends b f Hr Hb Hh Hs) as [_ Hout].
  set (frame := heartbeat_frame b f 0). exists frame.
  split; [by rewrite Hout|]. cbv zeta.
  assert (exists h p, frame_ok h p /\ frame = frame_bytes h p /\ type h = SAFETY_FRAME_HEARTBEAT)
    as (h & p & Hok & Hfr & Hty).
  { eexists _, _. split; [|split; [reflexivity|done]].
    apply frame_init_ok; [done|apply u16_range|apply u32_range|apply heartbeat_bytes_ok|].
    by apply Nat.leb_le. }
  clearbody frame. subst frame.
  assert (bytes_ok (frame_bytes h p)) as Hbytes by apply bytes_ok_frame, Hok.
  pose proof (frame_length_bound h p Hok) as Hlen.
  destruct (queue_rx_room (frame_bytes h p) w Hbytes (frame_framed h p Hok) Hroom)
    as (w' & Hrun & Hq & _ & Hst & Hc & Ht & _).
  rewrite frame_validates, bool_decide_eq_true_2, frame_type, Hty in Hst, Hc, Ht by done.
  cbn [andb Z.eqb Pos.eqb SAFETY_FRAME_HEARTBEAT] in Hst, Hc, Ht.
  assert (run (device_op (Push (frame_bytes h p))) w = ((0, []), w')) as ->.
  { cbn [device_op]. rewrite ioctl_push_rx. unfold no_out, ioc_push_rx_frame.
    rewrite run_bind, run_ret, io_bytes_len by lia.
    change SAFETY_MAX_FRAME_SIZE with 272. rewrite Z.gtb_ltb, (proj2 (Z.ltb_ge _ _)) by lia.
    change (Z.to_nat 272) with 272%nat.
    by rewrite io_bytes_data, io_bytes_data_short, queue_rx_prefix, Hrun by lia. }
  cbn [fst snd]. rewrite Hst, Hc, Ht, hrtimer_pending_start, ms_to_ktime_ns.
  do 4 (split; [done|]). intros Hempty. rewrite Hempty in Hq.
  destruct (pop_frame_some _ _ w' slot_buffer Hq) as (fq & Hpop & _).
  unfold safety_read. cbn [safety_read_wait]. rewrite !run_bind, Hpop. cbn [fst snd slot_len slot_data].
  rewrite (proj2 (Z.eqb_neq _ _)) by lia. cbn [negb]. rewrite run_ret. cbn [fst snd].
  rewrite (proj2 (Z.ltb_ge _ _)), Nat2Z.id by lia. cbn [negb]. rewrite run_ret.
  cbn [fst]. by rewrite take_ge.
Qed.

(** A command reaches the firmware: a valid COMMAND frame the supervisor
    writes to a driver with an empty, non-full TX queue is accepted; the next
    POP_TX_FRAME hands the link daemon a record with exactly its length and
    bytes; and those bytes, received by an idle firmware whose message queue is
    empty, make the command handler answer that frame. *)
Theorem command_reaches_firmware h p (w : world K) (f : fw Zep) :
  frame_ok h p -> type h = SAFETY_FRAME_COMMAND ->
  kfifo_view (tx_fifo (w_dev w)) = [] -> kfifo_is_full (tx_fifo (w_dev w)) = false ->
  rx_ok (rxs f) -> phase (rxs f) = RX_HUNT_MAGIC_LO -> uart_ready f = true ->
  msgq_view (g_rx_msgq f) = [] -> (0 < msgq_size (g_rx_msgq f))%nat ->
  let frame := frame_bytes h p in
  exists w1 w2 out,
    run (device_op (Write frame)) w = ((Z.of_nat (length frame), []), w1) /\
    run (device_op Pop) w1 = ((0, out), w2) /\
    let line := take (Z.to_nat (field 0 4 out)) (slice 4 272 out) in
    line = frame /\
    exists f1, answered (mkRxFrame (seal h p) p) f1
                 (run (_ ← rx_feed line; command_handler_round) f).2 /\
               g_fault_state f1 = g_fault_state f /\ uart_out f1 = uart_out f /\
               tx_sequence f1 = tx_sequence f.
Proof.
  intros Hok Hty Hempty Hroom Hrx Hph Hrdy Hq Hsz frame.
  pose proof (frame_length_bound h p Hok) as Hlen. fold frame in Hlen.
  assert (bytes_ok frame) as Hbytes by apply bytes_ok_frame, Hok.
  destruct (write_valid frame w Hbytes Hlen (frame_validates h p Hok)) as (w1 & _ & H).
  rewrite Hroom, Hempty in H. destruct H as [Hw1 Htx].
  destruct (pop_tx_some _ _ w1 slot_buffer Htx) as (q & Hpop & _).
  exists w1. eexists _, (io_bytes frame). split; [|split; [|split]].
  - cbn [device_op]. by rewrite run_bind, Hw1, run_ret.
  - cbn [device_op]. rewrite ioctl_pop_tx. unfold ioc_pop_tx_frame. rewrite run_bind, Hpop.
    cbn [fst snd slot_len slot_data]. rewrite (proj2 (Z.eqb_neq _ _)) by lia. cbn [negb].
    rewrite run_ret. change SAFETY_MAX_FRAME_SIZE with 272.
    rewrite Nat2Z.id, take_ge by lia. unfold io_bytes. rewrite io_bytes_data_short by lia.
    unfold overwrite. rewrite take_0, app_nil_l, drop_replicate. reflexivity.
  - rewrite io_bytes_len, io_bytes_data, io_bytes_data_short, Nat2Z.id by lia.
    apply take_app_length.
  - rewrite io_bytes_len, io_bytes_data, io_bytes_data_short, Nat2Z.id, take_app_length by lia.
    destruct (firmware_answers h p f) as (f1 & Ha & Hs & Ho & Ht & _); [done..|]. by exists f1.
Qed.

End Props.

Lemma heartbeat_feeds_watchdog_witness :
  exists frame,
    uart_out (run (heartbeat_round 0) sim_boot).2 = uart_out sim_boot ++ frame /\
    state (w_dev (run (device_op (Push frame)) sim_world).2) = SAFETY_LINK_HB_OK.
Proof.
  destruct (heartbeat_feeds_watchdog 0 sim_boot sim_world) as (frame & H1 & _ & H2 & _);
    try done. by exists frame.
Defined.

Lemma command_reaches_firmware_witness :
  exists w1 w2 out,
    run (device_op (Write (command_frame 4 SAFETY_CMD_GET_STATUS 0))) sim_world = ((24, []), w1) /\
    run (device_op Pop) w1 = ((0, out), w2).
Proof.
  destruct (command_reaches_firmware (safety_frame_init SAFETY_FRAME_COMMAND 4 8 5)
    (command_bytes (mkCommand SAFETY_CMD_GET_STATUS 0 0 0)) sim_world sim_boot)
    as (w1 & w2 & out & H1 & H2 & _);
    [by apply (command_frame_ok 4 SAFETY_CMD_GET_STATUS 0)|reflexivity|reflexivity|reflexivity
    | |reflexivity|reflexivity|reflexivity|apply Nat.leb_le; reflexivity|].
  - split; [done|]. split; [|done]. apply (Forall_replicate _ 272). cbn. lia.
  - exists w1, w2, out. split; [exact H1|exact H2].
Defined.

End Props.
