(* ===== verification/Ebpf.v ===== *)
(** * The eBPF tracer, kernel side: [ebpf/safety_trace.bpf.c]

    Latency histograms, tracepoint counters and the fault timeline.  Hash maps,
    the ring buffer, the clock and the context a program runs in belong to the
    kernel and are parameters ([BpfApi], [bpf_ctx]); array maps are lists. *)

From stdpp Require Import gmap.
From S2P Require Import Prelude.

(** ** Constants *)

Definition COMM_PREFIX : list Z :=  (* "safety-supervi" *)
  [115; 97; 102; 101; 116; 121; 45; 115; 117; 112; 101; 114; 118; 105].
Definition COMM_PREFIX_LEN : nat := 14.
Definition MAX_SLOTS : Z := 64.
Definition MAX_ENTRIES : nat := Z.to_nat 10240.  (* of [sys_start] and [wakeup_ts] *)

Inductive syscall_kind := SC_READ | SC_WRITE | SC_IOCTL.

#[global] Instance syscall_kind_eq_dec : EqDecision syscall_kind.
Proof. solve_decision. Defined.

Inductive timeline_kind := TL_TIMEOUT | TL_RECOVERY | TL_HEARTBEAT_RESTORED.

#[global] Instance timeline_kind_eq_dec : EqDecision timeline_kind.
Proof. solve_decision. Defined.

Record timeline_event := mkTlEvent { ts : Z; kind : timeline_kind; aux : Z }.

#[global] Instance timeline_event_eq_dec : EqDecision timeline_event.
Proof. solve_decision. Defined.

(** Indices of the counter array, [enum tp_counter_idx]. *)
Definition CNT_FRAME_RECEIVED : nat := 0.
Definition CNT_FRAME_DROPPED : nat := 1.
Definition CNT_TIMEOUT_DETECTED : nat := 2.
Definition CNT_RECOVERY_QUEUED : nat := 3.
Definition CNT_POLL_WAKEUP : nat := 4.
Definition CNT_MAX : nat := 5.

(** ** Histograms *)

Record hist := mkHist {
  slots : list Z;      (* MAX_SLOTS counters *)
  count : Z;
  sum : Z;
  min : Z;
  max : Z;
}.

Definition hist_zero : hist := mkHist (replicate 64 0) 0 0 0 0.

(** [if (v >= (1ULL << k)) { v >>= k; r += k; }] *)
Definition log2_stage (k : Z) (vr : Z * Z) : Z * Z :=
  if vr.1 >=? 2 ^ k then (Z.shiftr vr.1 k, vr.2 + k) else vr.

Definition log2_u64 (v : Z) : Z :=
  let vr := log2_stage 2 (log2_stage 4 (log2_stage 8 (log2_stage 16 (log2_stage 32 (v, 0))))) in
  if vr.1 >=? 2 ^ 1 then vr.2 + 1 else vr.2.

Definition hist_record (h : hist) (delta : Z) : hist :=
  let slot := log2_u64 delta in
  let slot := if slot >=? MAX_SLOTS then MAX_SLOTS - 1 else slot in
  let slots' := alter (fun c => u64 (c + 1)) (Z.to_nat slot) (slots h) in
  let count' := u64 (count h + 1) in
  let sum' := u64 (sum h + delta) in
  let min' := if (count' =? 1) || (delta <? min h) then delta else min h in
  let max' := if delta >? max h then delta else max h in
  mkHist slots' count' sum' min' max'.

(** ** Kernel services *)

Class BpfApi := {
  bpf_ktime_get_ns : nat -> Z;                       (* the n-th reading *)
  bpf_value_first : bool;                            (* how [bpf_ktime_get_ns() - *p] is
                                                        evaluated: C leaves the order open *)
  bpf_hash : Type;                                   (* BPF_MAP_TYPE_HASH, u32 to u64, with
                                                        the memory of its entries *)
  bpf_ptr : Type;                                    (* to a value in that memory *)
  bpf_hash_empty : bpf_hash;
  bpf_hash_lookup : bpf_hash -> Z -> option bpf_ptr;
  bpf_deref : bpf_hash -> bpf_ptr -> Z;              (* what the memory holds now *)
  bpf_hash_update : bpf_hash -> Z -> Z -> bpf_hash;  (* BPF_ANY; unchanged when full *)
  bpf_hash_delete : bpf_hash -> Z -> bpf_hash;
  bpf_ringbuf_reserve : nat -> nat -> bool;          (* room for one more record, after so
                                                        many readings and records *)
}.

(** The value of a key. *)
Definition bpf_hash_get {B : BpfApi} (m : bpf_hash) (k : Z) : option Z := bpf_deref m <$> bpf_hash_lookup m k.

(** An entry stays where it is as long as it is there; the memory of a deleted
    one is left alone until an update, of any key, takes it for its value. *)
Class BpfOk (B : BpfApi) := {
  ktime_range n : 0 < bpf_ktime_get_ns n < 2 ^ 64;
  ktime_mono n m : (n <= m)%nat -> bpf_ktime_get_ns n <= bpf_ktime_get_ns m;
  hash_empty k : bpf_hash_lookup bpf_hash_empty k = None;
  (* [g]: the contents of [m] *)
  hash_update_same m k v (g : gmap Z Z) :
    (forall k, bpf_hash_get m k = g !! k) -> (size g < MAX_ENTRIES)%nat ->
    bpf_hash_get (bpf_hash_update m k v) k = Some v;
  hash_update_any m k v :
    bpf_hash_get (bpf_hash_update m k v) k = Some v \/
    bpf_hash_get (bpf_hash_update m k v) k = bpf_hash_get m k;
  hash_update_other m k k' v :
    k <> k' -> bpf_hash_lookup (bpf_hash_update m k v) k' = bpf_hash_lookup m k';
  hash_update_entry m k k' v p :
    k <> k' -> bpf_hash_lookup m k' = Some p -> bpf_deref (bpf_hash_update m k v) p = bpf_deref m p;
  hash_update_memory m k v p :
    bpf_deref (bpf_hash_update m k v) p = v \/ bpf_deref (bpf_hash_update m k v) p = bpf_deref m p;
  hash_delete_same m k : bpf_hash_lookup (bpf_hash_delete m k) k = None;
  hash_delete_other m k k' :
    k <> k' -> bpf_hash_lookup (bpf_hash_delete m k) k' = bpf_hash_lookup m k';
  hash_delete_memory m k p : bpf_deref (bpf_hash_delete m k) p = bpf_deref m p;
}.

(** What a program finds in its context: the CPU it runs on, the thread id and
    the 16 bytes of the command name ([None] if reading them fails). *)
Record bpf_ctx := mkCtx { cpu : nat; tid : Z; comm : option (list Z) }.

Definition comm_prefix_match (name : list Z) : bool :=
  bool_decide (take COMM_PREFIX_LEN name = COMM_PREFIX).

Definition comm_is_supervisor (c : bpf_ctx) : bool :=
  match comm c with
  | None => false
  | Some name => comm_prefix_match name
  end.

Section Programs.
Context {B : BpfApi}.

(** ** Maps *)

Record bpf := mkBpf {
  sys_start : bpf_hash;
  wakeup_ts : bpf_hash;
  syscall_lat : list (list hist);     (* per kind, per CPU *)
  poll_lat : list hist;               (* per CPU *)
  sched_lat : list hist;              (* per CPU *)
  tp_counters : list (list Z);        (* per index, per CPU *)
  last_frame_ts : Z;
  recovery_pending : Z;
  timeline_rb : list (option timeline_event);  (* oldest first; [None]: reserved *)
  bpf_now : nat;                      (* clock readings so far *)
}.

(** The maps as the kernel creates them. *)
Definition bpf_zero (ncpu : nat) : bpf :=
  mkBpf bpf_hash_empty bpf_hash_empty (replicate 3 (replicate ncpu hist_zero))
    (replicate ncpu hist_zero) (replicate ncpu hist_zero)
    (replicate CNT_MAX (replicate ncpu 0)) 0 0 [] 0.

#[global] Instance bpf_rebuild : Rebuild bpf :=
  fun s => mkBpf (sys_start s) (wakeup_ts s) (syscall_lat s) (poll_lat s) (sched_lat s)
             (tp_counters s) (last_frame_ts s) (recovery_pending s) (timeline_rb s) (bpf_now s).
#[global] Instance update_sys_start : Update sys_start := ltac:(derive_update).
#[global] Instance update_wakeup_ts : Update wakeup_ts := ltac:(derive_update).
#[global] Instance update_syscall_lat : Update syscall_lat := ltac:(derive_update).
#[global] Instance update_poll_lat : Update poll_lat := ltac:(derive_update).
#[global] Instance update_sched_lat : Update sched_lat := ltac:(derive_update).
#[global] Instance update_tp_counters : Update tp_counters := ltac:(derive_update).
#[global] Instance update_last_frame_ts : Update last_frame_ts := ltac:(derive_update).
#[global] Instance update_recovery_pending : Update recovery_pending := ltac:(derive_update).
#[global] Instance update_timeline_rb : Update timeline_rb := ltac:(derive_update).
#[global] Instance update_bpf_now : Update bpf_now := ltac:(derive_update).

Definition bpf_get {T} (f : bpf -> T) : prog bpf T := atomic (fun s => (f s, s)).
Definition bpf_set (f : bpf -> bpf) : prog bpf unit := atomic (fun s => (tt, f s)).
Definition ktime : prog bpf Z :=
  atomic (fun s => (bpf_ktime_get_ns (bpf_now s), s <| bpf_now ::= S |>)).

(** [bpf_ktime_get_ns() - *p], with [read] for the value at [p]: two accesses, in
    the order the compiler has chosen. *)
Definition since (read : bpf -> Z) : prog bpf Z :=
  if bpf_value_first then
    t0 ← bpf_get read; now ← ktime; mret (u64 (now - t0))
  else
    now ← ktime; t0 ← bpf_get read; mret (u64 (now - t0)).

Definition kind_index (k : syscall_kind) : nat :=
  match k with SC_READ => 0 | SC_WRITE => 1 | SC_IOCTL => 2 end.

(** Recording into the histogram of the current CPU. *)
Definition record_on (c : nat) (delta : Z) : list hist -> list hist :=
  alter (fun h => hist_record h delta) c.

(** ** System calls *)

Definition sys_enter_record (c : bpf_ctx) : prog bpf unit :=
  if negb (comm_is_supervisor c) then mret tt
  else
    t ← ktime;
    bpf_set (fun s => s <| sys_start ::= fun m => bpf_hash_update m (tid c) t |>).

Definition sys_exit_record (c : bpf_ctx) (k : syscall_kind) : prog bpf unit :=
  tsp ← bpf_get (fun s => bpf_hash_lookup (sys_start s) (tid c));
  match tsp with
  | None => mret tt
  | Some p =>
      delta ← since (fun s => bpf_deref (sys_start s) p);
      _ ← bpf_set (fun s => s <| sys_start ::= fun m => bpf_hash_delete m (tid c) |>);
      bpf_set (fun s => s <| syscall_lat ::= alter (record_on (cpu c) delta) (kind_index k) |>)
  end.

Definition handle_sys_enter_read (c : bpf_ctx) : prog bpf unit := sys_enter_record c.
Definition handle_sys_exit_read (c : bpf_ctx) : prog bpf unit := sys_exit_record c SC_READ.
Definition handle_sys_enter_write (c : bpf_ctx) : prog bpf unit := sys_enter_record c.
Definition handle_sys_exit_write (c : bpf_ctx) : prog bpf unit := sys_exit_record c SC_WRITE.
Definition handle_sys_enter_ioctl (c : bpf_ctx) : prog bpf unit := sys_enter_record c.
Definition handle_sys_exit_ioctl (c : bpf_ctx) : prog bpf unit := sys_exit_record c SC_IOCTL.

(** ** Scheduler delay *)

Definition handle_sched_wakeup (pid : Z) : prog bpf unit :=
  t ← ktime;
  bpf_set (fun s => s <| wakeup_ts ::= fun m => bpf_hash_update m pid t |>).

Definition handle_sched_wakeup_new (pid : Z) : prog bpf unit :=
  t ← ktime;
  bpf_set (fun s => s <| wakeup_ts ::= fun m => bpf_hash_update m pid t |>).

Definition handle_sched_switch (c : bpf_ctx) (next_pid : Z) (next_comm : list Z) :
    prog bpf unit :=
  tsp ← bpf_get (fun s => bpf_hash_lookup (wakeup_ts s) next_pid);
  match tsp with
  | None => mret tt
  | Some p =>
      _ ← (if comm_prefix_match next_comm then
             delta ← since (fun s => bpf_deref (wakeup_ts s) p);
             bpf_set (fun s => s <| sched_lat ::= record_on (cpu c) delta |>)
           else mret tt);
      bpf_set (fun s => s <| wakeup_ts ::= fun m => bpf_hash_delete m next_pid |>)
  end.

(** ** Driver tracepoints *)

Definition counter_inc (c : bpf_ctx) (idx : nat) : prog bpf unit :=
  bpf_set (fun s => s <| tp_counters ::= alter (alter (fun x => u64 (x + 1)) (cpu c)) idx |>).

(** [bpf_ringbuf_reserve]: the place of the record, if there is room. *)
Definition timeline_reserve : prog bpf (option nat) :=
  atomic (fun s => if bpf_ringbuf_reserve (bpf_now s) (length (timeline_rb s))
                   then (Some (length (timeline_rb s)), s <| timeline_rb ::= fun l => l ++ [None] |>)
                   else (None, s)).

(** [bpf_ringbuf_submit] of the record that was filled. *)
Definition timeline_submit (i : nat) (e : timeline_event) : prog bpf unit :=
  bpf_set (fun s => s <| timeline_rb ::= fun l => <[i := Some e]> l |>).

(** Reserve, fill and submit an event; it is dropped when there is no room. *)
Definition timeline_push (e : timeline_event) : prog bpf unit :=
  r ← timeline_reserve;
  match r with
  | Some i => timeline_submit i e
  | None => mret tt
  end.

Definition handle_safety_frame_received (c : bpf_ctx) (seq : Z) : prog bpf unit :=
  _ ← counter_inc c CNT_FRAME_RECEIVED;
  now ← ktime;
  _ ← bpf_set (fun s => s <| last_frame_ts := now |>);
  pending ← bpf_get recovery_pending;
  if negb (pending =? 0) then
    _ ← bpf_set (fun s => s <| recovery_pending := 0 |>);
    timeline_push (mkTlEvent now TL_HEARTBEAT_RESTORED seq)
  else mret tt.

Definition handle_safety_frame_dropped (c : bpf_ctx) : prog bpf unit :=
  counter_inc c CNT_FRAME_DROPPED.

(** [*lf] is read for the test, and again next to the clock. *)
Definition handle_safety_poll_wakeup (c : bpf_ctx) : prog bpf unit :=
  _ ← counter_inc c CNT_POLL_WAKEUP;
  lf ← bpf_get last_frame_ts;
  if lf =? 0 then mret tt
  else
    delta ← since last_frame_ts;
    bpf_set (fun s => s <| poll_lat ::= record_on (cpu c) delta |>).

(** The same with an event whose time stamp is read after the reservation. *)
Definition timeline_push_now (k : timeline_kind) (a : Z) : prog bpf unit :=
  r ← timeline_reserve;
  match r with
  | Some i => t ← ktime; timeline_submit i (mkTlEvent t k a)
  | None => mret tt
  end.

Definition handle_safety_timeout_detected (c : bpf_ctx) (cnt : Z) : prog bpf unit :=
  _ ← counter_inc c CNT_TIMEOUT_DETECTED;
  timeline_push_now TL_TIMEOUT cnt.

Definition handle_safety_recovery_queued (c : bpf_ctx) (cnt : Z) : prog bpf unit :=
  _ ← counter_inc c CNT_RECOVERY_QUEUED;
  _ ← bpf_set (fun s => s <| recovery_pending := 1 |>);
  timeline_push_now TL_RECOVERY cnt.

End Programs.

#[global] Arguments bpf B : clear implicits.
