(* ===== verification/EbpfReport.v ===== *)
(** * The eBPF tracer, user side: [ebpf/safety_trace_user.c]

    Collection of the timeline, summation of the per-CPU maps, approximate
    percentiles and the pairing of events into fault cycles.  The layout of the
    report files (fprintf of doubles) is not modelled; the numbers are. *)

From S2P Require Import Prelude Ebpf.
From Stdlib Require Import SpecFloat.

(** ** Timeline collection *)

Definition MAX_TIMELINE : nat := 4096.

(** [handle_rb_event] on [g_timeline]; [size] is the record's size. *)
Definition handle_rb_event (g_timeline : list timeline_event) (data : timeline_event)
    (size : Z) : list timeline_event :=
  if size <? 16 then g_timeline
  else if (length g_timeline <? MAX_TIMELINE)%nat then g_timeline ++ [data]
  else g_timeline.

(** ** Summation over the CPUs *)

(** The body of the loop over the CPUs, with the local [have_min]. *)
Definition sum_cpu (acc : hist * bool) (h : hist) : hist * bool :=
  let out := acc.1 in
  let count' := u64 (count out + count h) in
  let sum' := u64 (sum out + sum h) in
  let slots' := zip_with (fun a b => u64 (a + b)) (slots out) (slots h) in
  if count h =? 0 then (mkHist slots' count' sum' (min out) (max out), acc.2)
  else
    let less := negb acc.2 || (min h <? min out) in
    (mkHist slots' count' sum' (if less then min h else min out)
       (if max h >? max out then max h else max out),
     if less then true else acc.2).

(** [per] is what the map lookup returns for each CPU: [None] when [calloc]
    fails, which leaves [*out] alone, [Some None] when the lookup fails. *)
Definition sum_percpu_hist (per : option (option (list hist))) (out : hist) : Z * hist :=
  match per with
  | None => (- 1, out)
  | Some None => (0, hist_zero)
  | Some (Some per) => (0, (foldl sum_cpu (hist_zero, false) per).1)
  end.

Definition sum_percpu_u64 (per : option (option (list Z))) : Z :=
  match per with
  | Some (Some per) => foldl (fun total c => u64 (total + c)) 0 per
  | _ => 0
  end.

(** ** Percentiles *)

(** IEEE binary64 arithmetic. *)
Definition double_of_Z (x : Z) : spec_float := binary_normalize 53 1024 x 0 false.
Definition double_mul : spec_float -> spec_float -> spec_float := SFmul 53 1024.
Definition double_div : spec_float -> spec_float -> spec_float := SFdiv 53 1024.
Definition double_add : spec_float -> spec_float -> spec_float := SFadd 53 1024.

(** Conversion of a non-negative double to [__u64]. *)
Definition u64_of_double (x : spec_float) : Z :=
  match x with
  | S754_finite false m e => if e <? 0 then Z.pos m / 2 ^ (- e) else Z.pos m * 2 ^ e
  | _ => 0
  end.

(** [(__u64)(pct / 100.0 * (double)h->count + 0.5)] *)
Definition percentile_target (pct : Z) (cnt : Z) : Z :=
  u64_of_double
    (double_add
       (double_mul (double_div (double_of_Z pct) (double_of_Z 100)) (double_of_Z cnt))
       (double_div (double_of_Z 1) (double_of_Z 2))).

(** [1ULL << n]; [None] is the undefined shift by the full width. *)
Definition shl_1ull (n : Z) : option Z := if n <? 64 then Some (2 ^ n) else None.

Fixpoint percentile_loop (l : list Z) (s cum target : Z) (mx : Z) : option Z :=
  match l with
  | [] => Some mx
  | c :: l =>
      let cum := u64 (cum + c) in
      if cum >=? target then (if s =? 0 then Some 1 else shl_1ull (s + 1))
      else percentile_loop l (s + 1) cum target mx
  end.

Definition hist_percentile_ns (h : hist) (pct : Z) : option Z :=
  if count h =? 0 then Some 0
  else
    let target := percentile_target pct (count h) in
    let target := if target =? 0 then 1 else target in
    percentile_loop (slots h) 0 0 target (max h).

Definition hist_avg_ns (h : hist) : spec_float :=
  if count h =? 0 then S754_zero false
  else double_div (double_of_Z (sum h)) (double_of_Z (count h)).

Record metric_row := mkRow { name : string; unit_ : string; h : hist }.

(** The return value of [sum_percpu_hist] is ignored. *)
Definition collect_metric (row : metric_row) (nm : string)
    (per : option (option (list hist))) : metric_row :=
  mkRow nm "ns" (sum_percpu_hist per (h row)).2.

(** What [generate_reports] collects. *)
Definition report_rows {B : BpfApi} (rows : list metric_row) (s : bpf B) : list metric_row :=
  zip_with (fun row r => collect_metric row r.1 r.2) rows
    [("read_latency_ns", Some (syscall_lat s !! kind_index SC_READ));
     ("write_latency_ns", Some (syscall_lat s !! kind_index SC_WRITE));
     ("ioctl_latency_ns", Some (syscall_lat s !! kind_index SC_IOCTL));
     ("poll_wakeup_ns", Some (Some (poll_lat s)));
     ("sched_delay_ns", Some (Some (sched_lat s)))].

Definition report_counters {B : BpfApi} (s : bpf B) : list Z :=
  (fun i => sum_percpu_u64 (Some (tp_counters s !! i))) <$> seq 0 CNT_MAX.

(** The numbers of a row of the CSV report: count, min, p50, p90, max, avg. *)
Definition csv_row (h : hist) : Z * Z * option Z * option Z * Z * spec_float :=
  (count h, min h, hist_percentile_ns h 50, hist_percentile_ns h 90, max h, hist_avg_ns h).

(** ** Fault cycles *)

Definition tl_kind_str (k : timeline_kind) : string :=
  match k with
  | TL_TIMEOUT => "TIMEOUT"
  | TL_RECOVERY => "RECOVERY"
  | TL_HEARTBEAT_RESTORED => "HEARTBEAT_RESTORED"
  end.

(** Time stamps of a cycle; 0 means not seen. *)
Record fault_cycle := mkCycle { t_timeout : Z; t_recovery : Z; t_restored : Z }.

#[global] Instance fault_cycle_eq_dec : EqDecision fault_cycle.
Proof. solve_decision. Defined.

(** The loop over [j]: the two time stamps and the events from [j] on. *)
Fixpoint cycle_scan (evs : list timeline_event) (rec res : Z) : Z * Z * list timeline_event :=
  match evs with
  | [] => (rec, res, [])
  | e :: rest =>
      if bool_decide (kind e = TL_TIMEOUT) then (rec, res, evs)
      else if (rec =? 0) && bool_decide (kind e = TL_RECOVERY) then cycle_scan rest (ts e) res
      else if negb (rec =? 0) && (res =? 0) && bool_decide (kind e = TL_HEARTBEAT_RESTORED)
      then (rec, ts e, evs)
      else cycle_scan rest rec res
  end.

(** The loop over [i], one event or one cycle per round. *)
Fixpoint fault_cycles (fuel : nat) (evs : list timeline_event) : list fault_cycle :=
  match fuel with
  | O => []
  | S fuel =>
      match evs with
      | [] => []
      | e :: rest =>
          if negb (bool_decide (kind e = TL_TIMEOUT)) then fault_cycles fuel rest
          else
            let '(rec, res, later) := cycle_scan rest 0 0 in
            mkCycle (ts e) rec res :: fault_cycles fuel later
      end
  end.

(** [total_ms], [to_rec_ms] and [rec_res_ms] before their division by 1e6:
    [None] is printed as n/a. *)
Definition cycle_durations (c : fault_cycle) : option Z * option Z * option Z :=
  (if t_recovery c =? 0 then None else Some (u64 (t_recovery c - t_timeout c)),
   if (t_recovery c =? 0) || (t_restored c =? 0) then None
   else Some (u64 (t_restored c - t_recovery c)),
   if t_restored c =? 0 then None else Some (u64 (t_restored c - t_timeout c))).
