(* ===== verification/EbpfHist.v ===== *)
(** * Histograms against the samples they summarise

    [summarises l h]: the histogram [h] is the exact summary of the samples [l].
    Recording preserves it, and so does the summation over the CPUs. *)

From S2P Require Import Prelude Ebpf EbpfReport.

(** ** The bucket of a sample *)

(** The remaining value and the result so far of [log2_u64]: the value fits
    [2 * k] bits, and the logarithm of [v] is split between the two. *)
Definition log2_split (v k : Z) (vr : Z * Z) : Prop :=
  0 <= vr.1 < 2 ^ (2 * k) /\ Z.log2 v = vr.2 + Z.log2 vr.1.

Lemma log2_stage_split v k vr :
  0 < k -> log2_split v k vr ->
  let vr' := log2_stage k vr in
  0 <= vr'.1 < 2 ^ k /\ Z.log2 v = vr'.2 + Z.log2 vr'.1.
Proof.
  intros Hk [Hr Hl]. unfold log2_stage. destruct vr as [x r]. cbn [fst snd] in *.
  rewrite Z.geb_leb. destruct (2 ^ k <=? x) eqn:E; cbn [fst snd]; [|split; [lia|done]].
  apply Z.leb_le in E. assert (0 < 2 ^ k) by (apply Z.pow_pos_nonneg; lia).
  assert (k <= Z.log2 x) by (apply Z.log2_le_pow2; lia).
  split.
  - rewrite Z.shiftr_div_pow2 by lia. split; [apply Z.div_pos; lia|].
    apply Z.div_lt_upper_bound; [lia|]. rewrite <- Z.pow_add_r by lia.
    replace (k + k) with (2 * k) by lia. lia.
  - rewrite Z.log2_shiftr by lia. lia.
Qed.

Lemma log2_u64_spec v : is_u64 v -> log2_u64 v = Z.log2 v.
Proof.
  intros Hv. unfold log2_u64.
  set (p1 := log2_stage 32 (v, 0)).
  assert (0 <= p1.1 < 2 ^ (2 * 16) /\ Z.log2 v = p1.2 + Z.log2 p1.1) as H1
    by (apply (log2_stage_split v 32 (v, 0)); [lia|]; by split).
  set (p2 := log2_stage 16 p1). assert (0 <= p2.1 < 2 ^ (2 * 8) /\ Z.log2 v = p2.2 + Z.log2 p2.1) as H2
    by (by apply (log2_stage_split v 16 p1)).
  set (p3 := log2_stage 8 p2). assert (0 <= p3.1 < 2 ^ (2 * 4) /\ Z.log2 v = p3.2 + Z.log2 p3.1) as H3
    by (by apply (log2_stage_split v 8 p2)).
  set (p4 := log2_stage 4 p3). assert (0 <= p4.1 < 2 ^ (2 * 2) /\ Z.log2 v = p4.2 + Z.log2 p4.1) as H4
    by (by apply (log2_stage_split v 4 p3)).
  set (p5 := log2_stage 2 p4). assert (0 <= p5.1 < 2 ^ 2 /\ Z.log2 v = p5.2 + Z.log2 p5.1) as [H5 ->]
    by (by apply (log2_stage_split v 2 p4)).
  clearbody p5. change (2 ^ 2) with 4 in H5.
  assert (p5.1 = 0 \/ p5.1 = 1 \/ p5.1 = 2 \/ p5.1 = 3) as [E|[E|[E|E]]] by lia;
    rewrite E; simpl; lia.
Qed.

Lemma log2_u64_range v : is_u64 v -> 0 <= Z.log2 v < 64.
Proof.
  intros Hv. split; [apply Z.log2_nonneg|]. destruct (decide (v = 0)) as [->|]; [done|].
  apply Z.log2_lt_pow2; simpl in *; lia.
Qed.

(** ** Summaries *)

Definition total (l : list Z) : Z := foldr Z.add 0 l.

(** The number of samples in bucket [s]. *)
Definition in_bucket (l : list Z) (s : Z) : Z :=
  Z.of_nat (length (filter (fun x => Z.log2 x = s) l)).

Record summarises (l : list Z) (h : hist) : Prop := {
  sum_u64 : Forall is_u64 l;
  sum_count : count h = Z.of_nat (length l);
  sum_total : sum h = u64 (total l);
  sum_slots : slots h = (fun s => in_bucket l (Z.of_nat s)) <$> seq 0 64;
  sum_min : (l = [] /\ min h = 0) \/ (min h ∈ l /\ Forall (fun x => min h <= x) l);
  sum_max : (l = [] /\ max h = 0) \/ (max h ∈ l /\ Forall (fun x => x <= max h) l);
}.

Lemma summarises_nil : summarises [] hist_zero.
Proof. constructor; try done; by left. Qed.

Lemma in_bucket_app l k s : in_bucket (l ++ k) s = in_bucket l s + in_bucket k s.
Proof. unfold in_bucket. rewrite filter_app, length_app. lia. Qed.

Lemma in_bucket_le l s : 0 <= in_bucket l s <= Z.of_nat (length l).
Proof. unfold in_bucket. pose proof (length_filter (fun x => Z.log2 x = s) l). lia. Qed.

Lemma total_app l k : total (l ++ k) = total l + total k.
Proof. unfold total. induction l as [|x l IH]; simpl; lia. Qed.

Lemma total_perm l k : l ≡ₚ k -> total l = total k.
Proof. induction 1; simpl in *; lia. Qed.

Lemma summarises_perm l k h : l ≡ₚ k -> summarises l h -> summarises k h.
Proof.
  intros Hp []. constructor.
  - by rewrite <- Hp.
  - by rewrite <- Hp.
  - by rewrite <- (total_perm _ _ Hp).
  - rewrite sum_slots0. apply list_fmap_ext. intros i s _. unfold in_bucket. by rewrite Hp.
  - destruct sum_min0 as [[-> ?]|[Hin Hall]]; [left|right].
    + by apply Permutation_nil_l in Hp.
    + by rewrite <- Hp.
  - destruct sum_max0 as [[-> ?]|[Hin Hall]]; [left|right].
    + by apply Permutation_nil_l in Hp.
    + by rewrite <- Hp.
Qed.

(** ** Recording a sample *)

Lemma lookup_slots l h i :
  summarises l h -> (i < 64)%nat -> slots h !! i = Some (in_bucket l (Z.of_nat i)).
Proof. intros [] Hi. rewrite sum_slots0, list_lookup_fmap, lookup_seq_lt by done. done. Qed.

(** A list of 64 counters is the bucket counts of [l] if it agrees with them. *)
Lemma slots_ext l s :
  length s = 64%nat ->
  (forall i, (i < 64)%nat -> s !! i = Some (in_bucket l (Z.of_nat i))) ->
  s = (fun s => in_bucket l (Z.of_nat s)) <$> seq 0 64.
Proof.
  intros Hl Hi. apply list_eq. intros i. rewrite list_lookup_fmap.
  destruct (decide (i < 64)%nat) as [H|H].
  - by rewrite Hi, lookup_seq_lt by done.
  - rewrite lookup_ge_None_2, lookup_seq_ge by lia. done.
Qed.

Lemma length_slots l h : summarises l h -> length (slots h) = 64%nat.
Proof. intros []. by rewrite sum_slots0, length_fmap, length_seq. Qed.

(** The least (greatest) element of an extended list. *)
Lemma min_app (l k : list Z) m n :
  m ∈ l -> Forall (fun x => m <= x) l -> n ∈ k -> Forall (fun x => n <= x) k ->
  (if n <? m then n else m) ∈ l ++ k /\ Forall (fun x => (if n <? m then n else m) <= x) (l ++ k).
Proof.
  intros Hm Fm Hn Fn. rewrite elem_of_app, Forall_app.
  destruct (Z.ltb_spec n m); repeat split; auto;
    eapply Forall_impl; try eassumption; simpl; intros; lia.
Qed.

Lemma max_app (l k : list Z) m n :
  m ∈ l -> Forall (fun x => x <= m) l -> n ∈ k -> Forall (fun x => x <= n) k ->
  (if n >? m then n else m) ∈ l ++ k /\ Forall (fun x => x <= (if n >? m then n else m)) (l ++ k).
Proof.
  intros Hm Fm Hn Fn. rewrite elem_of_app, Forall_app, Z.gtb_ltb.
  destruct (Z.ltb_spec m n); repeat split; auto;
    eapply Forall_impl; try eassumption; simpl; intros; lia.
Qed.

Lemma u64_total l k a b : a = u64 (total l) -> b = u64 (total k) -> u64 (a + b) = u64 (total (l ++ k)).
Proof. intros -> ->. rewrite total_app. unfold u64. by rewrite <- Zplus_mod. Qed.

Lemma hist_record_summarises l h d :
  is_u64 d -> Z.of_nat (length l) + 1 < 2 ^ 64 ->
  summarises l h -> summarises (l ++ [d]) (hist_record h d).
Proof.
  intros Hd Hlen Hs. pose proof (log2_u64_range d Hd) as Hr.
  assert (Hc : u64 (count h + 1) = Z.of_nat (length (l ++ [d]))).
  { rewrite (sum_count _ _ Hs), length_app. simpl. rewrite u64_small; [lia|split; simpl in *; lia]. }
  unfold hist_record. rewrite (log2_u64_spec d Hd).
  replace (Z.log2 d >=? MAX_SLOTS) with false by (symmetry; rewrite Z.geb_leb; apply Z.leb_gt; unfold MAX_SLOTS; lia).
  rewrite Hc. constructor; cbn [count sum slots min max].
  - apply Forall_app; split; [apply Hs|by constructor].
  - done.
  - apply u64_total; [apply Hs|]. unfold total. simpl. rewrite u64_small by (by rewrite Z.add_0_r). lia.
  - apply slots_ext; [rewrite length_alter; by eapply length_slots|]. intros i Hi.
    rewrite in_bucket_app.
    pose proof (in_bucket_le l (Z.of_nat i)) as Hb. unfold in_bucket at 2.
    rewrite filter_cons.
    destruct (decide (Z.to_nat (Z.log2 d) = i)) as [<-|Hne].
    + rewrite list_lookup_alter_eq, (lookup_slots _ _ _ Hs Hi), decide_True by lia. simpl. f_equal.
      apply u64_small. simpl in *. lia.
    + rewrite list_lookup_alter_ne, (lookup_slots _ _ _ Hs Hi), decide_False by lia. simpl. f_equal. lia.
  - right. destruct (sum_min _ _ Hs) as [[-> Hm]|[Hin Hall]].
    + simpl. split; [by left|]. repeat constructor. lia.
    + replace (_ =? 1) with false.
      2:{ symmetry. apply Z.eqb_neq. destruct l; [by apply elem_of_nil in Hin|]. rewrite length_app. simpl. lia. }
      apply min_app; try done; [by left|]. repeat constructor. lia.
  - right. destruct (sum_max _ _ Hs) as [[-> Hm]|[Hin Hall]].
    + rewrite Hm, Z.gtb_ltb. simpl.
      replace (if 0 <? d then d else 0) with d by (destruct (Z.ltb_spec 0 d); destruct Hd; lia).
      split; [by left|]. repeat constructor. lia.
    + apply max_app; try done; [by left|]. repeat constructor. lia.
Qed.

(** ** Summation over the CPUs *)

(** The accumulator of the loop: [have_min] is set once there is a sample. *)
Definition acc_ok (l : list Z) (acc : hist * bool) : Prop :=
  summarises l acc.1 /\ acc.2 = bool_decide (l <> []).

Lemma acc_nil : acc_ok [] (hist_zero, false).
Proof. split; [apply summarises_nil|done]. Qed.

Lemma slots_merge l k out h :
  Z.of_nat (length (l ++ k)) < 2 ^ 64 -> summarises l out -> summarises k h ->
  zip_with (fun a b => u64 (a + b)) (slots out) (slots h) =
  (fun s => in_bucket (l ++ k) (Z.of_nat s)) <$> seq 0 64.
Proof.
  intros Hlen Hl Hk. apply slots_ext.
  - rewrite length_zip_with, (length_slots _ _ Hl), (length_slots _ _ Hk). done.
  - intros i Hi. rewrite lookup_zip_with, (lookup_slots _ _ _ Hl Hi), (lookup_slots _ _ _ Hk Hi).
    simpl. f_equal. rewrite <- in_bucket_app. apply u64_small.
    pose proof (in_bucket_le (l ++ k) (Z.of_nat i)). simpl in *. lia.
Qed.

(** A CPU without samples changes nothing but adds zeros. *)
Lemma summarises_count_0 k h : summarises k h -> count h = 0 <-> k = [].
Proof. intros []. rewrite sum_count0. destruct k; simpl; split; intros; (done || lia). Qed.

Lemma summarises_max_nonneg k h : summarises k h -> 0 <= max h.
Proof.
  intros [Hu _ _ _ _ [[_ ->]|[Hin _]]]; [done|].
  rewrite Forall_forall in Hu. apply Hu in Hin. destruct Hin. lia.
Qed.

Lemma sum_cpu_ok l k acc h :
  Z.of_nat (length (l ++ k)) < 2 ^ 64 ->
  acc_ok l acc -> summarises k h -> acc_ok (l ++ k) (sum_cpu acc h).
Proof.
  intros Hlen [Hl Hf] Hk. unfold sum_cpu.
  assert (Hc : u64 (count acc.1 + count h) = Z.of_nat (length (l ++ k))).
  { rewrite (sum_count _ _ Hl), (sum_count _ _ Hk), length_app, Nat2Z.inj_add.
    apply u64_small. rewrite length_app in Hlen. simpl. lia. }
  pose proof (u64_total l k _ _ (sum_total _ _ Hl) (sum_total _ _ Hk)) as Ht.
  rewrite Hc, Ht, (slots_merge l k _ _ Hlen Hl Hk). cbn [count].
  assert (Hu : Forall is_u64 (l ++ k)) by (apply Forall_app; split; [apply Hl|apply Hk]).
  destruct (Z.eqb_spec (count h) 0) as [E|E].
  - apply (summarises_count_0 k h Hk) in E as ->. rewrite app_nil_r. split; [|done].
    destruct Hl. by constructor.
  - assert (k <> []) as Hne by (by intros Hn; apply E, (summarises_count_0 _ h Hk)).
    destruct (sum_min _ _ Hk) as [[Hn _]|[Mi Ma]]; [by apply Hne in Hn|].
    destruct (sum_max _ _ Hk) as [[Hn _]|[Xi Xa]]; [by apply Hne in Hn|].
    assert (l ++ k <> []) by (intros [_ Hn]%app_eq_nil; by apply Hne).
    rewrite Hf. destruct (sum_max _ _ Hl) as [[-> E0]|[Yi Ya]].
    + pose proof (summarises_max_nonneg _ _ Hk).
      rewrite (bool_decide_false ([] <> [])) by auto. cbn [negb orb].
      split; [|cbn [snd]; by rewrite bool_decide_true].
      constructor; cbn -[u64 total]; try done; right; [done|].
      rewrite E0, Z.gtb_ltb.
      by replace (if 0 <? max h then max h else 0) with (max h) by (destruct (Z.ltb_spec 0 (max h)); lia).
    + destruct (sum_min _ _ Hl) as [[-> _]|[Ni Na]]; [by apply elem_of_nil in Yi|].
      assert (l <> []) by (by intros ->; apply elem_of_nil in Yi).
      rewrite (bool_decide_true (l <> [])) by done. simpl orb. split; cbn [fst snd].
      * constructor; cbn [count sum slots min max]; try done; right;
          [by apply min_app|by apply max_app].
      * rewrite bool_decide_true by done. by destruct (_ <? _).
Qed.

(** ** Per-CPU histograms *)

(** The histograms [hs], one per CPU, summarise the samples [l] between them. *)
Definition percpu_of (l : list Z) (hs : list hist) : Prop :=
  exists ls, Forall2 summarises ls hs /\ concat ls ≡ₚ l.

Lemma percpu_of_nil n : percpu_of [] (replicate n hist_zero).
Proof.
  exists (replicate n []). split; [|by induction n].
  apply Forall2_replicate, summarises_nil.
Qed.

Lemma percpu_record_aux c d ls hs :
  (c < length hs)%nat -> is_u64 d -> Z.of_nat (length (concat ls)) + 1 < 2 ^ 64 ->
  Forall2 summarises ls hs ->
  exists ls', Forall2 summarises ls' (record_on c d hs) /\ concat ls' ≡ₚ concat ls ++ [d].
Proof.
  intros Hc Hd Hlen HF. revert c Hc Hlen.
  induction HF as [|l h ls hs Hs HF IH]; intros c Hc Hlen; [simpl in *; lia|].
  simpl concat in *. rewrite length_app in Hlen.
  destruct c as [|c].
  - exists ((l ++ [d]) :: ls). split.
    + constructor; [|done]. apply hist_record_summarises; [done|lia|done].
    + simpl. rewrite <- !app_assoc. f_equiv. apply Permutation_app_comm.
  - destruct (IH c) as (ls' & HF' & Hp); [simpl in Hc; lia|lia|].
    exists (l :: ls'). split; [by constructor|]. simpl. rewrite Hp. by rewrite app_assoc.
Qed.

Lemma percpu_record l c d hs :
  (c < length hs)%nat -> is_u64 d -> Z.of_nat (length l) + 1 < 2 ^ 64 ->
  percpu_of l hs -> percpu_of (l ++ [d]) (record_on c d hs).
Proof.
  intros Hc Hd Hlen (ls & HF & Hp).
  destruct (percpu_record_aux c d ls hs) as (ls' & HF' & Hp'); [done..|by rewrite Hp|done|].
  exists ls'. split; [done|]. by rewrite Hp', Hp.
Qed.

Lemma sum_cpus_ok ls hs l acc :
  Forall2 summarises ls hs -> Z.of_nat (length (l ++ concat ls)) < 2 ^ 64 ->
  acc_ok l acc -> acc_ok (l ++ concat ls) (foldl sum_cpu acc hs).
Proof.
  intros HF. revert l acc. induction HF as [|k h ls hs Hs HF IH]; intros l acc Hlen Hacc; simpl.
  - by rewrite app_nil_r.
  - simpl in Hlen. rewrite app_assoc in *. apply IH; [done|].
    apply sum_cpu_ok; [|done..]. rewrite length_app in Hlen. lia.
Qed.

Lemma sum_percpu_hist_exact l hs out :
  percpu_of l hs -> Z.of_nat (length l) < 2 ^ 64 ->
  summarises l (sum_percpu_hist (Some (Some hs)) out).2.
Proof.
  intros (ls & HF & Hp) Hlen. apply (summarises_perm (concat ls)); [done|].
  apply (sum_cpus_ok ls hs [] (hist_zero, false)); [done|by rewrite app_nil_l, Hp|apply acc_nil].
Qed.
