(* ===== verification/EbpfSpec.v ===== *)
(** * What the tracer promises: an abstract trace state and its refinement

    The abstract state keeps the open calls and wakeups as finite maps and
    emits every latency as a sample; the handlers keep histograms per CPU.
    [trace_rel] relates the two, [trace_sim] is the simulation. *)

From stdpp Require Import gmap.
From S2P Require Import Prelude Ebpf EbpfReport EbpfHist.

(** ** Events and the handler of each *)

Inductive bpf_event :=
  | EvEnter (c : bpf_ctx)                      (* sys_enter_{read,write,ioctl} *)
  | EvExit (c : bpf_ctx) (k : syscall_kind)    (* sys_exit_{read,write,ioctl} *)
  | EvWakeup (pid : Z)
  | EvSwitch (c : bpf_ctx) (next_pid : Z) (next_comm : list Z)
  | EvFrame (c : bpf_ctx) (seq : Z)
  | EvDropped (c : bpf_ctx)
  | EvPoll (c : bpf_ctx)
  | EvTimeout (c : bpf_ctx) (cnt : Z)
  | EvRecovery (c : bpf_ctx) (cnt : Z).

(** The CPU an event is counted or recorded on. *)
Definition event_cpu (e : bpf_event) : nat :=
  match e with
  | EvEnter c | EvExit c _ | EvSwitch c _ _ | EvFrame c _ | EvDropped c | EvPoll c
  | EvTimeout c _ | EvRecovery c _ => cpu c
  | EvWakeup _ => 0
  end.

Definition event_counter (e : bpf_event) : option nat :=
  match e with
  | EvFrame _ _ => Some CNT_FRAME_RECEIVED
  | EvDropped _ => Some CNT_FRAME_DROPPED
  | EvTimeout _ _ => Some CNT_TIMEOUT_DETECTED
  | EvRecovery _ _ => Some CNT_RECOVERY_QUEUED
  | EvPoll _ => Some CNT_POLL_WAKEUP
  | _ => None
  end.

(** The rows of the report: read, write, ioctl, poll wakeup, scheduler delay. *)
Definition POLL_ROW : nat := 3.
Definition SCHED_ROW : nat := 4.

Section Spec.
Context {B : BpfApi} {BO : BpfOk B}.

Definition handle (e : bpf_event) : prog (bpf B) unit :=
  match e with
  | EvEnter c => sys_enter_record c
  | EvExit c k => sys_exit_record c k
  | EvWakeup pid => handle_sched_wakeup pid
  | EvSwitch c pid nc => handle_sched_switch c pid nc
  | EvFrame c seq => handle_safety_frame_received c seq
  | EvDropped c => handle_safety_frame_dropped c
  | EvPoll c => handle_safety_poll_wakeup c
  | EvTimeout c cnt => handle_safety_timeout_detected c cnt
  | EvRecovery c cnt => handle_safety_recovery_queued c cnt
  end.

Definition handle_all (es : list bpf_event) (s : bpf B) : bpf B :=
  foldl (fun s e => (run (handle e) s).2) s es.

(** ** The abstract trace *)

Record trace_state := mkTrace {
  tr_calls : gmap Z Z;       (* open calls: thread id, time of entry *)
  tr_wakeups : gmap Z Z;     (* runnable threads: pid, time of wakeup *)
  tr_frame : option Z;       (* time of the last frame *)
  tr_pending : bool;         (* recovery queued, no frame since *)
  tr_timeline : list timeline_event;
  tr_now : nat;              (* clock readings so far *)
}.

Definition time (t : trace_state) : Z := bpf_ktime_get_ns (tr_now t).

Definition tr_push (k : timeline_kind) (a : Z) (t : trace_state) : trace_state :=
  if bpf_ringbuf_reserve (tr_now t) (length (tr_timeline t)) then
    mkTrace (tr_calls t) (tr_wakeups t) (tr_frame t) (tr_pending t)
      (tr_timeline t ++ [mkTlEvent (time t) k a]) (S (tr_now t))
  else t.

(** One event: the next state and the samples, each with its row. *)
Definition trace_step (t : trace_state) (e : bpf_event) : trace_state * list (nat * Z) :=
  let 'mkTrace calls wakeups frame pending tl n := t in
  let now := bpf_ktime_get_ns n in
  match e with
  | EvEnter c =>
      (if comm_is_supervisor c
       then mkTrace (<[tid c := now]> calls) wakeups frame pending tl (S n) else t, [])
  | EvExit c k =>
      match calls !! tid c with
      | Some t0 => (mkTrace (delete (tid c) calls) wakeups frame pending tl (S n),
                    [(kind_index k, now - t0)])
      | None => (t, [])
      end
  | EvWakeup pid => (mkTrace calls (<[pid := now]> wakeups) frame pending tl (S n), [])
  | EvSwitch c pid nc =>
      match wakeups !! pid with
      | Some t0 =>
          if comm_prefix_match nc
          then (mkTrace calls (delete pid wakeups) frame pending tl (S n), [(SCHED_ROW, now - t0)])
          else (mkTrace calls (delete pid wakeups) frame pending tl n, [])
      | None => (t, [])
      end
  | EvFrame c seq =>
      let room := pending && bpf_ringbuf_reserve (S n) (length tl) in
      (mkTrace calls wakeups (Some now) false
         (if room then tl ++ [mkTlEvent now TL_HEARTBEAT_RESTORED seq] else tl) (S n), [])
  | EvDropped c => (t, [])
  | EvPoll c =>
      match frame with
      | Some t0 => (mkTrace calls wakeups frame pending tl (S n), [(POLL_ROW, now - t0)])
      | None => (t, [])
      end
  | EvTimeout c cnt => (tr_push TL_TIMEOUT cnt t, [])
  | EvRecovery c cnt =>
      (tr_push TL_RECOVERY cnt (mkTrace calls wakeups frame true tl n), [])
  end.

Fixpoint trace_run (t : trace_state) (es : list bpf_event) : trace_state * list (nat * Z) :=
  match es with
  | [] => (t, [])
  | e :: es =>
      let r := trace_step t e in
      let r' := trace_run r.1 es in
      (r'.1, r.2 ++ r'.2)
  end.

Definition trace_zero : trace_state := mkTrace ∅ ∅ None false [] 0.

(** The samples of one row. *)
Definition row_samples (m : nat) (l : list (nat * Z)) : list Z :=
  snd <$> filter (fun x => x.1 = m) l.

(** The events counted by one counter. *)
Definition counted (i : nat) (es : list bpf_event) : nat :=
  length (filter (fun e => event_counter e = Some i) es).

(** The maps keep up with the open calls and wakeups. *)
Fixpoint trace_fits (t : trace_state) (es : list bpf_event) : Prop :=
  (size (tr_calls t) < MAX_ENTRIES)%nat /\ (size (tr_wakeups t) < MAX_ENTRIES)%nat /\
  match es with
  | [] => True
  | e :: es => trace_fits (trace_step t e).1 es
  end.

(** ** The relation *)

Definition row_hists (s : bpf B) (m : nat) : list hist :=
  if decide (m = POLL_ROW) then poll_lat s
  else if decide (m = SCHED_ROW) then sched_lat s
  else default [] (syscall_lat s !! m).

Definition past (n : nat) (t0 : Z) : Prop := 0 < t0 <= bpf_ktime_get_ns n.

(** The maps and the clock. *)
Record maps_rel (t : trace_state) (s : bpf B) : Prop := {
  rel_calls k : bpf_hash_get (sys_start s) k = tr_calls t !! k;
  rel_wakeups k : bpf_hash_get (wakeup_ts s) k = tr_wakeups t !! k;
  rel_frame : last_frame_ts s = default 0 (tr_frame t);
  rel_pending : recovery_pending s = if tr_pending t then 1 else 0;
  rel_timeline : timeline_rb s = Some <$> tr_timeline t;
  rel_now : bpf_now s = tr_now t;
}.

(** Every time the trace remembers lies in the past. *)
Record trace_wf (t : trace_state) : Prop := {
  wf_calls : map_Forall (fun _ => past (tr_now t)) (tr_calls t);
  wf_wakeups : map_Forall (fun _ => past (tr_now t)) (tr_wakeups t);
  wf_frame t0 : tr_frame t = Some t0 -> past (tr_now t) t0;
}.

(** The histograms of each row. *)
Record rows_rel (ncpu : nat) (samples : list (nat * Z)) (s : bpf B) : Prop := {
  rel_syscall_rows : length (syscall_lat s) = 3%nat;
  rel_rows m : (m < 5)%nat -> length (row_hists s m) = ncpu /\
                             percpu_of (row_samples m samples) (row_hists s m);
}.

(** A per-CPU counter counts to [n], modulo 2^64. *)
Definition counts (ncpu n : nat) (per : list Z) : Prop :=
  length per = ncpu /\ u64 (foldr Z.add 0 per) = u64 (Z.of_nat n).

Definition counters_rel (ncpu : nat) (es : list bpf_event) (s : bpf B) : Prop :=
  length (tp_counters s) = CNT_MAX /\
  forall i per, tp_counters s !! i = Some per -> counts ncpu (counted i es) per.

(** Pushing an event with nothing in between. *)
Lemma insert_snoc {T} (l : list T) x y : <[length l := y]> (l ++ [x]) = l ++ [y].
Proof. rewrite insert_app_r_alt by done. by rewrite Nat.sub_diag. Qed.

Lemma run_push e s :
  run (timeline_push e) s =
  (tt, if bpf_ringbuf_reserve (bpf_now s) (length (timeline_rb s))
       then s <| timeline_rb ::= fun l => l ++ [Some e] |> else s).
Proof.
  unfold timeline_push, timeline_reserve. rewrite run_bind, run_atomic.
  destruct (bpf_ringbuf_reserve _ _); cbn [fst snd]; [|done].
  unfold timeline_submit, bpf_set. rewrite run_atomic.
  exact (f_equal (fun l => (tt, s <| timeline_rb := l |>)) (insert_snoc (timeline_rb s) None (Some e))).
Qed.

Lemma run_push_now k a s :
  run (timeline_push_now k a) s =
  (tt, if bpf_ringbuf_reserve (bpf_now s) (length (timeline_rb s))
       then s <| timeline_rb ::= fun l => l ++ [Some (mkTlEvent (bpf_ktime_get_ns (bpf_now s)) k a)] |>
              <| bpf_now ::= S |>
       else s).
Proof.
  unfold timeline_push_now, timeline_reserve. rewrite run_bind, run_atomic.
  destruct (bpf_ringbuf_reserve _ _); cbn [fst snd]; [|done].
  unfold ktime, timeline_submit, bpf_set. rewrite run_bind, !run_atomic.
  exact (f_equal (fun l => (tt, s <| timeline_rb := l |> <| bpf_now ::= S |>))
           (insert_snoc (timeline_rb s) None (Some (mkTlEvent (bpf_ktime_get_ns (bpf_now s)) k a)))).
Qed.

(** With nothing in between the order does not matter. *)
Lemma run_since read s :
  (forall n, read (s <| bpf_now := n |>) = read s) ->
  run (since read) s = (u64 (bpf_ktime_get_ns (bpf_now s) - read s), s <| bpf_now ::= S |>).
Proof.
  intros H. unfold since, ktime, bpf_get. destruct bpf_value_first; step_run; [done|].
  do 2 f_equal. f_equal. exact (H (S (bpf_now s))).
Qed.

#[local] Arguments timeline_push : simpl never.
#[local] Arguments since : simpl never.
#[local] Arguments timeline_push_now : simpl never.
#[local] Hint Rewrite run_push run_push_now : run.
#[local] Hint Rewrite run_since using done : run.

(** The primitives every handler is made of. *)
Ltac unfold_handlers :=
  cbn [handle];
  unfold sys_enter_record, sys_exit_record, handle_sched_wakeup, handle_sched_switch,
    handle_safety_frame_received, handle_safety_frame_dropped, handle_safety_poll_wakeup,
    handle_safety_timeout_detected, handle_safety_recovery_queued, counter_inc, bpf_get, bpf_set, ktime.

(** ** The counters *)

Lemma handle_counters e s :
  tp_counters (run (handle e) s).2 =
  match event_counter e with
  | Some i => alter (alter (fun x => u64 (x + 1)) (event_cpu e)) i (tp_counters s)
  | None => tp_counters s
  end.
Proof.
  destruct e; cbn [event_counter event_cpu]; unfold_handlers;
    step_run; repeat (case_match; step_run); done.
Qed.

Lemma counts_inc ncpu n c per :
  (c < ncpu)%nat -> counts ncpu n per -> counts ncpu (S n) (alter (fun x => u64 (x + 1)) c per).
Proof.
  intros Hc [<- Hs]. split; [by rewrite length_alter|].
  transitivity (u64 (foldr Z.add 0 per + 1)).
  - clear Hs. revert c Hc. induction per as [|x per IH]; intros c Hc; [simpl in Hc; lia|].
    destruct c as [|c]; cbn [alter list_alter foldr].
    + rewrite u64_add_u64_l. f_equal. lia.
    + rewrite <- u64_add_u64_r, IH, u64_add_u64_r by (simpl in Hc; lia). f_equal. lia.
  - rewrite <- u64_add_u64_l, Hs, u64_add_u64_l. f_equal. lia.
Qed.

Lemma counts_sum ncpu n per :
  counts ncpu n per -> sum_percpu_u64 (Some (Some per)) = u64 (Z.of_nat n).
Proof.
  intros [_ <-]. cbn [sum_percpu_u64].
  assert (forall t, foldl (fun t c => u64 (t + c)) (u64 t) per = u64 (t + foldr Z.add 0 per)) as H.
  { induction per as [|x per IH]; intros t; simpl; [by rewrite Z.add_0_r|].
    rewrite u64_add_u64_l, IH. f_equal. lia. }
  apply (H 0).
Qed.

Lemma counted_snoc i es e :
  counted i (es ++ [e]) = if decide (event_counter e = Some i) then S (counted i es) else counted i es.
Proof.
  unfold counted. rewrite filter_app, filter_cons, length_app.
  destruct (decide _); simpl; lia.
Qed.

Lemma counters_step ncpu es e s :
  (event_cpu e < ncpu)%nat ->
  counters_rel ncpu es s -> counters_rel ncpu (es ++ [e]) (run (handle e) s).2.
Proof.
  intros Hc [Hl Hr]. unfold counters_rel. rewrite handle_counters.
  destruct (event_counter e) as [i|] eqn:E.
  - split; [by rewrite length_alter|]. intros j per Hj. rewrite counted_snoc, E.
    destruct (decide (i = j)) as [<-|Hne].
    + rewrite decide_True by done. rewrite list_lookup_alter_eq in Hj.
      apply fmap_Some in Hj as (per0 & H0 & ->). by apply counts_inc; [|apply Hr].
    + rewrite decide_False by congruence. rewrite list_lookup_alter_ne in Hj by done. by apply Hr.
  - split; [done|]. intros j per Hj. rewrite counted_snoc, E, decide_False by done. by apply Hr.
Qed.

(** ** The maps *)

Lemma past_later n m t0 : (n <= m)%nat -> past n t0 -> past m t0.
Proof. intros Hn []. split; [done|]. pose proof (ktime_mono n m Hn). lia. Qed.

Lemma past_now n m : (n <= m)%nat -> past m (bpf_ktime_get_ns n).
Proof. intros Hn. pose proof (ktime_range n). pose proof (ktime_mono n m Hn). split; lia. Qed.

Lemma trace_step_now t e : (tr_now t <= tr_now (trace_step t e).1)%nat.
Proof.
  destruct t, e; cbn [trace_step]; unfold tr_push; repeat case_match; simpl; lia.
Qed.

Lemma trace_step_wf t e : trace_wf t -> trace_wf (trace_step t e).1.
Proof.
  intros [Hc Hw Hf]. pose proof (trace_step_now t e) as Hn.
  assert (map_Forall (fun _ => past (tr_now (trace_step t e).1)) (tr_calls t)) as Hc'
    by (eapply map_Forall_impl; [exact Hc|]; intros; by eapply past_later).
  assert (map_Forall (fun _ => past (tr_now (trace_step t e).1)) (tr_wakeups t)) as Hw'
    by (eapply map_Forall_impl; [exact Hw|]; intros; by eapply past_later).
  assert (forall t0, tr_frame t = Some t0 -> past (tr_now (trace_step t e).1) t0) as Hf'
    by (intros t0 H; by eapply past_later, Hf).
  clear Hc Hw Hf Hn. destruct t as [calls wakeups frame pending tl n].
  destruct e; cbn [trace_step] in *; unfold tr_push in *;
    repeat (case_match; cbn [fst snd tr_calls tr_wakeups tr_frame tr_now] in *);
    constructor; cbn [fst snd tr_calls tr_wakeups tr_frame tr_now] in *;
    try done; try (by apply map_Forall_delete);
    try (apply map_Forall_insert_2; [|done]); try (intros ? [= <-]); apply past_now; lia.
Qed.

(** Updates of a hash map follow those of its contents. *)
Lemma hash_get_other m k k' v : k <> k' -> bpf_hash_get (bpf_hash_update m k v) k' = bpf_hash_get m k'.
Proof.
  intros Hne. unfold bpf_hash_get. rewrite hash_update_other by done.
  destruct (bpf_hash_lookup m k') as [p|] eqn:E; cbn; [|done]. by rewrite (hash_update_entry _ _ k').
Qed.

Lemma hash_get_deleted m k : bpf_hash_get (bpf_hash_delete m k) k = None.
Proof. unfold bpf_hash_get. by rewrite hash_delete_same. Qed.

Lemma hash_get_kept m k k' : k <> k' -> bpf_hash_get (bpf_hash_delete m k) k' = bpf_hash_get m k'.
Proof.
  intros Hne. unfold bpf_hash_get. rewrite hash_delete_other by done.
  destruct (bpf_hash_lookup m k'); cbn; [|done]. by rewrite hash_delete_memory.
Qed.

Lemma hash_insert_rel m (g : gmap Z Z) k v :
  (forall k, bpf_hash_get m k = g !! k) -> (size g < MAX_ENTRIES)%nat ->
  forall k', bpf_hash_get (bpf_hash_update m k v) k' = <[k := v]> g !! k'.
Proof.
  intros Hm Hs k'. destruct (decide (k = k')) as [<-|Hne].
  - rewrite lookup_insert_eq. by eapply hash_update_same.
  - by rewrite lookup_insert_ne, hash_get_other.
Qed.

Lemma hash_delete_rel m (g : gmap Z Z) k :
  (forall k, bpf_hash_get m k = g !! k) ->
  forall k', bpf_hash_get (bpf_hash_delete m k) k' = delete k g !! k'.
Proof.
  intros Hm k'. destruct (decide (k = k')) as [<-|Hne].
  - by rewrite lookup_delete_eq, hash_get_deleted.
  - by rewrite lookup_delete_ne, hash_get_kept.
Qed.

(** The key is there exactly when its value is. *)
Ltac look Hc k :=
  let H := fresh "Hk" in
  pose proof (Hc k) as H; unfold bpf_hash_get in H;
  destruct (bpf_hash_lookup _ k) as [?p|]; cbn [fmap option_fmap option_map] in H; rewrite <- H.

Lemma maps_step t e s :
  (size (tr_calls t) < MAX_ENTRIES)%nat -> (size (tr_wakeups t) < MAX_ENTRIES)%nat ->
  trace_wf t -> maps_rel t s -> maps_rel (trace_step t e).1 (run (handle e) s).2.
Proof.
  intros Hcs Hws Hwf [Hc Hw Hf Hp Ht Hn]. destruct t as [calls wakeups frame pending tl n].
  cbn [tr_calls tr_wakeups tr_frame tr_pending tr_timeline tr_now] in *.
  destruct e; unfold_handlers; cbn [trace_step]; unfold tr_push; step_run.
  - destruct (comm_is_supervisor c); step_run; constructor; cbn; rewrite ?Hn; try done.
    by apply hash_insert_rel.
  - look Hc (tid c); step_run; constructor; cbn; rewrite ?Hn; try done. by apply hash_delete_rel.
  - constructor; cbn; rewrite ?Hn; try done. by apply hash_insert_rel.
  - look Hw next_pid; [destruct (comm_prefix_match next_comm)|];
      step_run; constructor; cbn; rewrite ?Hn; try done; by apply hash_delete_rel.
  - cbn. rewrite Hp. destruct pending; step_run; cbn; step_run; cbn; rewrite ?Ht, ?Hn, ?length_fmap;
      [destruct (bpf_ringbuf_reserve _ _)|]; constructor; cbn; rewrite ?Ht, ?Hn, ?fmap_app; done.
  - by constructor.
  - cbn. rewrite Hf. destruct frame as [t0|]; cbn.
    + destruct (wf_frame _ Hwf t0 eq_refl) as [H0 _].
      replace (t0 =? 0) with false by (symmetry; apply Z.eqb_neq; lia). step_run.
      constructor; cbn; rewrite ?Hn; done.
    + by constructor.
  - cbn. rewrite Ht, Hn, length_fmap. destruct (bpf_ringbuf_reserve _ _); constructor; cbn; rewrite ?Ht, ?Hn, ?fmap_app; done.
  - cbn. rewrite Ht, Hn, length_fmap. destruct (bpf_ringbuf_reserve _ _); constructor; cbn; rewrite ?Ht, ?Hn, ?fmap_app; done.
Qed.

(** ** The rows *)

Lemma elapsed n t0 :
  past n t0 -> is_u64 (bpf_ktime_get_ns n - t0) /\ u64 (bpf_ktime_get_ns n - t0) = bpf_ktime_get_ns n - t0.
Proof.
  intros [? ?]. pose proof (ktime_range n). assert (is_u64 (bpf_ktime_get_ns n - t0)) by (simpl; lia).
  split; [done|by apply u64_small].
Qed.

(** An event emits at most one sample, of a row, in range. *)
Lemma trace_step_samples t e :
  trace_wf t -> (trace_step t e).2 = [] \/
  exists m d, (trace_step t e).2 = [(m, d)] /\ (m < 5)%nat /\ is_u64 d.
Proof.
  intros [Hc Hw Hf]. destruct t as [calls wakeups frame pending tl n], e; cbn [trace_step];
    repeat case_match; try (by left); right; eexists _, _; (split; [reflexivity|]);
    (split; [unfold POLL_ROW, SCHED_ROW; try destruct k; cbn; lia|]); apply elapsed;
    (by eapply Hc) || (by eapply Hw) || (by apply Hf).
Qed.

Definition record_sample (c : nat) (l : list (nat * Z)) (m : nat) (hs : list hist) : list hist :=
  match l with
  | [(m', d)] => if decide (m = m') then record_on c d hs else hs
  | _ => hs
  end.

Lemma row_hists_syscall s m : (m < 3)%nat -> row_hists s m = default [] (syscall_lat s !! m).
Proof.
  intros Hm. unfold row_hists, POLL_ROW, SCHED_ROW. by rewrite !decide_False by lia.
Qed.

Lemma row_hists_alter s s' m m' f :
  length (syscall_lat s) = 3%nat -> (m' < 3)%nat ->
  syscall_lat s' = alter f m' (syscall_lat s) -> poll_lat s' = poll_lat s -> sched_lat s' = sched_lat s ->
  row_hists s' m = if decide (m = m') then f (row_hists s m) else row_hists s m.
Proof.
  intros Hl Hm' Hs Hp Hd. unfold row_hists, POLL_ROW, SCHED_ROW. rewrite Hp, Hd, Hs.
  destruct (decide (m = m')) as [->|Hne].
  - rewrite !(decide_False (P := m' = _)) by lia. rewrite list_lookup_alter_eq.
    destruct (lookup_lt_is_Some_2 (syscall_lat s) m') as [x ->]; [lia|done].
  - by rewrite list_lookup_alter_ne by done.
Qed.

Lemma handle_rows t e s m :
  trace_wf t -> maps_rel t s -> length (syscall_lat s) = 3%nat -> (m < 5)%nat ->
  length (syscall_lat (run (handle e) s).2) = 3%nat /\
  row_hists (run (handle e) s).2 m =
  record_sample (event_cpu e) (trace_step t e).2 m (row_hists s m).
Proof.
  intros [Wc Ww Wf] [Hc Hw Hf Hp Ht Hn] Hl Hm. destruct t as [calls wakeups frame pending tl n].
  cbn [tr_calls tr_wakeups tr_frame tr_pending tr_timeline tr_now] in *.
  destruct e; unfold_handlers; cbn [trace_step event_cpu]; unfold tr_push; step_run.
  - destruct (comm_is_supervisor c); step_run; done.
  - look Hc (tid c); step_run; [|done].
    cbn. rewrite Hn, (proj2 (elapsed n _ (Wc _ _ (eq_sym Hk)))). split; [by rewrite length_alter|].
    apply row_hists_alter; [done|by destruct k; cbn; lia|done..].
  - done.
  - look Hw next_pid; [|by step_run].
    destruct (comm_prefix_match next_comm); step_run; [|done]. split; [done|].
    cbn. rewrite Hn, (proj2 (elapsed n _ (Ww _ _ (eq_sym Hk)))).
    do 5 (destruct m as [|m]; [done|]). lia.
  - cbn. rewrite Hp. destruct pending; step_run; cbn; step_run; [|done]. by destruct (bpf_ringbuf_reserve _ _).
  - done.
  - cbn. rewrite Hf. destruct frame as [t0|]; cbn; [|done].
    destruct (Wf t0 eq_refl) as [H0 H1].
    replace (t0 =? 0) with false by (symmetry; apply Z.eqb_neq; lia). step_run. split; [done|].
    cbn in Hf |- *. rewrite Hn, Hf, (proj2 (elapsed n t0 (conj H0 H1))).
    do 5 (destruct m as [|m]; [done|]). lia.
  - cbn. by destruct (bpf_ringbuf_reserve _ _).
  - cbn. by destruct (bpf_ringbuf_reserve _ _).
Qed.

Lemma row_samples_app m l k : row_samples m (l ++ k) = row_samples m l ++ row_samples m k.
Proof. unfold row_samples. by rewrite filter_app, fmap_app. Qed.

Lemma length_row_samples m l : (length (row_samples m l) <= length l)%nat.
Proof. unfold row_samples. rewrite length_fmap. apply length_filter. Qed.

Lemma rows_step ncpu t e samples s :
  (event_cpu e < ncpu)%nat -> Z.of_nat (length samples) + 1 < 2 ^ 64 ->
  trace_wf t -> maps_rel t s -> rows_rel ncpu samples s ->
  rows_rel ncpu (samples ++ (trace_step t e).2) (run (handle e) s).2.
Proof.
  intros Hcpu Hlen Hwf Hm [Hl Hr]. constructor; [by apply (handle_rows t e s 0); [..|lia]|].
  intros m Hm5. destruct (handle_rows t e s m Hwf Hm Hl Hm5) as [_ ->].
  destruct (Hr m Hm5) as [Hn Hp]. rewrite row_samples_app.
  destruct (trace_step_samples t e Hwf) as [->|(m' & d & -> & _ & Hd)]; cbn [record_sample].
  - unfold row_samples at 2. simpl. by rewrite app_nil_r.
  - unfold row_samples at 2. rewrite filter_cons. cbn [fst]. destruct (decide (m = m')) as [->|Hne].
    + rewrite decide_True by done. split; [unfold record_on; by rewrite length_alter|].
      apply percpu_record; [lia|done| |done]. pose proof (length_row_samples m' samples). lia.
    + rewrite decide_False by congruence. simpl. by rewrite app_nil_r.
Qed.

(** ** The simulation *)

Record trace_rel (ncpu : nat) (es : list bpf_event) (t : trace_state) (samples : list (nat * Z))
    (s : bpf B) : Prop := {
  rel_maps : maps_rel t s;
  rel_wf : trace_wf t;
  rel_hists : rows_rel ncpu samples s;
  rel_counts : counters_rel ncpu es s;
  rel_length : (length samples <= length es)%nat;
}.

Lemma trace_rel_zero ncpu : trace_rel ncpu [] trace_zero [] (bpf_zero ncpu).
Proof.
  constructor; try done.
  - constructor; try done; intros k; cbn; unfold bpf_hash_get; by rewrite hash_empty.
  - constructor; [done|]. intros m Hm.
    assert (row_hists (bpf_zero ncpu) m = replicate ncpu hist_zero) as ->
      by (do 5 (destruct m as [|m]; [done|]); lia).
    split; [by rewrite length_replicate|apply percpu_of_nil].
  - split; [done|]. intros i per Hi. cbn [tp_counters bpf_zero] in Hi.
    apply lookup_replicate in Hi as [-> _]. split; [by rewrite length_replicate|].
    replace (foldr Z.add 0 (replicate ncpu 0)) with 0 by (induction ncpu; simpl; lia). done.
Qed.

Lemma trace_rel_step ncpu es e t samples s :
  (event_cpu e < ncpu)%nat -> Z.of_nat (length es) + 1 < 2 ^ 64 ->
  (size (tr_calls t) < MAX_ENTRIES)%nat -> (size (tr_wakeups t) < MAX_ENTRIES)%nat ->
  trace_rel ncpu es t samples s ->
  trace_rel ncpu (es ++ [e]) (trace_step t e).1 (samples ++ (trace_step t e).2)
    (run (handle e) s).2.
Proof.
  intros Hcpu Hlen Hc Hw []. constructor.
  - by apply maps_step.
  - by apply trace_step_wf.
  - apply rows_step; [done|lia|done..].
  - by apply counters_step.
  - rewrite !length_app. simpl.
    destruct (trace_step_samples t e) as [->|(m & d & -> & _)]; [done| |]; simpl; lia.
Qed.

Lemma trace_sim ncpu es es' t samples s :
  Forall (fun e => (event_cpu e < ncpu)%nat) es' -> Z.of_nat (length (es ++ es')) < 2 ^ 64 ->
  trace_fits t es' -> trace_rel ncpu es t samples s ->
  trace_rel ncpu (es ++ es') (trace_run t es').1 (samples ++ (trace_run t es').2)
    (handle_all es' s).
Proof.
  revert es t samples s. induction es' as [|e es' IH]; intros es t samples s Hcpu Hlen Hfit Hrel.
  - cbn. by rewrite !app_nil_r.
  - apply Forall_cons in Hcpu as [He Hcpu]. destruct Hfit as (Hc & Hw & Hfit).
    rewrite length_app in Hlen. cbn [length] in Hlen.
    cbn [trace_run fst snd]. rewrite (cons_middle e es es'), !app_assoc. apply IH; [done| |done|].
    + rewrite !length_app. simpl. lia.
    + apply trace_rel_step; [done|lia|done..].
Qed.

(** What the report says of a related state. *)
Lemma report_row ncpu es t samples s m out :
  Z.of_nat (length es) < 2 ^ 64 -> (m < 5)%nat -> trace_rel ncpu es t samples s ->
  summarises (row_samples m samples) (sum_percpu_hist (Some (Some (row_hists s m))) out).2.
Proof.
  intros Hlen Hm [_ _ Hr _ Hl]. apply sum_percpu_hist_exact; [by apply Hr|].
  pose proof (length_row_samples m samples). lia.
Qed.

Lemma report_rows_lookup rows s row m :
  length (syscall_lat s) = 3%nat -> (length rows = 5)%nat -> rows !! m = Some row ->
  exists name, report_rows rows s !! m =
               Some (collect_metric row name (Some (Some (row_hists s m)))).
Proof.
  intros Hl Hr Hm. assert (m < 5)%nat by (rewrite <- Hr; by eapply lookup_lt_Some).
  unfold report_rows. rewrite lookup_zip_with, Hm.
  assert (forall k, (k < 3)%nat -> Some (syscall_lat s !! k) = Some (Some (default [] (syscall_lat s !! k)))) as Hk.
  { intros k Hk. destruct (lookup_lt_is_Some_2 (syscall_lat s) k) as [x ->]; [lia|done]. }
  cbn [kind_index]. rewrite !Hk by lia.
  do 5 (destruct m as [|m]; [eexists; reflexivity|]). lia.
Qed.

Lemma report_counters_lookup ncpu es s i :
  counters_rel ncpu es s -> (i < CNT_MAX)%nat ->
  report_counters s !! i = Some (u64 (Z.of_nat (counted i es))).
Proof.
  intros [Hl Hc] Hi. unfold report_counters. rewrite list_lookup_fmap, lookup_seq_lt by done.
  cbn [fmap option_fmap option_map]. destruct (lookup_lt_is_Some_2 (tp_counters s) i) as [per Hp]; [lia|].
  rewrite Nat.add_0_l, Hp. f_equal. apply (counts_sum ncpu). by apply Hc.
Qed.

End Spec.
