(* ===== verification/EbpfCycles.v ===== *)
(** * Percentiles and fault cycles against their definitions

    [hist_percentile_ns] against the samples of a summarised histogram, and the
    event scan of [write_fault_timeline] against the windows between timeouts. *)

From S2P Require Import Prelude Ebpf EbpfReport EbpfHist.

(** ** Ranks *)

(** Samples below [b]. *)
Definition below (l : list Z) (b : Z) : Z := Z.of_nat (length (filter (fun x => x < b) l)).

Lemma below_all l : Forall is_u64 l -> below l (2 ^ 64) = Z.of_nat (length l).
Proof.
  intros HF. unfold below. f_equal. induction HF as [|x l [_ Hx] HF IH]; [done|].
  rewrite filter_cons, decide_True by done. cbn [length]. by rewrite IH.
Qed.

Lemma log2_bucket x s : 0 <= x -> 0 < s -> Z.log2 x = s <-> 2 ^ s <= x < 2 ^ (s + 1).
Proof.
  intros Hx Hs. split.
  - intros <-. destruct (decide (x = 0)) as [->|]; [done|]. apply Z.log2_spec. lia.
  - intros [H1 H2]. apply Z.log2_unique; [lia|]. split; [done|by rewrite <- Z.add_1_r].
Qed.

Lemma below_bucket l s :
  Forall is_u64 l -> 0 <= s ->
  below l (2 ^ (s + 1)) = (if decide (s = 0) then 0 else below l (2 ^ s)) + in_bucket l s.
Proof.
  intros HF Hs. unfold below, in_bucket. induction HF as [|x l [Hx _] HF IH]; [by case_decide|].
  rewrite !filter_cons.
  assert (x < 2 ^ (s + 1) <-> (s <> 0 /\ x < 2 ^ s) \/ Z.log2 x = s) as Hiff.
  { destruct (decide (s = 0)) as [->|].
    - change (2 ^ (0 + 1)) with 2. split; [|intros [[? _]|H]; [done|]].
      + intros H. right. assert (x = 0 \/ x = 1) as [->| ->] by lia; done.
      + pose proof (Z.log2_null x). lia.
    - rewrite log2_bucket by lia. assert (2 ^ s < 2 ^ (s + 1)) by (apply Z.pow_lt_mono_r; lia). lia. }
  assert (~ ((s <> 0 /\ x < 2 ^ s) /\ Z.log2 x = s)) as Hex.
  { intros [[? ?] ?%log2_bucket]; lia. }
  repeat (case_decide; cbn [length] in *; try lia).
Qed.

(** The rank a percentile asks for. *)
Definition rank (h : hist) (pct : Z) : Z :=
  let t := percentile_target pct (count h) in if t =? 0 then 1 else t.

(** The bound of bucket [s]; there is none for the last one. *)
Definition bucket_bound (s : Z) : option Z :=
  if s =? 0 then Some 1 else if s =? 63 then None else Some (2 ^ (s + 1)).

Lemma bucket_bound_shl s : 0 <= s < 64 -> (if s =? 0 then Some 1 else shl_1ull (s + 1)) = bucket_bound s.
Proof.
  intros Hs. unfold bucket_bound, shl_1ull. destruct (s =? 0); [done|].
  destruct (Z.eqb_spec s 63); destruct (Z.ltb_spec (s + 1) 64); (done || lia).
Qed.

Lemma percentile_loop_spec l n s target mx :
  Forall is_u64 l -> Z.of_nat (length l) < 2 ^ 64 -> (s + n = 64)%nat ->
  let cum := if decide (s = 0%nat) then 0 else below l (2 ^ Z.of_nat s) in
  cum < target ->
  let r := percentile_loop ((fun s => in_bucket l (Z.of_nat s)) <$> seq s n) (Z.of_nat s) cum target mx in
  (Z.of_nat (length l) < target /\ r = Some mx) \/
  exists k, 0 <= k < 64 /\ (k = 0 \/ below l (2 ^ k) < target) /\
            target <= below l (2 ^ (k + 1)) /\ r = bucket_bound k.
Proof.
  intros HF Hlen. revert s. induction n as [|n IH]; intros s Hs cum Hcum r.
  - left. assert (s = 64%nat) as -> by lia. unfold cum in Hcum. rewrite decide_False in Hcum by lia.
    change (Z.of_nat 64) with 64 in Hcum. rewrite below_all in Hcum by done. done.
  - unfold r. cbn [seq fmap list_fmap percentile_loop].
    assert (u64 (cum + in_bucket l (Z.of_nat s)) = below l (2 ^ Z.of_nat (S s))) as Hc.
    { rewrite Nat2Z.inj_succ, <- Z.add_1_r, below_bucket by (done || lia).
      replace (if decide (Z.of_nat s = 0) then _ else _) with cum
        by (unfold cum; repeat case_decide; (done || lia)).
      apply u64_small. pose proof (in_bucket_le l (Z.of_nat s)).
      pose proof (below_bucket l (Z.of_nat s) HF ltac:(lia)) as Hb.
      replace (if decide (Z.of_nat s = 0) then _ else _) with cum in Hb
        by (unfold cum; repeat case_decide; (done || lia)).
      rewrite <- Hb. unfold below. pose proof (length_filter (fun x => x < 2 ^ (Z.of_nat s + 1)) l).
      simpl in *. lia. }
    rewrite Hc, Z.geb_leb. destruct (Z.leb_spec target (below l (2 ^ Z.of_nat (S s)))).
    + right. exists (Z.of_nat s). split; [lia|]. split; [|split].
      * unfold cum in Hcum. case_decide; [left; lia|by right].
      * by rewrite Z.add_1_r, <- Nat2Z.inj_succ.
      * rewrite bucket_bound_shl by lia. done.
    + specialize (IH (S s) ltac:(lia)). rewrite decide_False in IH by lia.
      replace (Z.of_nat s + 1) with (Z.of_nat (S s)) by lia. apply IH. lia.
Qed.

(** ** Fault cycles *)

(** The events up to the next timeout. *)
Fixpoint window (evs : list timeline_event) : list timeline_event :=
  match evs with
  | [] => []
  | e :: evs => if decide (kind e = TL_TIMEOUT) then [] else e :: window evs
  end.

(** The first event of a kind, with what follows it. *)
Fixpoint first_of (k : timeline_kind) (evs : list timeline_event) :
    option (timeline_event * list timeline_event) :=
  match evs with
  | [] => None
  | e :: evs => if decide (kind e = k) then Some (e, evs) else first_of k evs
  end.

(** The cycle of a timeout followed by [w]: the first recovery, and the first
    restored heartbeat after it. *)
Definition cycle_of (e : timeline_event) (w : list timeline_event) : fault_cycle :=
  match first_of TL_RECOVERY w with
  | None => mkCycle (ts e) 0 0
  | Some (r, w') =>
      mkCycle (ts e) (ts r)
        (match first_of TL_HEARTBEAT_RESTORED w' with Some (h, _) => ts h | None => 0 end)
  end.

(** One cycle per timeout, in order. *)
Fixpoint cycles (evs : list timeline_event) : list fault_cycle :=
  match evs with
  | [] => []
  | e :: evs =>
      (if decide (kind e = TL_TIMEOUT) then [cycle_of e (window evs)] else []) ++ cycles evs
  end.

Definition stamped (evs : list timeline_event) : Prop := Forall (fun e => ts e <> 0) evs.

Lemma cycles_scan evs rec res : cycles (cycle_scan evs rec res).2 = cycles evs.
Proof.
  revert rec res. induction evs as [|e evs IH]; intros rec res; [done|]. cbn [cycle_scan].
  case_bool_decide as Ht; [done|].
  repeat case_match; try done; rewrite IH; cbn [cycles]; by rewrite decide_False.
Qed.

Lemma scan_length evs rec res : (length (cycle_scan evs rec res).2 <= length evs)%nat.
Proof.
  revert rec res. induction evs as [|e evs IH]; intros rec res; [done|]. cbn [cycle_scan].
  repeat case_match; cbn [snd length]; try lia; etransitivity; try apply IH; lia.
Qed.

(** The second phase of the scan: a recovery was seen. *)
Lemma scan_restored evs rec :
  rec <> 0 -> stamped evs ->
  (cycle_scan evs rec 0).1 =
  (rec, match first_of TL_HEARTBEAT_RESTORED (window evs) with Some (h, _) => ts h | None => 0 end).
Proof.
  intros Hrec. induction evs as [|e evs IH]; intros HF; [done|]. apply Forall_cons in HF as [He HF].
  cbn [cycle_scan window]. replace (rec =? 0) with false by (symmetry; by apply Z.eqb_neq).
  destruct (decide (kind e = TL_TIMEOUT)) as [Ht|Ht].
  - by rewrite bool_decide_true.
  - rewrite bool_decide_false by done. cbn [andb negb first_of].
    destruct (decide (kind e = TL_HEARTBEAT_RESTORED)).
    + by rewrite bool_decide_true.
    + rewrite bool_decide_false by done. by apply IH.
Qed.

Lemma scan_cycle e evs :
  stamped evs ->
  mkCycle (ts e) (cycle_scan evs 0 0).1.1 (cycle_scan evs 0 0).1.2 = cycle_of e (window evs).
Proof.
  unfold cycle_of. induction evs as [|f evs IH]; intros HF; [done|].
  apply Forall_cons in HF as [Hf HF]. cbn [cycle_scan window].
  destruct (decide (kind f = TL_TIMEOUT)) as [Ht|Ht]; [by rewrite bool_decide_true|].
  rewrite bool_decide_false by done. cbn [Z.eqb andb negb first_of].
  destruct (decide (kind f = TL_RECOVERY)).
  - rewrite bool_decide_true by done. by rewrite scan_restored.
  - rewrite bool_decide_false by done. by apply IH.
Qed.

Lemma stamped_scan evs rec res : stamped evs -> stamped (cycle_scan evs rec res).2.
Proof.
  intros HF. revert rec res. induction HF as [|e evs He HF IH]; intros rec res; [constructor|].
  cbn [cycle_scan]. repeat case_match; cbn [snd]; try (by constructor); apply IH.
Qed.

Lemma fault_cycles_enough fuel evs :
  (length evs <= fuel)%nat -> stamped evs -> fault_cycles fuel evs = cycles evs.
Proof.
  revert evs. induction fuel as [|fuel IH]; intros [|e evs] Hlen HF; cbn [length] in Hlen;
    try (done || lia).
  apply Forall_cons in HF as [He HF]. cbn [fault_cycles cycles].
  destruct (decide (kind e = TL_TIMEOUT)) as [Ht|Ht].
  - rewrite bool_decide_true by done. cbn [negb]. rewrite <- scan_cycle by done.
    rewrite <- (cycles_scan evs 0 0). pose proof (scan_length evs 0 0).
    pose proof (stamped_scan evs 0 0 HF).
    destruct (cycle_scan evs 0 0) as [[rec res] later]. cbn [fst snd] in *. cbn [app].
    by rewrite IH by (done || lia).
  - rewrite bool_decide_false by done. cbn [negb app]. apply IH; [lia|done].
Qed.
