(* ===== verification/EbpfProps.v ===== *)
(** * Properties of the eBPF tracer

    The theorems of the tracer, a concrete kernel ([SimBpf]) and the witnesses. *)

From stdpp Require Import gmap.
From S2P Require Import Prelude Protocol KernelApi Device Kfifo Watchdog DriverInv DriverSpec DriverSim.
From S2P Require Import Ebpf EbpfReport EbpfHist EbpfSpec EbpfCycles.

(** ** A concrete kernel *)

Module Sim.

(** The keys that are there, and the memory of their entries, one for each key. *)
Definition sim_hash : Type := gset Z * gmap Z Z.

Definition sim_deref (m : sim_hash) (p : Z) : Z := default 0 (m.2 !! p).

Definition sim_update (m : sim_hash) (k v : Z) : sim_hash :=
  if decide (k ∈ m.1 \/ (size m.1 < MAX_ENTRIES)%nat) then ({[k]} ∪ m.1, <[k := v]> m.2) else m.

Definition sim_clock (n : nat) : Z := Z.min (1000 * (Z.of_nat n + 1)) (2 ^ 64 - 1).

(** Maps of 10240 entries, the clock read before the value, a clock that advances by a microsecond per reading,
    a ring buffer that holds 8192 events. *)
Definition SimBpf : BpfApi := {|
  bpf_ktime_get_ns := sim_clock;
  bpf_value_first := false;
  bpf_hash := sim_hash;
  bpf_ptr := Z;
  bpf_hash_empty := (∅, ∅);
  bpf_hash_lookup m k := if decide (k ∈ m.1) then Some k else None;
  bpf_deref := sim_deref;
  bpf_hash_update := sim_update;
  bpf_hash_delete m k := (m.1 ∖ {[k]}, m.2);
  bpf_ringbuf_reserve _ n := Z.of_nat n <? 8192;
|}.

Lemma sim_update_get m k v :
  k ∈ m.1 \/ (size m.1 < MAX_ENTRIES)%nat -> bpf_hash_get (B := SimBpf) (sim_update m k v) k = Some v.
Proof.
  intros H. unfold bpf_hash_get, sim_update. cbn. rewrite (decide_True _ _ H). cbn.
  rewrite decide_True by set_solver. cbn. unfold sim_deref. cbn. by rewrite lookup_insert_eq.
Qed.

Lemma sim_room (m : sim_hash) (g : gmap Z Z) :
  (forall k, bpf_hash_get (B := SimBpf) m k = g !! k) -> (size g < MAX_ENTRIES)%nat -> (size m.1 < MAX_ENTRIES)%nat.
Proof.
  intros Hg Hs. assert (m.1 = dom g) as ->; [|by rewrite size_dom].
  apply set_eq. intros k. rewrite elem_of_dom, <- Hg. unfold bpf_hash_get. cbn.
  case_decide; cbn; unfold is_Some; naive_solver.
Qed.

#[global] Instance simbpf_ok : BpfOk SimBpf.
Proof.
  constructor.
  - intros n. cbn. unfold sim_clock. lia.
  - intros n m H. cbn. unfold sim_clock. lia.
  - done.
  - intros m k v g Hg Hs. apply sim_update_get. right. by apply (sim_room m g).
  - intros m k v. destruct (decide (k ∈ m.1 \/ (size m.1 < MAX_ENTRIES)%nat)) as [H|H].
    + left. by apply sim_update_get.
    + right. cbn. unfold sim_update. by rewrite decide_False.
  - intros m k k' v Hk. cbn. unfold sim_update.
    destruct (decide (k ∈ m.1 \/ _)); [|done]. cbn.
    destruct (decide (k' ∈ m.1)); [rewrite decide_True|rewrite decide_False]; set_solver.
  - intros m k k' v p Hk. cbn. case_decide; [|done]. intros [= <-]. unfold sim_update, sim_deref.
    case_decide; [cbn|done]. by rewrite lookup_insert_ne.
  - intros m k v p. cbn. unfold sim_update, sim_deref. case_decide; [cbn|by right].
    destruct (decide (k = p)) as [->|]; [left; by rewrite lookup_insert_eq|right; by rewrite lookup_insert_ne].
  - intros m k. cbn. by rewrite decide_False by set_solver.
  - intros m k k' Hk. cbn. destruct (decide (k' ∈ m.1)); [rewrite decide_True|rewrite decide_False]; set_solver.
  - done.
Qed.

End Sim.

(** ** Driver and tracer together *)

(** The tracepoint an event of the driver's log fires. *)
Definition tracepoint (c : bpf_ctx) (e : kevent) : option bpf_event :=
  match e with
  | safety_frame_received seq _ _ => Some (EvFrame c seq)
  | safety_frame_dropped _ _ => Some (EvDropped c)
  | safety_timeout_detected _ cnt => Some (EvTimeout c cnt)
  | safety_recovery_queued cnt => Some (EvRecovery c cnt)
  | safety_poll_wakeup _ => Some (EvPoll c)
  | wake_up_rx_wq | wake_up_tx_wq => None
  end.

Section Together.
Context {K : KernelApi safety_fifo_slot} {KO : KernelOk K}.

Lemma recovery_work_log (w : world K) :
  is_u16 (synth_seq (w_dev w)) -> kfifo_is_full (rx_fifo (w_dev w)) = false ->
  exists qlen,
    w_log (run recovery_work_fn w).2 = w_log w ++
      [safety_recovery_queued (u32 (retry_count (w_dev w) + 1));
       safety_frame_received (synth_seq (w_dev w)) SAFETY_FRAME_RECOVERY_REPORT qlen;
       wake_up_rx_wq] /\
    heartbeat_count (w_dev (run recovery_work_fn w).2) = heartbeat_count (w_dev w).
Proof.
  intros Hseq Hroom. unfold recovery_work_fn. rewrite run_bind, run_atomic.
  set (w0 := (dev_set _ w).2). cbn [fst snd].
  destruct (recovery_locked_spec w0) as (w1 & Hl & (? & ? & ? & ? & ? & HB) & HL).
  rewrite run_bind, run_atomic, Hl. cbn [fst snd]. rewrite run_bind, run_atomic. cbn [fst snd].
  set (w2 := (trace _ w1).2).
  rewrite run_bind. unfold safety_synth_recovery_report.
  destruct (now_ms_run w2) as (now & _ & Hnow). rewrite run_bind, Hnow. cbn [fst snd].
  set (p := recovery_report_bytes _).
  assert (w_dev w2 = w_dev w1) as E2 by done.
  destruct (synth_room SAFETY_FRAME_RECOVERY_REPORT p SAFETY_TL_RECOVERY (w2 <| w_now ::= S |>))
    as (ts & q & w3 & _ & Hr & _ & (? & ? & ? & ? & ? & HB3) & HL3).
  - unfold SAFETY_FRAME_RECOVERY_REPORT; cbn; lia.
  - apply recovery_report_bytes_ok.
  - change (length p) with 8%nat. lia.
  - cbn. rewrite HB. exact Hseq.
  - cbn. rewrite HB. exact Hroom.
  - change (Z.of_nat (length p)) with 8 in Hr. rewrite Hr. cbn [fst snd].
    exists (kfifo_len q). rewrite run_ret. cbn [snd]. rewrite HL3, HB3.
    cbn. rewrite HB, HL. cbn. by rewrite <- app_assoc.
Qed.

End Together.

(** ** The claims *)

Module Props.

Section Props.
Context {B : BpfApi} {BO : BpfOk B}.

(** C19. The latency report is exact when handlers do not overlap (for handlers
    that do see [overlapping_handlers]): whatever system calls, wakeups, context
    switches and driver tracepoints the tracer handles, one after the other, on
    whatever CPUs, as long as fewer than 10240 calls and fewer than 10240 wakeups
    are open at any time ([trace_fits]), the five reported histograms summarise
    (count, sum, minimum, maximum, buckets) exactly the latencies of the paired
    events, the five counters count their tracepoints, and the ring buffer holds
    the timeline of the abstract trace. *)
Theorem latency_report_exact ncpu (es : list bpf_event) (rows : list metric_row) :
  Forall (fun e => (event_cpu e < ncpu)%nat) es -> Z.of_nat (length es) < 2 ^ 64 ->
  trace_fits trace_zero es -> (length rows = 5)%nat ->
  let s := handle_all es (bpf_zero ncpu) in
  let spec := trace_run trace_zero es in
  (forall m row, report_rows rows s !! m = Some row ->
     summarises (row_samples m spec.2) (EbpfReport.h row)) /\
  report_counters s = (fun i => u64 (Z.of_nat (counted i es))) <$> seq 0 CNT_MAX /\
  timeline_rb s = Some <$> tr_timeline spec.1.
Proof.
  intros Hcpu Hlen Hfit Hrows s spec.
  pose proof (trace_sim ncpu [] es trace_zero [] _ Hcpu Hlen Hfit (trace_rel_zero ncpu)) as Hrel.
  cbn [app] in Hrel. fold spec s in Hrel. split; [|split].
  - intros m row Hm.
    destruct (lookup_lt_is_Some_2 rows m) as [row0 H0].
    { apply lookup_lt_Some in Hm. unfold report_rows in Hm. rewrite length_zip_with in Hm. lia. }
    destruct (report_rows_lookup rows s row0 m) as [name H1]; [apply Hrel|done|done|].
    rewrite H1 in Hm. injection Hm as <-. cbn [EbpfReport.h collect_metric].
    eapply report_row; [exact Hlen| |exact Hrel]. rewrite <- Hrows. by eapply lookup_lt_Some.
  - apply list_eq. intros i. rewrite list_lookup_fmap. destruct (decide (i < CNT_MAX)%nat).
    + rewrite lookup_seq_lt by done. apply (report_counters_lookup ncpu); [apply Hrel|done].
    + unfold report_counters. by rewrite list_lookup_fmap, lookup_seq_ge by lia.
  - apply Hrel.
Qed.

Lemma u64_of_double_nonneg x : 0 <= u64_of_double x.
Proof.
  destruct x as [| | |[] m e]; cbn; try lia. destruct (e <? 0) eqn:E.
  - apply Z.div_pos; [lia|]. apply Z.pow_pos_nonneg; lia.
  - apply Z.ltb_ge in E. apply Z.mul_nonneg_nonneg; [lia|]. by apply Z.pow_nonneg.
Qed.

(** C21. Percentiles: for a histogram that summarises the samples [l], the
    reported percentile is the upper bound of the bucket that holds the sample
    of the requested rank - 1 for the first bucket, 2^(k+1) for bucket k, and
    undefined for bucket 63, whose bound does not fit the shift - and the
    maximum if the rank exceeds the number of samples. *)
Theorem percentile_bound l h pct :
  summarises l h -> Z.of_nat (length l) < 2 ^ 64 ->
  (l = [] -> hist_percentile_ns h pct = Some 0) /\
  (l <> [] ->
   (Z.of_nat (length l) < rank h pct /\ hist_percentile_ns h pct = Some (max h)) \/
   exists k, 0 <= k < 64 /\ (k = 0 \/ below l (2 ^ k) < rank h pct) /\
             rank h pct <= below l (2 ^ (k + 1)) /\
             hist_percentile_ns h pct = bucket_bound k).
Proof.
  intros Hs Hlen. pose proof (summarises_count_0 l h Hs) as H0. unfold hist_percentile_ns. split.
  - intros Hl. by rewrite (proj2 H0 Hl).
  - intros Hne. destruct (Z.eqb_spec (count h) 0) as [E|E]; [by apply H0 in E|].
    fold (rank h pct). rewrite (sum_slots _ _ Hs).
    apply (percentile_loop_spec l 64 0 (rank h pct) (max h)); [apply Hs|done|done|].
    rewrite decide_True by done. unfold rank.
    pose proof (u64_of_double_nonneg
      (double_add (double_mul (double_div (double_of_Z pct) (double_of_Z 100)) (double_of_Z (count h)))
         (double_div (double_of_Z 1) (double_of_Z 2)))) as Hp.
    fold (percentile_target pct (count h)) in Hp.
    destruct (Z.eqb_spec (percentile_target pct (count h)) 0); lia.
Qed.

(** C20. Fault cycles: on events with nonzero time stamps the report has one
    cycle per timeout, in order, with the first recovery before the next timeout
    and the first restored heartbeat after that recovery; the scan ends within
    as many rounds as there are events. *)
Theorem fault_cycles_windows (evs : list timeline_event) (fuel : nat) :
  stamped evs -> (length evs <= fuel)%nat -> fault_cycles fuel evs = cycles evs.
Proof. intros HF Hlen. by apply fault_cycles_enough. Qed.

Context {K : KernelApi safety_fifo_slot} {KO : KernelOk K}.

(** A heartbeat restored that never came: the recovery work of the driver
    itself fires safety_frame_received right after safety_recovery_queued, for
    the report it synthesizes, so with room in the queue and in the ring buffer
    the tracer records HEARTBEAT_RESTORED at once, although no heartbeat has
    arrived and the link is still recovering. *)
Theorem restored_without_heartbeat (w : world K) (c : bpf_ctx) (s : bpf B) :
  is_u16 (synth_seq (w_dev w)) -> kfifo_is_full (rx_fifo (w_dev w)) = false ->
  let w' := (run recovery_work_fn w).2 in
  let fired := omap (tracepoint c) (drop (length (w_log w)) (w_log w')) in
  let rec := mkTlEvent (bpf_ktime_get_ns (bpf_now s)) TL_RECOVERY
               (u32 (retry_count (w_dev w) + 1)) in
  let res := mkTlEvent (bpf_ktime_get_ns (S (bpf_now s))) TL_HEARTBEAT_RESTORED
               (synth_seq (w_dev w)) in
  bpf_ringbuf_reserve (bpf_now s) (length (timeline_rb s)) = true ->
  bpf_ringbuf_reserve (S (S (bpf_now s))) (S (length (timeline_rb s))) = true ->
  timeline_rb (handle_all fired s) = timeline_rb s ++ [Some rec; Some res] /\
  recovery_pending (handle_all fired s) = 0 /\
  heartbeat_count (w_dev w') = heartbeat_count (w_dev w).
Proof.
  intros Hseq Hroom w' fired rec res H1 H2.
  destruct (recovery_work_log w Hseq Hroom) as (qlen & Hlog & Hhb).
  fold w' in Hlog, Hhb. unfold fired. rewrite Hlog, drop_app_length.
  cbn [omap list_omap tracepoint handle_all foldl handle].
  unfold handle_safety_recovery_queued, handle_safety_frame_received, counter_inc, bpf_get, bpf_set, ktime.
  step_run. rewrite run_push_now. cbn -[app run length mbind]. rewrite H1. step_run. cbn -[app run length mbind]. step_run.
  rewrite run_push. cbn -[app run length]. rewrite length_app, Nat.add_comm. cbn [length Nat.add]. rewrite H2.
  split; [|by split]. cbn -[app]. by rewrite <- app_assoc.
Qed.

End Props.

(** ** Witnesses *)

Import Sim.

Definition sup (c : nat) (t : Z) : bpf_ctx := mkCtx c t (Some (COMM_PREFIX ++ [115; 0])).

(** A read, a wakeup, a frame and a poll, on two CPUs. *)
Definition demo : list bpf_event :=
  [EvEnter (sup 0 77); EvWakeup 78; EvFrame (sup 1 0) 4; EvPoll (sup 0 77);
   EvSwitch (sup 1 0) 78 (COMM_PREFIX ++ [115; 0]); EvExit (sup 1 77) SC_READ].

Lemma demo_fits : trace_fits (B := SimBpf) trace_zero demo.
Proof.
  repeat (split; [apply Nat.ltb_lt; vm_compute; reflexivity|
                  split; [apply Nat.ltb_lt; vm_compute; reflexivity|]]).
  exact I.
Qed.

Lemma latency_report_exact_witness :
  let row := mkRow "" "" hist_zero in
  let s := handle_all (B := SimBpf) demo (bpf_zero 2) in
  (forall r, report_rows (replicate 5 row) s !! 0%nat = Some r -> summarises [5000] (EbpfReport.h r)) /\
  report_counters s = [1; 0; 0; 0; 1].
Proof.
  destruct (latency_report_exact (B := SimBpf) 2 demo (replicate 5 (mkRow "" "" hist_zero)))
    as (Hr & Hc & _); [repeat constructor|done|exact demo_fits|done|].
  split; [exact (Hr 0%nat)|]. rewrite Hc. by vm_compute.
Defined.

Definition three_samples : hist := hist_record (hist_record (hist_record hist_zero 5) 100) 3000.

Lemma three_samples_ok : summarises [5; 100; 3000] three_samples.
Proof.
  apply (hist_record_summarises [5; 100]); [done|done|].
  apply (hist_record_summarises [5]); [done|done|].
  apply (hist_record_summarises []); [done|done|]. apply summarises_nil.
Qed.

Lemma percentile_bound_witness :
  hist_percentile_ns three_samples 50 = Some 128 /\
  ((3 < rank three_samples 50 /\ hist_percentile_ns three_samples 50 = Some 3000) \/
   exists k, 0 <= k < 64 /\ (k = 0 \/ below [5; 100; 3000] (2 ^ k) < rank three_samples 50) /\
             rank three_samples 50 <= below [5; 100; 3000] (2 ^ (k + 1)) /\
             hist_percentile_ns three_samples 50 = bucket_bound k).
Proof.
  split; [by vm_compute|].
  by refine (proj2 (percentile_bound [5; 100; 3000] three_samples 50 three_samples_ok _) _).
Defined.

Definition demo_events : list timeline_event :=
  [mkTlEvent 10 TL_TIMEOUT 1; mkTlEvent 20 TL_RECOVERY 1; mkTlEvent 30 TL_HEARTBEAT_RESTORED 4;
   mkTlEvent 40 TL_TIMEOUT 2; mkTlEvent 50 TL_HEARTBEAT_RESTORED 5].

Lemma fault_cycles_windows_witness :
  fault_cycles 5 demo_events = [mkCycle 10 20 30; mkCycle 40 0 0].
Proof.
  rewrite fault_cycles_windows; [done|by repeat constructor|done].
Defined.

Lemma restored_without_heartbeat_witness :
  let w' := (run recovery_work_fn sim_world).2 in
  let fired := omap (tracepoint (sup 0 1)) (drop (length (w_log sim_world)) (w_log w')) in
  timeline_rb (handle_all (B := SimBpf) fired (bpf_zero 1)) =
    [Some (mkTlEvent 1000 TL_RECOVERY 1); Some (mkTlEvent 2000 TL_HEARTBEAT_RESTORED 0)].
Proof.
  cbv zeta.
  destruct (restored_without_heartbeat (B := SimBpf) sim_world (sup 0 1) (bpf_zero 1)) as [H _];
    [split; by vm_compute|by vm_compute..|].
  rewrite H. by vm_compute.
Defined.

End Props.
