(* ===== verification/EbpfOverlap.v ===== *)
(** * Handlers that overlap

    [EbpfSpec] runs the programs of the tracer one after the other.  On several
    CPUs they overlap: a thread per event, in any schedule of their accesses to
    the maps.  What survives of the report is stated here, and what does not. *)

From S2P Require Import Prelude Ebpf EbpfReport EbpfHist EbpfSpec EbpfProps.

(** The primitives every handler is made of. *)
#[local] Ltac unfold_steps :=
  unfold handle, sys_enter_record, sys_exit_record, handle_sched_wakeup, handle_sched_switch,
    handle_safety_frame_received, handle_safety_frame_dropped, handle_safety_poll_wakeup,
    handle_safety_timeout_detected, handle_safety_recovery_queued, counter_inc, timeline_push,
    timeline_push_now, timeline_reserve, timeline_submit, since, bpf_get, bpf_set, ktime.

#[local] Ltac each_step :=
  repeat (cbn; intros; first [done | match goal with |- _ /\ _ => split end | case_match]).

Section Overlap.
Context {B : BpfApi} {BO : BpfOk B}.
Implicit Types (s w : bpf B).

Definition finished {W A} (p : prog W A) : bool := match p with Done _ => true | Atomic _ _ => false end.

(** All handlers started, any schedule of their steps; one that is not scheduled
    has not begun. *)
Definition overlapped (ncpu : nat) (es : list bpf_event) (sched : list nat) : list (prog (bpf B) unit) * bpf B :=
  exec sched (handle <$> es, bpf_zero ncpu).

(** The thread whose system call an event belongs to. *)
Definition call_tid (e : bpf_event) : option Z :=
  match e with EvEnter c | EvExit c _ => Some (tid c) | _ => None end.

(** A thread is on one CPU at a time: when a handler of its system calls takes a
    step, the others that have begun are done. *)
Definition one_at_a_time (ncpu : nat) (es : list bpf_event) (sched : list nat) : Prop :=
  forall m i j ei ej t p,
    sched !! m = Some j -> es !! i = Some ei -> es !! j = Some ej -> i <> j ->
    call_tid ei = Some t -> call_tid ej = Some t -> i ∈ take m sched ->
    (overlapped ncpu es (take m sched)).1 !! i = Some p -> finished p = true.

(** ** Counters *)

(** A program that leaves the counters alone. *)
Fixpoint quiet {A} (p : prog (bpf B) A) : Prop :=
  match p with
  | Done _ => True
  | Atomic act k => forall s, tp_counters (act s).2 = tp_counters s /\ quiet (k (act s).1)
  end.

(** The counter a thread has still to increment, on one of the CPUs. *)
Definition owes (ncpu : nat) (o : option nat) (p : prog (bpf B) unit) : Prop :=
  match o with
  | None => quiet p
  | Some i => match p with
              | Done _ => False
              | Atomic act k => exists c, (c < ncpu)%nat /\ forall s,
                  tp_counters (act s).2 = alter (alter (fun x => u64 (x + 1)) c) i (tp_counters s) /\
                  quiet (k (act s).1)
              end
  end.

Lemma handle_owes ncpu e : (event_cpu e < ncpu)%nat -> owes ncpu (event_counter e) (handle e).
Proof.
  intros Hc. destruct e; cbn [event_counter owes]; unfold_steps; cbn;
    try (exists (cpu c); split; [exact Hc|]); each_step.
Qed.

Definition owing (i : nat) (os : list (option nat)) : nat := length (filter (fun o => o = Some i) os).

Lemma owing_paid i j o os :
  os !! j = Some o -> (owing i (<[j := None]> os) + (if decide (o = Some i) then 1 else 0) = owing i os)%nat.
Proof.
  unfold owing. revert j. induction os as [|o' os IH]; intros [|j] Hj; [done..|injection Hj as ->|].
  - change (<[0%nat := None]> (o :: os)) with (None :: os). rewrite !filter_cons, decide_False by done.
    case_decide; cbn [length]; lia.
  - change (<[S j := None]> (o' :: os)) with (o' :: <[j := None]> os). rewrite !filter_cons.
    specialize (IH j Hj). destruct (decide (o' = Some i)); [|exact IH]. cbn [length]. lia.
Qed.

(** What is counted and what the threads owe make up the events. *)
Definition tally (ncpu : nat) (es : list bpf_event) (c : list (prog (bpf B) unit) * bpf B) : Prop :=
  exists os ns, Forall2 (owes ncpu) os c.1 /\ length (tp_counters c.2) = CNT_MAX /\
    forall i, (ns i + owing i os = counted i es)%nat /\
      forall per, tp_counters c.2 !! i = Some per -> counts ncpu (ns i) per.

Lemma quiet_owes_none ncpu p : quiet p -> owes ncpu None p.
Proof. done. Qed.

Lemma tally_step ncpu es c i : tally ncpu es c -> tally ncpu es (step_thread c i).
Proof.
  intros (os & ns & HF & Hl & Hn). unfold step_thread. destruct c as [ts s]. cbn [fst snd] in *.
  destruct (ts !! i) as [[a|C act k]|] eqn:Hi; [by exists os, ns| |by exists os, ns].
  destruct (Forall2_lookup_r _ _ _ _ _ HF Hi) as (o & Ho & Hp).
  destruct o as [j|]; cbn [owes quiet] in Hp.
  - destruct Hp as (c & Hc & Hp). destruct (Hp s) as [H1 H2].
    exists (<[i := None]> os), (fun k => if decide (k = j) then S (ns k) else ns k). cbn [fst snd].
    split; [by apply Forall2_insert|]. rewrite H1, length_alter. split; [done|]. intros m.
    pose proof (owing_paid m i _ os Ho) as Hpay. destruct (Hn m) as [Hm Hper].
    destruct (decide (m = j)) as [->|Hne].
    + rewrite decide_True in Hpay by done. split; [lia|]. intros per Hj.
      rewrite list_lookup_alter_eq in Hj. apply fmap_Some in Hj as (per0 & H0 & ->).
      apply counts_inc; [done|]. by apply Hper.
    + rewrite decide_False in Hpay by congruence. split; [lia|].
      rewrite list_lookup_alter_ne by done. exact Hper.
  - destruct (Hp s) as [H1 H2]. exists os, ns. cbn [fst snd]. rewrite H1. split; [|done].
    rewrite <- (list_insert_id os i None) by done. by apply Forall2_insert.
Qed.

Lemma tally_start ncpu es :
  Forall (fun e => (event_cpu e < ncpu)%nat) es -> tally ncpu es (handle <$> es, bpf_zero ncpu).
Proof.
  intros HF. exists (event_counter <$> es), (fun _ => 0%nat). cbn [fst snd]. split; [|split; [done|]].
  - apply Forall2_fmap, Forall_Forall2_diag. eapply Forall_impl; [exact HF|]. intros e. by apply handle_owes.
  - intros i. split.
    + unfold owing, counted. clear HF. induction es as [|e es IH]; [done|].
      change (event_counter <$> e :: es) with (event_counter e :: (event_counter <$> es)).
      rewrite !filter_cons. cbn [Nat.add] in *. by case_decide; cbn [length]; rewrite IH.
    + intros per Hi. exact (proj2 (rel_counts _ _ _ _ _ (trace_rel_zero ncpu)) i per Hi).
Qed.

Lemma overlapped_tally ncpu es sched :
  Forall (fun e => (event_cpu e < ncpu)%nat) es -> tally ncpu es (overlapped ncpu es sched).
Proof.
  intros HF. unfold overlapped, exec. generalize (tally_start ncpu es HF).
  generalize (handle (B := B) <$> es, bpf_zero (B := B) ncpu).
  induction sched as [|i sched IH]; intros c Hc; [done|]. cbn [foldl]. by apply IH, tally_step.
Qed.

(** When every handler is done every event is counted. *)
Lemma tally_done ncpu es c : tally ncpu es c -> Forall finished c.1 -> counters_rel ncpu es c.2.
Proof.
  intros (os & ns & HF & Hl & Hn) Hd. split; [done|]. intros i per Hi. destruct (Hn i) as [H1 H2].
  assert (owing i os = 0%nat) as H0.
  { unfold owing. clear H1 H2 Hn Hl Hi. induction HF as [|o p os ts Ho _ IH]; [done|].
    apply Forall_cons in Hd as [Hp Hd]. rewrite filter_cons, decide_False; [by apply IH|].
    intros ->. destruct p; [exact Ho|exact Hp]. }
  rewrite H0, Nat.add_0_r in H1. rewrite <- H1. by apply H2.
Qed.

(** ** Times and samples *)

(** A time read from the clock, among the first [n] readings. *)
Definition reading (n : nat) (t : Z) : Prop := exists i, (i < n)%nat /\ t = bpf_ktime_get_ns i.

Lemma reading_later n m t : (n <= m)%nat -> reading n t -> reading m t.
Proof. intros Hn (i & Hi & ->). exists i. split; [lia|done]. Qed.

Lemma reading_now n : reading (S n) (bpf_ktime_get_ns n).
Proof. exists n. split; [lia|done]. Qed.

Lemma reading_pos n t : reading n t -> t <> 0.
Proof. intros (i & _ & ->). pose proof (ktime_range i). lia. Qed.

(** The rows whose samples cannot be negative: all of them when a value is read
    before the clock, else those of the system calls when the handlers of a
    thread follow one another ([ex]). *)
Definition ordered_row (ex : bool) (m : nat) : Prop := bpf_value_first = true \/ (ex = true /\ (m < 3)%nat).

(** A sample is the difference of two readings modulo 2^64; in those rows the
    earlier one is subtracted from the later. *)
Definition measured (ex : bool) (n : nat) (md : nat * Z) : Prop :=
  exists i j, (i < n)%nat /\ (j < n)%nat /\ md.2 = u64 (bpf_ktime_get_ns j - bpf_ktime_get_ns i) /\
    (ordered_row ex md.1 -> (i <= j)%nat).

#[local] Instance ordered_row_dec ex m : Decision (ordered_row ex m) := ltac:(unfold ordered_row; apply _).

Lemma measured_later ex n m md : (n <= m)%nat -> measured ex n md -> measured ex m md.
Proof. intros Hn (i & j & Hi & Hj & H). exists i, j. split_and!; try apply H; lia. Qed.

(** Every time in the maps was read from the clock. *)
Record times (s : bpf B) : Prop := {
  times_calls k t : bpf_hash_get (sys_start s) k = Some t -> reading (bpf_now s) t;
  times_wakeups k t : bpf_hash_get (wakeup_ts s) k = Some t -> reading (bpf_now s) t;
  times_frame : last_frame_ts s = 0 \/ reading (bpf_now s) (last_frame_ts s);
  times_stamps i e : timeline_rb s !! i = Some (Some e) -> reading (bpf_now s) (ts e);
}.

(** After [n] steps. *)
Definition sampled (ex : bool) (ncpu n : nat) (s : bpf B) : Prop :=
  times s /\
  (Z.of_nat n < 2 ^ 64 ->
   exists samples, (length samples <= n)%nat /\ rows_rel ncpu samples s /\ Forall (measured ex (bpf_now s)) samples).

(** Memory that holds a time goes on to hold one. *)
Definition memory_kept (n n' : nat) (m m' : bpf_hash) : Prop :=
  forall p, reading n (bpf_deref m p) -> reading n' (bpf_deref m' p).

(** What only grows. *)
Record onwards (s s' : bpf B) : Prop := {
  on_now : (bpf_now s <= bpf_now s')%nat;
  on_frame : last_frame_ts s <> 0 -> last_frame_ts s' <> 0;
  on_calls : memory_kept (bpf_now s) (bpf_now s') (sys_start s) (sys_start s');
  on_wakeups : memory_kept (bpf_now s) (bpf_now s') (wakeup_ts s) (wakeup_ts s');
}.

#[local] Instance onwards_preorder : PreOrder onwards.
Proof.
  split; [intros s; by constructor; [..|intros p|intros p]|].
  intros s1 s2 s3 [] []. constructor; [lia|auto|intros p; auto..].
Qed.

(** The open call of a thread stays as it is. *)
Definition entry_kept (t : Z) (s s' : bpf B) : Prop :=
  forall p, bpf_hash_lookup (sys_start s) t = Some p ->
    bpf_hash_lookup (sys_start s') t = Some p /\ bpf_deref (sys_start s') p = bpf_deref (sys_start s) p.

#[local] Instance entry_kept_preorder t : PreOrder (entry_kept t).
Proof.
  split; [by intros s p|]. intros s1 s2 s3 H1 H2 p Hp. destruct (H1 p Hp) as [H3 <-]. by apply H2.
Qed.

(** What the handler of a thread's system call may rely on, and what it may do. *)
Definition relied (ex : bool) (o : option Z) (s s' : bpf B) : Prop :=
  onwards s s' /\ (ex = true -> forall t, o = Some t -> entry_kept t s s').
Definition moved (o : option Z) (s s' : bpf B) : Prop :=
  onwards s s' /\ forall t, o <> Some t -> entry_kept t s s'.

#[local] Instance relied_preorder ex o : PreOrder (relied ex o).
Proof.
  split; [split; [done|by intros]|]. intros s1 s2 s3 [H1 H2] [H3 H4].
  split; [by etrans|]. intros He t Ht. etrans; eauto.
Qed.

Lemma moved_relied ex o o' s s' :
  (ex = true -> forall t, o = Some t -> o' = Some t -> False) -> moved o s s' -> relied ex o' s s'.
Proof. intros Ho [H1 H2]. split; [done|]. intros He t Ht. apply H2. intros H. by apply (Ho He t). Qed.

(** Steps that leave the maps of times alone. *)
Lemma memory_same n n' m : (n <= n')%nat -> memory_kept n n' m m.
Proof. intros Hn p. by apply reading_later. Qed.

Lemma onwards_same s s' :
  (bpf_now s <= bpf_now s')%nat -> (last_frame_ts s <> 0 -> last_frame_ts s' <> 0) ->
  sys_start s' = sys_start s -> wakeup_ts s' = wakeup_ts s -> onwards s s'.
Proof. intros Hn Hf E1 E2. constructor; [done|done|rewrite E1|rewrite E2]; by apply memory_same. Qed.

Lemma moved_same o s s' :
  (bpf_now s <= bpf_now s')%nat -> (last_frame_ts s <> 0 -> last_frame_ts s' <> 0) ->
  sys_start s' = sys_start s -> wakeup_ts s' = wakeup_ts s -> moved o s s'.
Proof. intros Hn Hf E1 E2. split; [by apply onwards_same|]. intros t _ p. by rewrite E1. Qed.

Lemma relied_same ex o s s' :
  (bpf_now s <= bpf_now s')%nat -> (last_frame_ts s <> 0 -> last_frame_ts s' <> 0) ->
  sys_start s' = sys_start s -> wakeup_ts s' = wakeup_ts s -> relied ex o s s'.
Proof. intros Hn Hf E1 E2. split; [by apply onwards_same|]. intros _ t _ p. by rewrite E1. Qed.

Lemma memory_updated n m k t : reading n t -> memory_kept n n m (bpf_hash_update m k t).
Proof. intros Ht p Hp. by destruct (hash_update_memory m k t p) as [-> | ->]. Qed.

Lemma memory_deleted n m k : memory_kept n n m (bpf_hash_delete m k).
Proof. intros p. by rewrite hash_delete_memory. Qed.

Lemma moved_call s k t :
  reading (bpf_now s) t -> moved (Some k) s (s <| sys_start ::= fun m => bpf_hash_update m k t |>).
Proof.
  intros Ht. split; [constructor; cbn; [done|done|by apply memory_updated|by apply memory_same]|].
  intros t' Hne p Hp. cbn. assert (k <> t') by congruence. by rewrite hash_update_other, (hash_update_entry _ _ t').
Qed.

Lemma moved_called s k : moved (Some k) s (s <| sys_start ::= fun m => bpf_hash_delete m k |>).
Proof.
  split; [constructor; cbn; [done|done|by apply memory_deleted|by apply memory_same]|].
  intros t' Hne p Hp. cbn. assert (k <> t') by congruence. by rewrite hash_delete_other, hash_delete_memory.
Qed.

Lemma moved_wakeup o s k t :
  reading (bpf_now s) t -> moved o s (s <| wakeup_ts ::= fun m => bpf_hash_update m k t |>).
Proof. intros Ht. split; [constructor; cbn; [done|done|by apply memory_same|by apply memory_updated]|by intros t' _ p]. Qed.

Lemma moved_awake o s k : moved o s (s <| wakeup_ts ::= fun m => bpf_hash_delete m k |>).
Proof. split; [constructor; cbn; [done|done|by apply memory_same|by apply memory_deleted]|by intros t' _ p]. Qed.

Section Sampled.
Context (ex : bool).

Lemma sampled_idle ncpu n s : sampled ex ncpu n s -> sampled ex ncpu (S n) s.
Proof.
  intros [Ht H]. split; [done|]. intros Hn. destruct H as (samples & Hl & H); [lia|]. exists samples. split; [lia|done].
Qed.

(** A step that records nothing, *)
Lemma sampled_keep ncpu n s s' :
  sampled ex ncpu n s -> (bpf_now s <= bpf_now s')%nat -> (times s -> times s') ->
  syscall_lat s' = syscall_lat s -> poll_lat s' = poll_lat s -> sched_lat s' = sched_lat s ->
  sampled ex ncpu (S n) s'.
Proof.
  intros [H Hs] Hnow Ht H1 H2 H3. split; [by apply Ht|]. intros Hn. destruct Hs as (samples & Hl & [Hr1 Hr2] & Hm); [lia|].
  exists samples. split; [lia|]. split.
  - constructor; [by rewrite H1|]. intros m Hm5. unfold row_hists in *. rewrite H1, H2, H3. by apply Hr2.
  - eapply Forall_impl; [exact Hm|]. intros md. by apply measured_later.
Qed.

(** and one that records a sample in a row. *)
Lemma sampled_record ncpu n s s' m c d :
  sampled ex ncpu n s -> (c < ncpu)%nat -> (m < 5)%nat -> bpf_now s' = bpf_now s -> (times s -> times s') ->
  is_u64 d -> measured ex (bpf_now s) (m, d) -> length (syscall_lat s') = length (syscall_lat s) ->
  (length (syscall_lat s) = 3%nat -> forall m', (m' < 5)%nat -> row_hists s' m' = if decide (m' = m) then record_on c d (row_hists s m') else row_hists s m') ->
  sampled ex ncpu (S n) s'.
Proof.
  intros [H Hs] Hc Hm5 Hnow Ht Hd Hmd Hlen Hrow. split; [by apply Ht|]. intros Hn.
  destruct Hs as (samples & Hl & [Hr1 Hr2] & Hm); [lia|]. exists (samples ++ [(m, d)]). rewrite length_app. cbn [length]. split; [lia|]. split.
  - constructor; [congruence|]. intros m' Hm'. destruct (Hr2 m' Hm') as [Hnc Hp].
    rewrite Hrow, row_samples_app by done. unfold row_samples at 2. rewrite filter_cons. cbn [fst].
    destruct (decide (m' = m)) as [->|Hne].
    + rewrite decide_True by done. split; [unfold record_on; by rewrite length_alter|].
      apply percpu_record; [lia|done| |done]. pose proof (length_row_samples m samples). lia.
    + rewrite decide_False by congruence. cbn. by rewrite app_nil_r.
  - rewrite Hnow. apply Forall_app. split; [done|by constructor].
Qed.

End Sampled.

(** ** The handlers *)

(** The maps of times, changed by one operation. *)
Lemma update_reading n m k t k' t' :
  (forall k t, bpf_hash_get m k = Some t -> reading n t) -> reading n t ->
  bpf_hash_get (bpf_hash_update m k t) k' = Some t' -> reading n t'.
Proof.
  intros Hm Ht H. destruct (decide (k = k')) as [<-|Hne].
  - destruct (hash_update_any m k t) as [E|E]; rewrite E in H; [by injection H as <-|by eapply Hm].
  - rewrite hash_get_other in H by done. by eapply Hm.
Qed.

Lemma delete_reading n m k k' t' :
  (forall k t, bpf_hash_get m k = Some t -> reading n t) ->
  bpf_hash_get (bpf_hash_delete m k) k' = Some t' -> reading n t'.
Proof.
  intros Hm H. destruct (decide (k = k')) as [<-|Hne]; [by rewrite hash_get_deleted in H|].
  rewrite hash_get_kept in H by done. by eapply Hm.
Qed.

Lemma times_tick s : times s -> times (s <| bpf_now ::= S |>).
Proof.
  intros [H1 H2 H3 H4]. constructor; cbn; intros.
  - eapply reading_later, H1; [lia|done].
  - eapply reading_later, H2; [lia|done].
  - destruct H3; [by left|right]. eapply reading_later; [|done]. lia.
  - eapply reading_later, H4; [lia|done].
Qed.

Lemma times_call s k t : reading (bpf_now s) t -> times s -> times (s <| sys_start ::= fun m => bpf_hash_update m k t |>).
Proof. intros Ht [H1 H2 H3 H4]. constructor; cbn; [|done..]. intros k' t'. by apply update_reading. Qed.

Lemma times_wakeup s k t : reading (bpf_now s) t -> times s -> times (s <| wakeup_ts ::= fun m => bpf_hash_update m k t |>).
Proof. intros Ht [H1 H2 H3 H4]. constructor; cbn; [done| |done..]. intros k' t'. by apply update_reading. Qed.

Lemma times_called s k : times s -> times (s <| sys_start ::= fun m => bpf_hash_delete m k |>).
Proof. intros [H1 H2 H3 H4]. constructor; cbn; [|done..]. intros k' t'. by apply delete_reading. Qed.

Lemma times_awake s k : times s -> times (s <| wakeup_ts ::= fun m => bpf_hash_delete m k |>).
Proof. intros [H1 H2 H3 H4]. constructor; cbn; [done| |done..]. intros k' t'. by apply delete_reading. Qed.

Lemma times_received s t : reading (bpf_now s) t -> times s -> times (s <| last_frame_ts := t |>).
Proof. intros Ht [H1 H2 H3 H4]. constructor; cbn; [done..| |done]. by right. Qed.

Lemma times_reserved s : times s -> times (s <| timeline_rb ::= fun l => l ++ [None] |>).
Proof.
  intros [H1 H2 H3 H4]. constructor; cbn -[app]; [done..|]. intros i e Hi.
  apply lookup_app_Some in Hi as [Hi|[_ Hi]]; [by eapply H4|]. by destruct (i - _)%nat as [|[]].
Qed.

Lemma times_submitted s i e : reading (bpf_now s) (ts e) -> times s -> times (s <| timeline_rb ::= fun l => <[i := Some e]> l |>).
Proof.
  intros He [H1 H2 H3 H4]. constructor; cbn -[insert]; [done..|]. intros j e' Hj.
  apply list_lookup_insert_Some in Hj as [(-> & [= <-] & _)|[_ Hj]]; [done|by eapply H4].
Qed.

(** Nothing else holds a time. *)
Lemma times_same s s' :
  sys_start s' = sys_start s -> wakeup_ts s' = wakeup_ts s -> last_frame_ts s' = last_frame_ts s ->
  timeline_rb s' = timeline_rb s -> bpf_now s' = bpf_now s -> times s -> times s'.
Proof. intros E1 E2 E3 E4 E5 [H1 H2 H3 H4]. by constructor; rewrite ?E1, ?E2, ?E3, ?E4, ?E5. Qed.

Section Handlers.
Context (ex : bool) (ncpu : nat).

Abbreviation steady := (rely (sampled ex ncpu) (relied ex) moved).

(** A step that records nothing, before the rest of a program. *)
Lemma steady_keep {A C} o w0 (act : st (bpf B) A) (k : A -> prog (bpf B) C) :
  (forall w, relied ex o w0 w -> times w -> let s' := (act w).2 in
     moved o w s' /\ times s' /\
     syscall_lat s' = syscall_lat w /\ poll_lat s' = poll_lat w /\ sched_lat s' = sched_lat w /\
     steady o s' (k (act w).1)) ->
  steady o w0 (Atomic act k).
Proof.
  intros H n w Hw Hn. destruct (H w Hw (proj1 Hn)) as (H1 & H2 & H3 & H4 & H5 & H6).
  split; [|by split]. apply (sampled_keep _ _ _ w); [done|apply H1|done..].
Qed.

(** Recording a sample. *)
Lemma steady_record {A C} o w0 (act : st (bpf B) A) (k : A -> prog (bpf B) C) m c d :
  (c < ncpu)%nat -> (m < 5)%nat -> is_u64 d -> measured ex (bpf_now w0) (m, d) ->
  (forall w, let s' := (act w).2 in
     sys_start s' = sys_start w /\ wakeup_ts s' = wakeup_ts w /\ last_frame_ts s' = last_frame_ts w /\
     timeline_rb s' = timeline_rb w /\ bpf_now s' = bpf_now w /\
     length (syscall_lat s') = length (syscall_lat w) /\
     (length (syscall_lat w) = 3%nat -> forall m', (m' < 5)%nat ->
        row_hists s' m' = if decide (m' = m) then record_on c d (row_hists w m') else row_hists w m')) ->
  (forall w, steady o (act w).2 (k (act w).1)) ->
  steady o w0 (Atomic act k).
Proof.
  intros Hc Hm Hd Hmd H Hk n w [Hw _] Hn. destruct (H w) as (E1 & E2 & E3 & E4 & E5 & E6 & E7).
  split; [|split; [apply moved_same; [lia|by rewrite E3|done..]|apply Hk]].
  apply (sampled_record _ _ _ w _ m c d); try done; [by apply times_same|].
  eapply measured_later; [apply (on_now _ _ Hw)|done].
Qed.

(** A step that leaves the maps of times alone. *)
Ltac keep := apply steady_keep; intros ? ? Ht; cbn -[app insert rely since];
  split; [by apply moved_same; cbn; (lia || auto)|split; [|do 3 (split; [done|])]].

Lemma relied_tick o w : relied ex o w (w <| bpf_now ::= S |>).
Proof. by apply relied_same; cbn; [lia|..]. Qed.

(** A time that is read next to the clock, before the rest of a program: the
    rest gets a sample. *)
Lemma steady_since {C} o w0 read m (k : Z -> prog (bpf B) C) :
  (forall w, relied ex o w0 w -> times w -> reading (bpf_now w) (read w)) ->
  (ordered_row ex m -> bpf_value_first = false -> forall w, relied ex o w0 w -> reading (bpf_now w0) (read w)) ->
  (forall w d, relied ex o w0 w -> is_u64 d -> measured ex (bpf_now w) (m, d) -> steady o w (k d)) ->
  steady o w0 (d ← since read; k d).
Proof.
  intros Hr Hs Hk. unfold since. destruct bpf_value_first eqn:Ev.
  - apply steady_keep. intros w1 Hw1 Ht1. destruct (Hr w1 Hw1 Ht1) as (i & Hi & Ei). cbn -[rely].
    split; [by apply moved_same|]. split; [done|]. do 3 (split; [done|]).
    apply steady_keep. intros w2 Hw2 Ht2. cbn -[rely].
    split; [apply moved_same; cbn; auto; lia|]. split; [by apply times_tick|]. do 3 (split; [done|]).
    apply Hk; [do 2 (etrans; [eassumption|]); apply relied_tick|apply u64_range|].
    pose proof (on_now _ _ (proj1 Hw2)). exists i, (bpf_now w2). cbn. rewrite Ei. split_and!; [lia|lia|done|lia].
  - apply steady_keep. intros w1 Hw1 Ht1. cbn -[rely].
    split; [apply moved_same; cbn; auto; lia|]. split; [by apply times_tick|]. do 3 (split; [done|]).
    apply steady_keep. intros w2 Hw2 Ht2. cbn -[rely].
    split; [by apply moved_same|]. split; [done|]. do 3 (split; [done|]).
    assert (relied ex o w0 w2) as Hw02 by (etrans; [exact Hw1|]; etrans; [apply relied_tick|exact Hw2]).
    apply Hk; [done|apply u64_range|].
    pose proof (on_now _ _ (proj1 Hw1)). pose proof (on_now _ _ (proj1 Hw2)) as Hn2. cbn in Hn2.
    destruct (decide (ordered_row ex m)) as [Ho|Ho].
    + destruct (Hs Ho eq_refl w2 Hw02) as (i & Hi & Ei). exists i, (bpf_now w1). cbn. rewrite Ei.
      split_and!; [lia|lia|done|lia].
    + destruct (Hr w2 Hw02 Ht2) as (i & Hi & Ei). exists i, (bpf_now w1). cbn. rewrite Ei. by split_and!; [lia|lia|..].
Qed.

Lemma steady_reserve {C} o w0 (k : option nat -> prog (bpf B) C) :
  (forall w r, relied ex o w0 w -> steady o w (k r)) -> steady o w0 (r ← timeline_reserve; k r).
Proof.
  intros Hk. apply steady_keep. intros w Hw Ht.
  destruct (bpf_ringbuf_reserve _ _); cbn -[app].
  - split; [by apply moved_same|]. split; [by apply times_reserved|]. do 3 (split; [done|]).
    apply Hk. etrans; [exact Hw|by apply relied_same].
  - split; [by apply moved_same|]. split; [done|]. do 3 (split; [done|]). by apply Hk.
Qed.

Lemma reading_relied o w0 w t : relied ex o w0 w -> reading (bpf_now w0) t -> reading (bpf_now w) t.
Proof. intros [H _]. apply reading_later, H. Qed.

Lemma steady_submit o w0 i e : reading (bpf_now w0) (ts e) -> steady o w0 (timeline_submit i e).
Proof.
  intros He. apply steady_keep. intros w Hw Ht. cbn -[insert]. split; [by apply moved_same|]. split; [|done].
  apply times_submitted; [by eapply reading_relied|done].
Qed.

Lemma steady_push o w0 e : reading (bpf_now w0) (ts e) -> steady o w0 (timeline_push e).
Proof.
  intros He. apply steady_reserve. intros w [i|] Hw; [|done]. by eapply steady_submit, reading_relied.
Qed.

Lemma steady_push_now o w0 k a : steady o w0 (timeline_push_now k a).
Proof.
  apply steady_reserve. intros w [i|] Hw; [|done]. keep; [by apply times_tick|].
  apply steady_submit. apply reading_now.
Qed.

Lemma reading_at w : reading (bpf_now (w <| bpf_now ::= S |>)) (bpf_ktime_get_ns (bpf_now w)).
Proof. apply reading_now. Qed.

Lemma steady_enter w0 c : steady (Some (tid c)) w0 (sys_enter_record c).
Proof.
  unfold sys_enter_record. destruct (comm_is_supervisor c); [|done]. keep; [by apply times_tick|].
  apply steady_keep. intros w1 Hw1 Ht1. pose proof (reading_relied _ _ _ _ Hw1 (reading_at w)) as Hr. cbn -[rely].
  split; [by apply moved_call|]. split; [by apply times_call|done].
Qed.

Lemma steady_wakeup o w0 pid : steady o w0 (handle_sched_wakeup pid).
Proof.
  keep; [by apply times_tick|]. apply steady_keep. intros w1 Hw1 Ht1.
  pose proof (reading_relied _ _ _ _ Hw1 (reading_at w)) as Hr. cbn -[rely].
  split; [by apply moved_wakeup|]. split; [by apply times_wakeup|done].
Qed.

(** The value a lookup has found. *)
Lemma reading_found n m k p :
  (forall k t, bpf_hash_get m k = Some t -> reading n t) -> bpf_hash_lookup m k = Some p ->
  reading n (bpf_deref m p).
Proof. intros H E. apply (H k). unfold bpf_hash_get. by rewrite E. Qed.

Lemma steady_exit w0 c k : (cpu c < ncpu)%nat -> steady (Some (tid c)) w0 (sys_exit_record c k).
Proof.
  intros Hc. keep; [done|]. destruct (bpf_hash_lookup (sys_start w) (tid c)) as [p|] eqn:E; [|done].
  pose proof (reading_found _ _ _ _ (times_calls w Ht) E) as H0.
  apply (steady_since _ _ _ (kind_index k)).
  - intros w1 [Hw1 _] _. by apply (on_calls _ _ Hw1).
  - intros [Hv|[He _]] Hv' w1 [Hw1 Hk1]; [congruence|].
    destruct (Hk1 He _ eq_refl p E) as [_ ->]. done.
  - intros w2 d Hw2 Hd Hm. apply steady_keep. intros w3 Hw3 Ht3. cbn -[rely].
    split; [by apply moved_called|]. split; [by apply times_called|]. do 3 (split; [done|]).
    apply (steady_record _ _ _ _ (kind_index k) (cpu c) d); [done|by destruct k; cbn; lia|done| | |done].
    + eapply measured_later; [apply (on_now _ _ (proj1 Hw3))|exact Hm].
    + intros w4. cbn. do 5 (split; [done|]). split; [by rewrite length_alter|]. intros Hl m' Hm'.
      by apply row_hists_alter; [|destruct k; cbn; lia|..].
Qed.

(** One of the two histograms without kinds. *)
Lemma row_hists_poll s c d m :
  (m < 5)%nat -> row_hists (s <| poll_lat ::= record_on c d |>) m =
  if decide (m = POLL_ROW) then record_on c d (row_hists s m) else row_hists s m.
Proof. intros Hm. do 5 (destruct m as [|m]; [done|]). lia. Qed.

Lemma row_hists_sched s c d m :
  (m < 5)%nat -> row_hists (s <| sched_lat ::= record_on c d |>) m =
  if decide (m = SCHED_ROW) then record_on c d (row_hists s m) else row_hists s m.
Proof. intros Hm. do 5 (destruct m as [|m]; [done|]). lia. Qed.

(** No order in the rows of polls and wakeups, unless the value is read first. *)
Lemma ordered_first m : (3 <= m)%nat -> ordered_row ex m -> bpf_value_first = false -> False.
Proof. intros Hm [H|[_ H]]; [congruence|lia]. Qed.

Lemma steady_awake o w0 pid :
  steady o w0 (bpf_set (fun s => s <| wakeup_ts ::= fun m => bpf_hash_delete m pid |>)).
Proof.
  apply steady_keep. intros w Hw Ht. cbn. split; [by apply moved_awake|]. split; [by apply times_awake|done].
Qed.

(** The order of evaluation once chosen, the rest of a program is sequenced. *)
Lemma steady_since_assoc {C D} o w0 read (k : Z -> prog (bpf B) C) (f : C -> prog (bpf B) D) :
  steady o w0 (d ← since read; (k d ≫= f)) -> steady o w0 ((d ← since read; k d) ≫= f).
Proof. unfold since. by destruct bpf_value_first. Qed.

Lemma steady_switch o w0 c pid nc : (cpu c < ncpu)%nat -> steady o w0 (handle_sched_switch c pid nc).
Proof.
  intros Hc. keep; [done|]. destruct (bpf_hash_lookup (wakeup_ts w) pid) as [p|] eqn:E; [|done].
  pose proof (reading_found _ _ _ _ (times_wakeups w Ht) E) as H0.
  destruct (comm_prefix_match nc); [|apply steady_awake].
  apply steady_since_assoc, (steady_since _ _ _ SCHED_ROW).
  - intros w1 [Hw1 _] _. by apply (on_wakeups _ _ Hw1).
  - intros Ho Hv. destruct (ordered_first SCHED_ROW ltac:(unfold SCHED_ROW; lia) Ho Hv).
  - intros w2 d Hw2 Hd Hm.
    apply (steady_record _ _ _ _ SCHED_ROW (cpu c) d); [done|by unfold SCHED_ROW; lia|done|done| |intros; apply steady_awake].
    intros w3. cbn. do 6 (split; [done|]). intros _ m' Hm'. by apply row_hists_sched.
Qed.

(** The end of the handler of received frames. *)
Lemma steady_pending o w0 now seq :
  reading (bpf_now w0) now ->
  steady o w0 (pending ← bpf_get recovery_pending;
               if negb (pending =? 0) then
                 _ ← bpf_set (fun s => s <| recovery_pending := 0 |>);
                 timeline_push (mkTlEvent now TL_HEARTBEAT_RESTORED seq)
               else mret tt).
Proof.
  intros Hr. apply steady_keep. intros w Hw Ht. cbn -[app rely]. split; [by apply moved_same|]. split; [done|].
  do 3 (split; [done|]). destruct (negb _); [|done].
  apply steady_keep. intros w1 Hw1 Ht1. cbn -[app rely]. split; [by apply moved_same|]. split; [by eapply times_same, Ht1|].
  do 3 (split; [done|]). apply steady_push. cbn. eapply reading_relied; [exact Hw1|]. by eapply reading_relied.
Qed.

Lemma steady_frame o w0 c seq : steady o w0 (handle_safety_frame_received c seq).
Proof.
  keep; [by eapply times_same, Ht|]. apply steady_keep. intros w1 Hw1 Ht1. cbn -[app rely].
  split; [by apply moved_same; cbn; (lia || auto)|]. split; [by apply times_tick|]. do 3 (split; [done|]).
  apply steady_keep. intros w3 Hw3 Ht3. pose proof (reading_relied _ _ _ _ Hw3 (reading_at w1)) as Hr3. cbn -[app rely].
  split; [apply moved_same; cbn; [done|intros _; by apply (reading_pos (bpf_now w3))|done..]|].
  split; [by apply times_received|]. do 3 (split; [done|]). by apply steady_pending.
Qed.

Lemma steady_poll o w0 c : (cpu c < ncpu)%nat -> steady o w0 (handle_safety_poll_wakeup c).
Proof.
  intros Hc. keep; [by eapply times_same, Ht|]. apply steady_keep. intros w1 Hw1 Ht1. cbn -[rely since].
  split; [by apply moved_same|]. split; [done|]. do 3 (split; [done|]).
  destruct (Z.eqb_spec (last_frame_ts w1) 0) as [|Hlf]; [done|].
  apply (steady_since _ _ _ POLL_ROW).
  - intros w2 [Hw2 _] Ht2. destruct (times_frame w2 Ht2) as [H0|Hr]; [|done]. by destruct (on_frame _ _ Hw2 Hlf).
  - intros Ho Hv. destruct (ordered_first POLL_ROW ltac:(unfold POLL_ROW; lia) Ho Hv).
  - intros w2 d Hw2 Hd Hm. apply (steady_record _ _ _ _ POLL_ROW (cpu c) d); [done|by unfold POLL_ROW; lia|done|done| |done].
    intros w4. cbn. do 6 (split; [done|]). intros _ m' Hm'. by apply row_hists_poll.
Qed.

Lemma steady_handle w e : (event_cpu e < ncpu)%nat -> steady (call_tid e) w (handle e).
Proof.
  intros Hc. destruct e; cbn [handle event_cpu call_tid] in *.
  - apply steady_enter.
  - by apply steady_exit.
  - apply steady_wakeup.
  - by apply steady_switch.
  - apply steady_frame.
  - keep; [by eapply times_same, Ht|done].
  - by apply steady_poll.
  - keep; [by eapply times_same, Ht|apply steady_push_now].
  - keep; [by eapply times_same, Ht|]. apply steady_keep. intros w2 Hw2 Ht2. cbn -[rely].
    split; [by apply moved_same|]. split; [by eapply times_same, Ht2|]. do 3 (split; [done|]). apply steady_push_now.
Qed.

End Handlers.

Lemma times_zero ncpu : times (bpf_zero ncpu).
Proof.
  constructor; cbn; [intros k t H; unfold bpf_hash_get in H; by rewrite hash_empty in H..|by left|done].
Qed.

Lemma sampled_zero ex ncpu : sampled ex ncpu 0 (bpf_zero ncpu).
Proof.
  split; [apply times_zero|]. intros _. exists []. split; [done|]. split; [|constructor].
  apply (rel_hists _ [] trace_zero), trace_rel_zero.
Qed.

Lemma overlapped_sampled ex ncpu es sched :
  Forall (fun e => (event_cpu e < ncpu)%nat) es -> (ex = true -> one_at_a_time ncpu es sched) ->
  sampled ex ncpu (length sched) (overlapped ncpu es sched).2.
Proof.
  intros HF Hx. rewrite <- (Nat.add_0_r (length sched)).
  apply (rely_exec (sampled ex ncpu) (relied ex) moved) with (os := call_tid <$> es);
    [by apply sampled_idle|apply sampled_zero|by rewrite !length_fmap|..].
  - intros i o p Ho Hp w. rewrite list_lookup_fmap in Ho. apply list_lookup_fmap_Some in Hp as (e1 & -> & Hp).
    apply fmap_Some in Ho as (e & He & ->). rewrite He in Hp. injection Hp as ->.
    apply steady_handle. by eapply (Forall_lookup_1 _ _ _ _ HF).
  - intros m i j oi oj p Hm Hi Hj Hne Hin Hp. rewrite list_lookup_fmap in Hi, Hj.
    apply fmap_Some in Hi as (ei & Hi & ->). apply fmap_Some in Hj as (ej & Hj & ->).
    destruct (decide (ex = true /\ call_tid ei = call_tid ej)) as [[He Hc]|Hno].
    2: { right. intros w w'. apply moved_relied. intros He t Ht Ht'. apply Hno. by rewrite Ht, Ht'. }
    destruct (call_tid ei) as [t|] eqn:Et.
    2: { right. intros w w'. by apply moved_relied. }
    left. pose proof (Hx He m i j ei ej t p Hm Hi Hj Hne Et (eq_sym Hc) Hin Hp) as Hd.
    destruct p as [a|]; [by exists a|done].
Qed.

(** What the report says of such a state. *)
Lemma report_rows_sampled ncpu samples s rows m row :
  rows_rel ncpu samples s -> Z.of_nat (length samples) < 2 ^ 64 -> (length rows = 5)%nat ->
  report_rows rows s !! m = Some row -> summarises (row_samples m samples) (EbpfReport.h row).
Proof.
  intros [Hl Hr] Hlen Hrows Hm. destruct (lookup_lt_is_Some_2 rows m) as [row0 H0].
  { apply lookup_lt_Some in Hm. unfold report_rows in Hm. rewrite length_zip_with in Hm. lia. }
  destruct (report_rows_lookup rows s row0 m Hl Hrows H0) as [name H1]. rewrite H1 in Hm. injection Hm as <-.
  cbn [EbpfReport.h collect_metric]. apply sum_percpu_hist_exact.
  - apply Hr. rewrite <- Hrows. by eapply lookup_lt_Some.
  - pose proof (length_row_samples m samples). lia.
Qed.

End Overlap.

Module Props.

(** C40. Handlers may overlap: for any events on any CPUs and any schedule of the
    handlers' accesses to the shared maps and to the memory of their entries, the
    five reported histograms still summarise exactly some list of samples, each
    the difference of two readings of the clock. The samples of the system calls
    are the time from one reading to a later one, so that none has wrapped, as
    long as the handlers of one thread follow one another; so are all samples if
    the compiler reads the remembered time before the clock. Every event of the
    timeline carries a time that was read; and once all handlers are done no
    count is lost. *)
Theorem overlapping_handlers {B : BpfApi} {BO : BpfOk B} ncpu (es : list bpf_event) (sched : list nat)
    (rows : list metric_row) :
  Forall (fun e => (event_cpu e < ncpu)%nat) es -> Z.of_nat (length sched) < 2 ^ 64 -> (length rows = 5)%nat ->
  let c := overlapped ncpu es sched in
  (forall ex : bool, (ex = true -> one_at_a_time ncpu es sched) ->
   exists samples,
     (forall m row, report_rows rows c.2 !! m = Some row -> summarises (row_samples m samples) (EbpfReport.h row)) /\
     Forall (measured ex (bpf_now c.2)) samples) /\
  (forall i e, timeline_rb c.2 !! i = Some (Some e) -> reading (bpf_now c.2) (ts e)) /\
  (Forall finished c.1 -> report_counters c.2 = (fun i => u64 (Z.of_nat (counted i es))) <$> seq 0 CNT_MAX).
Proof.
  intros HF Hlen Hrows c. split; [|split].
  - intros ex Hx. destruct (overlapped_sampled ex ncpu es sched HF Hx) as [_ Hs]. fold c in Hs.
    destruct (Hs Hlen) as (samples & Hl & Hr & Hm). exists samples. split; [|done].
    intros m row. apply (report_rows_sampled ncpu); [done|lia|done].
  - destruct (overlapped_sampled false ncpu es sched HF ltac:(done)) as [Ht _]. intros i e. apply (times_stamps c.2 Ht).
  - intros Hd. pose proof (tally_done ncpu es c (overlapped_tally ncpu es sched HF) Hd) as Hc.
    apply list_eq. intros i. rewrite list_lookup_fmap. destruct (decide (i < CNT_MAX)%nat).
    + rewrite lookup_seq_lt by done. by apply (report_counters_lookup ncpu).
    + unfold report_counters. by rewrite list_lookup_fmap, lookup_seq_ge by lia.
Qed.

(** ** What an overlap can do *)

Import EbpfProps.Sim.
#[local] Existing Instance SimBpf.

(** A poll wakeup reads the clock, then a frame on another CPU stores its later
    time, then the wakeup reads that. *)
Definition poll_race : list bpf_event :=
  [EvFrame (EbpfProps.Props.sup 0 0) 4; EvPoll (EbpfProps.Props.sup 1 77); EvFrame (EbpfProps.Props.sup 0 0) 5].
Definition poll_schedule : list nat := [0; 0; 0; 0; 1; 1; 1; 2; 2; 2; 2; 1; 1]%nat.

(** A frame reads the clock before the recovery is recorded, and looks at the
    flag after. *)
Definition restore_race : list bpf_event :=
  [EvTimeout (EbpfProps.Props.sup 0 0) 1; EvFrame (EbpfProps.Props.sup 1 0) 4; EvRecovery (EbpfProps.Props.sup 0 0) 1].
Definition restore_schedule : list nat := [0; 0; 0; 0; 1; 1; 2; 2; 2; 2; 2; 1; 1; 1; 1; 1]%nat.

(** The wakeup is recorded as 2^64 - 1000 ns. *)
Lemma poll_wakeup_wraps :
  max <$> poll_lat (overlapped 2 poll_race poll_schedule).2 = [0; 2 ^ 64 - 1000].
Proof. apply (bool_decide_unpack _). by vm_compute. Qed.

(** A context switch finds the wakeup of a thread and reads the clock, then the
    thread is woken again on another CPU, then the switch reads the time. *)
Lemma sched_delay_wraps :
  max <$> sched_lat (overlapped 2
    [EvWakeup 78; EvSwitch (EbpfProps.Props.sup 1 0) 78 (COMM_PREFIX ++ [115; 0]); EvWakeup 78]
    [0; 0; 1; 1; 2; 2; 1; 1; 1]%nat).2 = [0; 2 ^ 64 - 1000].
Proof. apply (bool_decide_unpack _). by vm_compute. Qed.

(** The heartbeat is restored before the recovery, and the report prints the time
    between them as 2^64 - 1000 ns. *)
Lemma restored_before_recovery :
  timeline_rb (overlapped 2 restore_race restore_schedule).2 =
    [Some (mkTlEvent 1000 TL_TIMEOUT 1); Some (mkTlEvent 3000 TL_RECOVERY 1);
     Some (mkTlEvent 2000 TL_HEARTBEAT_RESTORED 4)] /\
  cycle_durations <$> fault_cycles 3 [mkTlEvent 1000 TL_TIMEOUT 1; mkTlEvent 3000 TL_RECOVERY 1;
     mkTlEvent 2000 TL_HEARTBEAT_RESTORED 4] = [(Some 2000, Some (2 ^ 64 - 1000), Some 1000)].
Proof. apply (bool_decide_unpack _). by vm_compute. Qed.

(** With two frames at once one recovery is restored twice. *)
Lemma restored_twice :
  kind <$> omap id (timeline_rb (overlapped 2
    [EvRecovery (EbpfProps.Props.sup 0 0) 1; EvFrame (EbpfProps.Props.sup 0 0) 4; EvFrame (EbpfProps.Props.sup 1 0) 5]
    [0; 0; 0; 0; 0; 1; 1; 1; 1; 2; 2; 2; 2; 1; 1; 1; 2; 2; 2]%nat).2) =
  [TL_RECOVERY; TL_HEARTBEAT_RESTORED; TL_HEARTBEAT_RESTORED].
Proof. apply (bool_decide_unpack _). by vm_compute. Qed.

Lemma poll_race_done : Forall finished (overlapped 2 poll_race poll_schedule).1.
Proof. apply forallb_True. by vm_compute. Qed.

(** A system call, during which a frame is received on the other CPU. *)
Definition call_race : list bpf_event :=
  [EvEnter (EbpfProps.Props.sup 0 77); EvFrame (EbpfProps.Props.sup 1 0) 4; EvExit (EbpfProps.Props.sup 0 77) SC_READ].
Definition call_schedule : list nat := [1; 0; 0; 2; 1; 2; 1; 2; 1; 2; 2]%nat.

Lemma call_race_done : Forall finished (overlapped 2 call_race call_schedule).1.
Proof. apply forallb_True. by vm_compute. Qed.

(** The entry is done in two steps, before the exit begins. *)
Lemma call_entry_first m : call_schedule !! m = Some 0%nat -> 2%nat ∉ take m call_schedule.
Proof. intros Hm. do 11 (destruct m as [|m]; [first [discriminate Hm|apply (bool_decide_unpack _); vm_compute; exact I]|]). discriminate Hm. Qed.

Lemma call_entry_done m :
  call_schedule !! m = Some 2%nat ->
  from_option finished false ((overlapped 2 call_race (take m call_schedule)).1 !! 0%nat) = true.
Proof. intros Hm. do 11 (destruct m as [|m]; [first [discriminate Hm|vm_compute; reflexivity]|]). discriminate Hm. Qed.

Lemma call_race_exclusive : one_at_a_time 2 call_race call_schedule.
Proof.
  intros m i j ei ej t p Hm Hi Hj Hne Hti Htj Hin Hp.
  destruct i as [|[|[|i]]]; [|by injection Hi as <-| |discriminate Hi];
    (destruct j as [|[|[|j]]]; [|by injection Hj as <-| |discriminate Hj]); [by destruct Hne| | |by destruct Hne].
  - pose proof (call_entry_done _ Hm) as H. rewrite Hp in H. exact H.
  - by destruct (call_entry_first m Hm).
Qed.

Lemma overlapping_handlers_witness :
  let c := overlapped 2 call_race call_schedule in
  report_counters c.2 = [1; 0; 0; 0; 0] /\ exists samples, Forall (measured true (bpf_now c.2)) samples.
Proof.
  destruct (overlapping_handlers 2 call_race call_schedule (replicate 5 (mkRow "" "" hist_zero)))
    as (Hs & _ & Hc); [repeat constructor|done|done|].
  destruct (Hs true (fun _ => call_race_exclusive)) as (samples & _ & Hm).
  split; [|by exists samples]. exact (Hc call_race_done).
Defined.

End Props.
