(* ===== verification/Supervisor.v ===== *)
(** * Supervisor, pure parts: [userspace/safety-supervisord/protocol.cpp] and
    [health_state_machine.cpp], and the framer of [userspace/safety-linkd/main.cpp]

    A [std::vector<uint8_t>] with a cursor is the list of bytes from the cursor
    on; what the code erases before the cursor is dropped from the list. *)

From Stdlib Require Import DecimalString.
From stdpp Require Import gmap.
From S2P Require Import Prelude Protocol.

(** ** Names *)

Definition frame_type_name (ty : Z) : string :=
  if ty =? SAFETY_FRAME_HEARTBEAT then "HEARTBEAT"
  else if ty =? SAFETY_FRAME_TELEMETRY then "TELEMETRY"
  else if ty =? SAFETY_FRAME_FAULT_EVENT then "FAULT_EVENT"
  else if ty =? SAFETY_FRAME_COMMAND then "COMMAND"
  else if ty =? SAFETY_FRAME_ACK then "ACK"
  else if ty =? SAFETY_FRAME_NACK then "NACK"
  else if ty =? SAFETY_FRAME_RECOVERY_REPORT then "RECOVERY_REPORT"
  else "".

(** Local [fault_type_name] of [protocol.cpp]. *)
Definition sv_fault_type_name (fault : Z) : string :=
  if fault =? SAFETY_FAULT_NONE then "NONE"
  else if fault =? SAFETY_FAULT_TASK_HANG then "HEARTBEAT_STOP"
  else if fault =? SAFETY_FAULT_CHECKSUM_ERROR then "CHECKSUM_ERROR"
  else if fault =? SAFETY_FAULT_CRITICAL then "CRITICAL"
  else "".

(** [std::to_string] of an integer. *)
Definition to_string (x : Z) : string := NilZero.string_of_int (Z.to_int x).

(** The numbers of [enum safety_validate_result]. *)
Definition validate_number (v : safety_validate_result) : Z :=
  match v with
  | SAFETY_VALIDATE_OK => 0
  | SAFETY_VALIDATE_BAD_MAGIC => 1
  | SAFETY_VALIDATE_BAD_VERSION => 2
  | SAFETY_VALIDATE_BAD_LENGTH => 3
  | SAFETY_VALIDATE_BAD_CHECKSUM => 4
  end.

(** ** Frame assembly *)

Record ParsedFrame := mkParsed {
  header : SafetyFrameHeader;
  pf_payload : list Z;
  validate_result : safety_validate_result;
}.

Definition pf_ok (f : ParsedFrame) : bool := bool_decide (validate_result f = SAFETY_VALIDATE_OK).
Definition pf_type (f : ParsedFrame) : Z := type (header f).
Definition pf_seq (f : ParsedFrame) : Z := sequence_id (header f).
Definition pf_ts_ms (f : ParsedFrame) : Z := timestamp_ms (header f).

(** Skip bytes until the magic, or until fewer than two are left. *)
Fixpoint hunt (rest : list Z) : list Z :=
  match rest with
  | b0 :: ((b1 :: _) as tl) =>
      if le_value [b0; b1] =? SAFETY_PROTO_MAGIC then rest else hunt tl
  | _ => rest
  end.

(** The loop of [FrameAssembler::feed]: the frames it appends and the bytes it
    keeps. *)
Fixpoint assemble (fuel : nat) (rest : list Z) : list ParsedFrame * list Z :=
  match fuel with
  | O => ([], rest)
  | S fuel =>
      let rest := hunt rest in
      let avail := Z.of_nat (length rest) in
      if avail <? 2 then ([], rest)
      else if avail <? SAFETY_HEADER_SIZE then ([], rest)
      else
        let hdr := header_of_bytes rest in
        if payload_length hdr >? SAFETY_MAX_PAYLOAD then
          let r := assemble fuel (tail rest) in
          (mkParsed hdr [] SAFETY_VALIDATE_BAD_LENGTH :: r.1, r.2)
        else
          let total := SAFETY_HEADER_SIZE + payload_length hdr in
          if avail <? total then ([], rest)
          else
            let f := mkParsed hdr (slice 16 (Z.to_nat (payload_length hdr)) rest)
                       (safety_frame_validate rest total) in
            let r := assemble fuel (drop (Z.to_nat total) rest) in
            (f :: r.1, r.2)
  end.

(** Every round but the last drops a byte, so one round per byte and one more
    are enough. *)
Definition FrameAssembler_feed (buf data : list Z) : list ParsedFrame * list Z :=
  assemble (S (length (buf ++ data))) (buf ++ data).

(** The loop of [LinkFramer::feed]. *)
Fixpoint link_assemble (fuel : nat) (rest : list Z) : list (list Z) * list Z :=
  match fuel with
  | O => ([], rest)
  | S fuel =>
      let rest := hunt rest in
      let avail := Z.of_nat (length rest) in
      if avail <? 2 then ([], rest)
      else if avail <? SAFETY_HEADER_SIZE then ([], rest)
      else
        let hdr := header_of_bytes rest in
        if payload_length hdr >? SAFETY_MAX_PAYLOAD then link_assemble fuel (tail rest)
        else
          let total := SAFETY_HEADER_SIZE + payload_length hdr in
          if avail <? total then ([], rest)
          else
            let r := link_assemble fuel (drop (Z.to_nat total) rest) in
            (take (Z.to_nat total) rest :: r.1, r.2)
  end.

Definition LinkFramer_feed (buf data : list Z) : list (list Z) * list Z :=
  link_assemble (S (length (buf ++ data))) (buf ++ data).

(** ** Frame builders *)

Definition pack_frame (ty seq ts_ms : Z) (payload : list Z) : list Z :=
  let payload_len := Z.of_nat (length payload) in
  let hdr := safety_frame_init ty seq payload_len ts_ms in
  let hdr := hdr <| checksum := safety_frame_compute_checksum hdr (Some payload) payload_len |> in
  header_bytes hdr ++ payload.

Definition build_heartbeat (seq ts_ms up beat : Z) : list Z :=
  pack_frame SAFETY_FRAME_HEARTBEAT seq ts_ms (heartbeat_bytes (mkHeartbeat up beat)).

Definition build_ack (seq ts_ms acked_seq : Z) : list Z :=
  pack_frame SAFETY_FRAME_ACK seq ts_ms (ack_bytes (mkAck acked_seq 0)).

Definition build_nack (seq ts_ms nacked_seq rsn : Z) : list Z :=
  pack_frame SAFETY_FRAME_NACK seq ts_ms (nack_bytes (mkNack nacked_seq rsn 0)).

Definition build_command (seq ts_ms cmd a8 a16 a32 : Z) : list Z :=
  pack_frame SAFETY_FRAME_COMMAND seq ts_ms (command_bytes (mkCommand cmd a8 a16 a32)).

(** ** Duplicates and retries *)

(** [seen_] is a [std::set] of pairs of type and sequence number. *)
Definition is_duplicate (seen : gset (Z * Z)) (ty seq : Z) : bool * gset (Z * Z) :=
  (bool_decide ((ty, seq) ∈ seen), {[(ty, seq)]} ∪ seen).

(** [entries_]: sequence number and count, [unsigned]. *)
Fixpoint retry_bump (entries : list (Z * Z)) (seq : Z) : Z * list (Z * Z) :=
  match entries with
  | [] => (1, [(seq, 1)])
  | e :: entries =>
      if e.1 =? seq then (u32 (e.2 + 1), (e.1, u32 (e.2 + 1)) :: entries)
      else let r := retry_bump entries seq in (r.1, e :: r.2)
  end.

Fixpoint retry_count_of (entries : list (Z * Z)) (seq : Z) : Z :=
  match entries with
  | [] => 0
  | e :: entries => if e.1 =? seq then e.2 else retry_count_of entries seq
  end.

Definition retry_clear (entries : list (Z * Z)) (seq : Z) : list (Z * Z) :=
  filter (fun e => e.1 <> seq) entries.

(** ** Health state machine *)

Inductive HealthState := BOOTING | HEALTHY | DEGRADED | RECOVERING | FAILED | SAFE_MODE.

Inductive HealthEvent :=
  | HEARTBEAT_OK | HEARTBEAT_TIMEOUT | RECOVERY_SENT
  | HEARTBEAT_RESTORED | RECOVERY_FAILED | CRITICAL_FAULT.

#[global] Instance HealthState_eq_dec : EqDecision HealthState.
Proof. solve_decision. Defined.
#[global] Instance HealthEvent_eq_dec : EqDecision HealthEvent.
Proof. solve_decision. Defined.

Record TransitionResult := mkTransition {
  valid : bool; from : HealthState; to : HealthState; event : HealthEvent }.

Definition state_name (s : HealthState) : string :=
  match s with
  | BOOTING => "BOOTING" | HEALTHY => "HEALTHY" | DEGRADED => "DEGRADED"
  | RECOVERING => "RECOVERING" | FAILED => "FAILED" | SAFE_MODE => "SAFE_MODE"
  end.

Definition event_name (e : HealthEvent) : string :=
  match e with
  | HEARTBEAT_OK => "HEARTBEAT_OK" | HEARTBEAT_TIMEOUT => "HEARTBEAT_TIMEOUT"
  | RECOVERY_SENT => "RECOVERY_SENT" | HEARTBEAT_RESTORED => "HEARTBEAT_RESTORED"
  | RECOVERY_FAILED => "RECOVERY_FAILED" | CRITICAL_FAULT => "CRITICAL_FAULT"
  end.

(** The [switch] of [HealthStateMachine::apply]: [r.to]. *)
Definition fsm_target (s : HealthState) (e : HealthEvent) : HealthState :=
  match s with
  | BOOTING => if decide (e = HEARTBEAT_OK) then HEALTHY else s
  | HEALTHY =>
      if decide (e = HEARTBEAT_TIMEOUT) then DEGRADED
      else if decide (e = CRITICAL_FAULT) then SAFE_MODE else s
  | DEGRADED =>
      if decide (e = RECOVERY_SENT) then RECOVERING
      else if decide (e = RECOVERY_FAILED) then FAILED
      else if decide (e = CRITICAL_FAULT) then SAFE_MODE else s
  | RECOVERING =>
      if decide (e = HEARTBEAT_RESTORED) then HEALTHY
      else if decide (e = RECOVERY_FAILED) then FAILED else s
  | FAILED | SAFE_MODE => s
  end.

(** The result and the new [state_]; the hook is called by the caller. *)
Definition fsm_apply (s : HealthState) (e : HealthEvent) : TransitionResult * HealthState :=
  let t := fsm_target s e in
  let v := negb (bool_decide (t = s)) in
  (mkTransition v s t e, if v then t else s).
