(* ===== verification/Framing.v ===== *)
(** * Frame assembly in the supervisor and the link daemon

    The assembler does not depend on how the stream is cut into reads, delivers
    back-to-back frames whole, and agrees with the framer of the link daemon. *)

From stdpp Require Import gmap.
From S2P Require Import Prelude Crc32 Protocol Supervisor.

(** ** The loop without fuel *)

Definition frames_of (rest : list Z) : list ParsedFrame * list Z :=
  assemble (S (length rest)) rest.

Definition push_frame (f : ParsedFrame) (r : list ParsedFrame * list Z) :
    list ParsedFrame * list Z := (f :: r.1, r.2).

(** The bytes after the hunt, and what the loop does with them. *)
Inductive scan :=
  | ScanShort                                     (* wait for more bytes *)
  | ScanBad (hdr : SafetyFrameHeader)             (* length out of range *)
  | ScanFrame (hdr : SafetyFrameHeader) (total : nat).

Definition scan_of (rest : list Z) : scan :=
  let avail := Z.of_nat (length rest) in
  if avail <? SAFETY_HEADER_SIZE then ScanShort
  else
    let hdr := header_of_bytes rest in
    if payload_length hdr >? SAFETY_MAX_PAYLOAD then ScanBad hdr
    else if avail <? SAFETY_HEADER_SIZE + payload_length hdr then ScanShort
    else ScanFrame hdr (Z.to_nat (SAFETY_HEADER_SIZE + payload_length hdr)).

Definition parsed (hdr : SafetyFrameHeader) (total : nat) (rest : list Z) : ParsedFrame :=
  mkParsed hdr (slice 16 (total - 16) rest) (safety_frame_validate rest (Z.of_nat total)).

Lemma field_nonneg off n buf : bytes_ok buf -> 0 <= field off n buf.
Proof.
  intros Hb. unfold field. apply (le_value_range (slice off n buf)). unfold slice.
  by apply bytes_ok_take, bytes_ok_drop.
Qed.

Lemma payload_length_nonneg rest : bytes_ok rest -> 0 <= payload_length (header_of_bytes rest).
Proof. apply field_nonneg. Qed.

Lemma hunt_cons b0 b1 tl :
  hunt (b0 :: b1 :: tl) =
  if le_value [b0; b1] =? SAFETY_PROTO_MAGIC then b0 :: b1 :: tl else hunt (b1 :: tl).
Proof. done. Qed.

Lemma hunt_suffix rest : exists junk, rest = junk ++ hunt rest.
Proof.
  induction rest as [|b0 [|b1 tl] IH]; [by exists []..|].
  rewrite hunt_cons. destruct (_ =? _); [by exists []|].
  destruct IH as [junk IH]. exists (b0 :: junk). cbn [app]. by rewrite <- IH.
Qed.

Lemma bytes_ok_hunt rest : bytes_ok rest -> bytes_ok (hunt rest).
Proof.
  intros Hb. destruct (hunt_suffix rest) as [junk E]. rewrite E in Hb.
  by apply bytes_ok_app in Hb as [_ ?].
Qed.

Lemma length_hunt rest : (length (hunt rest) <= length rest)%nat.
Proof.
  destruct (hunt_suffix rest) as [junk E]. rewrite E at 2. rewrite length_app. lia.
Qed.
#[local] Hint Resolve bytes_ok_hunt : safety.

Lemma assemble_step fuel rest :
  bytes_ok rest ->
  assemble (S fuel) rest =
  match scan_of (hunt rest) with
  | ScanShort => ([], hunt rest)
  | ScanBad hdr => push_frame (mkParsed hdr [] SAFETY_VALIDATE_BAD_LENGTH) (assemble fuel (tail (hunt rest)))
  | ScanFrame hdr total => push_frame (parsed hdr total (hunt rest)) (assemble fuel (drop total (hunt rest)))
  end.
Proof.
  intros Hb. cbn [assemble]. unfold scan_of, SAFETY_HEADER_SIZE.
  destruct (Z.ltb_spec (Z.of_nat (length (hunt rest))) 2).
  - replace (_ <? 16) with true by (symmetry; apply Z.ltb_lt; lia). done.
  - destruct (_ <? 16); [done|]. destruct (_ >? _) eqn:E; [done|].
    destruct (_ <? _); [done|]. unfold push_frame, parsed.
    pose proof (payload_length_nonneg _ (bytes_ok_hunt _ Hb)).
    set (n := payload_length _) in *. rewrite Z2Nat.id by lia.
    by replace (Z.to_nat (16 + n) - 16)%nat with (Z.to_nat n) by lia.
Qed.

Lemma scan_frame_inv rest hdr total :
  bytes_ok rest -> scan_of rest = ScanFrame hdr total ->
  hdr = header_of_bytes rest /\ (16 <= total <= length rest)%nat /\
  Z.of_nat total = 16 + payload_length hdr /\ payload_length hdr <= 256.
Proof.
  intros Hb. pose proof (payload_length_nonneg rest Hb). unfold scan_of, SAFETY_HEADER_SIZE.
  destruct (Z.ltb_spec (Z.of_nat (length rest)) 16); [done|].
  destruct (_ >? _) eqn:E; [done|]. rewrite Z.gtb_ltb in E. apply Z.ltb_ge in E.
  destruct (Z.ltb_spec (Z.of_nat (length rest)) (16 + payload_length (header_of_bytes rest))); [done|].
  intros E'. injection E' as <- <-. change (field 6 2 rest) with (payload_length (header_of_bytes rest)) in *.
  unfold SAFETY_MAX_PAYLOAD in E. split; [done|]. lia.
Qed.

Lemma scan_bad_inv rest hdr :
  scan_of rest = ScanBad hdr ->
  hdr = header_of_bytes rest /\ (16 <= length rest)%nat /\ 256 < payload_length hdr.
Proof.
  unfold scan_of, SAFETY_HEADER_SIZE, SAFETY_MAX_PAYLOAD.
  destruct (Z.ltb_spec (Z.of_nat (length rest)) 16); [done|].
  destruct (_ >? _) eqn:E; [|by destruct (_ <? _)]. rewrite Z.gtb_ltb in E. apply Z.ltb_lt in E.
  intros [= <-]. split; [done|]. lia.
Qed.

(** Enough fuel is as good as any. *)
Lemma assemble_fuel fuel rest :
  bytes_ok rest -> (length rest < fuel)%nat -> assemble fuel rest = frames_of rest.
Proof.
  unfold frames_of. remember (length rest) as n eqn:Hn. revert fuel rest Hn.
  induction (lt_wf n) as [n _ IH]. intros fuel rest -> Hb Hf.
  destruct fuel as [|fuel]; [lia|]. rewrite !assemble_step by done.
  pose proof (length_hunt rest). pose proof (bytes_ok_hunt rest Hb).
  assert (forall k, bytes_ok (drop k (hunt rest)) -> (length (drop k (hunt rest)) < length rest)%nat ->
            assemble fuel (drop k (hunt rest)) = assemble (length rest) (drop k (hunt rest))) as Hk.
  { intros k Hbk Hlk. rewrite (IH _ Hlk fuel) by (done || lia). symmetry. by apply (IH _ Hlk). }
  destruct (scan_of (hunt rest)) as [|hdr|hdr total] eqn:E; [done| |]; f_equal.
  - apply scan_bad_inv in E. change (tail (hunt rest)) with (drop 1 (hunt rest)).
    apply Hk; [auto with safety|]. rewrite length_drop. lia.
  - apply scan_frame_inv in E; [|done]. apply Hk; [auto with safety|]. rewrite length_drop. lia.
Qed.

Lemma frames_of_step rest :
  bytes_ok rest ->
  frames_of rest =
  match scan_of (hunt rest) with
  | ScanShort => ([], hunt rest)
  | ScanBad hdr => push_frame (mkParsed hdr [] SAFETY_VALIDATE_BAD_LENGTH) (frames_of (tail (hunt rest)))
  | ScanFrame hdr total => push_frame (parsed hdr total (hunt rest)) (frames_of (drop total (hunt rest)))
  end.
Proof.
  intros Hb. unfold frames_of at 1. rewrite assemble_step by done.
  pose proof (length_hunt rest). pose proof (bytes_ok_hunt rest Hb).
  destruct (scan_of (hunt rest)) as [|hdr|hdr total] eqn:E; [done| |].
  - apply scan_bad_inv in E. change (tail (hunt rest)) with (drop 1 (hunt rest)).
    rewrite assemble_fuel; [done|auto with safety|rewrite length_drop; lia].
  - apply scan_frame_inv in E; [|done].
    rewrite assemble_fuel; [done|auto with safety|rewrite length_drop; lia].
Qed.

Lemma feed_frames buf data :
  bytes_ok (buf ++ data) -> FrameAssembler_feed buf data = frames_of (buf ++ data).
Proof. done. Qed.

(** ** More bytes *)

Lemma hunt_app rest more : hunt (rest ++ more) = hunt (hunt rest ++ more).
Proof.
  induction rest as [|b0 [|b1 tl] IH]; [done|done|].
  rewrite (hunt_cons b0 b1 tl). cbn [app]. rewrite hunt_cons.
  destruct (_ =? _) eqn:E; [cbn [app]; by rewrite hunt_cons, E|]. exact IH.
Qed.

(** What the hunt stops at does not move when bytes arrive. *)
Lemma hunt_stop rest more :
  (2 <= length (hunt rest))%nat -> hunt (rest ++ more) = hunt rest ++ more.
Proof.
  induction rest as [|b0 [|b1 tl] IH]; [simpl; lia|simpl; lia|].
  cbn [app]. rewrite !hunt_cons. destruct (_ =? _) eqn:E; [done|]. exact IH.
Qed.

Lemma scan_app rest more :
  bytes_ok rest -> scan_of rest <> ScanShort -> scan_of (rest ++ more) = scan_of rest.
Proof.
  intros Hb. pose proof (payload_length_nonneg rest Hb). unfold scan_of, SAFETY_HEADER_SIZE.
  destruct (Z.ltb_spec (Z.of_nat (length rest)) 16); [done|]. intros Hs.
  rewrite length_app, (proj2 (Z.ltb_ge _ _)), header_of_bytes_app by lia.
  destruct (_ >? _); [done|].
  destruct (Z.ltb_spec (Z.of_nat (length rest)) (16 + payload_length (header_of_bytes rest))); [done|].
  by rewrite (proj2 (Z.ltb_ge _ _)) by lia.
Qed.

(** Validation reads the frame and nothing after it. *)
Lemma validate_app rest more n :
  bytes_ok rest -> n <= Z.of_nat (length rest) ->
  safety_frame_validate (rest ++ more) n = safety_frame_validate rest n.
Proof.
  intros Hb Hn. unfold safety_frame_validate, SAFETY_HEADER_SIZE.
  destruct (Z.ltb_spec n 16); [done|]. rewrite header_of_bytes_app by lia.
  pose proof (payload_length_nonneg rest Hb).
  repeat (destruct (negb _); [done|]). destruct (_ >? _); [done|].
  destruct (Z.ltb_spec n (16 + payload_length (header_of_bytes rest))); [done|].
  unfold safety_frame_compute_checksum. rewrite drop_app_le by lia.
  rewrite take_app_le; [done|]. rewrite length_drop. lia.
Qed.

Lemma parsed_app hdr total rest more :
  bytes_ok rest -> (16 <= total <= length rest)%nat ->
  parsed hdr total (rest ++ more) = parsed hdr total rest.
Proof.
  intros Hb Ht. unfold parsed. f_equal.
  - unfold slice. rewrite drop_app_le, take_app_le; [done| |lia]. rewrite length_drop. lia.
  - apply validate_app; [done|lia].
Qed.

Lemma frames_of_app a b :
  bytes_ok (a ++ b) ->
  frames_of (a ++ b) =
  (((frames_of a).1 ++ (frames_of ((frames_of a).2 ++ b)).1), (frames_of ((frames_of a).2 ++ b)).2).
Proof.
  intros [Ha Hb]%bytes_ok_app. remember (length a) as n eqn:Hn. revert a Hn Ha.
  induction (lt_wf n) as [n _ IH]. intros a -> Ha.
  assert (bytes_ok (a ++ b)) as Hab by (by apply bytes_ok_app).
  pose proof (bytes_ok_hunt a Ha) as Hh. pose proof (length_hunt a) as Hl.
  rewrite (frames_of_step a Ha). destruct (scan_of (hunt a)) as [|hdr|hdr total] eqn:E.
  - cbn [fst snd app]. rewrite <- surjective_pairing.
    rewrite (frames_of_step (a ++ b) Hab), (frames_of_step (hunt a ++ b)), hunt_app; [done|].
    by apply bytes_ok_app.
  - pose proof (scan_bad_inv _ _ E) as (_ & Hlen & _).
    rewrite (frames_of_step (a ++ b) Hab), hunt_stop by lia.
    rewrite scan_app, E by (done || congruence). unfold push_frame. cbn [fst snd].
    change (tail (hunt a ++ b)) with (drop 1 (hunt a ++ b)). rewrite drop_app_le by lia.
    change (tail (hunt a)) with (drop 1 (hunt a)).
    rewrite (IH (length (drop 1 (hunt a)))); [done| |done|auto with safety].
    rewrite length_drop. lia.
  - pose proof (scan_frame_inv _ _ _ Hh E) as (_ & Hlen & _).
    rewrite (frames_of_step (a ++ b) Hab), hunt_stop by lia.
    rewrite scan_app, E by (done || congruence). unfold push_frame. cbn [fst snd].
    rewrite parsed_app, drop_app_le by (done || lia).
    rewrite (IH (length (drop total (hunt a)))); [done| |done|auto with safety].
    rewrite length_drop. lia.
Qed.

(** ** A stream in reads *)

(** The assembler over successive reads. *)
Fixpoint feed_reads (buf : list Z) (reads : list (list Z)) : list ParsedFrame * list Z :=
  match reads with
  | [] => ([], buf)
  | data :: reads =>
      let r := FrameAssembler_feed buf data in
      let r' := feed_reads r.2 reads in
      (r.1 ++ r'.1, r'.2)
  end.

(** What is kept gives no frame by itself. *)
Lemma frames_of_rest a : bytes_ok a -> frames_of (frames_of a).2 = ([], (frames_of a).2).
Proof.
  intros Ha. pose proof (frames_of_app a [] ltac:(by rewrite app_nil_r)) as H.
  rewrite !app_nil_r in H. destruct (frames_of a) as [o r]. cbn [fst snd] in *.
  destruct (frames_of r) as [o' r']. cbn [fst snd] in *. injection H as Ho ->.
  f_equal. symmetry in Ho. rewrite <- (app_nil_r o) in Ho at 2. by apply app_inv_head in Ho.
Qed.

Lemma bytes_ok_kept a : bytes_ok a -> bytes_ok (frames_of a).2.
Proof.
  remember (length a) as n eqn:Hn. revert a Hn.
  induction (lt_wf n) as [n _ IH]. intros a -> Ha. rewrite frames_of_step by done.
  pose proof (bytes_ok_hunt a Ha) as Hh. pose proof (length_hunt a).
  destruct (scan_of (hunt a)) as [|hdr|hdr total] eqn:E; [done| |]; unfold push_frame; cbn [snd].
  - apply scan_bad_inv in E as (_ & Hlen & _). change (tail (hunt a)) with (drop 1 (hunt a)).
    eapply (IH (length (drop 1 (hunt a)))); [rewrite length_drop; lia|done|auto with safety].
  - apply scan_frame_inv in E as (_ & Hlen & _); [|done].
    eapply (IH (length (drop total (hunt a)))); [rewrite length_drop; lia|done|auto with safety].
Qed.

Lemma feed_reads_concat buf reads :
  bytes_ok buf -> Forall bytes_ok reads -> frames_of buf = ([], buf) ->
  feed_reads buf reads = frames_of (buf ++ concat reads).
Proof.
  intros Hb HF. revert buf Hb. induction HF as [|d reads Hd HF IH]; intros buf Hb Hbuf; cbn [feed_reads concat].
  - by rewrite app_nil_r.
  - assert (bytes_ok (buf ++ d)) as Hbd by (by apply bytes_ok_app).
    assert (bytes_ok (concat reads)) as Hc.
    { clear -HF. induction HF; [constructor|]. by apply bytes_ok_app. }
    change (FrameAssembler_feed buf d) with (frames_of (buf ++ d)).
    rewrite IH; [|by apply bytes_ok_kept|by apply frames_of_rest].
    rewrite app_assoc, (frames_of_app (buf ++ d) (concat reads)); [done|by apply bytes_ok_app].
Qed.

(** ** Valid frames *)

Definition received (h : SafetyFrameHeader) (p : list Z) : ParsedFrame :=
  mkParsed (seal h p) p SAFETY_VALIDATE_OK.

Lemma magic_value : (le_value [70; 83] =? SAFETY_PROTO_MAGIC) = true.
Proof. reflexivity. Qed.

Lemma hunt_frame h p rest : frame_ok h p -> hunt (frame_bytes h p ++ rest) = frame_bytes h p ++ rest.
Proof.
  intros (Hh & Hm & _). unfold frame_bytes, header_bytes.
  change (magic (seal h p)) with (magic h). rewrite Hm.
  change (le_bytes 2 SAFETY_PROTO_MAGIC) with [70; 83]. cbn [app].
  by rewrite hunt_cons, magic_value.
Qed.

Lemma scan_frame h p rest :
  frame_ok h p -> scan_of (frame_bytes h p ++ rest) = ScanFrame (seal h p) (16 + length p).
Proof.
  intros (Hh & Hm & Hv & Hl & Hmax & Hp). unfold scan_of, SAFETY_HEADER_SIZE.
  rewrite length_app, length_frame_bytes, (proj2 (Z.ltb_ge _ _)), frame_header by (done || lia).
  change (payload_length (seal h p)) with (payload_length h). rewrite Hl in *.
  rewrite Z.gtb_ltb, (proj2 (Z.ltb_ge _ _)), (proj2 (Z.ltb_ge _ _)) by lia.
  f_equal. lia.
Qed.

Lemma frames_of_frame h p rest :
  frame_ok h p -> bytes_ok rest ->
  frames_of (frame_bytes h p ++ rest) = push_frame (received h p) (frames_of rest).
Proof.
  intros Hok Hrest. assert (bytes_ok p) as Hp by apply Hok.
  assert (bytes_ok (frame_bytes h p ++ rest)) as Hb
    by (apply bytes_ok_app; split; [by apply bytes_ok_frame|done]).
  rewrite frames_of_step, hunt_frame, scan_frame by done. unfold parsed, received.
  rewrite drop_app_ge, validate_frame, length_frame_bytes by (done || (rewrite ?length_frame_bytes; lia)).
  rewrite Nat.sub_diag. do 2 f_equal.
  unfold slice. rewrite drop_frame_bytes. replace (16 + length p - 16)%nat with (length p) by lia.
  by rewrite take_app_length.
Qed.

(** A stream of valid frames, back to back. *)
Definition stream (l : list (SafetyFrameHeader * list Z)) : list Z :=
  concat ((fun hp => frame_bytes hp.1 hp.2) <$> l).

Lemma bytes_ok_stream l : Forall (fun hp => frame_ok hp.1 hp.2) l -> bytes_ok (stream l).
Proof.
  induction 1 as [|[h p] l Hok _ IH]; [constructor|]. apply bytes_ok_app. split; [|done].
  apply bytes_ok_frame, Hok.
Qed.

Lemma frames_of_stream l :
  Forall (fun hp => frame_ok hp.1 hp.2) l ->
  frames_of (stream l) = ((fun hp => received hp.1 hp.2) <$> l, []).
Proof.
  induction 1 as [|[h p] l Hok HF IH]; [done|]. cbn [stream fmap list_fmap concat].
  rewrite frames_of_frame by (done || by apply bytes_ok_stream).
  change (concat _) with (stream l). by rewrite IH.
Qed.

(** ** The framer of the link daemon *)

Definition frame_image (f : ParsedFrame) : list Z := header_bytes (header f) ++ pf_payload f.

(** The frames the link daemon passes on. *)
Definition forwarded (fs : list ParsedFrame) : list (list Z) :=
  frame_image <$> filter (fun f => validate_result f <> SAFETY_VALIDATE_BAD_LENGTH) fs.

Lemma link_assemble_step fuel rest :
  link_assemble (S fuel) rest =
  match scan_of (hunt rest) with
  | ScanShort => ([], hunt rest)
  | ScanBad _ => link_assemble fuel (tail (hunt rest))
  | ScanFrame _ total =>
      let r := link_assemble fuel (drop total (hunt rest)) in
      (take total (hunt rest) :: r.1, r.2)
  end.
Proof.
  cbn [link_assemble]. unfold scan_of, SAFETY_HEADER_SIZE.
  destruct (Z.ltb_spec (Z.of_nat (length (hunt rest))) 2).
  - replace (_ <? 16) with true by (symmetry; apply Z.ltb_lt; lia). done.
  - destruct (_ <? 16); [done|]. destruct (_ >? _); [done|]. by destruct (_ <? _).
Qed.

Lemma validate_in_range rest :
  bytes_ok rest -> forall hdr total, scan_of rest = ScanFrame hdr total ->
  safety_frame_validate rest (Z.of_nat total) <> SAFETY_VALIDATE_BAD_LENGTH.
Proof.
  intros Hb hdr total (-> & Ht & E & Hm)%scan_frame_inv; [|done].
  unfold safety_frame_validate, SAFETY_HEADER_SIZE, SAFETY_MAX_PAYLOAD.
  rewrite (proj2 (Z.ltb_ge _ _)) by lia.
  repeat (destruct (negb _); [done|]). rewrite Z.gtb_ltb, (proj2 (Z.ltb_ge _ _)) by lia.
  rewrite (proj2 (Z.ltb_ge _ _)) by lia. by destruct (negb _).
Qed.

Lemma parsed_image hdr total rest :
  bytes_ok rest -> scan_of rest = ScanFrame hdr total ->
  frame_image (parsed hdr total rest) = take total rest.
Proof.
  intros Hb (-> & Ht & _)%scan_frame_inv; [|done]. unfold frame_image, parsed, slice.
  cbn [header pf_payload]. rewrite header_bytes_of by (done || lia).
  replace total with (16 + (total - 16))%nat at 2 by lia. by rewrite take_take_drop.
Qed.

Lemma link_assemble_frames fuel rest :
  bytes_ok rest ->
  link_assemble fuel rest = (forwarded (assemble fuel rest).1, (assemble fuel rest).2).
Proof.
  revert rest. induction fuel as [|fuel IH]; intros rest Hb; [done|].
  rewrite link_assemble_step, assemble_step by done. pose proof (bytes_ok_hunt rest Hb) as Hh.
  destruct (scan_of (hunt rest)) as [|hdr|hdr total] eqn:E; [done| |]; unfold push_frame; cbn [fst snd].
  - change (tail (hunt rest)) with (drop 1 (hunt rest)). rewrite IH by auto with safety. done.
  - rewrite IH by auto with safety. unfold forwarded. rewrite filter_cons, decide_True.
    + cbn [fmap list_fmap fst snd]. by rewrite parsed_image.
    + by eapply validate_in_range.
Qed.

Lemma forwarded_app fs1 fs2 : forwarded (fs1 ++ fs2) = forwarded fs1 ++ forwarded fs2.
Proof. unfold forwarded. by rewrite filter_app, fmap_app. Qed.

Lemma forwarded_received l :
  forwarded ((fun hp => received hp.1 hp.2) <$> l) = (fun hp => frame_bytes hp.1 hp.2) <$> l.
Proof.
  unfold forwarded. induction l as [|[h p] l IH]; [done|]. cbn [fmap list_fmap].
  rewrite filter_cons, decide_True by done. cbn [fmap list_fmap]. by rewrite IH.
Qed.
