(* ===== verification/SupervisorLoop.v ===== *)
(** * Supervisor, live mode: [userspace/safety-supervisord/event_loop.cpp] and
    [recovery_worker.cpp]

    The event loop and the recovery worker are two threads on one world.  What
    a mutex protects is one action; the worker unlocks to send and to report.
    The system clock and the outcome of a [write] to the device are parameters. *)

From stdpp Require Import gmap.
From S2P Require Import Prelude Protocol Supervisor.

(** ** Log and recovery messages *)

Inductive LogKind :=
  | RX_FRAME | TX_ACK | TX_NACK | TX_COMMAND | TIMEOUT
  | STATE_CHANGE | DUPLICATE | CHECKSUM_ERROR | RECOVERY_RESULT.

#[global] Instance LogKind_eq_dec : EqDecision LogKind.
Proof. solve_decision. Defined.

Record LogEvent := mkLog {
  log_ts_ms : Z; log_kind : LogKind; frame_type : string; log_seq : Z;
  fault : string; from_state : string; to_state : string; detail : string }.

(** An event with the given fields and the defaults of [struct LogEvent]. *)
Definition log_event (ts : Z) (k : LogKind) (ft : string) (seq : Z) (dt : string) : LogEvent :=
  mkLog ts k ft seq "" "" "" dt.

(** What the transition hooks of [run_live], [run_mock] and [run_replay] log. *)
Definition hook_event (r : TransitionResult) : LogEvent :=
  mkLog 0 STATE_CHANGE "" (- 1) "" (state_name (from r)) (state_name (to r)) (event_name (event r)).

Inductive RecoveryOutcome := SENT | SUCCESS | OUTCOME_FAILED.

#[global] Instance RecoveryOutcome_eq_dec : EqDecision RecoveryOutcome.
Proof. solve_decision. Defined.

Record RecoveryReport := mkReport { outcome : RecoveryOutcome; rep_seq : Z; rep_ts_ms : Z }.

Inductive RequestKind := RECOVER | RESTORED.

#[global] Instance RequestKind_eq_dec : EqDecision RequestKind.
Proof. solve_decision. Defined.

Record Request := mkRequest { req_kind : RequestKind; req_seq : Z; req_ts_ms : Z }.

(** Where the worker thread stands: at the top of its loop, after the timed
    wait, before the inner [while] (lock taken again), or returned. *)
Inductive worker_pc := Top | Woken | Inner | Exited.

#[global] Instance worker_pc_eq_dec : EqDecision worker_pc.
Proof. solve_decision. Defined.

(** ** The environment *)

Class SvEnv := {
  steady_now_ms : nat -> Z;         (* the n-th reading of the steady clock *)
  device_write_ok : nat -> bool;    (* whether the n-th [send_out] succeeds *)
  heartbeat_timeout_ms : Z;         (* the option; also the recovery deadline *)
}.

Section Loop.
Context {E : SvEnv}.

Record sv := mkSv {
  fsm : HealthState;
  asm_buf : list Z;                    (* FrameAssembler::buf_ *)
  seen_ : gset (Z * Z);                (* DuplicateDetector::seen_ *)
  tx_seq_ : Z;                         (* uint16_t *)
  timer_starts : nat;                  (* timerfd_settime calls so far *)
  logged : list LogEvent;              (* LoggerWorker::push, in order *)
  sent : list (list Z);                (* DeviceClient::send_out, in order *)
  queue_ : list Request;
  stopping_ : bool;
  active_ : bool;
  active_seq_ : Z;
  deadline_at_ms_ : Z;
  reports_ : list RecoveryReport;
  clock : nat;                         (* clock readings so far *)
  pc : worker_pc;
  timed_waits : nat;                   (* cv_.wait_until calls so far *)
}.

#[global] Instance sv_rebuild : Rebuild sv :=
  fun s => mkSv (fsm s) (asm_buf s) (seen_ s) (tx_seq_ s) (timer_starts s) (logged s) (sent s)
             (queue_ s) (stopping_ s) (active_ s) (active_seq_ s) (deadline_at_ms_ s)
             (reports_ s) (clock s) (pc s) (timed_waits s).
#[global] Instance update_fsm : Update fsm := ltac:(derive_update).
#[global] Instance update_asm_buf : Update asm_buf := ltac:(derive_update).
#[global] Instance update_seen : Update seen_ := ltac:(derive_update).
#[global] Instance update_tx_seq : Update tx_seq_ := ltac:(derive_update).
#[global] Instance update_timer_starts : Update timer_starts := ltac:(derive_update).
#[global] Instance update_logged : Update logged := ltac:(derive_update).
#[global] Instance update_sent : Update sent := ltac:(derive_update).
#[global] Instance update_queue : Update queue_ := ltac:(derive_update).
#[global] Instance update_stopping : Update stopping_ := ltac:(derive_update).
#[global] Instance update_active : Update active_ := ltac:(derive_update).
#[global] Instance update_active_seq : Update active_seq_ := ltac:(derive_update).
#[global] Instance update_deadline : Update deadline_at_ms_ := ltac:(derive_update).
#[global] Instance update_reports : Update reports_ := ltac:(derive_update).
#[global] Instance update_clock : Update clock := ltac:(derive_update).
#[global] Instance update_pc : Update pc := ltac:(derive_update).
#[global] Instance update_timed_waits : Update timed_waits := ltac:(derive_update).

Definition sv_get {A} (f : sv -> A) : prog sv A := atomic (fun s => (f s, s)).
Definition sv_set (f : sv -> sv) : prog sv unit := atomic (fun s => (tt, f s)).

(** ** Services of the two threads *)

Definition now_ms : prog sv Z := atomic (fun s => (steady_now_ms (clock s), s <| clock ::= S |>)).

Definition logger_push (e : LogEvent) : prog sv unit :=
  sv_set (fun s => s <| logged ::= fun l => l ++ [e] |>).

Definition send_out (data : list Z) : prog sv bool :=
  atomic (fun s => (device_write_ok (length (sent s)), s <| sent ::= fun l => l ++ [data] |>)).

(** [tx_seq_++] *)
Definition next_tx_seq : prog sv Z :=
  atomic (fun s => (tx_seq_ s, s <| tx_seq_ ::= fun x => u16 (x + 1) |>)).

Definition arm_heartbeat_timer : prog sv unit := sv_set (fun s => s <| timer_starts ::= S |>).

(** [fsm_.apply] with the hook of [run_live]. *)
Definition sv_apply (e : HealthEvent) : prog sv TransitionResult :=
  r ← atomic (fun s => let r := fsm_apply (fsm s) e in (r.1, s <| fsm := r.2 |>));
  _ ← (if valid r then logger_push (hook_event r) else mret tt);
  mret r.

(** ** Recovery worker *)

Definition request_recovery (seq now : Z) : prog sv unit :=
  sv_set (fun s => s <| queue_ ::= fun q => q ++ [mkRequest RECOVER seq now] |>).

Definition notify_heartbeat_restored (now : Z) : prog sv unit :=
  sv_set (fun s => s <| queue_ ::= fun q => q ++ [mkRequest RESTORED 0 now] |>).

Definition post_recovery_report (rep : RecoveryReport) : prog sv unit :=
  sv_set (fun s => s <| reports_ ::= fun l => l ++ [rep] |>).

Definition worker_stop : prog sv unit := sv_set (fun s => s <| stopping_ := true |>).

(** What the worker does once it has unlocked. *)
Inductive worker_next :=
  | WSend (seq ts : Z)
  | WReport (rep : RecoveryReport)
  | WNothing.

(** The inner [while] and the check of the deadline, under the lock. *)
Fixpoint worker_drain (q : list Request) (s : sv) : worker_next * sv :=
  match q with
  | [] =>
      if active_ s then
        (WReport (mkReport OUTCOME_FAILED (active_seq_ s) (deadline_at_ms_ s)),
         s <| queue_ := [] |> <| active_ := false |> <| pc := Top |>)
      else (WNothing, s <| queue_ := [] |> <| pc := Top |>)
  | req :: q =>
      if decide (req_kind req = RECOVER) then
        (WSend (req_seq req) (req_ts_ms req),
         s <| queue_ := q |> <| active_ := true |> <| active_seq_ := req_seq req |>
           <| deadline_at_ms_ := req_ts_ms req + heartbeat_timeout_ms |> <| pc := Inner |>)
      else if active_ s then
        (WReport (mkReport SUCCESS (active_seq_ s) (req_ts_ms req)),
         s <| queue_ := q |> <| active_ := false |> <| pc := Inner |>)
      else worker_drain q s
  end.

(** From one unlock to the next.  At the top with nothing to do the worker
    sleeps: with no recovery under way it stays there until it is notified, else
    it wakes up by itself ([Woken]). *)
Definition worker_section (s : sv) : worker_next * sv :=
  match pc s with
  | Top =>
      if stopping_ s then (WNothing, s <| pc := Exited |>)
      else
        match queue_ s with
        | [] => if active_ s
                then (WNothing, s <| pc := Woken |> <| timed_waits ::= S |>)
                else (WNothing, s)
        | _ => worker_drain (queue_ s) s
        end
  | Woken => if stopping_ s then (WNothing, s <| pc := Exited |>) else worker_drain (queue_ s) s
  | Inner => worker_drain (queue_ s) s
  | Exited => (WNothing, s)
  end.

Definition worker_round : prog sv unit :=
  next ← atomic worker_section;
  match next with
  | WSend seq ts =>
      let cmd := build_command seq (u32 ts) SAFETY_CMD_REQUEST_RECOVERY SAFETY_FAULT_NONE 0 0 in
      ok ← send_out cmd;
      if ok : bool then post_recovery_report (mkReport SENT seq ts) else mret tt
  | WReport rep => post_recovery_report rep
  | WNothing => mret tt
  end.

(** [RecoveryWorker::run], [n] sections of it. *)
Fixpoint worker_run (n : nat) : prog sv unit :=
  match n with
  | O => mret tt
  | S n => _ ← worker_round; worker_run n
  end.

(** ** Event loop *)

Definition nack_bad_frame (f : ParsedFrame) (ts : Z) : prog sv unit :=
  _ ← logger_push (log_event ts CHECKSUM_ERROR (frame_type_name (pf_type f)) (pf_seq f)
                     ("validate_result=" +:+ to_string (validate_number (validate_result f))));
  seq ← next_tx_seq;
  _ ← send_out (build_nack seq (u32 ts) (pf_seq f) SAFETY_NACK_CHECKSUM);
  logger_push (log_event ts TX_NACK "NACK" (pf_seq f) "").

Definition on_heartbeat (f : ParsedFrame) (ts : Z) : prog sv unit :=
  _ ← arm_heartbeat_timer;
  before ← sv_get fsm;
  let ev := if decide (before = RECOVERING) then HEARTBEAT_RESTORED else HEARTBEAT_OK in
  _ ← sv_apply ev;
  _ ← (if decide (before = RECOVERING) then notify_heartbeat_restored ts else mret tt);
  seq ← next_tx_seq;
  _ ← send_out (build_ack seq (u32 ts) (pf_seq f));
  logger_push (log_event ts TX_ACK "ACK" (pf_seq f) "").

(** [severity] of a FAULT_EVENT, 0 when the payload is too short. *)
Definition fault_severity (f : ParsedFrame) : Z :=
  if Z.of_nat (length (pf_payload f)) >=? 8
  then severity (fault_event_of_bytes (pf_payload f)) else 0.

Definition on_fault_event (f : ParsedFrame) : prog sv unit :=
  if fault_severity f >=? 2 then
    _ ← sv_apply CRITICAL_FAULT; mret tt
  else
    st ← sv_get fsm;
    if decide (st = HEALTHY) then _ ← sv_apply HEARTBEAT_TIMEOUT; mret tt else mret tt.

Definition process_frame (f : ParsedFrame) : prog sv unit :=
  let ts := pf_ts_ms f in
  if negb (pf_ok f) then nack_bad_frame f ts
  else
    dup ← atomic (fun s => let r := is_duplicate (seen_ s) (pf_type f) (pf_seq f) in
                           (r.1, s <| seen_ := r.2 |>));
    if dup : bool then
      logger_push (log_event ts DUPLICATE (frame_type_name (pf_type f)) (pf_seq f) "")
    else
      _ ← logger_push (log_event ts RX_FRAME (frame_type_name (pf_type f)) (pf_seq f) "");
      if pf_type f =? SAFETY_FRAME_HEARTBEAT then on_heartbeat f ts
      else if pf_type f =? SAFETY_FRAME_FAULT_EVENT then on_fault_event f
      else mret tt.

Fixpoint process_frames (fs : list ParsedFrame) : prog sv unit :=
  match fs with
  | [] => mret tt
  | f :: fs => _ ← process_frame f; process_frames fs
  end.

(** [data]: what [read] returned, at most 1024 bytes; empty on end of file or
    error. *)
Definition handle_readable (data : list Z) : prog sv unit :=
  if (length data =? 0)%nat then mret tt
  else
    fs ← atomic (fun s => let r := FrameAssembler_feed (asm_buf s) data in
                          (r.1, s <| asm_buf := r.2 |>));
    process_frames fs.

Definition on_heartbeat_timeout : prog sv unit :=
  ts ← now_ms;
  _ ← logger_push (log_event ts TIMEOUT "" (- 1) "heartbeat timeout (backup timer)");
  before ← sv_get fsm;
  r ← sv_apply HEARTBEAT_TIMEOUT;
  _ ← (if valid r && bool_decide (before = HEALTHY) then
         seq ← next_tx_seq; request_recovery seq ts
       else mret tt);
  arm_heartbeat_timer.

Definition drain_one (rep : RecoveryReport) : prog sv unit :=
  result ← match outcome rep with
           | SENT =>
               _ ← logger_push (log_event (rep_ts_ms rep) TX_COMMAND "COMMAND" (rep_seq rep)
                                  "REQUEST_RECOVERY");
               _ ← sv_apply RECOVERY_SENT; mret "RECOVERY_SENT"
           | SUCCESS => mret "RECOVERY_SUCCESS"
           | OUTCOME_FAILED => _ ← sv_apply RECOVERY_FAILED; mret "RECOVERY_FAILED"
           end;
  logger_push (log_event (rep_ts_ms rep) RECOVERY_RESULT "" (rep_seq rep) result).

Fixpoint drain_all (reps : list RecoveryReport) : prog sv unit :=
  match reps with
  | [] => mret tt
  | rep :: reps => _ ← drain_one rep; drain_all reps
  end.

Definition drain_recovery_reports : prog sv unit :=
  local ← atomic (fun s => (reports_ s, s <| reports_ := [] |>));
  drain_all local.

(** One event [epoll_wait] delivers, and what [EventLoop::run] does with it. *)
Inductive loop_event := LTimer | LWake | LReadable (data : list Z).

Definition loop_dispatch (e : loop_event) : prog sv unit :=
  match e with
  | LTimer => on_heartbeat_timeout
  | LWake => drain_recovery_reports
  | LReadable data => handle_readable data
  end.

Fixpoint loop_run (es : list loop_event) : prog sv unit :=
  match es with
  | [] => mret tt
  | e :: es => _ ← loop_dispatch e; loop_run es
  end.

(** The world [run_live] starts from, with the timer [setup] arms. *)
Definition sv_start : sv :=
  mkSv BOOTING [] ∅ 0 1 [] [] [] false false 0 0 [] 0 Top 0.

End Loop.
