(* ===== verification/SupervisorInv.v ===== *)
(** * Specifications and invariants of the supervisor's threads *)

From stdpp Require Import gmap.
From S2P Require Import Prelude Crc32 Protocol Supervisor Framing SupervisorLoop.

Section Inv.
Context {E : SvEnv}.
Implicit Types (s : sv) (f : ParsedFrame).

(** ** Actions that leave a part of the world alone *)

(** [I] does not look at what the event loop's bookkeeping writes: log, output,
    sequence number, timer, clock, assembler, duplicate table. *)
Class LoopStable (I : sv -> Prop) := {
  stable_logged s g : I s -> I (s <| logged ::= g |>);
  stable_sent s g : I s -> I (s <| sent ::= g |>);
  stable_tx s g : I s -> I (s <| tx_seq_ ::= g |>);
  stable_timer s g : I s -> I (s <| timer_starts ::= g |>);
  stable_clock s g : I s -> I (s <| clock ::= g |>);
  stable_asm s g : I s -> I (s <| asm_buf ::= g |>);
  stable_seen s g : I s -> I (s <| seen_ ::= g |>);
}.

Abbreviation safe_in I p := (safe I (fun _ => True) p).

Section Stable.
Context (I : sv -> Prop) {SI : LoopStable I}.

Lemma safe_push e : safe_in I (logger_push e).
Proof. apply safe_atomic. intros s Hs. split; [by apply stable_logged|done]. Qed.
Lemma sv_safe_send d : safe_in I (send_out d).
Proof. apply safe_atomic. intros s Hs. split; [by apply stable_sent|done]. Qed.
Lemma safe_next_tx : safe_in I next_tx_seq.
Proof. apply safe_atomic. intros s Hs. split; [by apply stable_tx|done]. Qed.
Lemma safe_arm : safe_in I arm_heartbeat_timer.
Proof. apply safe_atomic. intros s Hs. split; [by apply stable_timer|done]. Qed.
Lemma safe_now : safe_in I now_ms.
Proof. apply safe_atomic. intros s Hs. split; [by apply stable_clock|done]. Qed.
Lemma sv_safe_get {A} (g : sv -> A) (Q : A -> Prop) : (forall s, I s -> Q (g s)) -> safe I Q (sv_get g).
Proof. intros HQ. apply safe_atomic. intros s Hs. split; [done|by apply HQ]. Qed.

(** A transition of the machine: the new state, with a result that is valid
    only when the state changed. *)
Lemma safe_apply e (Q : TransitionResult -> Prop) :
  (forall s, I s -> I (s <| fsm := (fsm_apply (fsm s) e).2 |>) /\ Q (fsm_apply (fsm s) e).1) ->
  safe I Q (sv_apply e).
Proof.
  intros H. unfold sv_apply. eapply safe_bind; [apply (safe_atomic I Q); intros s Hs; apply H, Hs|].
  intros r Hr. apply (safe_bind I (fun _ => True)); [|done].
  destruct (valid r); [apply safe_push|done].
Qed.

Lemma sv_safe_nack f ts : safe_in I (nack_bad_frame f ts).
Proof.
  unfold nack_bad_frame. eapply safe_bind; [apply safe_push|intros _ _].
  eapply safe_bind; [apply safe_next_tx|intros seq _].
  eapply safe_bind; [apply sv_safe_send|intros _ _]. apply safe_push.
Qed.

(** A frame that is neither a heartbeat nor a fault event changes nothing [I]
    looks at; for those two the handler decides. *)
Lemma safe_process_frame f :
  safe_in I (on_heartbeat f (pf_ts_ms f)) ->
  (pf_ok f = true -> pf_type f = SAFETY_FRAME_FAULT_EVENT -> safe_in I (on_fault_event f)) ->
  safe_in I (process_frame f).
Proof.
  intros Hhb Hfe. unfold process_frame. destruct (pf_ok f) eqn:Eok; cbn [negb]; [|apply sv_safe_nack].
  eapply (safe_bind I (fun _ => True)).
  { apply safe_atomic. intros s Hs. split; [by apply (stable_seen s (fun _ => _))|done]. }
  intros [|] _; [apply safe_push|]. eapply safe_bind; [apply safe_push|intros _ _].
  destruct (pf_type f =? SAFETY_FRAME_HEARTBEAT); [done|].
  destruct (Z.eqb_spec (pf_type f) SAFETY_FRAME_FAULT_EVENT); [by apply Hfe|done].
Qed.

Lemma safe_process_frames fs : Forall (fun f => safe_in I (process_frame f)) fs -> safe_in I (process_frames fs).
Proof.
  induction 1 as [|f fs Hf _ IH]; [done|]. cbn [process_frames].
  eapply safe_bind; [exact Hf|]. by intros _ _.
Qed.

Lemma safe_drain_all reps : Forall (fun r => safe_in I (drain_one r)) reps -> safe_in I (drain_all reps).
Proof.
  induction 1 as [|r reps Hr _ IH]; [done|]. cbn [drain_all].
  eapply safe_bind; [exact Hr|]. by intros _ _.
Qed.

Lemma safe_worker_run n : safe_in I worker_round -> safe_in I (worker_run n).
Proof. intros H. induction n as [|n IH]; [done|]. cbn [worker_run]. eapply safe_bind; [exact H|by intros _ _]. Qed.

Lemma safe_loop_run es : (forall e, safe_in I (loop_dispatch e)) -> safe_in I (loop_run es).
Proof. intros H. induction es as [|e es IH]; [done|]. cbn [loop_run]. eapply safe_bind; [apply H|by intros _ _]. Qed.

End Stable.

(** ** Threads of the daemon *)

(** Everything that runs in live mode: the event loop on any events, the
    worker, and the main thread that stops it. *)
Definition sv_thread (p : prog sv unit) : Prop :=
  (exists es, p = loop_run es) \/ (exists n, p = worker_run n) \/ p = worker_stop.

(** *** The deadline of the worker *)

Record worker_ok s : Prop := {
  no_timed_wait : timed_waits s = 0%nat;
  active_inner : active_ s = true -> pc s = Inner;
}.

#[global] Instance worker_ok_stable : LoopStable worker_ok.
Proof. constructor; intros s g []; by constructor. Qed.

Lemma worker_drain_ok q s : worker_ok s -> worker_ok (worker_drain q s).2.
Proof.
  intros [H1 H2]. induction q as [|req q IH]; cbn [worker_drain].
  - destruct (active_ s) eqn:Ea; constructor; cbn; congruence.
  - case_decide; [by constructor|]. destruct (active_ s); [by constructor|exact IH].
Qed.

Lemma worker_section_ok s : worker_ok s -> worker_ok (worker_section s).2.
Proof.
  intros [H1 H2]. unfold worker_section. destruct (pc s) eqn:Epc.
  - assert (active_ s = false) as Ha by (destruct (active_ s); [by specialize (H2 eq_refl)|done]).
    destruct (stopping_ s); [constructor; cbn; congruence|].
    destruct (queue_ s) eqn:Eq; [rewrite Ha; constructor; cbn; congruence|].
    apply worker_drain_ok. constructor; congruence.
  - assert (active_ s = false) as Ha by (destruct (active_ s); [by specialize (H2 eq_refl)|done]).
    destruct (stopping_ s); [constructor; cbn; congruence|].
    apply worker_drain_ok. constructor; congruence.
  - apply worker_drain_ok. by constructor.
  - constructor; cbn; [done|]. rewrite Epc. done.
Qed.

Lemma safe_worker_round I :
  LoopStable I ->
  (forall s, I s -> I (worker_section s).2) -> (forall s g, I s -> I (s <| reports_ ::= g |>)) ->
  safe_in I worker_round.
Proof.
  intros SI Hsec Hrep. unfold worker_round.
  assert (forall rep, safe_in I (post_recovery_report rep)) as Hpost.
  { intros rep. apply safe_atomic. intros s Hs. split; [by apply Hrep|done]. }
  eapply (safe_bind I (fun _ => True)); [apply safe_atomic; intros s Hs; by split; [apply Hsec|]|].
  intros [seq ts|rep|] _; [|apply Hpost|done].
  eapply safe_bind; [by apply sv_safe_send|]. intros [|] _; [apply Hpost|done].
Qed.

(** The machine may make its transitions and queue and reports may change: then
    every handler of the event loop is safe. *)
Lemma safe_loop_dispatch I e :
  LoopStable I -> (forall s ev, I s -> I (s <| fsm := (fsm_apply (fsm s) ev).2 |>)) ->
  (forall s g, I s -> I (s <| queue_ ::= g |>)) -> (forall s g, I s -> I (s <| reports_ ::= g |>)) ->
  safe_in I (loop_dispatch e).
Proof.
  intros SI Hfsm Hq Hrep.
  assert (forall ev, safe_in I (sv_apply ev)) as Happ.
  { intros ev. apply safe_apply; [done|]. intros s Hs. split; [by apply Hfsm|done]. }
  assert (forall rep, safe_in I (drain_one rep)) as Hdrain.
  { intros rep. unfold drain_one. eapply (safe_bind I (fun _ => True)); [|intros ? _; by apply safe_push].
    destruct (outcome rep); [|done|].
    - eapply safe_bind; [by apply safe_push|intros _ _]. eapply safe_bind; [apply Happ|done].
    - eapply safe_bind; [apply Happ|done]. }
  destruct e as [| |data]; cbn [loop_dispatch].
  - unfold on_heartbeat_timeout. eapply safe_bind; [by apply safe_now|intros ts _].
    eapply safe_bind; [by apply safe_push|intros _ _].
    eapply (safe_bind I (fun _ => True)); [by apply sv_safe_get|intros before _].
    eapply safe_bind; [apply Happ|intros r _].
    eapply (safe_bind I (fun _ => True)); [|intros _ _; by apply safe_arm].
    destruct (_ && _); [|done]. eapply safe_bind; [by apply safe_next_tx|intros seq _].
    apply safe_atomic. intros s Hs. split; [by apply Hq|done].
  - unfold drain_recovery_reports.
    eapply (safe_bind I (fun _ => True));
      [apply safe_atomic; intros s Hs; split; [by apply (Hrep s (fun _ => []))|done]|].
    intros reps _. apply safe_drain_all. by apply Forall_true.
  - unfold handle_readable. destruct (_ =? _)%nat; [done|].
    eapply (safe_bind I (fun _ => True));
      [apply safe_atomic; intros s Hs; split; [by apply (stable_asm s (fun _ => _))|done]|].
    intros fs _. apply safe_process_frames, Forall_true. intros f.
    apply safe_process_frame; [done| |].
    + unfold on_heartbeat. eapply safe_bind; [by apply safe_arm|intros _ _].
      eapply (safe_bind I (fun _ => True)); [by apply sv_safe_get|intros before _].
      eapply safe_bind; [apply Happ|intros _ _].
      eapply (safe_bind I (fun _ => True)).
      { case_decide; [|done]. apply safe_atomic. intros s Hs. split; [by apply Hq|done]. }
      intros _ _. eapply safe_bind; [by apply safe_next_tx|intros seq _].
      eapply safe_bind; [by apply sv_safe_send|intros _ _]. by apply safe_push.
    + intros _ _. unfold on_fault_event. destruct (_ >=? _).
      * eapply safe_bind; [apply Happ|done].
      * eapply (safe_bind I (fun _ => True)); [by apply sv_safe_get|intros st _].
        case_decide; [|done]. eapply safe_bind; [apply Happ|done].
Qed.

Lemma worker_ok_threads p : sv_thread p -> safe_in worker_ok p.
Proof.
  intros [[es ->]|[[n ->]| ->]].
  - apply safe_loop_run. intros e. apply safe_loop_dispatch; [apply _|..];
      intros s g []; by constructor.
  - apply safe_worker_run, safe_worker_round; [apply _|apply worker_section_ok|].
    intros s g []; by constructor.
  - apply safe_atomic. intros s []. by split; [constructor|].
Qed.

(** *** A state without exit *)

(** Terminal states. *)
Definition stuck_in (st : HealthState) s : Prop := fsm s = st.

#[global] Instance stuck_in_stable st : LoopStable (stuck_in st).
Proof. by constructor. Qed.

Lemma terminal_threads st p :
  st = FAILED \/ st = SAFE_MODE -> sv_thread p -> safe_in (stuck_in st) p.
Proof.
  intros Hst [[es ->]|[[n ->]| ->]].
  - apply safe_loop_run. intros e. apply safe_loop_dispatch; [apply _| |done..].
    unfold stuck_in. intros s ev Hs. cbn. rewrite Hs. by destruct Hst as [-> | ->].
  - apply safe_worker_run, safe_worker_round; [apply _| |done].
    intros s Hs. unfold worker_section.
    assert (forall q s, stuck_in st s -> stuck_in st (worker_drain q s).2) as Hd.
    { clear. intros q s Hs. induction q as [|req q IH]; cbn [worker_drain]; repeat case_match; done. }
    repeat case_match; try done; by apply Hd.
  - by apply safe_atomic.
Qed.

(** *** A degraded link nobody repairs *)

(** The machine is degraded and no recovery is under way. *)
Record stranded s : Prop := {
  stranded_fsm : fsm s = DEGRADED;
  stranded_queue : queue_ s = [];
  stranded_active : active_ s = false;
  stranded_reports : reports_ s = [];
}.

#[global] Instance stranded_stable : LoopStable stranded.
Proof. constructor; intros s g []; by constructor. Qed.

(** A frame that carries no critical fault. *)
Definition noncritical f : Prop :=
  ~ (pf_ok f = true /\ pf_type f = SAFETY_FRAME_FAULT_EVENT /\ 2 <= fault_severity f).

(** The daemon while no critical fault arrives. *)
Definition calm_thread (p : prog sv unit) : Prop :=
  (exists fs, p = process_frames fs /\ Forall noncritical fs) \/ p = on_heartbeat_timeout \/
  p = drain_recovery_reports \/ (exists n, p = worker_run n).

(** The worker has nothing to do. *)
Definition idle_next (n : worker_next) : Prop := n = WNothing.

Lemma worker_section_idle s : stranded s -> stranded (worker_section s).2 /\ idle_next (worker_section s).1.
Proof.
  intros [H1 H2 H3 H4]. unfold worker_section. rewrite H2, H3. cbn [worker_drain]. rewrite H3.
  destruct (pc s); try destruct (stopping_ s); by repeat split.
Qed.

Lemma stranded_apply e :
  e = HEARTBEAT_OK \/ e = HEARTBEAT_TIMEOUT ->
  safe stranded (fun r => valid r = false) (sv_apply e).
Proof.
  intros He. apply safe_apply; [apply _|]. intros s []. rewrite stranded_fsm0.
  destruct He as [-> | ->]; (split; [by constructor|done]).
Qed.

Lemma stranded_heartbeat f ts : safe_in stranded (on_heartbeat f ts).
Proof.
  unfold on_heartbeat. eapply safe_bind; [apply safe_arm, _|intros _ _].
  eapply (safe_bind _ (fun b => b = DEGRADED)); [apply sv_safe_get; by intros s []|intros before ->].
  cbn [decide]. eapply safe_bind; [apply stranded_apply; by left|intros _ _].
  eapply (safe_bind _ (fun _ => True)); [done|intros _ _].
  eapply safe_bind; [apply safe_next_tx, _|intros seq _].
  eapply safe_bind; [apply sv_safe_send, _|intros _ _]. apply safe_push, _.
Qed.

Lemma stranded_threads p : calm_thread p -> safe_in stranded p.
Proof.
  intros [[fs [-> HF]]|[->|[->|[n ->]]]].
  - apply safe_process_frames. eapply Forall_impl; [exact HF|]. intros f Hf.
    apply safe_process_frame; [apply _|apply stranded_heartbeat|]. intros Hok Hty. unfold on_fault_event.
    rewrite Z.geb_leb, (proj2 (Z.leb_gt _ _)).
    2:{ apply Z.nle_gt. intros Hs. by apply Hf. }
    eapply (safe_bind _ (fun b => b = DEGRADED)); [apply sv_safe_get; by intros s []|by intros st ->].
  - unfold on_heartbeat_timeout. eapply safe_bind; [apply safe_now, _|intros ts _].
    eapply safe_bind; [apply safe_push, _|intros _ _].
    eapply (safe_bind _ (fun b => b = DEGRADED)); [apply sv_safe_get; by intros s []|intros before ->].
    eapply safe_bind; [apply stranded_apply; by right|intros r ->]. cbn [andb].
    eapply (safe_bind _ (fun _ => True)); [done|intros _ _]. apply safe_arm, _.
  - unfold drain_recovery_reports. eapply (safe_bind _ (fun l => l = [])); [|by intros reps ->].
    apply safe_atomic. intros s []. by split; [constructor|].
  - apply safe_worker_run. unfold worker_round.
    eapply (safe_bind _ idle_next); [|by intros next ->].
    apply safe_atomic. apply worker_section_idle.
Qed.

End Inv.
