(* ===== verification/SupervisorProps.v ===== *)
(** * Properties of the supervisor daemon and the link framer *)

From stdpp Require Import gmap.
From S2P Require Import Prelude Crc32 Protocol KernelApi Device Kfifo DriverSpec.
From S2P Require Import Supervisor Framing SupervisorLoop SupervisorInv.

Section Spec.
Context {E : SvEnv}.
Implicit Types (s : sv) (f : ParsedFrame).

(** ** Single threads *)

Lemma run_sv_apply e s :
  run (sv_apply e) s =
  let r := (fsm_apply (fsm s) e).1 in
  let s1 := s <| fsm := (fsm_apply (fsm s) e).2 |> in
  (r, if valid r then s1 <| logged ::= fun l => l ++ [hook_event r] |> else s1).
Proof.
  unfold sv_apply, logger_push, sv_set. step_run. cbn zeta. by destruct (valid _); step_run.
Qed.

(** A transition of the table, and an event the table does not know. *)
Lemma run_apply_valid e s st st' :
  fsm s = st -> fsm_target st e = st' -> st' <> st ->
  let r := mkTransition true st st' e in
  run (sv_apply e) s = (r, s <| fsm := st' |> <| logged ::= fun l => l ++ [hook_event r] |>).
Proof.
  intros <- <- Hne r. rewrite run_sv_apply. unfold fsm_apply. by rewrite bool_decide_false.
Qed.

Lemma run_apply_invalid e s st :
  fsm s = st -> fsm_target st e = st ->
  run (sv_apply e) s = (mkTransition false st st e, s).
Proof.
  intros Hs Ht. rewrite run_sv_apply. unfold fsm_apply. rewrite Hs, Ht, bool_decide_true by done.
  cbn. f_equal. rewrite <- Hs. by destruct s.
Qed.

(** The command the worker sends. *)
Definition recovery_command (seq ts : Z) : list Z :=
  build_command seq (u32 ts) SAFETY_CMD_REQUEST_RECOVERY SAFETY_FAULT_NONE 0 0.

Lemma run_worker_round s :
  (run worker_round s).2 =
  let s' := (worker_section s).2 in
  match (worker_section s).1 with
  | WSend seq ts =>
      let s' := s' <| sent ::= fun l => l ++ [recovery_command seq ts] |> in
      if device_write_ok (length (sent (worker_section s).2))
      then s' <| reports_ ::= fun l => l ++ [mkReport SENT seq ts] |> else s'
  | WReport rep => s' <| reports_ ::= fun l => l ++ [rep] |>
  | WNothing => s'
  end.
Proof.
  unfold worker_round. rewrite run_bind, run_atomic. destruct (worker_section s) as [[seq ts|rep|] s'];
    cbn [fst snd]; [|done..].
  unfold send_out. rewrite run_bind, run_atomic. cbn [fst snd]. by destruct (device_write_ok _).
Qed.

(** A worker with nothing to do leaves the world alone. *)
Lemma worker_idle_run n s :
  queue_ s = [] -> active_ s = false -> stopping_ s = false -> pc s = Top ->
  (run (worker_run n) s).2 = s.
Proof.
  intros Hq Ha Hst Hpc. induction n as [|n IH]; [done|]. cbn [worker_run].
  rewrite run_bind, run_worker_round. unfold worker_section. rewrite Hpc, Hst, Hq, Ha. exact IH.
Qed.

(** A daemon at rest: healthy, no recovery asked for or under way. *)
Record at_rest s : Prop := {
  rest_fsm : fsm s = HEALTHY;
  rest_queue : queue_ s = [];
  rest_active : active_ s = false;
  rest_reports : reports_ s = [];
  rest_running : stopping_ s = false;
  rest_pc : pc s = Top;
}.

(** The world after the timer of a daemon at rest has expired. *)
Lemma timeout_requests s :
  at_rest s ->
  let ts := steady_now_ms (clock s) in
  let s1 := (run on_heartbeat_timeout s).2 in
  fsm s1 = DEGRADED /\ queue_ s1 = [mkRequest RECOVER (tx_seq_ s) ts] /\ active_ s1 = false /\
  reports_ s1 = [] /\ stopping_ s1 = false /\ pc s1 = Top /\ sent s1 = sent s /\
  clock s1 = S (clock s) /\ timed_waits s1 = timed_waits s /\ timer_starts s1 = S (timer_starts s).
Proof.
  intros [Hf Hq Ha Hr Hs Hp]. unfold on_heartbeat_timeout, now_ms, logger_push, sv_get, sv_set,
    next_tx_seq, request_recovery, arm_heartbeat_timer, sv_set. cbn zeta.
  do 3 (rewrite run_bind, run_atomic; cbn [fst snd]). rewrite run_bind.
  rewrite (run_apply_valid _ _ HEALTHY DEGRADED) by done. cbn [fst snd valid andb].
  rewrite bool_decide_true by done. rewrite !run_bind, !run_atomic. cbn.
  by rewrite Hq, Ha, Hr, Hs, Hp.
Qed.

(** The worker on one request: it sends, reports, and gives up. *)
Lemma worker_takes s seq ts :
  queue_ s = [mkRequest RECOVER seq ts] -> stopping_ s = false -> pc s = Top ->
  worker_section s =
    (WSend seq ts, s <| queue_ := [] |> <| active_ := true |> <| active_seq_ := seq |>
      <| deadline_at_ms_ := ts + heartbeat_timeout_ms |> <| pc := Inner |>).
Proof.
  intros Hq Hst Hpc. unfold worker_section. rewrite Hpc, Hst, Hq. cbn [worker_drain req_kind].
  by rewrite decide_True.
Qed.

Lemma worker_drops s :
  queue_ s = [] -> active_ s = true -> pc s = Inner ->
  worker_section s =
    (WReport (mkReport OUTCOME_FAILED (active_seq_ s) (deadline_at_ms_ s)),
     s <| queue_ := [] |> <| active_ := false |> <| pc := Top |>).
Proof.
  intros Hq Ha Hpc. unfold worker_section. rewrite Hpc, Hq. cbn [worker_drain]. by rewrite Ha.
Qed.

Lemma worker_gives_up n s seq ts :
  queue_ s = [mkRequest RECOVER seq ts] -> active_ s = false -> stopping_ s = false -> pc s = Top ->
  reports_ s = [] ->
  let s2 := (run (worker_run (S (S n))) s).2 in
  fsm s2 = fsm s /\ sent s2 = sent s ++ [recovery_command seq ts] /\
  reports_ s2 = (if device_write_ok (length (sent s)) then [mkReport SENT seq ts] else []) ++
                [mkReport OUTCOME_FAILED seq (ts + heartbeat_timeout_ms)] /\
  clock s2 = clock s /\ timed_waits s2 = timed_waits s.
Proof.
  intros Hq Ha Hst Hpc Hr. cbn zeta.
  change (worker_run (S (S n))) with (_ ← worker_round; _ ← worker_round; worker_run n).
  rewrite run_bind, run_worker_round, (worker_takes s seq ts) by done.
  cbn zeta. cbn [fst snd].
  generalize (recovery_command seq ts). intros cmd.
  repeat match goal with |- context [device_write_ok (length (sent ?x))] => progress change (sent x) with (sent s) end.
  destruct (device_write_ok (length (sent s))).
  all: match goal with |- context [@run _ _ _ ?t] => set (t1 := t) end.
  all: rewrite run_bind, run_worker_round, (worker_drops t1) by done.
  all: cbn zeta; cbn [fst snd]; rewrite worker_idle_run by done.
  all: unfold t1; cbn; by rewrite Hr.
Qed.

Lemma apply_fsm e s : fsm (run (sv_apply e) s).2 = fsm_target (fsm s) e.
Proof.
  rewrite run_sv_apply. cbn zeta. cbn [snd]. unfold fsm_apply. cbn [fst snd valid].
  case_bool_decide as Ht; [by rewrite Ht|done].
Qed.

(** What a report does to the machine. *)
Definition report_target (st : HealthState) (rep : RecoveryReport) : HealthState :=
  match outcome rep with
  | SENT => fsm_target st RECOVERY_SENT
  | SUCCESS => st
  | OUTCOME_FAILED => fsm_target st RECOVERY_FAILED
  end.

Lemma drain_one_fsm rep s : fsm (run (drain_one rep) s).2 = report_target (fsm s) rep.
Proof.
  unfold drain_one, report_target, logger_push, sv_set.
  destruct (outcome rep); rewrite !run_bind, ?run_atomic, ?run_ret; cbn [fst snd];
    rewrite ?run_bind, ?run_ret; cbn [fst snd].
  - etransitivity; [apply (apply_fsm RECOVERY_SENT)|done].
  - done.
  - etransitivity; [apply (apply_fsm RECOVERY_FAILED)|done].
Qed.

Lemma drain_fsm s :
  fsm (run drain_recovery_reports s).2 = foldl report_target (fsm s) (reports_ s).
Proof.
  unfold drain_recovery_reports. rewrite run_bind, run_atomic. cbn [fst snd].
  change (fsm s) with (fsm (s <| reports_ := [] |>)). generalize (s <| reports_ := [] |>).
  induction (reports_ s) as [|rep reps IH]; intros t; [done|]. cbn [drain_all foldl].
  by rewrite run_bind, IH, drain_one_fsm.
Qed.

(** ** Frames *)

(** The bytes the event loop sends in answer to frames: a NACK for a bad one, an
    ACK for a new heartbeat. *)
Fixpoint answers (seen : gset (Z * Z)) (tx : Z) (fs : list ParsedFrame) : list (list Z) :=
  match fs with
  | [] => []
  | f :: fs =>
      if negb (pf_ok f) then
        build_nack tx (u32 (pf_ts_ms f)) (pf_seq f) SAFETY_NACK_CHECKSUM ::
        answers seen (u16 (tx + 1)) fs
      else if bool_decide ((pf_type f, pf_seq f) ∈ seen) then answers seen tx fs
      else
        let seen := {[(pf_type f, pf_seq f)]} ∪ seen in
        if pf_type f =? SAFETY_FRAME_HEARTBEAT then
          build_ack tx (u32 (pf_ts_ms f)) (pf_seq f) :: answers seen (u16 (tx + 1)) fs
        else answers seen tx fs
  end.

(** What one frame does to output, sequence number and duplicate table. *)
Definition answered s s' (out : list (list Z)) (seen : gset (Z * Z)) (tx : Z) : Prop :=
  sent s' = sent s ++ out /\ seen_ s' = seen /\ tx_seq_ s' = tx.

Lemma apply_answers e s :
  let s' := (run (sv_apply e) s).2 in
  sent s' = sent s /\ seen_ s' = seen_ s /\ tx_seq_ s' = tx_seq_ s.
Proof. rewrite run_sv_apply. cbn zeta. cbn [snd]. by destruct (valid _). Qed.

Lemma heartbeat_answers f ts s :
  answered s (run (on_heartbeat f ts) s).2 [build_ack (tx_seq_ s) (u32 ts) (pf_seq f)]
    (seen_ s) (u16 (tx_seq_ s + 1)).
Proof.
  unfold on_heartbeat, arm_heartbeat_timer, sv_get, sv_set.
  do 2 (rewrite run_bind, run_atomic; cbn [fst snd]).
  set (s1 := s <| timer_starts ::= S |>).
  assert (forall ev p, (forall t, answered t (run p t).2 [] (seen_ t) (tx_seq_ t)) ->
    answered s (run (_ ← sv_apply ev; _ ← p : prog sv unit; seq ← next_tx_seq;
                     _ ← send_out (build_ack seq (u32 ts) (pf_seq f));
                     logger_push (log_event ts TX_ACK "ACK" (pf_seq f) "")) s1).2
      [build_ack (tx_seq_ s) (u32 ts) (pf_seq f)] (seen_ s) (u16 (tx_seq_ s + 1))) as H.
  { intros ev p Hp. do 2 (rewrite run_bind; cbn [fst snd]).
    destruct (apply_answers ev s1) as (H1 & H2 & H3).
    destruct (Hp (run (sv_apply ev) s1).2) as (G1 & G2 & G3).
    rewrite H1, app_nil_r in G1. rewrite H2 in G2. rewrite H3 in G3.
    set (s3 := (run p _).2) in *. clearbody s3.
    unfold next_tx_seq, send_out, logger_push, sv_set, answered.
    rewrite !run_bind, !run_atomic. cbn [fst snd].
    change (tx_seq_ s) with (tx_seq_ s1). change (sent s) with (sent s1).
    change (seen_ s) with (seen_ s1). rewrite <- G1, <- G2, <- G3. done. }
  destruct (decide _).
  - apply (H _ (notify_heartbeat_restored ts)). intros t. by split; [rewrite app_nil_r|].
  - apply (H _ (mret tt)). intros t. rewrite run_ret. by split; [rewrite app_nil_r|].
Qed.

Lemma fault_answers f s : answered s (run (on_fault_event f) s).2 [] (seen_ s) (tx_seq_ s).
Proof.
  unfold on_fault_event, sv_get, answered. rewrite app_nil_r. destruct (_ >=? _).
  - rewrite run_bind, run_ret. cbn [fst snd]. apply apply_answers.
  - rewrite run_bind, run_atomic. cbn [fst snd]. destruct (decide _); [|by rewrite run_ret].
    rewrite run_bind, run_ret. cbn [fst snd]. apply apply_answers.
Qed.

Lemma frame_answers f s :
  exists out seen tx,
    answered s (run (process_frame f) s).2 out seen tx /\
    forall fs, answers (seen_ s) (tx_seq_ s) (f :: fs) = out ++ answers seen tx fs.
Proof.
  unfold process_frame. cbn [answers]. destruct (pf_ok f); cbn [negb].
  - rewrite run_bind, run_atomic. cbn [fst snd is_duplicate].
    set (s1 := s <| seen_ := _ |>). case_bool_decide as Hd.
    + eexists [], (seen_ s), (tx_seq_ s). split; [|done]. unfold logger_push, sv_set.
      rewrite run_atomic. cbn [snd]. unfold answered. rewrite app_nil_r. split; [done|]. split; [|done].
      by apply subseteq_union_1_L, singleton_subseteq_l.
    + rewrite run_bind. unfold logger_push at 1, sv_set at 1. rewrite run_atomic. cbn [fst snd].
      set (s2 := s1 <| logged ::= _ |>). destruct (pf_type f =? SAFETY_FRAME_HEARTBEAT).
      * eexists _, _, _. split; [exact (heartbeat_answers f _ s2)|done].
      * destruct (pf_type f =? SAFETY_FRAME_FAULT_EVENT).
        -- eexists _, _, _. split; [exact (fault_answers f s2)|done].
        -- eexists [], _, _. rewrite run_ret. split; [|done]. by split; [rewrite app_nil_r|].
  - eexists [_], (seen_ s), (u16 (tx_seq_ s + 1)). split; [|done].
    unfold nack_bad_frame, logger_push, next_tx_seq, send_out, sv_set.
    rewrite !run_bind, !run_atomic. cbn [fst snd]. done.
Qed.

Lemma frames_answers fs s :
  sent (run (process_frames fs) s).2 = sent s ++ answers (seen_ s) (tx_seq_ s) fs.
Proof.
  revert s. induction fs as [|f fs IH]; intros s; [by rewrite app_nil_r|].
  cbn [process_frames]. rewrite run_bind. destruct (frame_answers f s) as (out & seen & tx & (H1 & H2 & H3) & ->).
  by rewrite IH, H1, H2, H3, app_assoc.
Qed.

(** *** The frames the supervisor builds *)

Lemma pack_frame_image ty seq ts p :
  pack_frame ty seq ts p = frame_bytes (safety_frame_init ty seq (Z.of_nat (length p)) ts) p.
Proof.
  unfold pack_frame, frame_bytes, seal. cbn zeta. rewrite compute_checksum_some.
  by rewrite Nat2Z.id, firstn_all.
Qed.

Lemma pack_frame_valid ty seq ts p :
  is_u8 ty -> is_u16 seq -> is_u32 ts -> bytes_ok p -> (length p <= 256)%nat ->
  let b := pack_frame ty seq ts p in
  frame_ok (safety_frame_init ty seq (Z.of_nat (length p)) ts) p /\
  safety_frame_validate b (Z.of_nat (length b)) = SAFETY_VALIDATE_OK /\ Z.of_nat (length b) <= 272.
Proof.
  intros H1 H2 H3 H4 H5 b. pose proof (frame_init_ok ty seq ts p H1 H2 H3 H4 H5) as Hok.
  unfold b. rewrite pack_frame_image, length_frame_bytes. split; [done|]. split; [|lia].
  rewrite <- (app_nil_r (frame_bytes _ _)). apply validate_frame; [done|lia].
Qed.

Definition sendable (b : list Z) : Prop :=
  safety_frame_validate b (Z.of_nat (length b)) = SAFETY_VALIDATE_OK /\ Z.of_nat (length b) <= 272.

Lemma build_nack_valid tx ts seq rsn : is_u16 tx -> sendable (build_nack tx (u32 ts) seq rsn).
Proof.
  intros Htx. unfold sendable, build_nack.
  apply (pack_frame_valid SAFETY_FRAME_NACK); [by split|done|apply u32_range| |];
    unfold nack_bytes; [rewrite !bytes_ok_app; auto with safety|].
  rewrite !length_app, !length_le_bytes. lia.
Qed.

Lemma build_ack_valid tx ts seq : is_u16 tx -> sendable (build_ack tx (u32 ts) seq).
Proof.
  intros Htx. unfold sendable, build_ack.
  apply (pack_frame_valid SAFETY_FRAME_ACK); [by split|done|apply u32_range| |];
    unfold ack_bytes; [rewrite !bytes_ok_app; auto with safety|].
  rewrite !length_app, !length_le_bytes. lia.
Qed.

(** Every answer is a valid frame. *)
Lemma answers_valid seen tx fs : is_u16 tx -> Forall sendable (answers seen tx fs).
Proof.
  revert seen tx. induction fs as [|f fs IH]; intros seen tx Htx; [constructor|]. cbn [answers].
  assert (is_u16 (u16 (tx + 1))) as Htx' by apply u16_range.
  destruct (negb (pf_ok f)).
  - constructor; [by apply build_nack_valid|by apply IH].
  - case_bool_decide; [by apply IH|]. destruct (pf_type f =? SAFETY_FRAME_HEARTBEAT); [|by apply IH].
    constructor; [by apply build_ack_valid|by apply IH].
Qed.

(** *** What a frame does to the machine *)

Definition frame_target s f : HealthState :=
  let st := fsm s in
  if negb (pf_ok f) || bool_decide ((pf_type f, pf_seq f) ∈ seen_ s) then st
  else if pf_type f =? SAFETY_FRAME_HEARTBEAT then
    fsm_target st (if decide (st = RECOVERING) then HEARTBEAT_RESTORED else HEARTBEAT_OK)
  else if pf_type f =? SAFETY_FRAME_FAULT_EVENT then
    if fault_severity f >=? 2 then fsm_target st CRITICAL_FAULT
    else if decide (st = HEALTHY) then DEGRADED else st
  else st.

Lemma heartbeat_fsm f ts s :
  fsm (run (on_heartbeat f ts) s).2 =
  fsm_target (fsm s) (if decide (fsm s = RECOVERING) then HEARTBEAT_RESTORED else HEARTBEAT_OK).
Proof.
  unfold on_heartbeat, arm_heartbeat_timer, sv_get, sv_set.
  do 2 (rewrite run_bind, run_atomic; cbn [fst snd]). set (s1 := s <| timer_starts ::= S |>).
  change (fsm s) with (fsm s1).
  assert (forall ev p, (forall t, fsm (run p t).2 = fsm t) ->
    fsm (run (_ ← sv_apply ev; _ ← p : prog sv unit; seq ← next_tx_seq;
              _ ← send_out (build_ack seq (u32 ts) (pf_seq f));
              logger_push (log_event ts TX_ACK "ACK" (pf_seq f) "")) s1).2 = fsm_target (fsm s1) ev) as H.
  { intros ev p Hp. do 2 (rewrite run_bind; cbn [fst snd]).
    transitivity (fsm (run p (run (sv_apply ev) s1).2).2); [|by rewrite Hp, apply_fsm].
    unfold next_tx_seq, send_out, logger_push, sv_set. rewrite !run_bind, !run_atomic. done. }
  destruct (decide _).
  - by apply (H _ (notify_heartbeat_restored ts)).
  - by apply (H _ (mret tt)).
Qed.

Lemma fault_fsm f s :
  fsm (run (on_fault_event f) s).2 =
  if fault_severity f >=? 2 then fsm_target (fsm s) CRITICAL_FAULT
  else if decide (fsm s = HEALTHY) then DEGRADED else fsm s.
Proof.
  unfold on_fault_event, sv_get. destruct (_ >=? _).
  - rewrite run_bind, run_ret. apply apply_fsm.
  - rewrite run_bind, run_atomic. cbn [fst snd]. destruct (decide _) as [Hs|]; [|by rewrite run_ret].
    rewrite run_bind, run_ret. cbn [snd]. rewrite apply_fsm, Hs. done.
Qed.

Lemma frame_fsm f s : fsm (run (process_frame f) s).2 = frame_target s f.
Proof.
  unfold process_frame, frame_target. destruct (pf_ok f); cbn [negb orb].
  - rewrite run_bind, run_atomic. cbn [fst snd is_duplicate]. case_bool_decide; [done|].
    rewrite run_bind. unfold logger_push at 1, sv_set at 1. rewrite run_atomic. cbn [fst snd].
    set (s2 := _ <| logged ::= _ |>).
    destruct (pf_type f =? SAFETY_FRAME_HEARTBEAT); [apply (heartbeat_fsm f _ s2)|].
    destruct (pf_type f =? SAFETY_FRAME_FAULT_EVENT); [apply (fault_fsm f s2)|by rewrite run_ret].
  - unfold nack_bad_frame, logger_push, next_tx_seq, send_out, sv_set.
    by rewrite !run_bind, !run_atomic.
Qed.

Lemma frame_seen f s :
  seen_ (run (process_frame f) s).2 = if pf_ok f then {[(pf_type f, pf_seq f)]} ∪ seen_ s else seen_ s.
Proof.
  unfold process_frame. destruct (pf_ok f); cbn [negb].
  - rewrite run_bind, run_atomic. cbn [fst snd is_duplicate]. case_bool_decide; [done|].
    rewrite run_bind. unfold logger_push at 1, sv_set at 1. rewrite run_atomic. cbn [fst snd].
    set (s2 := _ <| logged ::= _ |>).
    destruct (pf_type f =? SAFETY_FRAME_HEARTBEAT); [apply (heartbeat_answers f _ s2)|].
    destruct (pf_type f =? SAFETY_FRAME_FAULT_EVENT); [apply (fault_answers f s2)|by rewrite run_ret].
  - unfold nack_bad_frame, logger_push, next_tx_seq, send_out, sv_set.
    by rewrite !run_bind, !run_atomic.
Qed.

(** A frame seen before is logged and nothing else. *)
Lemma duplicate_only_logs f s :
  pf_ok f = true -> (pf_type f, pf_seq f) ∈ seen_ s ->
  run (process_frame f) s =
  (tt, s <| logged ::= fun l => l ++ [log_event (pf_ts_ms f) DUPLICATE (frame_type_name (pf_type f))
                                        (pf_seq f) ""] |>).
Proof.
  intros Hok Hin. unfold process_frame. rewrite Hok. cbn [negb].
  rewrite run_bind, run_atomic. cbn [fst snd is_duplicate]. rewrite bool_decide_true by done.
  assert ({[(pf_type f, pf_seq f)]} ∪ seen_ s = seen_ s) as ->
    by (by apply subseteq_union_1_L, singleton_subseteq_l).
  replace (s <| seen_ := seen_ s |>) with s by (by destruct s).
  unfold logger_push, sv_set. by rewrite run_atomic.
Qed.

(** The table only grows, and holds every good frame processed. *)
Lemma frames_seen fs s :
  seen_ s ⊆ seen_ (run (process_frames fs) s).2 /\
  Forall (fun f => pf_ok f = true -> (pf_type f, pf_seq f) ∈ seen_ (run (process_frames fs) s).2) fs.
Proof.
  revert s. induction fs as [|f fs IH]; intros s; [done|]. cbn [process_frames]. rewrite run_bind.
  destruct (IH (run (process_frame f) s).2) as [H1 H2]. rewrite frame_seen in H1.
  split.
  - etransitivity; [|exact H1]. destruct (pf_ok f); [apply union_subseteq_r|done].
  - constructor; [|done]. intros Hok. apply H1. rewrite Hok. apply elem_of_union_l, elem_of_singleton_2. done.
Qed.

Lemma duplicates_only_log fs s :
  Forall (fun f => pf_ok f = true /\ (pf_type f, pf_seq f) ∈ seen_ s) fs ->
  exists l, (run (process_frames fs) s).2 = s <| logged := l |>.
Proof.
  intros HF. revert s HF. induction fs as [|f fs IH]; intros s HF.
  - exists (logged s). by destruct s.
  - apply Forall_cons in HF as [[Hok Hin] HF]. cbn [process_frames].
    rewrite run_bind, duplicate_only_logs by done. cbn [fst snd].
    destruct (IH (s <| logged ::= fun l => l ++ [log_event (pf_ts_ms f) DUPLICATE
      (frame_type_name (pf_type f)) (pf_seq f) ""] |>)) as [l ->]; [done|].
    exists l. by destruct s.
Qed.

(** A fault that is not critical degrades a healthy daemon and asks for
    nothing. *)
Lemma mild_fault_strands f s :
  at_rest s -> pf_ok f = true -> pf_type f = SAFETY_FRAME_FAULT_EVENT ->
  (pf_type f, pf_seq f) ∉ seen_ s -> fault_severity f < 2 ->
  stranded (run (process_frame f) s).2.
Proof.
  intros [Hf Hq Ha Hr _ _] Hok Hty Hin Hsev. unfold process_frame. rewrite Hok. cbn [negb].
  rewrite run_bind, run_atomic. cbn [fst snd is_duplicate]. rewrite bool_decide_false by done.
  rewrite run_bind. unfold logger_push at 1, sv_set at 1. rewrite run_atomic. cbn [fst snd].
  rewrite Hty. change (SAFETY_FRAME_FAULT_EVENT =? SAFETY_FRAME_HEARTBEAT) with false.
  rewrite Z.eqb_refl. cbv iota.
  unfold on_fault_event, sv_get. rewrite Z.geb_leb, (proj2 (Z.leb_gt _ _)) by lia.
  rewrite run_bind, run_atomic. cbn [fst snd]. rewrite decide_True by done.
  rewrite run_bind, (run_apply_valid _ _ HEALTHY DEGRADED) by done. cbn [fst snd].
  rewrite run_ret. cbn [snd]. by constructor.
Qed.

Lemma severity_of_fault_bytes ft sev dc up :
  severity (fault_event_of_bytes (fault_event_bytes (mkFaultEvent ft sev dc up))) = u8 sev.
Proof.
  unfold fault_event_of_bytes, fault_event_bytes. cbn [severity fault_type detail_code fault_uptime_ms].
  unfold field, slice. rewrite drop_app_ge, length_le_bytes, Nat.sub_diag by (rewrite length_le_bytes; lia).
  rewrite drop_0, take_app_le, take_ge by (rewrite length_le_bytes; lia).
  by rewrite le_value_le_bytes.
Qed.

End Spec.

(** ** The claims *)

Module Props.

(** Frames do not depend on how the bytes are cut into reads: the supervisor
    assembles from any sequence of reads what it would from the whole stream at
    once, and a stream of valid frames back to back gives exactly these frames,
    valid and in order, with nothing left over. *)
Theorem stream_in_reads (reads : list (list Z)) :
  Forall bytes_ok reads ->
  feed_reads [] reads = FrameAssembler_feed [] (concat reads) /\
  (forall l, Forall (fun hp => frame_ok hp.1 hp.2) l -> concat reads = stream l ->
     feed_reads [] reads = ((fun hp => received hp.1 hp.2) <$> l, [])).
Proof.
  intros HF. rewrite (feed_reads_concat [] reads) by (done || constructor). split; [done|].
  intros l Hl ->. by apply frames_of_stream.
Qed.

(** The link daemon and the supervisor cut a stream alike: from any bytes the
    framer of the link daemon passes on exactly the images of the frames the
    supervisor's assembler finds - bad checksums and versions included - except
    those whose length field is out of range, and keeps the same rest. *)
Theorem link_framer_agrees (buf data : list Z) :
  bytes_ok (buf ++ data) ->
  LinkFramer_feed buf data =
  (forwarded (FrameAssembler_feed buf data).1, (FrameAssembler_feed buf data).2).
Proof. intros Hb. by apply link_assemble_frames. Qed.

Section Props.
Context {E : SvEnv}.

(** C24. Every frame is answered once: over any list of assembled frames the event
    loop sends a NACK for each bad frame and an ACK for each heartbeat not seen
    before, in order, with consecutive sequence numbers, and nothing else; every
    answer is a valid frame of at most 272 bytes. *)
Theorem every_frame_answered (fs : list ParsedFrame) (s : sv) :
  is_u16 (tx_seq_ s) ->
  sent (run (process_frames fs) s).2 = sent s ++ answers (seen_ s) (tx_seq_ s) fs /\
  Forall sendable (answers (seen_ s) (tx_seq_ s) fs).
Proof. intros Htx. split; [apply frames_answers|by apply answers_valid]. Qed.

(** The recovery deadline is never waited for: in no interleaving of event
    loop, recovery worker and shutdown does the worker reach its timed wait, and
    a recovery is under way only while the worker is between two of its critical
    sections. *)
Theorem deadline_never_waited (c : list (prog sv unit) * sv) :
  pool_reach sv_thread sv_start c ->
  timed_waits c.2 = 0%nat /\ (active_ c.2 = true -> pc c.2 = Inner).
Proof.
  intros Hc. destruct (pool_invariant sv_thread worker_ok sv_start c) as [[H1 H2] _];
    [by constructor|apply worker_ok_threads|done|done].
Qed.

(** C22. A recovery fails at once: when the heartbeat timer of a healthy daemon at
    rest expires, the worker sends REQUEST_RECOVERY and, with no heartbeat
    handled in between, reports the recovery as failed in its next critical
    section, without waiting and without reading a clock; the event loop then
    enters FAILED, which no interleaving of its threads ever leaves. *)
Theorem recovery_gives_up (n : nat) (s : sv) (c : list (prog sv unit) * sv) :
  at_rest s ->
  let ts := steady_now_ms (clock s) in
  let s1 := (run on_heartbeat_timeout s).2 in
  let s2 := (run (worker_run (S (S n))) s1).2 in
  let s3 := (run drain_recovery_reports s2).2 in
  fsm s1 = DEGRADED /\
  sent s2 = sent s ++ [recovery_command (tx_seq_ s) ts] /\
  reports_ s2 = (if device_write_ok (length (sent s)) then [mkReport SENT (tx_seq_ s) ts] else []) ++
                [mkReport OUTCOME_FAILED (tx_seq_ s) (ts + heartbeat_timeout_ms)] /\
  timed_waits s2 = timed_waits s /\ clock s2 = S (clock s) /\
  fsm s3 = FAILED /\
  (pool_reach sv_thread s3 c -> fsm c.2 = FAILED).
Proof.
  intros Hrest ts s1 s2 s3.
  destruct (timeout_requests s Hrest) as (F1 & Q1 & A1 & R1 & St1 & P1 & Se1 & C1 & W1 & _).
  fold s1 ts in F1, Q1, A1, R1, St1, P1, Se1, C1, W1.
  destruct (worker_gives_up n s1 _ _ Q1 A1 St1 P1 R1) as (F2 & Se2 & R2 & C2 & W2).
  fold s2 in F2, Se2, R2, C2, W2. rewrite Se1 in Se2, R2.
  assert (fsm s3 = FAILED) as F3.
  { unfold s3. rewrite drain_fsm, F2, F1, R2. by destruct (device_write_ok _). }
  do 5 (split; [congruence|]). split; [done|].
  intros Hc. destruct (pool_invariant sv_thread (stuck_in FAILED) s3 c F3) as [H _]; [|done|exact H].
  intros p Hp. apply terminal_threads; [by left|done].
Qed.

(** C23. The driver's watchdog strands the supervisor: when the FAULT_EVENT frame
    that the driver synthesizes on a heartbeat timeout reaches a healthy daemon
    at rest, the daemon goes to DEGRADED without asking for a recovery, and as
    long as no critical fault arrives no further frames, timer expiries or
    worker rounds, interleaved in any way, take it out of DEGRADED or request
    one. *)
Theorem watchdog_report_strands (s : sv) (seq ts now : Z) (c : list (prog sv unit) * sv) :
  at_rest s -> asm_buf s = [] -> is_u16 seq -> is_u32 ts -> is_u32 now ->
  (SAFETY_FRAME_FAULT_EVENT, seq) ∉ seen_ s ->
  pool_reach calm_thread (run (handle_readable (timeout_frame seq ts now)) s).2 c ->
  fsm c.2 = DEGRADED /\ queue_ c.2 = [].
Proof.
  intros [Hf Hq Ha Hr Hst Hpc] Hbuf Hseq Hts Hnow Hin Hc.
  set (s1 := (run (handle_readable (timeout_frame seq ts now)) s).2) in *.
  assert (stranded s1) as Hs1.
  { unfold s1. clear Hc s1. unfold timeout_frame.
    set (p := fault_event_bytes _). change 8 with (Z.of_nat (length p)).
    assert (bytes_ok p) as Hp by apply fault_event_bytes_ok.
    assert (frame_ok (safety_frame_init SAFETY_FRAME_FAULT_EVENT seq (Z.of_nat (length p)) ts) p) as Hok
      by (apply frame_init_ok; [by split|done|done|done|change (length p) with 8%nat; lia]).
    set (h := safety_frame_init _ _ _ _) in *.
    unfold handle_readable. rewrite (proj2 (Nat.eqb_neq _ _)) by (rewrite length_frame_bytes; lia).
    rewrite run_bind, run_atomic. cbn [fst snd]. rewrite Hbuf.
    change (FrameAssembler_feed [] (frame_bytes h p)) with (frames_of (frame_bytes h p)).
    rewrite <- (app_nil_r (frame_bytes h p)), frames_of_frame by (done || constructor).
    change (frames_of []) with (@nil ParsedFrame, @nil Z).
    unfold push_frame. cbn [fst snd process_frames]. rewrite run_bind, run_ret. cbn [snd].
    apply mild_fault_strands; [by constructor|done|done|done|].
    unfold fault_severity, received. cbn [pf_payload].
    change (Z.of_nat (length p) >=? 8) with true. cbv iota. unfold p.
    by rewrite severity_of_fault_bytes. }
  destruct (pool_invariant calm_thread stranded s1 c Hs1) as [[] _]; [apply stranded_threads|done|done].
Qed.

(** A critical fault during recovery is lost: a critical FAULT_EVENT that
    arrives in RECOVERING changes nothing, and the next new heartbeat declares
    the daemon HEALTHY. *)
Theorem critical_fault_masked (s : sv) (fc hb : ParsedFrame) :
  fsm s = RECOVERING ->
  pf_ok fc = true -> pf_type fc = SAFETY_FRAME_FAULT_EVENT -> 2 <= fault_severity fc ->
  pf_ok hb = true -> pf_type hb = SAFETY_FRAME_HEARTBEAT ->
  (SAFETY_FRAME_HEARTBEAT, pf_seq hb) ∉ seen_ s ->
  fsm (run (process_frame fc) s).2 = RECOVERING /\
  fsm (run (process_frames [fc; hb]) s).2 = HEALTHY.
Proof.
  intros Hs Hfok Hfty Hsev Hhok Hhty Hin.
  assert (fsm (run (process_frame fc) s).2 = RECOVERING) as H1.
  { rewrite frame_fsm. unfold frame_target. rewrite Hfok, Hfty, Hs. cbn [negb orb].
    case_bool_decide; [done|]. change (SAFETY_FRAME_FAULT_EVENT =? SAFETY_FRAME_HEARTBEAT) with false.
    rewrite Z.eqb_refl, Z.geb_leb, (proj2 (Z.leb_le _ _)) by done. done. }
  split; [done|]. cbn [process_frames]. rewrite !run_bind, run_ret. cbn [snd].
  rewrite frame_fsm. unfold frame_target. rewrite H1, Hhok, Hhty, frame_seen, Hfok, Hfty. cbn [negb orb].
  rewrite bool_decide_false; [done|]. rewrite elem_of_union, elem_of_singleton.
  by intros [[=]|?].
Qed.

(** Heartbeats wear out: the duplicate table is never emptied, so once
    heartbeats with all 65536 sequence numbers have been processed, every later
    heartbeat is logged as a duplicate and does nothing else - no restart of the
    timer, no transition, no ACK. *)
Theorem heartbeats_wear_out (fs fs' : list ParsedFrame) (s : sv) :
  (forall q, is_u16 q -> exists f, f ∈ fs /\ pf_ok f = true /\
     pf_type f = SAFETY_FRAME_HEARTBEAT /\ pf_seq f = q) ->
  Forall (fun f => pf_ok f = true /\ pf_type f = SAFETY_FRAME_HEARTBEAT /\ is_u16 (pf_seq f)) fs' ->
  let s1 := (run (process_frames fs) s).2 in
  exists l, (run (process_frames fs') s1).2 = s1 <| logged := l |>.
Proof.
  intros Hall HF s1. apply duplicates_only_log. eapply Forall_impl; [exact HF|].
  intros f (Hok & Hty & Hseq). split; [done|].
  destruct (Hall (pf_seq f) Hseq) as (g & Hg & Hgok & Hgty & Hgseq).
  destruct (frames_seen fs s) as [_ Hfs]. rewrite Forall_forall in Hfs.
  specialize (Hfs g Hg Hgok). fold s1 in Hfs. by rewrite Hgty, Hgseq, <- Hty in Hfs.
Qed.

End Props.

(** ** Witnesses *)

(** A clock that advances by a millisecond, a device that takes every write. *)
Definition SimSv : SvEnv :=
  {| steady_now_ms n := Z.of_nat n; device_write_ok _ := true; heartbeat_timeout_ms := 350 |}.
#[local] Existing Instance SimSv.

Definition hb_header (seq : Z) : SafetyFrameHeader := safety_frame_init SAFETY_FRAME_HEARTBEAT seq 8 5.
Definition hb_payload : list Z := heartbeat_bytes (mkHeartbeat 5 0).
Definition hb_frame (seq : Z) : list Z := frame_bytes (hb_header seq) hb_payload.

(** A heartbeat has arrived. *)
Definition sim_rest : sv := (run (handle_readable (hb_frame 0)) sv_start).2.

Lemma sim_rest_ok : at_rest sim_rest.
Proof. constructor; by vm_compute. Qed.

Lemma hb_frame_ok seq : is_u16 seq -> frame_ok (hb_header seq) hb_payload.
Proof.
  intros Hs. apply (frame_init_ok SAFETY_FRAME_HEARTBEAT seq 5 hb_payload);
    [by split|done|by split| |vm_compute; lia].
  apply bytes_ok_app; auto with safety.
Qed.

Lemma stream_in_reads_witness :
  feed_reads [] [take 10 (hb_frame 0); drop 10 (hb_frame 0) ++ hb_frame 1] =
    ([received (hb_header 0) hb_payload; received (hb_header 1) hb_payload], []).
Proof.
  assert (forall q, is_u16 q -> bytes_ok (hb_frame q)) as Hb
    by (intros q Hq; apply bytes_ok_frame, (hb_frame_ok q Hq)).
  apply (stream_in_reads [take 10 (hb_frame 0); drop 10 (hb_frame 0) ++ hb_frame 1])
    with (l := [(hb_header 0, hb_payload); (hb_header 1, hb_payload)]).
  - constructor; [by apply bytes_ok_take, Hb|]. constructor; [|constructor].
    apply bytes_ok_app. split; [by apply bytes_ok_drop, Hb|by apply Hb].
  - do 2 (constructor; [apply hb_frame_ok; by split|]). constructor.
  - by vm_compute.
Defined.

Lemma every_frame_answered_witness :
  let hb := received (hb_header 9) hb_payload in
  sent (run (process_frames [hb; hb]) sv_start).2 = [build_ack 0 5 9].
Proof.
  cbv zeta. rewrite (proj1 (every_frame_answered _ sv_start ltac:(by split))). by vm_compute.
Defined.

(** The worker takes a request between two events of the loop. *)
Lemma deadline_never_waited_witness :
  timed_waits (exec [0; 0; 0; 0; 0; 0; 1; 1; 1; 0; 1]%nat
    ([loop_run [LReadable (hb_frame 0); LTimer; LWake]; worker_run 3], sv_start)).2 = 0%nat.
Proof.
  apply deadline_never_waited, exec_reach, spawn_reach.
  constructor; [left; by eexists|]. constructor; [right; left; by eexists|]. constructor.
Defined.

Lemma recovery_gives_up_witness :
  let s2 := (run (worker_run 2) (run on_heartbeat_timeout sim_rest).2).2 in
  fsm (run drain_recovery_reports s2).2 = FAILED.
Proof.
  intros s2.
  destruct (recovery_gives_up 0 sim_rest ([], sim_rest) sim_rest_ok) as (_ & _ & _ & _ & _ & H & _).
  exact H.
Defined.

Lemma watchdog_report_strands_witness :
  let c := ([] : list (prog sv unit), (run (handle_readable (timeout_frame 0 1000 1000)) sim_rest).2) in
  fsm c.2 = DEGRADED /\ queue_ c.2 = [].
Proof.
  intros c. refine (watchdog_report_strands sim_rest 0 1000 1000 c sim_rest_ok _ _ _ _ _ (reach_init _ _));
    [by vm_compute|by split..|].
  apply (bool_decide_unpack _). by vm_compute.
Defined.

Lemma heartbeats_wear_out_witness :
  let hbs := (fun q => received (hb_header q) hb_payload) <$> seqZ 0 65536 in
  let s1 := (run (process_frames hbs) sv_start).2 in
  exists l, (run (process_frames [received (hb_header 7) hb_payload]) s1).2 = s1 <| logged := l |>.
Proof.
  cbv zeta. apply heartbeats_wear_out.
  - intros q Hq. exists (received (hb_header q) hb_payload). split; [|done].
    apply list_elem_of_fmap. exists q. split; [done|]. apply elem_of_seqZ. cbn in Hq. lia.
  - constructor; [by repeat split|constructor].
Defined.

End Props.
