(* ===== verification/Logger.v ===== *)
(** * The event log: [userspace/safety-supervisord/logger_worker.cpp] and the
    readers of [replay_mode.cpp]

    [serialize_event] prints an event as one line of JSON, [extract_string] and
    [extract_int] find a field of a line again; the logger thread writes what
    other threads push.  A [char] is an [ascii], a file is a [string]. *)

From Stdlib Require Import Ascii DecimalString.
From S2P Require Import Prelude Supervisor SupervisorLoop.

#[global] Instance LogEvent_eq_dec : EqDecision LogEvent.
Proof. solve_decision. Defined.

(** ** Characters *)

Definition ch (n : nat) : ascii := ascii_of_nat n.
Definition quote : ascii := ch 34.
Definition backslash : ascii := ch 92.
Definition newline : ascii := ch 10.
Definition carriage : ascii := ch 13.
Definition tab : ascii := ch 9.

Definition str1 (c : ascii) : string := String c "".
Definition q : string := str1 quote.

(** ** Printing *)

Definition log_kind_name (k : LogKind) : string :=
  match k with
  | RX_FRAME => "rx_frame" | TX_ACK => "tx_ack" | TX_NACK => "tx_nack"
  | TX_COMMAND => "tx_command" | TIMEOUT => "timeout" | STATE_CHANGE => "state_change"
  | DUPLICATE => "duplicate" | CHECKSUM_ERROR => "checksum_error"
  | RECOVERY_RESULT => "recovery_result"
  end.

Definition hex_digit (n : nat) : ascii :=
  default "0"%char (String.get n "0123456789abcdef").

(** One character of [append_json_escaped]. *)
Definition json_escape (c : ascii) : string :=
  if ascii_dec c quote then String backslash (str1 quote)
  else if ascii_dec c backslash then String backslash (str1 backslash)
  else if ascii_dec c newline then String backslash "n"
  else if ascii_dec c carriage then String backslash "r"
  else if ascii_dec c tab then String backslash "t"
  else if (nat_of_ascii c <? 32)%nat then
    String backslash ("u00" +:+ str1 (hex_digit (nat_of_ascii c / 16 mod 16)) +:+
                      str1 (hex_digit (nat_of_ascii c mod 16)))
  else str1 c.

Fixpoint json_escaped (s : string) : string :=
  match s with
  | EmptyString => ""
  | String c s => json_escape c +:+ json_escaped s
  end.

(** The pattern before a number, and before a quoted string. *)
Definition int_key (key : string) : string := q +:+ key +:+ q +:+ ":".
Definition string_key (key : string) : string := q +:+ key +:+ q +:+ ":" +:+ q.

Definition serialize_event (e : LogEvent) : string :=
  "{" +:+ int_key "ts_ms" +:+ to_string (log_ts_ms e) +:+
  "," +:+ string_key "kind" +:+ log_kind_name (log_kind e) +:+
  q +:+ "," +:+ string_key "frame_type" +:+ json_escaped (frame_type e) +:+
  q +:+ "," +:+ int_key "seq" +:+ to_string (log_seq e) +:+
  "," +:+ string_key "fault" +:+ json_escaped (fault e) +:+
  q +:+ "," +:+ string_key "from_state" +:+ json_escaped (from_state e) +:+
  q +:+ "," +:+ string_key "to_state" +:+ json_escaped (to_state e) +:+
  q +:+ "," +:+ string_key "detail" +:+ json_escaped (detail e) +:+ q +:+ "}".

(** ** Reading *)

(** What follows [pat] at the front of [s]. *)
Fixpoint strip_prefix (pat s : string) : option string :=
  match pat, s with
  | EmptyString, _ => Some s
  | String a pat, String b s => if ascii_dec a b then strip_prefix pat s else None
  | _, EmptyString => None
  end.

(** [line.find(pat)]: what follows the first occurrence. *)
Fixpoint find_after (pat s : string) : option string :=
  match strip_prefix pat s with
  | Some rest => Some rest
  | None => match s with EmptyString => None | String _ s => find_after pat s end
  end.

Definition unescape (c : ascii) : ascii :=
  if ascii_dec c "n" then newline else if ascii_dec c "r" then carriage
  else if ascii_dec c "t" then tab else c.

(** The loop of [extract_string]: up to an unescaped quote or the end. *)
Fixpoint read_string (s : string) : string :=
  match s with
  | EmptyString => ""
  | String c s' =>
      if ascii_dec c backslash then
        match s' with
        | String nx s'' => String (unescape nx) (read_string s'')
        | EmptyString => str1 c
        end
      else if ascii_dec c quote then "" else String c (read_string s')
  end.

(** [None]: the key is not there and the output is left alone. *)
Definition extract_string (line key : string) : option string :=
  read_string <$> find_after (string_key key) line.

Definition is_digit (c : ascii) : bool :=
  (48 <=? nat_of_ascii c)%nat && (nat_of_ascii c <=? 57)%nat.

Fixpoint take_digits (s : string) : string :=
  match s with
  | String c s => if is_digit c then String c (take_digits s) else ""
  | EmptyString => ""
  end.

Definition is_sign (c : ascii) : bool :=
  if ascii_dec c "-" then true else if ascii_dec c "+" then true else false.

(** The characters handed to [std::stol]. *)
Definition take_number (s : string) : string :=
  match s with
  | String c s' => if is_sign c then String c (take_digits s') else take_digits s
  | EmptyString => ""
  end.

(** [std::stol] of an optional sign and digits: it throws ([None]) without
    digits and when the number does not fit a 64-bit [long]. *)
Definition stol (s : string) : option Z :=
  let s := match s with
           | String c s' => if ascii_dec c "+" then s' else s
           | EmptyString => s
           end in
  x ← Z.of_int <$> NilZero.int_of_string s;
  if (- 2 ^ 63 <=? x) && (x <? 2 ^ 63) then Some x else None.

(** [NoInt]: [false] is returned and the output is left alone. *)
Inductive int_field := NoInt | Threw | GotInt (x : Z).

Definition extract_int (line key : string) : int_field :=
  match find_after (int_key key) line with
  | None => NoInt
  | Some rest =>
      match take_number rest with
      | EmptyString => NoInt
      | num => match stol num with Some x => GotInt x | None => Threw end
      end
  end.

(** [std::getline] until the end of the file. *)
Fixpoint getlines (s : string) : list string :=
  match s with
  | EmptyString => []
  | String c s =>
      if ascii_dec c newline then "" :: getlines s
      else match getlines s with
           | [] => [str1 c]
           | l :: ls => String c l :: ls
           end
  end.

(** ** The logger thread *)

(** Waiting on the condition variable, writing what is left of a batch, or
    returned. *)
Inductive lg_pc := LgWait | LgWrite (batch : list LogEvent) | LgExited.

Record lg := mkLg {
  lg_queue : list LogEvent; lg_stopping : bool; lg_pos : lg_pc; lg_out : string }.

(** [start]: the file truncated, the thread about to wait. *)
Definition lg_start : lg := mkLg [] false LgWait "".

Definition lg_push (e : LogEvent) (s : lg) : lg :=
  mkLg (lg_queue s ++ [e]) (lg_stopping s) (lg_pos s) (lg_out s).

(** [stop] up to the [join]. *)
Definition lg_stop (s : lg) : lg := mkLg (lg_queue s) true (lg_pos s) (lg_out s).

(** One step of [LoggerWorker::run]: a pass through the critical section, or one
    event of the batch written. *)
Definition lg_run (s : lg) : lg :=
  match lg_pos s with
  | LgWait =>
      if lg_stopping s || negb (bool_decide (lg_queue s = [])) then
        if lg_stopping s && bool_decide (lg_queue s = [])
        then mkLg [] (lg_stopping s) LgExited (lg_out s)
        else mkLg [] (lg_stopping s) (LgWrite (lg_queue s)) (lg_out s)
      else s
  | LgWrite [] => mkLg (lg_queue s) (lg_stopping s) LgWait (lg_out s)
  | LgWrite (e :: batch) =>
      mkLg (lg_queue s) (lg_stopping s) (LgWrite batch)
        (lg_out s +:+ serialize_event e +:+ str1 newline)
  | LgExited => s
  end.
