(* ===== verification/LoggerSpec.v ===== *)
(** * The log can be read back

    A line of the log is a list of fields; finding a key skips every other field,
    whatever text its value holds, because a quote inside a value is escaped. *)

From Stdlib Require Import Ascii DecimalString.
From Stdlib Require DecimalZ.
From S2P Require Import Prelude Supervisor SupervisorLoop Logger.

#[local] Arguments String.append !_ _ /.

(** ** Strings *)

Lemma str_app_assoc (a b c : string) : (a +:+ b) +:+ c = a +:+ b +:+ c.
Proof. induction a as [|x a IH]; [done|]. by apply (f_equal (String x)). Qed.

Lemma str_app_nil (a : string) : a +:+ "" = a.
Proof. induction a as [|x a IH]; [done|]. by apply (f_equal (String x)). Qed.

(** Every character of the string. *)
Fixpoint all_chars (P : ascii -> Prop) (s : string) : Prop :=
  match s with
  | EmptyString => True
  | String c s => P c /\ all_chars P s
  end.

Lemma all_chars_app P a b : all_chars P (a +:+ b) <-> all_chars P a /\ all_chars P b.
Proof. induction a as [|x a IH]; cbn [all_chars String.append]; [tauto|]. rewrite IH. tauto. Qed.

Lemma all_chars_impl (P Q : ascii -> Prop) s : (forall c, P c -> Q c) -> all_chars P s -> all_chars Q s.
Proof. intros H. induction s as [|c s IH]; cbn; [done|]. intros []; eauto. Qed.

#[global] Instance all_chars_dec P `{!forall c, Decision (P c)} s : Decision (all_chars P s).
Proof. induction s; cbn; apply _. Defined.

(** ** Searching *)

(** [pat] starts nowhere in [x] when [y] follows. *)
Fixpoint nomatch (pat x y : string) : Prop :=
  match x with
  | EmptyString => True
  | String c x' => strip_prefix pat (String c (x' +:+ y)) = None /\ nomatch pat x' y
  end.

Lemma find_skip pat x y : nomatch pat x y -> find_after pat (x +:+ y) = find_after pat y.
Proof.
  induction x as [|c x IH]; [done|]. intros [H1 H2]. cbn [String.append find_after].
  by rewrite H1, IH.
Qed.

Lemma nomatch_app pat a b y : nomatch pat a (b +:+ y) -> nomatch pat b y -> nomatch pat (a +:+ b) y.
Proof.
  induction a as [|c a IH]; [done|]. intros [H1 H2] Hb. cbn [String.append nomatch].
  rewrite str_app_assoc. auto.
Qed.

Lemma strip_prefix_app pat s : strip_prefix pat (pat +:+ s) = Some s.
Proof. induction pat as [|c pat IH]; [done|]. cbn. by destruct (ascii_dec c c). Qed.

Lemma find_here pat s : find_after pat (pat +:+ s) = Some s.
Proof. pose proof (strip_prefix_app pat s) as H. destruct (pat +:+ s); cbn [find_after]; by rewrite H. Qed.

Lemma strip_ne a pat b s : a <> b -> strip_prefix (String a pat) (String b s) = None.
Proof. intros H. cbn. by destruct (ascii_dec a b). Qed.

Lemma strip_eq a pat s : strip_prefix (String a pat) (String a s) = strip_prefix pat s.
Proof. cbn. by destruct (ascii_dec a a). Qed.

(** A pattern that opens with a quote starts nowhere in a text without quotes. *)
Lemma nomatch_noquote pat x y :
  all_chars (fun c => c <> quote) x -> nomatch (String quote pat) x y.
Proof.
  induction x as [|c x IH]; [done|]. intros [H1 H2]. split; [|by apply IH].
  apply strip_ne. congruence.
Qed.

(** ** Keys and values *)

(** The characters of a key. *)
Definition plain (c : ascii) : Prop :=
  c <> quote /\ c <> backslash /\ c <> ":"%char /\ c <> ","%char /\ c <> "}"%char.

#[global] Instance plain_dec c : Decision (plain c).
Proof. unfold plain. apply _. Defined.

Definition key_ok (k : string) : Prop := k <> "" /\ all_chars plain k.

#[global] Instance key_ok_dec k : Decision (key_ok k).
Proof. unfold key_ok. apply _. Defined.

(** What a search looks for: a key, quoted, a colon, and perhaps a quote. *)
Definition key_pat (key t : string) : string := String quote (key +:+ String quote (String ":" t)).

Lemma int_key_pat key : int_key key = key_pat key "".
Proof. done. Qed.
Lemma string_key_pat key : string_key key = key_pat key q.
Proof. done. Qed.

#[local] Ltac esc_rest := split; [done|]; eexists; split; [reflexivity|]; by repeat split.

(** Escapes: a backslash and one or five more characters, or the character. *)
Lemma json_escape_cases c :
  (c = quote /\ json_escape c = String backslash (str1 quote)) \/
  (c <> quote /\ exists x, json_escape c = String backslash x /\ all_chars (fun c => c <> quote) x) \/
  (c <> quote /\ c <> backslash /\ json_escape c = str1 c).
Proof.
  unfold json_escape. destruct (ascii_dec c quote); [by left|right].
  destruct (ascii_dec c backslash); [left; esc_rest|].
  destruct (ascii_dec c newline); [left; esc_rest|].
  destruct (ascii_dec c carriage); [left; esc_rest|].
  destruct (ascii_dec c tab); [left; esc_rest|].
  destruct (_ <? 32)%nat eqn:E; [|by right]. left. split; [done|]. eexists. split; [reflexivity|].
  revert E. destruct c as [[] [] [] [] [] [] [] []]; vm_compute; intros; done || (repeat split; discriminate).
Qed.

(** A closing delimiter: what follows the quote that closes a value. *)
Definition delim (d : ascii) : Prop := d = ","%char \/ d = "}"%char.

(** No key ends inside a value, nor at its closing quote. *)
Lemma key_not_in_value key t v d r :
  all_chars plain key -> delim d ->
  strip_prefix (key +:+ String quote (String ":" t)) (json_escaped v +:+ String quote (String d r)) = None.
Proof.
  intros Hk Hd. revert key Hk. induction v as [|c v IH]; intros key Hk.
  - destruct key as [|k key]; cbn [json_escaped String.append].
    + rewrite strip_eq. apply strip_ne. destruct Hd as [-> | ->]; done.
    + apply strip_ne. apply Hk.
  - cbn [json_escaped]. destruct (json_escape_cases c) as [[-> ->]|[[Hc (x & -> & Hx)]|(H1 & H2 & ->)]];
      cbn [String.append str1].
    + destruct key as [|k key]; cbn [String.append]; apply strip_ne; [done|apply Hk].
    + destruct key as [|k key]; cbn [String.append]; apply strip_ne; [done|apply Hk].
    + destruct key as [|k key]; cbn [String.append]; [by apply strip_ne|].
      destruct (decide (k = c)) as [-> |]; [|by apply strip_ne]. rewrite strip_eq. apply IH, Hk.
Qed.

(** A key starts nowhere in a value. *)
Lemma nomatch_value key t v d r :
  all_chars plain key -> delim d ->
  nomatch (key_pat key t) (json_escaped v) (String quote (String d r)).
Proof.
  intros Hk Hd. unfold key_pat. induction v as [|c v IH]; [done|]. cbn [json_escaped].
  apply nomatch_app; [|exact IH].
  destruct (json_escape_cases c) as [[-> ->]|[[Hc (x & -> & Hx)]|(H1 & H2 & ->)]].
  - split; [by apply strip_ne|]. split; [|done].
    cbn [String.append]. rewrite strip_eq. by apply key_not_in_value.
  - split; [by apply strip_ne|]. by apply nomatch_noquote.
  - split; [|done]. apply strip_ne. congruence.
Qed.

(** ** Fields *)

Inductive field := FInt (key : string) (x : Z) | FStr (key v : string).

Definition field_key (f : field) : string := match f with FInt k _ => k | FStr k _ => k end.

Definition field_text (f : field) : string :=
  match f with
  | FInt k x => int_key k +:+ to_string x
  | FStr k v => string_key k +:+ json_escaped v +:+ q
  end.

Fixpoint fields_text (fs : list field) : string :=
  match fs with
  | [] => "}"
  | [f] => field_text f +:+ "}"
  | f :: fs => field_text f +:+ "," +:+ fields_text fs
  end.

(** What follows a field opens with a delimiter. *)
Definition after_field (fs : list field) : string :=
  match fs with [] => "}" | _ => "," +:+ fields_text fs end.

Lemma fields_text_cons f fs : fields_text (f :: fs) = field_text f +:+ after_field fs.
Proof. by destruct fs. Qed.

Lemma after_field_delim fs : exists d r, delim d /\ after_field fs = String d r.
Proof. destruct fs; [exists "}"%char|exists ","%char]; eexists; by split; [unfold delim; auto|]. Qed.

(** ** Numbers *)

Lemma digits_string d : all_chars (fun c => is_digit c = true) (NilEmpty.string_of_uint d).
Proof. induction d; by cbn [NilEmpty.string_of_uint all_chars]. Qed.

Lemma digits_string0 d : all_chars (fun c => is_digit c = true) (NilZero.string_of_uint d).
Proof. unfold NilZero.string_of_uint. destruct d; [by cbn|apply digits_string..]. Qed.

(** A number is an optional sign and digits. *)
Lemma to_string_shape x :
  exists d, all_chars (fun c => is_digit c = true) d /\ d <> "" /\
            (to_string x = d \/ to_string x = String "-" d).
Proof.
  unfold to_string, NilZero.string_of_int. assert (forall d, NilZero.string_of_uint d <> "") as Hne by (intros []; done).
  destruct (Z.to_int x) as [d|d]; exists (NilZero.string_of_uint d); auto using digits_string0.
Qed.

Lemma digit_noquote c : is_digit c = true -> c <> quote.
Proof. by intros H ->. Qed.

Lemma to_string_noquote x : all_chars (fun c => c <> quote) (to_string x).
Proof.
  destruct (to_string_shape x) as (d & Hd & _ & [-> | ->]); [|split; [done|]];
    by eapply all_chars_impl, Hd; apply digit_noquote.
Qed.

Lemma take_digits_app d e r :
  all_chars (fun c => is_digit c = true) d -> delim e -> take_digits (d +:+ String e r) = d.
Proof.
  intros Hd He. induction d as [|c d IH]; cbn.
  - by destruct He as [-> | ->].
  - destruct Hd as [-> Hd]. by rewrite IH.
Qed.

Lemma take_number_app x e r : delim e -> take_number (to_string x +:+ String e r) = to_string x.
Proof.
  intros He. destruct (to_string_shape x) as (d & Hd & Hne & [-> | ->]).
  - destruct d as [|c d]; [done|]. pose proof (take_digits_app (String c d) e r Hd He) as H.
    unfold take_number. cbn [String.append] in *. destruct (is_sign c) eqn:Es; [|exact H].
    exfalso. destruct Hd as [Hc _]. unfold is_sign in Es.
    destruct (ascii_dec c "-"); [by subst|]. destruct (ascii_dec c "+"); by subst.
  - cbn [String.append take_number]. change (is_sign "-") with true. cbn iota. by rewrite take_digits_app.
Qed.

Lemma to_int_nonnil x : Z.to_int x <> Decimal.Pos Decimal.Nil /\ Z.to_int x <> Decimal.Neg Decimal.Nil.
Proof.
  split; intros H; pose proof (DecimalZ.of_to x) as Hx; rewrite H in Hx; cbn in Hx; subst x; discriminate H.
Qed.

Lemma stol_to_string x : - 2 ^ 63 <= x < 2 ^ 63 -> stol (to_string x) = Some x.
Proof.
  intros Hx. unfold stol.
  assert (match to_string x with String c s' => if ascii_dec c "+" then s' else to_string x
          | "" => to_string x end = to_string x) as ->.
  { destruct (to_string_shape x) as (d & Hd & Hne & [-> | ->]); [|done].
    destruct d as [|c d]; [done|]. destruct (ascii_dec c "+") as [-> |]; [|done]. by destruct Hd. }
  unfold to_string at 1. destruct (to_int_nonnil x) as [H1 H2]. rewrite NilZero.isi by done.
  cbn [fmap option_fmap option_map mbind option_bind]. rewrite DecimalZ.of_to.
  by rewrite (proj2 (Z.leb_le _ _)), (proj2 (Z.ltb_lt _ _)) by lia.
Qed.

(** ** Finding a field *)

(** Two keys that differ do not match each other's place. *)
Lemma key_vs_key k k' t r :
  all_chars plain k -> all_chars plain k' -> k <> k' ->
  strip_prefix (k +:+ String quote (String ":" t)) (k' +:+ String quote r) = None.
Proof.
  revert k'. induction k as [|c k IH]; intros [|c' k'] Hk Hk' Hne; cbn [String.append].
  - done.
  - apply strip_ne. destruct Hk' as [Hc _]. intros <-. by destruct Hc.
  - apply strip_ne. destruct Hk as [Hc _]. by destruct Hc.
  - destruct (decide (c = c')) as [-> |]; [|by apply strip_ne]. rewrite strip_eq.
    apply IH; [apply Hk|apply Hk'|congruence].
Qed.

Lemma nomatch_key key t k' r :
  key_ok key -> all_chars plain k' -> key <> k' ->
  nomatch (key_pat key t) (String quote (k' +:+ String quote ":")) r.
Proof.
  intros [Hne Hk] Hk' Hd. unfold key_pat. split.
  - rewrite strip_eq, str_app_assoc. by apply key_vs_key.
  - apply nomatch_app; [apply nomatch_noquote|].
    + eapply all_chars_impl, Hk'. by intros c [].
    + split; [|split; [by apply strip_ne|done]].
      rewrite strip_eq. destruct key as [|c key]; [done|]. cbn [String.append]. apply strip_ne.
      by destruct Hk as [(_ & _ & ? & _) _].
Qed.

(** A field with another key is skipped. *)
Lemma nomatch_field key t f fs :
  key_ok key -> key_ok (field_key f) -> key <> field_key f ->
  nomatch (key_pat key t) (field_text f) (after_field fs).
Proof.
  intros Hkey Hf Hne. destruct (after_field_delim fs) as (d & r & Hd & ->).
  destruct f as [k x|k v]; cbn [field_key field_text] in *.
  - unfold int_key, q. cbn [str1 String.append].
    apply (nomatch_app _ (String quote (k +:+ String quote ":")) (to_string x)).
    + apply nomatch_key; [done|apply Hf|done].
    + apply nomatch_noquote, to_string_noquote.
  - change (string_key k +:+ json_escaped v +:+ q)
      with (String quote ((k +:+ String quote (String ":" (String quote ""))) +:+ json_escaped v +:+ q)).
    assert (String quote ((k +:+ String quote (String ":" (String quote ""))) +:+ json_escaped v +:+ q) =
            String quote (k +:+ String quote ":") +:+ String quote (json_escaped v +:+ q)) as ->.
    { cbn [String.append]. by rewrite !str_app_assoc. }
    apply nomatch_app; [apply nomatch_key; [done|apply Hf|done]|]. split.
    + unfold key_pat. rewrite strip_eq, str_app_assoc. by apply key_not_in_value; [apply Hkey|].
    + apply nomatch_app; [apply nomatch_value; [apply Hkey|done]|]. split; [|done].
      unfold key_pat. cbn [String.append]. rewrite strip_eq. destruct key as [|c key]; [by destruct Hkey|].
      cbn [String.append]. apply strip_ne. destruct Hkey as [_ [(_ & _ & _ & H1 & H2) _]].
      by destruct Hd as [-> | ->].
Qed.

(** The opening brace and the commas. *)
Lemma nomatch_char key t c y : c <> quote -> nomatch (key_pat key t) (str1 c) y.
Proof. intros Hc. by apply nomatch_noquote. Qed.

Lemma find_field_skip key t f fs :
  key_ok key -> key_ok (field_key f) -> key <> field_key f -> fs <> [] ->
  find_after (key_pat key t) (fields_text (f :: fs)) = find_after (key_pat key t) (fields_text fs).
Proof.
  intros Hk Hf Hne Hfs. rewrite fields_text_cons, find_skip by by apply nomatch_field.
  destruct fs as [|g fs]; [done|]. change (after_field (g :: fs)) with (str1 "," +:+ fields_text (g :: fs)).
  by rewrite find_skip by by apply nomatch_char.
Qed.

(** The first field with the key is found, behind an opening brace. *)
Lemma find_field key t pre f post :
  Forall (fun g => key_ok (field_key g) /\ key <> field_key g) pre -> key_ok key ->
  find_after (key_pat key t) ("{" +:+ fields_text (pre ++ f :: post)) =
  find_after (key_pat key t) (field_text f +:+ after_field post).
Proof.
  intros Hpre Hk. change ("{" +:+ ?x) with (str1 "{" +:+ x).
  rewrite find_skip by by apply nomatch_char. rewrite <- fields_text_cons.
  induction Hpre as [|g pre [Hg1 Hg2] _ IH]; [done|]. cbn [app].
  rewrite find_field_skip; [exact IH|done..|]. by destruct pre.
Qed.

(** ** Values *)

(** Characters whose escape is read back: not the ones written as a code. *)
Definition loggable (c : ascii) : Prop :=
  (32 <= nat_of_ascii c)%nat \/ c = newline \/ c = carriage \/ c = tab.

#[global] Instance loggable_dec c : Decision (loggable c).
Proof. unfold loggable. apply _. Defined.

Lemma read_escaped_char c s : loggable c -> read_string (json_escape c +:+ s) = String c (read_string s).
Proof.
  intros Hc. unfold json_escape.
  destruct (ascii_dec c quote) as [-> |H1]; [done|].
  destruct (ascii_dec c backslash) as [-> |H2]; [done|].
  destruct (ascii_dec c newline) as [-> |H3]; [done|].
  destruct (ascii_dec c carriage) as [-> |H4]; [done|].
  destruct (ascii_dec c tab) as [-> |H5]; [done|].
  destruct Hc as [Hc|[|[|]]]; [|done..].
  rewrite (proj2 (Nat.ltb_ge _ _) Hc). cbn [str1 String.append read_string].
  by destruct (ascii_dec c backslash); [|destruct (ascii_dec c quote)].
Qed.

Lemma read_escaped v r : all_chars loggable v -> read_string (json_escaped v +:+ String quote r) = v.
Proof.
  induction v as [|c v IH]; [done|]. intros [Hc Hv]. cbn [json_escaped].
  rewrite str_app_assoc, read_escaped_char by done. by rewrite IH.
Qed.

Lemma extract_string_field key v pre post :
  Forall (fun g => key_ok (field_key g) /\ key <> field_key g) pre -> key_ok key -> all_chars loggable v ->
  extract_string ("{" +:+ fields_text (pre ++ FStr key v :: post)) key = Some v.
Proof.
  intros Hpre Hk Hv. unfold extract_string. rewrite string_key_pat, find_field by done.
  rewrite <- string_key_pat. cbn [field_text]. rewrite !str_app_assoc, find_here.
  cbn [fmap option_fmap option_map q str1 String.append]. by rewrite read_escaped.
Qed.

Lemma extract_int_field key x pre post :
  Forall (fun g => key_ok (field_key g) /\ key <> field_key g) pre -> key_ok key -> - 2 ^ 63 <= x < 2 ^ 63 ->
  extract_int ("{" +:+ fields_text (pre ++ FInt key x :: post)) key = GotInt x.
Proof.
  intros Hpre Hk Hx. unfold extract_int. rewrite int_key_pat, find_field by done.
  rewrite <- int_key_pat. cbn [field_text]. rewrite !str_app_assoc, find_here.
  destruct (after_field_delim post) as (d & r & Hd & ->). rewrite take_number_app by done.
  pose proof (stol_to_string x Hx) as Hs.
  destruct (to_string_shape x) as (ds & _ & Hne & Hds).
  destruct (to_string x) as [|c s]; [by destruct Hds|]. by rewrite Hs.
Qed.

(** ** Events *)

Definition event_fields (e : LogEvent) : list field :=
  [FInt "ts_ms" (log_ts_ms e); FStr "kind" (log_kind_name (log_kind e));
   FStr "frame_type" (frame_type e); FInt "seq" (log_seq e); FStr "fault" (fault e);
   FStr "from_state" (from_state e); FStr "to_state" (to_state e); FStr "detail" (detail e)].

Lemma kind_escaped k : json_escaped (log_kind_name k) = log_kind_name k.
Proof. by destruct k. Qed.

Lemma serialize_fields e : serialize_event e = "{" +:+ fields_text (event_fields e).
Proof.
  unfold serialize_event, event_fields. cbn [fields_text field_text]. rewrite kind_escaped.
  unfold int_key, string_key. by rewrite !str_app_assoc.
Qed.

(** The text of every field can be read back, *)
Definition event_text (e : LogEvent) : Prop :=
  all_chars loggable (frame_type e) /\ all_chars loggable (fault e) /\
  all_chars loggable (from_state e) /\ all_chars loggable (to_state e) /\
  all_chars loggable (detail e).

(** and the numbers fit their types. *)
Definition event_ok (e : LogEvent) : Prop :=
  event_text e /\ - 2 ^ 63 <= log_ts_ms e < 2 ^ 63 /\ - 2 ^ 31 <= log_seq e < 2 ^ 31.

#[local] Ltac field_at n e :=
  rewrite serialize_fields;
  first [apply (extract_string_field _ _ (take n (event_fields e)) (drop (S n) (event_fields e)))
        |apply (extract_int_field _ _ (take n (event_fields e)) (drop (S n) (event_fields e)))];
  [apply (bool_decide_unpack _); by vm_compute|apply (bool_decide_unpack _); by vm_compute|].

Lemma read_kind e : extract_string (serialize_event e) "kind" = Some (log_kind_name (log_kind e)).
Proof. field_at 1%nat e. destruct (log_kind e); apply (bool_decide_unpack _); by vm_compute. Qed.

Lemma read_frame_type e :
  event_text e -> extract_string (serialize_event e) "frame_type" = Some (frame_type e).
Proof. intros He. field_at 2%nat e. apply He. Qed.

Lemma read_fault e : event_text e -> extract_string (serialize_event e) "fault" = Some (fault e).
Proof. intros He. field_at 4%nat e. apply He. Qed.

Lemma read_from_state e :
  event_text e -> extract_string (serialize_event e) "from_state" = Some (from_state e).
Proof. intros He. field_at 5%nat e. apply He. Qed.

Lemma read_to_state e : event_text e -> extract_string (serialize_event e) "to_state" = Some (to_state e).
Proof. intros He. field_at 6%nat e. apply He. Qed.

Lemma read_detail e : event_text e -> extract_string (serialize_event e) "detail" = Some (detail e).
Proof. intros He. field_at 7%nat e. apply He. Qed.

Lemma read_ts_ms e : event_ok e -> extract_int (serialize_event e) "ts_ms" = GotInt (log_ts_ms e).
Proof. intros He. field_at 0%nat e. apply He. Qed.

Lemma read_seq e : event_ok e -> extract_int (serialize_event e) "seq" = GotInt (log_seq e).
Proof.
  intros He. field_at 3%nat e. destruct He as (_ & _ & H). lia.
Qed.

(** ** The file *)

Definition not_newline (c : ascii) : Prop := c <> newline.

(** The text of a list of events, one line each. *)
Fixpoint log_text (es : list LogEvent) : string :=
  match es with
  | [] => ""
  | e :: es => serialize_event e +:+ str1 newline +:+ log_text es
  end.

Lemma log_text_app es1 es2 : log_text (es1 ++ es2) = log_text es1 +:+ log_text es2.
Proof. induction es1 as [|e es IH]; [done|]. cbn [log_text app]. by rewrite IH, !str_app_assoc. Qed.

Lemma log_text_snoc es e : log_text (es ++ [e]) = log_text es +:+ serialize_event e +:+ str1 newline.
Proof. by rewrite log_text_app. Qed.

Lemma escape_no_newline s : all_chars not_newline (json_escaped s).
Proof.
  induction s as [|c s IH]; [done|]. cbn [json_escaped]. apply all_chars_app. split; [|exact IH].
  destruct (decide (c = newline)) as [-> |Hc]; [apply (bool_decide_unpack _); by vm_compute|].
  unfold json_escape. do 5 (destruct (ascii_dec c _); [by repeat split|]).
  destruct (_ <? 32)%nat eqn:E; [|by split].
  revert E Hc. destruct c as [[] [] [] [] [] [] [] []]; vm_compute; intros; done || (repeat split; discriminate).
Qed.

Lemma to_string_no_newline x : all_chars not_newline (to_string x).
Proof.
  assert (forall c, is_digit c = true -> not_newline c) as Hd by (by intros c H ->).
  destruct (to_string_shape x) as (d & H & _ & [-> | ->]); [|split; [done|]];
    by eapply all_chars_impl, H.
Qed.

Lemma field_no_newline f : all_chars not_newline (field_key f) -> all_chars not_newline (field_text f).
Proof.
  destruct f as [k x|k v]; intros H; cbn [field_text field_key] in *; unfold int_key, string_key, q;
    rewrite ?all_chars_app; repeat split; done || apply to_string_no_newline || apply escape_no_newline.
Qed.

Lemma serialize_no_newline e : all_chars not_newline (serialize_event e).
Proof.
  rewrite serialize_fields.
  assert (Forall (fun f => all_chars not_newline (field_key f)) (event_fields e)) as H.
  { apply (bool_decide_unpack _); by vm_compute. }
  apply all_chars_app. split; [by repeat split|]. revert H. generalize (event_fields e).
  induction 1 as [|f fs Hf _ IH]; [by repeat split|]. rewrite fields_text_cons, all_chars_app.
  split; [by apply field_no_newline|]. destruct fs; [by repeat split|]. by split.
Qed.

Lemma getlines_line l s :
  all_chars not_newline l -> getlines (l +:+ str1 newline +:+ s) = l :: getlines s.
Proof.
  induction l as [|c l IH]; intros Hl; cbn [String.append getlines str1]; [done|].
  destruct Hl as [Hc Hl]. destruct (ascii_dec c newline); [done|].
  change (str1 newline +:+ s) with (String newline s) in IH. by rewrite IH.
Qed.

(** The lines read from the file are the lines written. *)
Lemma getlines_log_text es : getlines (log_text es) = serialize_event <$> es.
Proof.
  induction es as [|e es IH]; [done|]. cbn [log_text].
  rewrite getlines_line by apply serialize_no_newline. by rewrite IH.
Qed.

(** ** The logger thread *)

(** What the thread and the threads that push can make of the logger; the list
    is what was pushed. *)
Inductive lg_reach : list LogEvent -> lg -> Prop :=
  | lg_reach_start : lg_reach [] lg_start
  | lg_reach_push p s e : lg_reach p s -> lg_reach (p ++ [e]) (lg_push e s)
  | lg_reach_stop p s : lg_reach p s -> lg_reach p (lg_stop s)
  | lg_reach_run p s : lg_reach p s -> lg_reach p (lg_run s).

(** Events taken from the queue and not written yet. *)
Definition lg_hand (s : lg) : list LogEvent := match lg_pos s with LgWrite b => b | _ => [] end.

(** Written, in hand and queued are what was pushed, in that order. *)
Definition lg_inv (p : list LogEvent) (s : lg) : Prop :=
  (exists w, p = w ++ lg_hand s ++ lg_queue s /\ lg_out s = log_text w) /\
  (lg_pos s = LgExited -> lg_stopping s = true).

Lemma lg_run_inv p s : lg_inv p s -> lg_inv p (lg_run s).
Proof.
  intros [(w & -> & Ho) Hx]. unfold lg_inv, lg_run, lg_hand in *.
  destruct s as [qu stp [|[|e b]|] o]; cbn in *; subst o.
  - destruct stp; cbn [orb]; (case_bool_decide; cbn; (split; [|done]); exists w; subst);
      by rewrite ?app_nil_r.
  - split; [|done]. by exists w.
  - split; [|done]. exists (w ++ [e]). split; [by rewrite <- app_assoc|]. by rewrite log_text_snoc.
  - split; [by exists w|done].
Qed.

Lemma lg_reach_inv p s : lg_reach p s -> lg_inv p s.
Proof.
  induction 1 as [|p s e _ IH|p s _ IH|p s _ IH]; [..|by apply lg_run_inv].
  - split; [by exists []|done].
  - destruct IH as [(w & -> & Ho) Hx]. split; [|exact Hx]. exists w.
    split; [by rewrite <- !app_assoc|exact Ho].
  - destruct IH as [(w & -> & Ho) Hx]. split; [by exists w|done].
Qed.

(** Steps the thread needs once it is told to stop. *)
Definition lg_todo (s : lg) : nat :=
  match lg_pos s with
  | LgExited => 0
  | LgWait => match lg_queue s with [] => 1 | qu => length qu + 3 end
  | LgWrite b => length b + 1 + match lg_queue s with [] => 1 | qu => length qu + 3 end
  end.

Lemma lg_run_todo s :
  lg_stopping s = true ->
  lg_stopping (lg_run s) = true /\ lg_todo (lg_run s) = pred (lg_todo s) /\
  (lg_todo s = 0%nat -> lg_run s = s).
Proof.
  destruct s as [qu stp [|[|e b]|] o]; cbn [lg_stopping]; intros ->; unfold lg_run, lg_todo;
    cbn [lg_pos lg_queue lg_stopping orb andb]; [|done|done|done].
  destruct qu as [|e qu]; [done|]. cbn. repeat split; lia.
Qed.

Lemma lg_drain n s :
  lg_stopping s = true -> (lg_todo s <= n)%nat -> lg_pos (Nat.iter n lg_run s) = LgExited.
Proof.
  revert s. induction n as [|n IH]; intros s Hs Hn.
  - destruct s as [[|e qu] stp [|b|] o]; cbn in Hn |- *; done || lia.
  - rewrite Nat.iter_succ_r. destruct (lg_run_todo s Hs) as (H1 & H2 & _). apply IH; [done|]. lia.
Qed.

Lemma lg_reach_iter n p s : lg_reach p s -> lg_reach p (Nat.iter n lg_run s).
Proof. intros H. induction n as [|n IH]; [done|]. cbn. by constructor. Qed.

(** Nothing stays in the queue of a thread that drained it. *)
Lemma lg_run_queue s :
  lg_stopping s = true -> (lg_pos s = LgExited -> lg_queue s = []) ->
  lg_pos (lg_run s) = LgExited -> lg_queue (lg_run s) = [].
Proof.
  destruct s as [qu stp [|[|e b]|] o]; cbn [lg_stopping]; intros -> H; unfold lg_run;
    cbn [lg_pos lg_queue lg_stopping orb andb]; [by case_bool_decide|done|done|exact H].
Qed.

Lemma lg_iter_queue n s :
  lg_stopping s = true -> (lg_pos s = LgExited -> lg_queue s = []) ->
  lg_stopping (Nat.iter n lg_run s) = true /\
  (lg_pos (Nat.iter n lg_run s) = LgExited -> lg_queue (Nat.iter n lg_run s) = []).
Proof.
  intros Hs Hq. induction n as [|n [IH1 IH2]]; [done|]. rewrite Nat.iter_succ.
  split; [by apply lg_run_todo|by apply lg_run_queue].
Qed.

(** A logger that was told to stop writes all that was pushed and returns. *)
Lemma lg_finish p s n :
  lg_reach p s -> lg_pos s <> LgExited -> (lg_todo (lg_stop s) <= n)%nat ->
  let s' := Nat.iter n lg_run (lg_stop s) in
  lg_pos s' = LgExited /\ lg_out s' = log_text p.
Proof.
  intros Hr Hx Hn s'. assert (lg_pos s' = LgExited) as Hp by by apply lg_drain.
  split; [exact Hp|]. destruct (lg_iter_queue n (lg_stop s)) as [_ Hq]; [done|done|].
  destruct (lg_reach_inv p s') as [(w & Hw & Ho) _]; [by apply lg_reach_iter; constructor|].
  fold s' in Hq. rewrite Ho. unfold lg_hand in Hw. rewrite Hp, (Hq Hp), app_nil_r in Hw. by subst.
Qed.
