(* ===== verification/Csv.v ===== *)
(** * Comma-separated lines

    Splitting a line at its commas, and text that is one field. *)

From Stdlib Require Import Ascii.
From S2P Require Import Prelude Supervisor Logger LoggerSpec.

#[local] Arguments String.append !_ _ /.

Definition comma : ascii := ",".

Fixpoint split_comma (s : string) : list string :=
  match s with
  | EmptyString => [""]
  | String c s =>
      if ascii_dec c comma then "" :: split_comma s
      else match split_comma s with [] => [str1 c] | f :: fs => String c f :: fs end
  end.

(** Text without commas and line ends. *)
Definition cell (s : string) : Prop := all_chars (fun c => c <> comma /\ c <> newline) s.

#[global] Instance cell_dec s : Decision (cell s).
Proof. unfold cell. apply _. Defined.

Lemma split_comma_cell s : cell s -> split_comma s = [s].
Proof.
  induction s as [|c s IH]; [done|]. intros [[Hc _] Hs]. cbn. destruct (ascii_dec c comma); [done|].
  by rewrite IH.
Qed.

Lemma split_comma_app s rest : cell s -> split_comma (s +:+ "," +:+ rest) = s :: split_comma rest.
Proof.
  induction s as [|c s IH]; [done|]. intros [[Hc _] Hs]. cbn in *. destruct (ascii_dec c comma); [done|].
  by rewrite (IH Hs).
Qed.

Lemma cell_app a b : cell a -> cell b -> cell (a +:+ b).
Proof. intros. by apply all_chars_app. Qed.

Lemma digit_cell c : is_digit c = true -> c <> comma /\ c <> newline.
Proof. intros H. by split; intros ->. Qed.

Lemma to_string_cell x : cell (to_string x).
Proof.
  destruct (to_string_shape x) as (d & Hd & _ & [-> | ->]); [|split; [done|]];
    eapply all_chars_impl, Hd; apply digit_cell.
Qed.

Lemma cell_no_newline s : cell s -> all_chars not_newline s.
Proof. apply all_chars_impl. by intros c [_ H]. Qed.

(** A line of fields. *)
Fixpoint csv_text (fields : list string) : string :=
  match fields with
  | [] => ""
  | [f] => f
  | f :: fields => f +:+ "," +:+ csv_text fields
  end.

Lemma split_csv fields : fields <> [] -> Forall cell fields -> split_comma (csv_text fields) = fields.
Proof.
  intros Hne HF. induction HF as [|f fields Hf HF IH]; [done|]. destruct fields as [|g fields]; [by apply split_comma_cell|].
  change (csv_text (f :: g :: fields)) with (f +:+ "," +:+ csv_text (g :: fields)).
  by rewrite split_comma_app, IH.
Qed.

Lemma csv_no_newline fields : Forall cell fields -> all_chars not_newline (csv_text fields).
Proof.
  induction 1 as [|f fields Hf HF IH]; [done|]. destruct fields as [|g fields]; [by apply cell_no_newline|].
  change (csv_text (f :: g :: fields)) with (f +:+ "," +:+ csv_text (g :: fields)).
  apply all_chars_app. split; [by apply cell_no_newline|]. apply all_chars_app. by split.
Qed.
