(* ===== verification/Replay.v ===== *)
(** * Mock and replay modes: [run_mock] of [userspace/safety-supervisord/main.cpp]
    and [run_replay] of [replay_mode.cpp]

    Both are single-threaded: a state is threaded through the frames of a file,
    or through the lines of a log. *)

From stdpp Require Import gmap.
From S2P Require Import Prelude Protocol Supervisor SupervisorLoop Logger.

(** ** Replay *)

Record replay := mkReplay {
  rp_fsm : HealthState;
  state_entry_counts : list Z;   (* indexed by the number of the state *)
  transitions : Z;
  lines_total : Z;
  rx_frames : Z;
  timeouts : Z;
  ignored : Z;
  rp_out : string;               (* replay_events.jsonl *)
}.

#[global] Instance replay_rebuild : Rebuild replay :=
  fun s => mkReplay (rp_fsm s) (state_entry_counts s) (transitions s) (lines_total s)
             (rx_frames s) (timeouts s) (ignored s) (rp_out s).
#[global] Instance update_rp_fsm : Update rp_fsm := ltac:(derive_update).
#[global] Instance update_state_entry_counts : Update state_entry_counts := ltac:(derive_update).
#[global] Instance update_transitions : Update transitions := ltac:(derive_update).
#[global] Instance update_lines_total : Update lines_total := ltac:(derive_update).
#[global] Instance update_rx_frames : Update rx_frames := ltac:(derive_update).
#[global] Instance update_timeouts : Update timeouts := ltac:(derive_update).
#[global] Instance update_ignored : Update ignored := ltac:(derive_update).
#[global] Instance update_rp_out : Update rp_out := ltac:(derive_update).

Definition replay_start : replay := mkReplay BOOTING (replicate 6 0) 0 0 0 0 0 "".

(** The number of a state in [enum class HealthState]. *)
Definition state_index (s : HealthState) : nat :=
  match s with
  | BOOTING => 0 | HEALTHY => 1 | DEGRADED => 2 | RECOVERING => 3 | FAILED => 4 | SAFE_MODE => 5
  end.

(** The transition hook. *)
Definition replay_hook (r : TransitionResult) (s : replay) : replay :=
  s <| transitions ::= Z.succ |>
    <| state_entry_counts ::= alter Z.succ (state_index (to r)) |>
    <| rp_out ::= fun o => o +:+ serialize_event (hook_event r) +:+ str1 newline |>.

Definition rp_apply (e : HealthEvent) (s : replay) : replay :=
  let r := fsm_apply (rp_fsm s) e in
  let s := s <| rp_fsm := r.2 |> in
  if valid r.1 then replay_hook r.1 s else s.

(** [s.find(pat) != npos] *)
Definition contains (s pat : string) : bool :=
  match find_after pat s with Some _ => true | None => false end.

Definition critical_detail (detail : string) : bool :=
  contains detail "critical" || contains detail "severity=2".

(** The [rx_frame] branch. *)
Definition replay_rx (line : string) (s : replay) : replay :=
  let s := s <| rx_frames ::= Z.succ |> in
  let ftype := default "" (extract_string line "frame_type") in
  if decide (ftype = "HEARTBEAT") then
    rp_apply (if decide (rp_fsm s = RECOVERING) then HEARTBEAT_RESTORED else HEARTBEAT_OK) s
  else if decide (ftype = "FAULT_EVENT") then
    if critical_detail (default "" (extract_string line "detail"))
    then rp_apply CRITICAL_FAULT s else s
  else s.

Definition replay_kind (kind line : string) (s : replay) : replay :=
  if decide (kind = "rx_frame") then replay_rx line s
  else if decide (kind = "timeout") then rp_apply HEARTBEAT_TIMEOUT (s <| timeouts ::= Z.succ |>)
  else if decide (kind = "tx_command") then
    if contains (default "" (extract_string line "detail")) "REQUEST_RECOVERY"
    then rp_apply RECOVERY_SENT s else s <| ignored ::= Z.succ |>
  else s <| ignored ::= Z.succ |>.

(** One round of the loop; [None]: [std::stol] throws and nothing catches it. *)
Definition replay_line (s : replay) (line : string) : option replay :=
  if decide (line = "") then Some s
  else
    let s := s <| lines_total ::= Z.succ |> in
    match extract_string line "kind" with
    | None => Some s
    | Some kind =>
        match extract_int line "ts_ms" with
        | Threw => None
        | _ => Some (replay_kind kind line s)
        end
    end.

Fixpoint replay_lines (s : replay) (ls : list string) : option replay :=
  match ls with
  | [] => Some s
  | l :: ls => s ← replay_line s l; replay_lines s ls
  end.

(** [run_replay] on the contents of the input file; [Offline] has the files. *)
Definition run_replay (input : string) : option replay := replay_lines replay_start (getlines input).

(** ** Mock *)

Record mock := mkMock {
  mk_fsm : HealthState;
  mk_seen : gset (Z * Z);
  have_last_hb : bool;
  last_hb_ts : Z;
  in_recovery : bool;
  mk_tx_seq : Z;
  nack_count : Z;
  mk_log : list LogEvent;       (* [logger.push], in order *)
}.

#[global] Instance mock_rebuild : Rebuild mock :=
  fun s => mkMock (mk_fsm s) (mk_seen s) (have_last_hb s) (last_hb_ts s) (in_recovery s)
             (mk_tx_seq s) (nack_count s) (mk_log s).
#[global] Instance update_mk_fsm : Update mk_fsm := ltac:(derive_update).
#[global] Instance update_mk_seen : Update mk_seen := ltac:(derive_update).
#[global] Instance update_have_last_hb : Update have_last_hb := ltac:(derive_update).
#[global] Instance update_last_hb_ts : Update last_hb_ts := ltac:(derive_update).
#[global] Instance update_in_recovery : Update in_recovery := ltac:(derive_update).
#[global] Instance update_mk_tx_seq : Update mk_tx_seq := ltac:(derive_update).
#[global] Instance update_nack_count : Update nack_count := ltac:(derive_update).
#[global] Instance update_mk_log : Update mk_log := ltac:(derive_update).

Definition mock_start : mock := mkMock BOOTING ∅ false 0 false 0 0 [].

Definition mk_push (e : LogEvent) (s : mock) : mock := s <| mk_log ::= fun l => l ++ [e] |>.

(** [fsm.apply] with its hook. *)
Definition mk_apply (e : HealthEvent) (s : mock) : TransitionResult * mock :=
  let r := fsm_apply (mk_fsm s) e in
  let s := s <| mk_fsm := r.2 |> in
  (r.1, if valid r.1 then mk_push (hook_event r.1) s else s).

Definition mock_bad (f : ParsedFrame) (s : mock) : mock :=
  let ts := pf_ts_ms f in
  let s := mk_push (log_event ts CHECKSUM_ERROR (frame_type_name (pf_type f)) (pf_seq f)
                      ("validate_result=" +:+ to_string (validate_number (validate_result f)))) s in
  let s := s <| nack_count ::= Z.succ |> in
  let s := mk_push (log_event ts TX_NACK "NACK" (pf_seq f) ("nack #" +:+ to_string (nack_count s))) s in
  s <| mk_seen := (is_duplicate (mk_seen s) (pf_type f) (pf_seq f)).2 |>.

(** The [rx_frame] event. *)
Definition mock_rx_event (f : ParsedFrame) : LogEvent :=
  let fault :=
    if (pf_type f =? SAFETY_FRAME_FAULT_EVENT) && (Z.of_nat (length (pf_payload f)) >=? 8)
    then sv_fault_type_name (fault_type (fault_event_of_bytes (pf_payload f))) else "" in
  mkLog (pf_ts_ms f) RX_FRAME (frame_type_name (pf_type f)) (pf_seq f) fault "" "" "".

(** The gap since the last heartbeat is too long. *)
Definition mock_gap (timeout gap ts : Z) (s : mock) : mock :=
  let s := mk_push (log_event ts TIMEOUT "HEARTBEAT" (- 1)
                      ("gap=" +:+ to_string gap +:+ "ms > " +:+ to_string timeout +:+ "ms")) s in
  let before := mk_fsm s in
  let r := mk_apply HEARTBEAT_TIMEOUT s in
  let s := r.2 in
  if valid r.1 && bool_decide (before = HEALTHY) then
    let s := mk_push (log_event ts TX_COMMAND "COMMAND" (mk_tx_seq s) "REQUEST_RECOVERY") s in
    let s := s <| mk_tx_seq ::= fun x => u16 (x + 1) |> in
    (mk_apply RECOVERY_SENT s).2 <| in_recovery := true |>
  else s.

Definition mock_heartbeat (timeout : Z) (f : ParsedFrame) (s : mock) : mock :=
  let ts := pf_ts_ms f in
  let s :=
    if have_last_hb s then
      let gap := u32 (ts - last_hb_ts s) in
      if gap >? timeout then mock_gap timeout gap ts s else s
    else s in
  let s := s <| have_last_hb := true |> <| last_hb_ts := ts |> in
  let before := mk_fsm s in
  let s := (mk_apply (if decide (before = RECOVERING) then HEARTBEAT_RESTORED else HEARTBEAT_OK) s).2 in
  let s :=
    if in_recovery s && bool_decide (before = RECOVERING)
    then mk_push (log_event ts RECOVERY_RESULT "" (- 1) "RECOVERY_SUCCESS") s <| in_recovery := false |>
    else s in
  mk_push (log_event ts TX_ACK "ACK" (pf_seq f) "") s.

Definition mock_frame (timeout : Z) (s : mock) (f : ParsedFrame) : mock :=
  if negb (pf_ok f) then mock_bad f s
  else
    let d := is_duplicate (mk_seen s) (pf_type f) (pf_seq f) in
    let s := s <| mk_seen := d.2 |> in
    if d.1 : bool then
      mk_push (log_event (pf_ts_ms f) DUPLICATE (frame_type_name (pf_type f)) (pf_seq f) "") s
    else
      let s := mk_push (mock_rx_event f) s in
      if pf_type f =? SAFETY_FRAME_HEARTBEAT then mock_heartbeat timeout f s
      else if pf_type f =? SAFETY_FRAME_FAULT_EVENT then
        if fault_severity f >=? 2 then (mk_apply CRITICAL_FAULT s).2 else s
      else s.

(** [run_mock] on the bytes of the input file. *)
Definition run_mock (timeout : Z) (data : list Z) : mock :=
  foldl (mock_frame timeout) mock_start (FrameAssembler_feed [] data).1.
