(* ===== verification/ReplaySpec.v ===== *)
(** * What a replay computes

    The abstract replay works on events, not on text: an event stands for at most
    one event of the health machine.  [run_replay] on the text of a log refines
    it; the logs of mock mode are followed one frame behind. *)

From stdpp Require Import gmap.
From S2P Require Import Prelude Crc32 Protocol Supervisor Framing SupervisorLoop.
From S2P Require Import Logger LoggerSpec Replay.

(** ** Abstract replay *)

Definition replayed_event (st : HealthState) (e : LogEvent) : option HealthEvent :=
  match log_kind e with
  | RX_FRAME =>
      if decide (frame_type e = "HEARTBEAT") then
        Some (if decide (st = RECOVERING) then HEARTBEAT_RESTORED else HEARTBEAT_OK)
      else if decide (frame_type e = "FAULT_EVENT") then
        if critical_detail (detail e) then Some CRITICAL_FAULT else None
      else None
  | TIMEOUT => Some HEARTBEAT_TIMEOUT
  | TX_COMMAND => if contains (detail e) "REQUEST_RECOVERY" then Some RECOVERY_SENT else None
  | _ => None
  end.

(** The state after an event and the transitions made. *)
Definition fire (st : HealthState) (ev : option HealthEvent) : HealthState * list TransitionResult :=
  match ev with
  | None => (st, [])
  | Some ev => let r := fsm_apply st ev in (r.2, if valid r.1 then [r.1] else [])
  end.

Fixpoint trajectory (st : HealthState) (es : list LogEvent) : HealthState * list TransitionResult :=
  match es with
  | [] => (st, [])
  | e :: es =>
      let r := fire st (replayed_event st e) in
      let r' := trajectory r.1 es in
      (r'.1, r.2 ++ r'.2)
  end.

Lemma trajectory_app st es1 es2 :
  trajectory st (es1 ++ es2) =
  ((trajectory (trajectory st es1).1 es2).1,
   (trajectory st es1).2 ++ (trajectory (trajectory st es1).1 es2).2).
Proof.
  revert st. induction es1 as [|e es1 IH]; intros st; cbn [app trajectory fst snd].
  - by destruct (trajectory st es2).
  - rewrite IH. cbn [fst snd]. by rewrite app_assoc.
Qed.

Definition entries (st : HealthState) (trs : list TransitionResult) : Z :=
  Z.of_nat (length (filter (fun r => to r = st) trs)).

Definition of_kind (k : LogKind) (es : list LogEvent) : Z :=
  Z.of_nat (length (filter (fun e => log_kind e = k) es)).

Lemma of_kind_one k e : of_kind k [e] = if decide (log_kind e = k) then 1 else 0.
Proof. unfold of_kind. rewrite filter_cons. by case_decide. Qed.

(** The events a replay counts as ignored. *)
Definition passed_over (es : list LogEvent) : Z :=
  Z.of_nat (length (filter (fun e => log_kind e <> RX_FRAME /\ log_kind e <> TIMEOUT /\
    ~ (log_kind e = TX_COMMAND /\ contains (detail e) "REQUEST_RECOVERY" = true)) es)).

(** ** One line *)

(** What one event does to the state of the replay. *)
Definition spec_step (s : replay) (e : LogEvent) : replay :=
  let ev := replayed_event (rp_fsm s) e in
  let s :=
    match log_kind e, ev with
    | RX_FRAME, _ => s <| lines_total ::= Z.succ |> <| rx_frames ::= Z.succ |>
    | TIMEOUT, _ => s <| lines_total ::= Z.succ |> <| timeouts ::= Z.succ |>
    | _, None => s <| lines_total ::= Z.succ |> <| ignored ::= Z.succ |>
    | _, Some _ => s <| lines_total ::= Z.succ |>
    end in
  match ev with None => s | Some ev => rp_apply ev s end.

Lemma serialize_nonempty e : serialize_event e <> "".
Proof. by rewrite serialize_fields. Qed.

(** A line whose text can be read back: its event, unless the number throws. *)
Lemma replay_line_text s e :
  event_text e ->
  replay_line s (serialize_event e) =
  match extract_int (serialize_event e) "ts_ms" with Threw => None | _ => Some (spec_step s e) end.
Proof.
  intros He. unfold replay_line. rewrite decide_False by apply serialize_nonempty. rewrite read_kind.
  enough (replay_kind (log_kind_name (log_kind e)) (serialize_event e) (s <| lines_total ::= Z.succ |>) =
          spec_step s e) as -> by done.
  unfold replay_kind, replay_rx, spec_step, replayed_event.
  rewrite read_frame_type, read_detail by done. cbn [default from_option id].
  destruct (log_kind e); cbn [log_kind_name]; try done.
  - repeat case_decide; done || by case_match.
  - repeat case_decide; try done. by destruct (contains _ _).
Qed.

Lemma replay_line_event s e : event_ok e -> replay_line s (serialize_event e) = Some (spec_step s e).
Proof. intros He. rewrite replay_line_text by apply He. by rewrite read_ts_ms. Qed.

Lemma replay_lines_events s es :
  Forall event_ok es -> replay_lines s (serialize_event <$> es) = Some (foldl spec_step s es).
Proof.
  intros H. revert s. induction H as [|e es He _ IH]; intros s; [done|].
  cbn [fmap list_fmap replay_lines]. rewrite replay_line_event by done. apply IH.
Qed.

(** A replay that comes to its end went through all events. *)
Lemma replay_lines_text s r es :
  Forall event_text es -> replay_lines s (serialize_event <$> es) = Some r -> r = foldl spec_step s es.
Proof.
  intros H. revert s. induction H as [|e es He _ IH]; intros s; [by intros [= ->]|].
  cbn [fmap list_fmap replay_lines]. rewrite replay_line_text by done.
  destruct (extract_int _ _); [apply IH|done|apply IH].
Qed.

(** ** Summary *)

(** Two states of a replay, [trs] made in between over [es]. *)
Record replay_between (s s' : replay) (es : list LogEvent) (trs : list TransitionResult) : Prop := {
  rb_out : rp_out s' = rp_out s +:+ log_text (hook_event <$> trs);
  rb_transitions : transitions s' = transitions s + Z.of_nat (length trs);
  rb_counts st n : state_entry_counts s !! state_index st = Some n ->
                   state_entry_counts s' !! state_index st = Some (n + entries st trs);
  rb_lines : lines_total s' = lines_total s + Z.of_nat (length es);
  rb_rx : rx_frames s' = rx_frames s + of_kind RX_FRAME es;
  rb_timeouts : timeouts s' = timeouts s + of_kind TIMEOUT es;
  rb_ignored : ignored s' = ignored s + passed_over es;
}.

Lemma state_index_inj st st' : state_index st = state_index st' -> st = st'.
Proof. by destruct st, st'. Qed.

Lemma passed_over_one st e :
  passed_over [e] = match log_kind e, replayed_event st e with
                    | RX_FRAME, _ | TIMEOUT, _ => 0 | _, None => 1 | _, Some _ => 0 end.
Proof.
  unfold passed_over, replayed_event. rewrite filter_cons. generalize (contains (detail e) "REQUEST_RECOVERY") as b.
  intros b. destruct (log_kind e); case_decide as H; try reflexivity;
    try (exfalso; apply H; split_and!; intros H'; by inversion H').
  all: destruct H as (H1 & H2 & H3) || idtac; try done.
  all: destruct b; try done; first [by destruct H3|exfalso; apply H; split_and!; [done|done|by intros []]].
Qed.

Lemma passed_over_app es1 es2 : passed_over (es1 ++ es2) = passed_over es1 + passed_over es2.
Proof. unfold passed_over. rewrite filter_app, length_app. lia. Qed.

Lemma spec_step_between s e :
  let r := fire (rp_fsm s) (replayed_event (rp_fsm s) e) in
  rp_fsm (spec_step s e) = r.1 /\ replay_between s (spec_step s e) [e] r.2.
Proof.
  intros r. set (s1 := match log_kind e, replayed_event (rp_fsm s) e with
    | RX_FRAME, _ => s <| lines_total ::= Z.succ |> <| rx_frames ::= Z.succ |>
    | TIMEOUT, _ => s <| lines_total ::= Z.succ |> <| timeouts ::= Z.succ |>
    | _, None => s <| lines_total ::= Z.succ |> <| ignored ::= Z.succ |>
    | _, Some _ => s <| lines_total ::= Z.succ |>
    end).
  assert (rp_fsm s1 = rp_fsm s /\ replay_between s s1 [e] []) as [Hf Hb].
  { subst s1. clear r. pose proof (of_kind_one RX_FRAME e) as Hrx. pose proof (of_kind_one TIMEOUT e) as Hto.
    pose proof (passed_over_one (rp_fsm s) e) as Hig.
    destruct (log_kind e), (replayed_event (rp_fsm s) e); (split; [done|]); constructor;
      rewrite ?Hrx, ?Hto, ?Hig; cbn; rewrite ?str_app_nil, ?Z.add_0_r; done || (by intros st n ->; rewrite Z.add_0_r). }
  change (spec_step s e) with (match replayed_event (rp_fsm s) e with None => s1 | Some ev => rp_apply ev s1 end).
  unfold r. destruct (replayed_event (rp_fsm s) e) as [ev|]; cbn [fire fst snd]; [|done].
  unfold rp_apply. rewrite Hf. split; [by destruct (valid _)|].
  destruct Hb as [B1 B2 B3 B4 B5 B6 B7].
  destruct (valid (fsm_apply (rp_fsm s) ev).1); [|by constructor].
  set (tr := (fsm_apply (rp_fsm s) ev).1). constructor; [..|done|done|done|done].
  - transitivity (rp_out s1 +:+ serialize_event (hook_event tr) +:+ str1 newline); [done|].
    rewrite B1. cbn [fmap list_fmap log_text]. by rewrite !str_app_assoc, !str_app_nil.
  - transitivity (Z.succ (transitions s1)); [done|]. cbn [length]. rewrite B2. cbn [length]. lia.
  - intros st n Hn. specialize (B3 st n Hn). unfold entries in *. cbn [filter list_filter] in B3 |- *.
    change (state_entry_counts _) with (alter Z.succ (state_index (to tr)) (state_entry_counts s1)).
    cbn [length] in B3. rewrite Z.add_0_r in B3. case_decide as Hd.
    + subst st. rewrite list_lookup_alter_eq, B3. cbn. f_equal; lia.
    + rewrite list_lookup_alter_ne by (intros H; by apply Hd, state_index_inj).
      rewrite B3. cbn. f_equal; lia.
Qed.

Lemma of_kind_app k es1 es2 : of_kind k (es1 ++ es2) = of_kind k es1 + of_kind k es2.
Proof. unfold of_kind. rewrite filter_app, length_app. lia. Qed.

Lemma entries_app st t1 t2 : entries st (t1 ++ t2) = entries st t1 + entries st t2.
Proof. unfold entries. rewrite filter_app, length_app. lia. Qed.

Lemma replay_between_trans s1 s2 s3 es1 es2 t1 t2 :
  replay_between s1 s2 es1 t1 -> replay_between s2 s3 es2 t2 -> replay_between s1 s3 (es1 ++ es2) (t1 ++ t2).
Proof.
  intros [A1 A2 A3 A4 A5 A6 A7] [B1 B2 B3 B4 B5 B6 B7]. constructor.
  - by rewrite B1, A1, fmap_app, log_text_app, str_app_assoc.
  - rewrite B2, A2, length_app. lia.
  - intros st n Hn. rewrite entries_app, Z.add_assoc. by apply B3, A3.
  - rewrite B4, A4, length_app. lia.
  - rewrite B5, A5, of_kind_app. lia.
  - rewrite B6, A6, of_kind_app. lia.
  - rewrite B7, A7, passed_over_app. lia.
Qed.

Lemma spec_trajectory s es :
  let r := trajectory (rp_fsm s) es in
  rp_fsm (foldl spec_step s es) = r.1 /\ replay_between s (foldl spec_step s es) es r.2.
Proof.
  revert s. induction es as [|e es IH]; intros s; cbn [foldl trajectory fst snd].
  - split; [done|]. constructor; cbn [fmap list_fmap log_text length]; rewrite ?str_app_nil; try done; try lia.
    + intros st n ->. f_equal. unfold entries. cbn. lia.
    + unfold of_kind. cbn. lia.
    + unfold of_kind. cbn. lia.
    + unfold passed_over. cbn. lia.
  - destruct (spec_step_between s e) as [H1 H2]. destruct (IH (spec_step s e)) as [H3 H4].
    rewrite H1 in H3, H4. split; [exact H3|]. by eapply (replay_between_trans _ _ _ [e]).
Qed.

(** [run_replay] on the text of a log. *)
Lemma run_replay_log es :
  Forall event_ok es -> run_replay (log_text es) = Some (foldl spec_step replay_start es).
Proof. intros H. unfold run_replay. rewrite getlines_log_text. by apply replay_lines_events. Qed.

(** ** Logs of mock mode *)

Definition is_change (e : LogEvent) : Prop := log_kind e = STATE_CHANGE.

(** The [state_change] lines of a log. *)
Definition state_changes (es : list LogEvent) : list LogEvent := filter is_change es.

(** An event a replay passes over. *)
Definition silent (e : LogEvent) : Prop := forall st, replayed_event st e = None.

Lemma trajectory_silent st es : Forall silent es -> trajectory st es = (st, []).
Proof.
  intros H. induction H as [|e es He _ IH]; [done|]. cbn [trajectory]. rewrite (He st).
  cbn [fire fst snd]. by rewrite IH.
Qed.

Definition change_event (st : HealthState) (ev : HealthEvent) : LogEvent := hook_event (fsm_apply st ev).1.

(** Machine and replay agree; or the replay is late: it has still to see the
    heartbeat that ended the last recovery. *)
Record follows (late : bool) (m : HealthState) (log : list LogEvent) : Prop := {
  fo_state : (trajectory BOOTING log).1 = if late then RECOVERING else m;
  fo_late : late = true -> m = HEALTHY;
  fo_changes : state_changes log =
    (hook_event <$> (trajectory BOOTING log).2) ++
    (if late then [change_event RECOVERING HEARTBEAT_RESTORED] else []);
}.

(** Silent events other than [state_change] change nothing. *)
Lemma follows_silent late m log es :
  Forall silent es -> Forall (fun e => ~ is_change e) es -> follows late m log -> follows late m (log ++ es).
Proof.
  intros Hs Hc [H1 H2 H3].
  assert (trajectory BOOTING (log ++ es) = trajectory BOOTING log) as Ht.
  { rewrite trajectory_app, (trajectory_silent _ es) by done. cbn [fst snd]. rewrite app_nil_r. by destruct (trajectory _ _). }
  assert (state_changes (log ++ es) = state_changes log) as Hch.
  { unfold state_changes. rewrite filter_app. enough (filter is_change es = []) as -> by apply app_nil_r.
    clear Hs Ht. induction Hc as [|e es He _ IH]; [done|]. by rewrite filter_cons, decide_False. }
  constructor; by rewrite ?Ht, ?Hch.
Qed.

(** The frames that mode takes: whole ones it has not seen. *)
Fixpoint accepted (seen : gset (Z * Z)) (fs : list ParsedFrame) : list ParsedFrame :=
  match fs with
  | [] => []
  | f :: fs =>
      let d := is_duplicate seen (pf_type f) (pf_seq f) in
      (if pf_ok f && negb d.1 then [f] else []) ++ accepted d.2 fs
  end.

(** The heartbeats among them, the last one first. *)
Definition is_heartbeat (f : ParsedFrame) : Prop := pf_type f = SAFETY_FRAME_HEARTBEAT.
Definition heartbeats (fs : list ParsedFrame) : list ParsedFrame := rev (filter is_heartbeat (accepted ∅ fs)).

(** The last heartbeat came too long after the one before. *)
Definition ended_gap (timeout : Z) (hbs : list ParsedFrame) : bool :=
  match hbs with
  | f :: f' :: _ => timeout <? u32 (pf_ts_ms f - pf_ts_ms f')
  | _ => false
  end.

(** The frames of a stream of bytes have the ranges of the header. *)
Lemma assembled_ok fuel rest :
  bytes_ok rest -> Forall (fun f => is_u16 (pf_seq f) /\ is_u32 (pf_ts_ms f)) (assemble fuel rest).1.
Proof.
  revert rest. induction fuel as [|fuel IH]; intros rest Hb; cbn [assemble fst]; [constructor|].
  apply bytes_ok_hunt in Hb. set (r := hunt rest) in *.
  destruct (_ <? 2); [constructor|]. destruct (Z.ltb_spec (Z.of_nat (length r)) SAFETY_HEADER_SIZE) as [|Hl]; [constructor|].
  pose proof (header_of_bytes_ok r Hb ltac:(unfold SAFETY_HEADER_SIZE in Hl; lia)) as Hh.
  destruct (_ >? _); cbn [fst].
  - constructor; [split; apply Hh|]. apply IH. destruct r; [done|]. by inversion Hb.
  - destruct (_ <? _); [constructor|]. cbn [fst]. constructor; [split; apply Hh|]. by apply IH, bytes_ok_drop.
Qed.

(** Text the code writes can be read back. *)
Lemma loggable_to_string x : all_chars loggable (to_string x).
Proof.
  assert (forall c, is_digit c = true -> loggable c) as H.
  { intros c Hc. left. unfold is_digit in Hc. apply andb_prop in Hc as [Hc _]. apply Nat.leb_le in Hc. lia. }
  destruct (to_string_shape x) as (d & Hd & _ & [-> | ->]); [|split; [left; vm_compute; lia|]];
    by eapply all_chars_impl, Hd.
Qed.

#[local] Ltac by_chars := apply (bool_decide_unpack _); by vm_compute.

Lemma loggable_frame_type ty : all_chars loggable (frame_type_name ty).
Proof. unfold frame_type_name. repeat case_match; by_chars. Qed.

Lemma loggable_fault ft : all_chars loggable (sv_fault_type_name ft).
Proof. unfold sv_fault_type_name. repeat case_match; by_chars. Qed.

Lemma log_event_ok ts k ft seq dt :
  is_u32 ts -> - 2 ^ 31 <= seq < 2 ^ 31 -> all_chars loggable ft -> all_chars loggable dt ->
  event_ok (log_event ts k ft seq dt).
Proof. intros Hts Hseq Hft Hdt. unfold is_u32 in Hts. repeat split; cbn; done || lia. Qed.

Lemma hook_event_ok r : event_ok (hook_event r).
Proof.
  unfold hook_event. repeat split; cbn; try done; try lia;
    [destruct (from r)|destruct (to r)|destruct (event r)]; by_chars.
Qed.

Lemma frame_type_heartbeat ty :
  frame_type_name ty = "HEARTBEAT" <-> ty = SAFETY_FRAME_HEARTBEAT.
Proof.
  unfold frame_type_name. split; [|by intros ->].
  destruct (Z.eqb_spec ty SAFETY_FRAME_HEARTBEAT); [done|]. repeat case_match; discriminate.
Qed.

(** *** One frame of mock mode *)

Lemma foldl_snoc {A} (l g : list A) : foldl (fun l e => l ++ [e]) l g = l ++ g.
Proof.
  revert l. induction g as [|e g IH]; intros l; cbn [foldl]; [by rewrite app_nil_r|].
  by rewrite IH, <- app_assoc.
Qed.

Section Mock.
Context (timeout : Z).
Implicit Types (m : mock) (f : ParsedFrame).

(** Between two frames: [hbs] are the heartbeats so far, the last one first. *)
Record mock_ok (hbs : list ParsedFrame) m : Prop := {
  mok_fsm : mk_fsm m = if decide (hbs = []) then BOOTING else HEALTHY;
  mok_last : match hbs with
             | [] => have_last_hb m = false
             | f :: _ => have_last_hb m = true /\ last_hb_ts m = pf_ts_ms f
             end;
  mok_recovery : in_recovery m = false;
  mok_tx : is_u16 (mk_tx_seq m);
  mok_log : Forall event_ok (mk_log m);
  mok_follows : follows (ended_gap timeout hbs) (mk_fsm m) (mk_log m);
}.

(** A frame from the wire that is no critical fault. *)
Definition mock_input f : Prop :=
  is_u16 (pf_seq f) /\ is_u32 (pf_ts_ms f) /\
  ~ (pf_ok f = true /\ pf_type f = SAFETY_FRAME_FAULT_EVENT /\ 2 <= fault_severity f).

Lemma mock_start_ok : mock_ok [] mock_start.
Proof. by constructor. Qed.

(** Frames that only leave a note. *)
Lemma mock_note_ok hbs m m' es :
  mock_ok hbs m -> mk_fsm m' = mk_fsm m -> have_last_hb m' = have_last_hb m -> last_hb_ts m' = last_hb_ts m ->
  in_recovery m' = in_recovery m -> mk_tx_seq m' = mk_tx_seq m -> mk_log m' = mk_log m ++ es ->
  Forall event_ok es -> Forall silent es -> Forall (fun e => ~ is_change e) es -> mock_ok hbs m'.
Proof.
  intros [H1 H2 H3 H4 H5 H6] E1 E2 E3 E4 E5 E6 F1 F2 F3.
  constructor; rewrite ?E1, ?E2, ?E3, ?E4, ?E5, ?E6; [done|done|done|done| |].
  - by apply Forall_app.
  - by apply follows_silent.
Qed.

(** A heartbeat in time: the machine is healthy and an ACK is noted. *)
Definition hb_booted (st : HealthState) : list LogEvent :=
  if decide (st = BOOTING) then [change_event BOOTING HEARTBEAT_OK] else [].

Definition ack_note f : LogEvent := log_event (pf_ts_ms f) TX_ACK "ACK" (pf_seq f) "".

Lemma mock_heartbeat_calm f m :
  in_recovery m = false -> mk_fsm m = HEALTHY \/ mk_fsm m = BOOTING ->
  (have_last_hb m = true -> u32 (pf_ts_ms f - last_hb_ts m) <= timeout) ->
  let m' := mock_heartbeat timeout f m in
  mk_fsm m' = HEALTHY /\ (have_last_hb m' = true /\ last_hb_ts m' = pf_ts_ms f) /\ in_recovery m' = false /\
  mk_tx_seq m' = mk_tx_seq m /\ mk_log m' = mk_log m ++ hb_booted (mk_fsm m) ++ [ack_note f].
Proof.
  intros Hr Hst Hgap. destruct m as [st seen hl lts inr tx nk lg]. cbn in Hr, Hst, Hgap. subst inr.
  unfold mock_heartbeat. cbn [have_last_hb last_hb_ts].
  replace (if hl then if u32 (pf_ts_ms f - lts) >? timeout then mock_gap timeout (u32 (pf_ts_ms f - lts))
     (pf_ts_ms f) (mkMock st seen hl lts false tx nk lg) else mkMock st seen hl lts false tx nk lg
     else mkMock st seen hl lts false tx nk lg) with (mkMock st seen hl lts false tx nk lg).
  2:{ destruct hl; [|done]. destruct (Z.gtb_spec (u32 (pf_ts_ms f - lts)) timeout); [|done].
      specialize (Hgap eq_refl). lia. }
  destruct Hst as [-> | ->]; (repeat split).
  exact (eq_sym (app_assoc lg [change_event BOOTING HEARTBEAT_OK] [ack_note f])).
Qed.

(** A heartbeat after a gap: a whole recovery is noted. *)
Definition gap_note f m : LogEvent :=
  log_event (pf_ts_ms f) TIMEOUT "HEARTBEAT" (- 1)
    ("gap=" +:+ to_string (u32 (pf_ts_ms f - last_hb_ts m)) +:+ "ms > " +:+ to_string timeout +:+ "ms").

Definition gap_log f m : list LogEvent :=
  [gap_note f m; change_event HEALTHY HEARTBEAT_TIMEOUT;
   log_event (pf_ts_ms f) TX_COMMAND "COMMAND" (mk_tx_seq m) "REQUEST_RECOVERY";
   change_event DEGRADED RECOVERY_SENT; change_event RECOVERING HEARTBEAT_RESTORED;
   log_event (pf_ts_ms f) RECOVERY_RESULT "" (- 1) "RECOVERY_SUCCESS"; ack_note f].

Lemma mock_heartbeat_gap f m :
  in_recovery m = false -> mk_fsm m = HEALTHY -> have_last_hb m = true ->
  timeout < u32 (pf_ts_ms f - last_hb_ts m) ->
  let m' := mock_heartbeat timeout f m in
  mk_fsm m' = HEALTHY /\ (have_last_hb m' = true /\ last_hb_ts m' = pf_ts_ms f) /\ in_recovery m' = false /\
  mk_tx_seq m' = u16 (mk_tx_seq m + 1) /\ mk_log m' = mk_log m ++ gap_log f m.
Proof.
  intros Hr Hst Hl Hgap. destruct m as [st seen hl lts inr tx nk lg]. cbn in Hr, Hst, Hl, Hgap. subst.
  unfold mock_heartbeat. cbn [have_last_hb last_hb_ts].
  rewrite (proj2 (Z.gtb_lt _ _)) by lia. repeat split.
  set (g := gap_log f _). transitivity (foldl (fun l e => l ++ [e]) lg g); [reflexivity|].
  apply foldl_snoc.
Qed.

(** What the replay makes of the events of a heartbeat. *)
Lemma follows_heartbeat late sm log e :
  log_kind e = RX_FRAME -> frame_type e = "HEARTBEAT" -> sm = HEALTHY \/ sm = BOOTING -> follows late sm log ->
  follows false HEALTHY (log ++ e :: hb_booted sm).
Proof.
  intros Hk Hft Hm [H1 H2 H3].
  assert (forall st, replayed_event st e =
            Some (if decide (st = RECOVERING) then HEARTBEAT_RESTORED else HEARTBEAT_OK)) as He.
  { intros st. unfold replayed_event. by rewrite Hk, Hft. }
  assert (forall l, state_changes (log ++ e :: l) = state_changes log ++ state_changes l) as Hc.
  { intros l. unfold state_changes. rewrite filter_app, (filter_cons _ e), decide_False; [done|].
    unfold is_change. by rewrite Hk. }
  constructor; [|done|]; rewrite trajectory_app; cbn [trajectory fst snd]; rewrite He, H1;
    (destruct late; [rewrite (H2 eq_refl)|destruct Hm as [-> | ->]]); try done;
    rewrite Hc, H3; cbn [fst snd]; by rewrite fmap_app, ?app_nil_r.
Qed.

Lemma follows_gap f m log : follows false HEALTHY log -> follows true HEALTHY (log ++ gap_log f m).
Proof.
  intros [H1 _ H2]. constructor; [|done|]; rewrite trajectory_app, H1; [done|].
  unfold state_changes in *. rewrite filter_app, H2. cbn [fst snd]. rewrite fmap_app, app_nil_r, <- app_assoc. done.
Qed.

#[local] Ltac notes := repeat (apply Forall_cons; split); try apply Forall_nil; done.

Lemma mock_bad_ok hbs f m : mock_input f -> mock_ok hbs m -> mock_ok hbs (mock_bad f m).
Proof.
  intros (Hseq & Hts & _) Hm. unfold is_u16 in Hseq.
  eapply (mock_note_ok hbs m _
    [log_event (pf_ts_ms f) CHECKSUM_ERROR (frame_type_name (pf_type f)) (pf_seq f)
       ("validate_result=" +:+ to_string (validate_number (validate_result f)));
     log_event (pf_ts_ms f) TX_NACK "NACK" (pf_seq f) ("nack #" +:+ to_string (Z.succ (nack_count m)))] Hm);
    [done..|exact (eq_sym (app_assoc (mk_log m) [_] [_]))| |by notes|by notes].
  constructor; [|constructor; [|constructor]]; (apply log_event_ok; [done|lia|..]).
  - apply loggable_frame_type.
  - apply all_chars_app. split; [by_chars|apply loggable_to_string].
  - by_chars.
  - apply all_chars_app. split; [by_chars|apply loggable_to_string].
Qed.

Lemma mock_rx_event_ok f : mock_input f -> event_ok (mock_rx_event f).
Proof.
  intros (Hseq & Hts & _). unfold is_u16, is_u32 in *. repeat split; cbn; try done; try lia.
  - apply loggable_frame_type.
  - destruct (_ && _); [apply loggable_fault|done].
Qed.

Lemma mock_rx_silent f : pf_type f <> SAFETY_FRAME_HEARTBEAT -> silent (mock_rx_event f).
Proof.
  intros H st. unfold replayed_event. cbn [mock_rx_event log_kind frame_type detail].
  rewrite decide_False by (by rewrite frame_type_heartbeat). by case_decide.
Qed.

Lemma gap_log_ok f m : mock_input f -> is_u16 (mk_tx_seq m) -> Forall event_ok (gap_log f m).
Proof.
  intros (Hseq & Hts & _) Htx. unfold is_u16 in *. unfold gap_log, gap_note, ack_note, change_event.
  repeat apply Forall_cons_2; try apply Forall_nil_2; try apply hook_event_ok;
    (apply log_event_ok; [done|lia|by_chars|]); [|by_chars..].
  rewrite !all_chars_app. repeat split; apply loggable_to_string || by_chars.
Qed.

(** The heartbeats after one more frame. *)
Definition beats_after m f : list ParsedFrame :=
  filter is_heartbeat (if pf_ok f && negb (is_duplicate (mk_seen m) (pf_type f) (pf_seq f)).1 then [f] else []).

Lemma mock_beat_ok hbs f m :
  mock_input f -> pf_type f = SAFETY_FRAME_HEARTBEAT -> mock_ok hbs m ->
  let m1 := mk_push (mock_rx_event f) (m <| mk_seen := (is_duplicate (mk_seen m) (pf_type f) (pf_seq f)).2 |>) in
  mock_ok (f :: hbs) (mock_heartbeat timeout f m1).
Proof.
  intros Hf Ht [M1 M2 M3 M4 M5 M6] m1. pose proof Hf as (Hseq & Hts & _). unfold is_u16 in Hseq.
  assert (mk_log m1 = mk_log m ++ [mock_rx_event f]) as Hlog by done.
  assert (frame_type (mock_rx_event f) = "HEARTBEAT") as Hft by by apply frame_type_heartbeat.
  assert (Forall event_ok (mk_log m ++ [mock_rx_event f])) as Hok.
  { apply Forall_app. split; [done|]. constructor; [by apply mock_rx_event_ok|constructor]. }
  assert (mk_fsm m = HEALTHY \/ mk_fsm m = BOOTING) as Hst by (rewrite M1; case_decide; auto).
  pose proof (follows_heartbeat _ _ (mk_log m) (mock_rx_event f) eq_refl Hft Hst M6) as T.
  destruct (ended_gap timeout (f :: hbs)) eqn:Eg.
  - destruct hbs as [|f' hbs]; [done|]. cbn [ended_gap] in Eg. apply Z.ltb_lt in Eg. destruct M2 as [L1 L2].
    destruct (mock_heartbeat_gap f m1) as (F1 & F2 & F3 & F4 & F5);
      [done|exact M1|done|change (last_hb_ts m1) with (last_hb_ts m); by rewrite L2|].
    constructor; [by rewrite F1|exact F2|done|rewrite F4; apply u16_range|..]; rewrite ?Eg, F5, Hlog.
    + apply Forall_app. split; [done|]. by apply gap_log_ok.
    + cbn [ended_gap]. rewrite (proj2 (Z.ltb_lt _ _) Eg), F1. apply follows_gap.
      rewrite M1 in T. exact T.
  - destruct (mock_heartbeat_calm f m1) as (F1 & F2 & F3 & F4 & F5); [done|done| |].
    { change (last_hb_ts m1) with (last_hb_ts m). intros Hl. change (have_last_hb m1) with (have_last_hb m) in Hl.
      destruct hbs as [|f' hbs]; [congruence|]. destruct M2 as [_ ->]. cbn [ended_gap] in Eg. by apply Z.ltb_ge. }
    constructor; [by rewrite F1|exact F2|done|by rewrite F4|..]; rewrite F5, Hlog.
    + apply Forall_app. split; [done|]. apply Forall_app. split.
      * unfold hb_booted. destruct (decide (mk_fsm m1 = BOOTING)); [|constructor].
        constructor; [apply hook_event_ok|constructor].
      * constructor; [|constructor]. by apply log_event_ok; [|lia|by_chars|].
    + rewrite Eg, F1. change (mk_fsm m1) with (mk_fsm m).
      rewrite app_assoc, <- (app_assoc (mk_log m)). by apply follows_silent; [by notes|by notes|].
Qed.

Lemma mock_frame_ok hbs f m :
  mock_input f -> mock_ok hbs m -> mock_ok (beats_after m f ++ hbs) (mock_frame timeout m f).
Proof.
  intros Hf Hm. unfold mock_frame, beats_after. destruct (pf_ok f) eqn:Eok; cbn [negb andb]; [|by apply mock_bad_ok].
  pose proof Hf as (Hseq & Hts & Hcrit). unfold is_u16 in Hseq.
  destruct (is_duplicate _ _ _) as [[] seen'] eqn:Ed; cbn [fst snd negb].
  { eapply (mock_note_ok hbs m); [done..| |by notes|by notes].
    constructor; [|constructor]. apply log_event_ok; [done|lia|apply loggable_frame_type|done]. }
  rewrite filter_cons. destruct (Z.eqb_spec (pf_type f) SAFETY_FRAME_HEARTBEAT) as [Ht|Ht].
  { rewrite decide_True by done. pose proof (mock_beat_ok hbs f m Hf Ht Hm) as H. cbv zeta in H. by rewrite Ed in H. }
  rewrite decide_False by done. set (m1 := mk_push (mock_rx_event f) _).
  assert (mock_ok hbs m1) as H1.
  { eapply (mock_note_ok hbs m); [done..| | |by notes].
    - constructor; [by apply mock_rx_event_ok|constructor].
    - constructor; [by apply mock_rx_silent|constructor]. }
  destruct (Z.eqb_spec (pf_type f) SAFETY_FRAME_FAULT_EVENT) as [Hfe|]; [|exact H1].
  rewrite Z.geb_leb, (proj2 (Z.leb_gt _ _)); [exact H1|]. apply Z.nle_gt. intros Hs. by apply Hcrit.
Qed.

(** Every frame is seen. *)
Lemma seen_apply e m : mk_seen (mk_apply e m).2 = mk_seen m.
Proof. unfold mk_apply. by destruct (valid _). Qed.

Lemma seen_gap gap ts m : mk_seen (mock_gap timeout gap ts m) = mk_seen m.
Proof.
  unfold mock_gap. cbv zeta. set (r := mk_apply HEARTBEAT_TIMEOUT _).
  assert (mk_seen r.2 = mk_seen m) as Hr by exact (seen_apply HEARTBEAT_TIMEOUT _). destruct (_ && _); [|exact Hr].
  rewrite <- Hr. exact (seen_apply RECOVERY_SENT _).
Qed.

Lemma seen_heartbeat f m : mk_seen (mock_heartbeat timeout f m) = mk_seen m.
Proof.
  unfold mock_heartbeat. set (m1 := if have_last_hb m then _ else m).
  assert (mk_seen m1 = mk_seen m) as <-.
  { subst m1. destruct (have_last_hb m); [|done]. destruct (_ >? _); [apply seen_gap|done]. }
  set (m2 := m1 <| have_last_hb := true |> <| last_hb_ts := pf_ts_ms f |>).
  change (mk_seen m1) with (mk_seen m2). cbn zeta.
  destruct (_ && _); [|change (mk_seen (mk_push _ ?x)) with (mk_seen x)]; apply seen_apply.
Qed.

Lemma seen_frame f m : mk_seen (mock_frame timeout m f) = (is_duplicate (mk_seen m) (pf_type f) (pf_seq f)).2.
Proof.
  unfold mock_frame. destruct (pf_ok f); cbn [negb]; [|done]. destruct (is_duplicate _ _ _) as [[] seen']; [done|].
  cbn [fst snd]. destruct (_ =? _); [by rewrite seen_heartbeat|]. destruct (_ =? _); [|done].
  destruct (_ >=? _); [by rewrite seen_apply|done].
Qed.

Lemma run_mock_ok data :
  Forall mock_input (FrameAssembler_feed [] data).1 ->
  mock_ok (heartbeats (FrameAssembler_feed [] data).1) (run_mock timeout data).
Proof.
  intros H. unfold run_mock, heartbeats. rewrite <- (app_nil_r (rev _)). generalize mock_start_ok.
  change (∅ : gset (Z * Z)) with (mk_seen mock_start). generalize mock_start. generalize ([] : list ParsedFrame).
  induction H as [|f fs Hf _ IH]; intros hbs m Hm; [done|]. cbn [foldl accepted].
  rewrite filter_app, rev_app_distr, <- app_assoc. fold (beats_after m f). rewrite <- seen_frame.
  replace (rev (beats_after m f)) with (beats_after m f); [by apply IH, mock_frame_ok|].
  unfold beats_after. destruct (_ && _); [|done]. rewrite filter_cons. by case_decide.
Qed.
End Mock.

(** The entries into a state, read from the lines of the log. *)
Lemma entries_logged st trs :
  entries st trs = Z.of_nat (length (filter (fun e => to_state e = state_name st) (hook_event <$> trs))).
Proof.
  unfold entries. f_equal. induction trs as [|r trs IH]; [done|].
  cbn [fmap list_fmap]. rewrite !filter_cons. cbn [to_state hook_event].
  assert (to r = st <-> state_name (to r) = state_name st) as E by (split; [congruence|by destruct (to r), st]).
  do 2 case_decide; cbn [length]; tauto || by rewrite IH.
Qed.

(** What a replay of the log of a mock run does: [shown] are the changes it
    writes. *)
Lemma mock_log_replayed timeout data :
  bytes_ok data ->
  Forall (fun f => ~ (pf_ok f = true /\ pf_type f = SAFETY_FRAME_FAULT_EVENT /\ 2 <= fault_severity f))
    (FrameAssembler_feed [] data).1 ->
  let m := run_mock timeout data in
  let hbs := heartbeats (FrameAssembler_feed [] data).1 in
  let late := ended_gap timeout hbs in
  mk_fsm m = (if decide (hbs = []) then BOOTING else HEALTHY) /\
  exists r shown, run_replay (log_text (mk_log m)) = Some r /\
    lines_total r = Z.of_nat (length (mk_log m)) /\
    rx_frames r = of_kind RX_FRAME (mk_log m) /\ timeouts r = of_kind TIMEOUT (mk_log m) /\
    ignored r = passed_over (mk_log m) /\
    state_changes (mk_log m) = shown ++ (if late then [change_event RECOVERING HEARTBEAT_RESTORED] else []) /\
    rp_out r = log_text shown /\ transitions r = Z.of_nat (length shown) /\
    (forall st, state_entry_counts r !! state_index st =
                Some (Z.of_nat (length (filter (fun e => to_state e = state_name st) shown)))) /\
    rp_fsm r = if late then RECOVERING else mk_fsm m.
Proof.
  intros Hb Hf m hbs late. assert (mock_ok timeout hbs m) as [Hm0 _ _ _ Hok Hm].
  { apply run_mock_ok. pose proof (assembled_ok (S (length data)) data Hb) as Hr.
    eapply Forall_impl; [exact (proj2 (Forall_and _ _) (conj Hr Hf))|]. by intros f [[] ?]. }
  split; [done|]. exists (foldl spec_step replay_start (mk_log m)), (hook_event <$> (trajectory BOOTING (mk_log m)).2).
  split; [by apply run_replay_log|].
  destruct (spec_trajectory replay_start (mk_log m)) as [H1 [B1 B2 B3 B4 B5 B6 B7]].
  change (rp_fsm replay_start) with BOOTING in *. change (rp_out replay_start) with "" in B1.
  rewrite B4, B5, B6, B7. do 4 (split; [done|]). destruct Hm as [F1 F2 F3].
  split; [exact F3|]. split; [exact B1|]. split; [by rewrite B2, length_fmap|].
  split; [|by rewrite H1]. intros st. rewrite (B3 st 0) by by destruct st. by rewrite <- entries_logged, Z.add_0_l.
Qed.
