(* ===== verification/ReplayProps.v ===== *)
(** * Properties of the log, of replay and of mock mode *)

From Stdlib Require Import Ascii.
From stdpp Require Import gmap.
From S2P Require Import Prelude Crc32 Protocol Supervisor Framing SupervisorLoop SupervisorInv.
From S2P Require Import Logger LoggerSpec Replay ReplaySpec.

(** ** What live mode logs *)

Section Live.
Context {E : SvEnv}.

Abbreviation safe_in I p := (safe I (fun _ => True) p).

(** Text that can be read back, and no detail on a received frame. *)
Definition live_event (e : LogEvent) : Prop :=
  event_text e /\ (log_kind e = RX_FRAME -> detail e = "").

Definition live_log (s : sv) : Prop := Forall live_event (logged s).

Lemma live_push e : live_event e -> safe_in live_log (logger_push e).
Proof.
  intros He. apply safe_atomic. intros s Hs. split; [|done]. apply Forall_app. split; [exact Hs|].
  by constructor; [|constructor].
Qed.

(** An action that does not touch the log. *)
Lemma live_quiet {A} (act : st sv A) : (forall s, logged (act s).2 = logged s) -> safe_in live_log (atomic act).
Proof. intros H. apply safe_atomic. intros s Hs. split; [|done]. unfold live_log. by rewrite H. Qed.

Lemma live_log_event ts k ft seq dt :
  all_chars loggable ft -> all_chars loggable dt -> (k = RX_FRAME -> dt = "") ->
  live_event (log_event ts k ft seq dt).
Proof. intros Hft Hdt Hrx. split; [by repeat split|exact Hrx]. Qed.

#[local] Ltac by_chars := apply (bool_decide_unpack _); by vm_compute.
#[local] Ltac note := apply live_push, live_log_event; [try apply loggable_frame_type; by_chars|by_chars|done].
#[local] Ltac next := eapply (safe_bind live_log (fun _ => True)); [|intros ? _].

Lemma live_apply ev : safe_in live_log (sv_apply ev).
Proof.
  unfold sv_apply. next; [by apply live_quiet|]. next; [|done]. destruct (valid _); [|done].
  apply live_push. split; [apply hook_event_ok|done].
Qed.

Lemma live_nack f ts : safe_in live_log (nack_bad_frame f ts).
Proof.
  unfold nack_bad_frame. next.
  { apply live_push, live_log_event; [apply loggable_frame_type| |done].
    apply all_chars_app. split; [by_chars|apply loggable_to_string]. }
  next; [by apply live_quiet|]. next; [by apply live_quiet|]. note.
Qed.

Lemma live_heartbeat f ts : safe_in live_log (on_heartbeat f ts).
Proof.
  unfold on_heartbeat. next; [by apply live_quiet|]. next; [by apply live_quiet|].
  next; [apply live_apply|]. next; [case_decide; [by apply live_quiet|done]|].
  next; [by apply live_quiet|]. next; [by apply live_quiet|]. note.
Qed.

Lemma live_fault f : safe_in live_log (on_fault_event f).
Proof.
  unfold on_fault_event. destruct (_ >=? _); [next; [apply live_apply|done]|].
  next; [by apply live_quiet|]. case_decide; [next; [apply live_apply|done]|done].
Qed.

Lemma live_frame f : safe_in live_log (process_frame f).
Proof.
  unfold process_frame. destruct (negb _); [apply live_nack|]. next; [by apply live_quiet|].
  match goal with |- context [if ?d then _ else _] => destruct d end.
  - apply live_push, live_log_event; [apply loggable_frame_type|by_chars|done].
  - next; [apply live_push, live_log_event; [apply loggable_frame_type|by_chars|done]|].
    destruct (_ =? _); [apply live_heartbeat|]. destruct (_ =? _); [apply live_fault|done].
Qed.

Lemma live_timeout : safe_in live_log on_heartbeat_timeout.
Proof.
  unfold on_heartbeat_timeout. next; [by apply live_quiet|]. next; [note|]. next; [by apply live_quiet|].
  next; [apply live_apply|]. next; [|by apply live_quiet].
  destruct (_ && _); [next; [by apply live_quiet|by apply live_quiet]|done].
Qed.

Lemma live_drain rep : safe_in live_log (drain_one rep).
Proof.
  unfold drain_one. eapply (safe_bind live_log (all_chars loggable)).
  - destruct (outcome rep).
    + next; [note|]. next; [apply live_apply|]. apply safe_ret. by_chars.
    + apply safe_ret. by_chars.
    + next; [apply live_apply|]. apply safe_ret. by_chars.
  - intros r Hr. apply live_push, live_log_event; [by_chars|done|done].
Qed.

Lemma live_threads p : sv_thread p -> safe_in live_log p.
Proof.
  intros [[es ->]|[[n ->]| ->]]; [| |by apply live_quiet].
  - apply safe_loop_run. intros [| |data]; cbn [loop_dispatch].
    + apply live_timeout.
    + unfold drain_recovery_reports. next; [by apply live_quiet|].
      apply safe_drain_all, Forall_true. apply live_drain.
    + unfold handle_readable. destruct (_ =? _)%nat; [done|]. next; [by apply live_quiet|].
      apply safe_process_frames, Forall_true. apply live_frame.
  - apply safe_worker_run. unfold worker_round. next.
    { apply live_quiet. intros s. unfold worker_section.
      assert (forall qu s, logged (worker_drain qu s).2 = logged s) as Hd.
      { clear. intros qu s. induction qu as [|req qu IH]; cbn [worker_drain]; repeat case_match; done. }
      repeat case_match; try done; by apply Hd. }
    destruct a; [|by apply live_quiet|done]. next; [by apply live_quiet|].
    match goal with |- context [if ?d then _ else _] => destruct d end; [by apply live_quiet|done].
Qed.
End Live.

(** States a replay of such a log can be in. *)
Definition replayable (st : HealthState) : Prop := st <> FAILED /\ st <> SAFE_MODE.

Lemma live_trajectory st es :
  Forall live_event es -> replayable st -> replayable (trajectory st es).1.
Proof.
  intros H. revert st. induction H as [|e es [_ He] _ IH]; intros st Hst; [done|].
  cbn [trajectory fst]. apply IH. unfold replayed_event. clear IH.
  destruct (log_kind e); cbn [fire fst]; try done.
  - rewrite He by done. change (critical_detail "") with false.
    destruct Hst as [H1 H2]. repeat case_decide; cbn [fire fst]; destruct st; by split.
  - destruct (contains _ _); cbn [fire fst]; destruct Hst, st; by split.
  - destruct Hst, st; by split.
Qed.

Module ReplayProps.

(** C28. The log can be read back: from the line printed for an event the readers
    of the replay recover every field, whatever quotes, backslashes, commas or
    key-like text its strings contain, as long as they hold no control
    character other than newline, carriage return and tab; and splitting the
    file at newlines gives back the lines that were written. *)
Theorem log_roundtrip (e : LogEvent) (es : list LogEvent) :
  event_ok e ->
  let line := serialize_event e in
  extract_string line "kind" = Some (log_kind_name (log_kind e)) /\
  extract_string line "frame_type" = Some (frame_type e) /\
  extract_string line "fault" = Some (fault e) /\
  extract_string line "from_state" = Some (from_state e) /\
  extract_string line "to_state" = Some (to_state e) /\
  extract_string line "detail" = Some (detail e) /\
  extract_int line "ts_ms" = GotInt (log_ts_ms e) /\
  extract_int line "seq" = GotInt (log_seq e) /\
  getlines (log_text es) = serialize_event <$> es.
Proof.
  intros He line. unfold line. pose proof (proj1 He) as Ht.
  by rewrite read_kind, read_frame_type, read_fault, read_from_state, read_to_state, read_detail,
    read_ts_ms, read_seq, getlines_log_text.
Qed.

(** C29. The logger loses nothing and returns: under any interleaving of pushes
    with the logger thread the file holds a prefix of what was pushed, in
    order, one line per event; once [stop] is called on a thread that has not
    returned, finitely many of its steps write all the rest and return. *)
Theorem logger_writes_all (p : list LogEvent) (s : lg) (n : nat) :
  lg_reach p s ->
  (exists w rest, p = w ++ rest /\ lg_out s = log_text w) /\
  (lg_pos s <> LgExited -> (lg_todo (lg_stop s) <= n)%nat ->
   let s' := Nat.iter n lg_run (lg_stop s) in
   lg_pos s' = LgExited /\ lg_out s' = log_text p).
Proof.
  intros Hr. split.
  - destruct (lg_reach_inv p s Hr) as [(w & -> & Ho) _]. by eexists w, _.
  - by apply lg_finish.
Qed.

(** C27. Replay refines its abstract specification: on the text of a log of
    readable events [run_replay] terminates normally, its machine ends where
    the abstract replay of the events ends, it writes exactly the
    [state_change] lines of the abstract transitions, and its counters count
    lines, frames, timeouts, ignored events, transitions and entries into each
    state. *)
Theorem replay_refines (es : list LogEvent) :
  Forall event_ok es ->
  exists r, run_replay (log_text es) = Some r /\
    let t := trajectory BOOTING es in
    rp_fsm r = t.1 /\ rp_out r = log_text (hook_event <$> t.2) /\
    transitions r = Z.of_nat (length t.2) /\
    (forall st, state_entry_counts r !! state_index st = Some (entries st t.2)) /\
    lines_total r = Z.of_nat (length es) /\
    rx_frames r = of_kind RX_FRAME es /\ timeouts r = of_kind TIMEOUT es /\ ignored r = passed_over es.
Proof.
  intros H. exists (foldl spec_step replay_start es). split; [by apply run_replay_log|].
  destruct (spec_trajectory replay_start es) as [H1 [B1 B2 B3 B4 B5 B6 B7]].
  change (rp_fsm replay_start) with BOOTING in *. cbv zeta.
  do 3 (split; [assumption|]). split; [|by rewrite B4, B5, B6, B7].
  intros st. rewrite (B3 st 0); [by rewrite Z.add_0_l|]. by destruct st.
Qed.

(** A replay never sees a terminal state: whatever the daemon does in live
    mode, the replay of the log it has written so far is never in FAILED or
    SAFE_MODE, although the machine it should reproduce may be: failed
    recoveries are skipped and the severity of a fault is not logged. *)
Theorem replay_never_terminal {E : SvEnv} (c : list (prog sv unit) * sv) (r : replay) :
  pool_reach sv_thread sv_start c -> run_replay (log_text (logged c.2)) = Some r ->
  rp_fsm r <> FAILED /\ rp_fsm r <> SAFE_MODE.
Proof.
  intros Hc Hr. destruct (pool_invariant sv_thread live_log sv_start c) as [Hl _];
    [constructor|apply live_threads|done|].
  unfold run_replay in Hr. rewrite getlines_log_text in Hr. apply replay_lines_text in Hr.
  - subst r. rewrite (proj1 (spec_trajectory replay_start (logged c.2))). by apply live_trajectory.
  - eapply Forall_impl; [exact Hl|]. by intros e [].
Qed.

(** ** Witnesses *)

#[local] Ltac by_chars := apply (bool_decide_unpack _); by vm_compute.
#[local] Ltac readable := repeat split; by_chars || (cbn; lia).

(** A detail that looks like another field. *)
Definition tricky : LogEvent :=
  mkLog 1700 RX_FRAME "HEARTBEAT" 7 "" "" "" (q +:+ "," +:+ string_key "kind" +:+ str1 backslash +:+ str1 newline).

Lemma log_roundtrip_witness :
  extract_string (serialize_event tricky) "kind" = Some "rx_frame" /\
  extract_string (serialize_event tricky) "detail" = Some (detail tricky).
Proof.
  destruct (log_roundtrip tricky []) as (H1 & _ & _ & _ & _ & H2 & _); [readable|].
  exact (conj H1 H2).
Defined.

Lemma logger_writes_all_witness :
  let s := Nat.iter 2 lg_run (lg_push tricky lg_start) in
  lg_out (Nat.iter 9 lg_run (lg_stop (lg_push tricky s))) = log_text [tricky; tricky].
Proof.
  intros s. destruct (logger_writes_all [tricky; tricky] (lg_push tricky s) 9) as [_ H].
  - apply (lg_reach_push [tricky]), lg_reach_iter, (lg_reach_push []), lg_reach_start.
  - apply H; [by vm_compute|vm_compute; lia].
Defined.

Definition beat (n : Z) : LogEvent := log_event n RX_FRAME "HEARTBEAT" n "".

(** A recovery as live mode logs it. *)
Lemma replay_refines_witness :
  exists r, run_replay (log_text [beat 1; log_event 2 TIMEOUT "" (- 1) "late";
      log_event 3 TX_COMMAND "COMMAND" 0 "REQUEST_RECOVERY"; beat 4]) = Some r /\
    rp_fsm r = HEALTHY /\ transitions r = 4 /\ rx_frames r = 2.
Proof.
  destruct (replay_refines [beat 1; log_event 2 TIMEOUT "" (- 1) "late";
      log_event 3 TX_COMMAND "COMMAND" 0 "REQUEST_RECOVERY"; beat 4]) as (r & H & H1 & _ & H2 & _ & _ & H3 & _).
  - do 4 (constructor; [readable|]). constructor.
  - exists r. split; [exact H|]. rewrite H1, H2, H3. clear. by vm_compute.
Defined.

(** Two heartbeats, a second apart. *)
Definition recording : list Z := build_heartbeat 0 0 0 0 ++ build_heartbeat 1 1000 1000 1.

Lemma recording_fits :
  bytes_ok recording /\
  Forall (fun f => ~ (pf_ok f = true /\ pf_type f = SAFETY_FRAME_FAULT_EVENT /\ 2 <= fault_severity f))
    (FrameAssembler_feed [] recording).1.
Proof. apply (bool_decide_unpack _). by vm_compute. Qed.

(** Here the replay is late. *)
Lemma recording_late :
  mk_fsm (run_mock 350 recording) = HEALTHY /\
  rp_fsm <$> run_replay (log_text (mk_log (run_mock 350 recording))) = Some RECOVERING.
Proof. apply (bool_decide_unpack _). by vm_compute. Qed.

#[local] Instance QuietEnv : SvEnv :=
  {| steady_now_ms n := Z.of_nat n; device_write_ok _ := true; heartbeat_timeout_ms := 350 |}.

(** A healthy daemon meets a critical fault. *)
Definition critical_run : list (prog sv unit) * sv :=
  exec (replicate 30 0%nat) ([loop_run [LReadable (build_heartbeat 0 0 0 0);
     LReadable (pack_frame SAFETY_FRAME_FAULT_EVENT 1 5
                  (fault_event_bytes (mkFaultEvent SAFETY_FAULT_CRITICAL 2 0 0)))]], sv_start).

Lemma critical_reached : pool_reach sv_thread sv_start critical_run.
Proof. apply exec_reach, spawn_reach. constructor; [left; by eexists|constructor]. Qed.

Lemma critical_replay :
  fsm critical_run.2 = SAFE_MODE /\ is_Some (run_replay (log_text (logged critical_run.2))).
Proof. apply (bool_decide_unpack _). by vm_compute. Qed.

Lemma replay_never_terminal_witness :
  fsm critical_run.2 = SAFE_MODE /\
  exists r, run_replay (log_text (logged critical_run.2)) = Some r /\ rp_fsm r <> SAFE_MODE.
Proof.
  split; [exact (proj1 critical_replay)|]. destruct (proj2 critical_replay) as [r Hr].
  exists r. split; [exact Hr|]. exact (proj2 (replay_never_terminal critical_run r critical_reached Hr)).
Defined.

End ReplayProps.
