(* ===== verification/Linkd.v ===== *)
(** * Link daemon: [userspace/safety-linkd/main.cpp]

    The daemon moves bytes between the UART and the driver.  Its ioctls are the
    programs of [Chrdev]; what [read] and [write] on the UART return is an
    argument, in the order of the calls.  The framer is [LinkFramer_feed] of
    [Supervisor].  [LinkdLog] prints the report. *)

From S2P Require Import Prelude Crc32 Protocol KernelApi Device Kfifo Watchdog Chrdev.
From S2P Require Import Supervisor.

Definition ENOENT : Z := 2.
Definition EINTR : Z := 4.
Definition ENODATA : Z := 61.

(** ** UART *)

Inductive uart_read := RData (data : list Z) | RIntr | REof | RFail (errno : Z).
Inductive uart_write := Wrote (n : nat) | WIntr | WAgain | WFail (errno : Z).

(** [write_all]: [None] while the loop still waits for [write] when the results
    are used up, [Some 0] for [true], [Some errno] for [false]; then the bytes
    that went out and the results left. *)
Fixpoint write_all (ws : list uart_write) (data : list Z) : option Z * list Z * list uart_write :=
  if (length data =? 0)%nat then (Some 0, [], ws)
  else
    match ws with
    | [] => (None, [], [])
    | Wrote n :: ws =>
        let r := write_all ws (drop n data) in (r.1.1, take n data ++ r.1.2, r.2)
    | WIntr :: ws | WAgain :: ws => write_all ws data
    | WFail e :: ws => (Some e, [], ws)
    end.

(** ** State *)

Record ld_event := mkLdEvent {
  ev_kind : string; ev_frame_type : string; ev_seq : Z; ev_bytes : Z; ev_errno : Z }.

Record linkd := mkLinkd {
  ld_buf : list Z;               (* LinkFramer::buf_ *)
  ld_uart : list Z;              (* bytes written to the UART *)
  ld_writes : list uart_write;   (* results of the next writes *)
  ld_log : list ld_event;        (* linkd_events.jsonl *)
}.

#[global] Instance linkd_rebuild : Rebuild linkd :=
  fun s => mkLinkd (ld_buf s) (ld_uart s) (ld_writes s) (ld_log s).
#[global] Instance update_ld_buf : Update ld_buf := ltac:(derive_update).
#[global] Instance update_ld_uart : Update ld_uart := ltac:(derive_update).
#[global] Instance update_ld_writes : Update ld_writes := ltac:(derive_update).
#[global] Instance update_ld_log : Update ld_log := ltac:(derive_update).

(** Its own [frame_type_name]. *)
Definition ld_frame_type_name (ty : Z) : string :=
  if ty =? SAFETY_FRAME_HEARTBEAT then "HEARTBEAT"
  else if ty =? SAFETY_FRAME_TELEMETRY then "TELEMETRY"
  else if ty =? SAFETY_FRAME_FAULT_EVENT then "FAULT_EVENT"
  else if ty =? SAFETY_FRAME_COMMAND then "COMMAND"
  else if ty =? SAFETY_FRAME_ACK then "ACK"
  else if ty =? SAFETY_FRAME_NACK then "NACK"
  else if ty =? SAFETY_FRAME_RECOVERY_REPORT then "RECOVERY_REPORT"
  else "UNKNOWN".

Definition ld_log_event (kind frame_type : string) (seq bytes errno : Z) (s : linkd) : linkd :=
  s <| ld_log ::= fun l => l ++ [mkLdEvent kind frame_type seq bytes errno] |>.

(** The header copied from a frame, zero when the frame is shorter. *)
Definition ld_header (frame : list Z) : SafetyFrameHeader :=
  if Z.of_nat (length frame) >=? SAFETY_HEADER_SIZE then header_of_bytes frame
  else header_of_bytes (replicate 16 0).

Section Linkd.
Context {K : KernelApi safety_fifo_slot}.

(** ** The two ioctls *)

(** Zero for [true], else the errno. *)
Definition push_rx_frame (frame : list Z) : prog (world K) Z :=
  if (length frame =? 0)%nat || (Z.of_nat (length frame) >? SAFETY_MAX_FRAME_SIZE)
  then mret EMSGSIZE
  else
    let io := le_bytes 4 (Z.of_nat (length frame)) ++
              overwrite 0 frame (replicate (Z.to_nat SAFETY_MAX_FRAME_SIZE) 0) in
    r ← safety_ioctl SAFETY_IOC_PUSH_RX_FRAME (Some io) true;
    mret (- r.1).

(** The errno and the struct the driver fills in. *)
Definition pop_tx_frame : prog (world K) (Z * list Z) :=
  r ← safety_ioctl SAFETY_IOC_POP_TX_FRAME None true;
  mret (- r.1, r.2).

(** ** The main loop *)

Definition forward_rx (s : linkd) (frame : list Z) : prog (world K) linkd :=
  let hdr := ld_header frame in
  let bytes := Z.of_nat (length frame) in
  e ← push_rx_frame frame;
  mret (if e =? 0
        then ld_log_event "uart_rx_push" (ld_frame_type_name (type hdr)) (sequence_id hdr) bytes 0 s
        else ld_log_event "push_rx_failed" (ld_frame_type_name (type hdr)) (sequence_id hdr) bytes e s).

Fixpoint forward_all (s : linkd) (frames : list (list Z)) : prog (world K) linkd :=
  match frames with
  | [] => mret s
  | f :: frames => s ← forward_rx s f; forward_all s frames
  end.

(** The reading loop.  After the last result the UART has no more bytes
    ([EAGAIN]).  [false]: the daemon returns 1. *)
Fixpoint rx_loop (rs : list uart_read) (s : linkd) : prog (world K) (bool * linkd) :=
  match rs with
  | [] | REof :: _ => mret (true, s)
  | RIntr :: rs => rx_loop rs s
  | RFail _ :: _ => mret (false, s)
  | RData data :: rs =>
      let r := LinkFramer_feed (ld_buf s) data in
      s ← forward_all (s <| ld_buf := r.2 |>) r.1;
      rx_loop rs s
  end.

(** How the sending loop stands: out of it, still in [write_all], or in need of
    more rounds. *)
Inductive tx_end := TxDone | TxBlocked | TxMore.

Definition forward_tx (s : linkd) (tx_len : Z) (tx_data : list Z) : tx_end * linkd :=
  if (tx_len =? 0) || (tx_len >? SAFETY_MAX_FRAME_SIZE) then (TxMore, s)
  else
    let frame := take (Z.to_nat tx_len) tx_data in
    let hdr := ld_header frame in
    let w := write_all (ld_writes s) frame in
    let s := s <| ld_uart ::= fun u => u ++ w.1.2 |> <| ld_writes := w.2 |> in
    match w.1.1 with
    | None => (TxBlocked, s)
    | Some e =>
        (TxMore,
         if e =? 0
         then ld_log_event "pop_tx_uart" (ld_frame_type_name (type hdr)) (sequence_id hdr) tx_len 0 s
         else ld_log_event "uart_tx_failed" (ld_frame_type_name (type hdr)) (sequence_id hdr) tx_len e s)
    end.

Fixpoint tx_loop (fuel : nat) (s : linkd) : prog (world K) (tx_end * linkd) :=
  match fuel with
  | O => mret (TxMore, s)
  | S fuel =>
      r ← pop_tx_frame;
      if r.1 =? 0 then
        match forward_tx s (field 0 4 r.2) (slice 4 (Z.to_nat SAFETY_MAX_FRAME_SIZE) r.2) with
        | (TxMore, s) => tx_loop fuel s
        | blocked => mret blocked
        end
      else if (r.1 =? EAGAIN) || (r.1 =? ENODATA) || (r.1 =? ENOENT) then mret (TxDone, s)
      else if r.1 =? EINTR then tx_loop fuel s
      else mret (TxDone, ld_log_event "pop_tx_failed" "" (- 1) 0 r.1 s)
  end.

(** One round of the daemon after [poll]; [pollin]: bytes are waiting.  [None]:
    reading failed, and the daemon returns 1. *)
Definition link_round (pollin : bool) (rs : list uart_read) (fuel : nat) (s : linkd) :
    prog (world K) (option tx_end * linkd) :=
  r ← (if pollin then rx_loop rs s else mret (true, s));
  if r.1 : bool then t ← tx_loop fuel r.2; mret (Some t.1, t.2) else mret (None, r.2).

Definition linkd_start (ws : list uart_write) : linkd := mkLinkd [] [] ws [].

End Linkd.
