(* ===== verification/LinkdProps.v ===== *)
(** * The link daemon between UART and driver *)

From S2P Require Import Prelude Crc32 Protocol KernelApi Device Kfifo Watchdog Chrdev DriverMain DriverInv DriverSpec DriverSim DriverRefine.
From S2P Require Import Firmware FirmwareTasks FirmwareRx FirmwareSpec FirmwareInv FirmwareRounds FirmwareProps EndToEnd.
From S2P Require Import Supervisor Framing SupervisorLoop SupervisorInv SupervisorProps Linkd.

(** ** The UART *)

(** The bytes that were read before the loop ended. *)
Fixpoint uart_data (rs : list uart_read) : list (list Z) :=
  match rs with
  | RData data :: rs => data :: uart_data rs
  | RIntr :: rs => uart_data rs
  | _ => []
  end.

(** Writes that move at least one byte. *)
Definition moves (w : uart_write) : bool := match w with Wrote (S _) => true | _ => false end.

Definition moving (ws : list uart_write) : nat := length (filter (fun w => moves w = true) ws).

Definition never_fails (w : uart_write) : Prop := match w with WFail _ => False | _ => True end.

(** With enough writes that move bytes and none that fails, all goes out. *)
Lemma write_all_out ws data :
  Forall never_fails ws -> (length data <= moving ws)%nat ->
  let r := write_all ws data in
  r.1 = (Some 0, data) /\ Forall never_fails r.2 /\ (moving ws <= moving r.2 + length data)%nat.
Proof.
  revert data. induction ws as [|w ws IH]; intros data HF Hm.
  - cbn in Hm. destruct data; [|cbn in Hm; lia]. cbn. split; [done|]. split; [done|]. lia.
  - destruct data as [|b data]; [cbn; split; [done|]; split; [done|lia]|].
    apply Forall_cons_1 in HF as [Hw HF]. unfold moving in *. rewrite filter_cons in Hm |- *.
    destruct w as [[|n]| | |e]; cbn [moves] in Hm |- *; [..|done].
    + cbn [write_all length Nat.eqb drop take app]. destruct (IH (b :: data) HF Hm) as (H1 & H2 & H3).
      rewrite H1. cbn [fst snd]. split; [done|]. split; [done|]. exact H3.
    + rewrite decide_True in Hm |- * by done. cbn [length] in Hm |- *.
      cbn [write_all length Nat.eqb drop take].
      destruct (IH (drop n data) HF ltac:(rewrite length_drop; lia)) as (H1 & H2 & H3).
      rewrite H1. cbn [fst snd]. split; [cbn [app]; by rewrite take_drop|]. split; [done|].
      rewrite length_drop in H3. lia.
    + destruct (IH (b :: data) HF Hm) as (H1 & H2 & H3). cbn [write_all length Nat.eqb]. done.
    + destruct (IH (b :: data) HF Hm) as (H1 & H2 & H3). cbn [write_all length Nat.eqb]. done.
Qed.

Section Linkd.
Context {K : KernelApi safety_fifo_slot} {KO : KernelOk K}.
Context (depth : Z) (Hdepth : 0 <= depth).
Implicit Types (w : world K) (s : linkd) (f : list Z).

(** ** Receiving *)

Definition push_all (fs : list (list Z)) (l : link) : link :=
  foldl (fun l f => (link_step depth (Push f) l).2) l fs.

(** A frame of the framer. *)
Definition pushable f : Prop := bytes_ok f /\ (16 <= length f <= 272)%nat.

Lemma io_of_frame f :
  (length f <= 272)%nat ->
  le_bytes 4 (Z.of_nat (length f)) ++ overwrite 0 f (replicate (Z.to_nat SAFETY_MAX_FRAME_SIZE) 0) = io_bytes f.
Proof.
  intros H. unfold io_bytes. rewrite io_bytes_data_short by done. unfold overwrite.
  by rewrite take_0, app_nil_l, drop_replicate.
Qed.

Lemma push_rx_run f w :
  wf depth w -> pushable f ->
  let r := run (push_rx_frame f) w in
  r.1 = - (link_step depth (Push f) (link_of w)).1.1 /\
  link_of r.2 = (link_step depth (Push f) (link_of w)).2 /\ wf depth r.2.
Proof.
  intros Hwf [Hb Hl]. unfold push_rx_frame. change SAFETY_MAX_FRAME_SIZE with 272.
  rewrite (proj2 (Nat.eqb_neq _ _)), Z.gtb_ltb, (proj2 (Z.ltb_ge _ _)) by lia. cbn [orb].
  change 272 with SAFETY_MAX_FRAME_SIZE. rewrite io_of_frame by lia. rewrite run_bind, run_ret.
  destruct (op_refines depth (Push f) w Hdepth Hwf) as (H1 & H2 & H3); [by split; [|lia]|].
  cbn [device_op] in H1, H2, H3. rewrite <- H1. done.
Qed.

Lemma forward_all_run s fs w :
  wf depth w -> Forall pushable fs ->
  let r := run (forward_all s fs) w in
  link_of r.2 = push_all fs (link_of w) /\ wf depth r.2 /\
  ld_buf r.1 = ld_buf s /\ ld_uart r.1 = ld_uart s /\ ld_writes r.1 = ld_writes s /\
  length (ld_log r.1) = (length (ld_log s) + length fs)%nat.
Proof.
  intros Hwf HF. revert s w Hwf. induction HF as [|f fs Hf _ IH]; intros s w Hwf.
  - cbn [forward_all]. rewrite run_ret. cbn [fst snd push_all foldl length]. do 5 (split; [done|]). lia.
  - cbn [forward_all]. unfold forward_rx. rewrite !run_bind, run_ret. cbn [fst snd].
    destruct (push_rx_run f w Hwf Hf) as (_ & H2 & H3).
    set (w1 := (run (push_rx_frame f) w).2) in *. set (e := (run (push_rx_frame f) w).1).
    set (s1 := if e =? 0 then _ else _).
    assert (ld_buf s1 = ld_buf s /\ ld_uart s1 = ld_uart s /\ ld_writes s1 = ld_writes s /\
            length (ld_log s1) = S (length (ld_log s))) as (B1 & B2 & B3 & B4).
    { unfold s1. destruct (e =? 0); cbn; rewrite length_app; cbn; repeat split; lia. }
    destruct (IH s1 w1 H3) as (I1 & I2 & I3 & I4 & I5 & I6).
    rewrite I1, I3, I4, I5, I6, B1, B2, B3, B4, H2. cbn [push_all foldl length]. do 5 (split; [done|]). lia.
Qed.

(** Frames of the framer can be pushed. *)
Lemma link_frames_pushable fuel rest : bytes_ok rest -> Forall pushable (link_assemble fuel rest).1.
Proof.
  revert rest. induction fuel as [|fuel IH]; intros rest Hb; [constructor|].
  rewrite link_assemble_step. pose proof (bytes_ok_hunt rest Hb) as Hh.
  destruct (scan_of (hunt rest)) as [|hdr|hdr total] eqn:E; cbn [fst]; [constructor| |].
  - apply IH. by apply (bytes_ok_drop 1).
  - constructor; [|by apply IH, bytes_ok_drop]. apply scan_frame_inv in E; [|done].
    split; [by apply bytes_ok_take|]. rewrite length_take. lia.
Qed.

Lemma push_all_app fs1 fs2 l : push_all (fs1 ++ fs2) l = push_all fs2 (push_all fs1 l).
Proof. apply foldl_app. Qed.

Lemma push_all_tx fs l : l_tx (push_all fs l) = l_tx l.
Proof.
  revert l. induction fs as [|f fs IH]; intros l; [done|]. cbn [push_all foldl].
  change (foldl _ ?l fs) with (push_all fs l). rewrite IH. cbn [link_step]. by repeat case_decide.
Qed.

(** No read fails before the loop ends. *)
Fixpoint reads_fine (rs : list uart_read) : bool :=
  match rs with
  | RData _ :: rs | RIntr :: rs => reads_fine rs
  | RFail _ :: _ => false
  | _ => true
  end.

Lemma rx_loop_run rs s w :
  wf depth w -> bytes_ok (ld_buf s) -> Forall bytes_ok (uart_data rs) ->
  let r := run (rx_loop rs s) w in
  let a := feed_reads (ld_buf s) (uart_data rs) in
  r.1.1 = reads_fine rs /\ link_of r.2 = push_all (forwarded a.1) (link_of w) /\ wf depth r.2 /\
  ld_buf r.1.2 = a.2 /\ ld_uart r.1.2 = ld_uart s /\ ld_writes r.1.2 = ld_writes s.
Proof.
  revert s w. induction rs as [|[data| | |e] rs IH]; intros s w Hwf Hb HF;
    cbn [rx_loop uart_data feed_reads reads_fine]; [done| |by apply IH|done..].
  cbn [uart_data] in HF. apply Forall_cons_1 in HF as [Hd HF].
  assert (bytes_ok (ld_buf s ++ data)) as Hbd by by apply bytes_ok_app.
  unfold LinkFramer_feed. rewrite link_assemble_frames by done.
  set (a := FrameAssembler_feed (ld_buf s) data).
  change (assemble _ _) with a. cbn [fst snd].
  rewrite run_bind. set (s0 := s <| ld_buf := a.2 |>).
  assert (Forall pushable (forwarded a.1)) as Hp.
  { pose proof (link_frames_pushable (S (length (ld_buf s ++ data))) (ld_buf s ++ data) Hbd) as H.
    by rewrite link_assemble_frames in H. }
  destruct (forward_all_run s0 (forwarded a.1) w Hwf Hp) as (F1 & F2 & F3 & F4 & F5 & _).
  set (s1 := (run (forward_all s0 (forwarded a.1)) w).1) in *.
  set (w1 := (run (forward_all s0 (forwarded a.1)) w).2) in *.
  change (ld_buf s0) with a.2 in F3. change (ld_uart s0) with (ld_uart s) in F4.
  change (ld_writes s0) with (ld_writes s) in F5.
  destruct (IH s1 w1 F2) as (I1 & I2 & I3 & I4 & I5 & I6); [rewrite F3; by apply bytes_ok_kept|done|].
  rewrite I1, I2, I4, I5, I6, F1, F3, F4, F5, forwarded_app, push_all_app. done.
Qed.

(** Frames that fit are all queued. *)
Lemma push_all_room fs l :
  Forall (fun f => framed f /\ (length f <= 272)%nat) fs ->
  Z.of_nat (length (l_rx l) + length fs) <= depth ->
  push_all fs l = mkLink (l_rx l ++ fs) (l_tx l).
Proof.
  intros HF. revert l. induction HF as [|f fs [Hf Hl] _ IH]; intros l Hroom; cbn [push_all foldl].
  - rewrite app_nil_r. by destruct l.
  - cbn [length] in Hroom. cbn [link_step]. rewrite decide_False by lia. rewrite decide_False by tauto.
    rewrite decide_True by lia. cbn [fst snd]. change (foldl _ ?l fs) with (push_all fs l).
    rewrite IH; cbn [l_rx l_tx]; [by rewrite <- app_assoc|]. rewrite length_app. cbn [length]. lia.
Qed.

(** ** Sending *)

Lemma pop_tx_run w :
  wf depth w ->
  let r := run pop_tx_frame w in
  let l := link_step depth Pop (link_of w) in
  r.1 = (- l.1.1, l.1.2) /\ link_of r.2 = l.2 /\ wf depth r.2.
Proof.
  intros Hwf. unfold pop_tx_frame. rewrite run_bind, run_ret. cbn [fst snd].
  destruct (op_refines depth Pop w Hdepth Hwf I) as (H1 & H2 & H3). cbn [device_op] in H1, H2, H3.
  by rewrite <- H1.
Qed.

(** A frame in the TX queue of a well-formed device. *)
Lemma tx_frame_bounds w f q :
  wf depth w -> l_tx (link_of w) = f :: q -> (0 < length f <= 272)%nat.
Proof.
  intros Hwf Hl. pose proof (wf_tx _ _ Hwf) as Htx. unfold link_of in Hl. cbn [l_tx] in Hl.
  destruct (kfifo_view (tx_fifo (w_dev w))) as [|sl qs]; [done|]. cbn in Hl. injection Hl as <- _.
  apply Forall_cons_1 in Htx as [(Hb & Hl & Hm & Hok) _].
  destruct (validate_ok_inv (slot_data sl) (slot_len sl) Hb ltac:(lia) Hok) as (h & p & rest & _ & Hd & Hlen & _).
  change SAFETY_MAX_FRAME_SIZE with 272 in Hm. lia.
Qed.

Lemma forward_tx_run s f :
  (0 < length f <= 272)%nat -> Forall never_fails (ld_writes s) -> (length f <= moving (ld_writes s))%nat ->
  let r := forward_tx s (field 0 4 (io_bytes f)) (slice 4 272 (io_bytes f)) in
  r.1 = TxMore /\ ld_uart r.2 = ld_uart s ++ f /\ ld_buf r.2 = ld_buf s /\
  Forall never_fails (ld_writes r.2) /\ (moving (ld_writes s) <= moving (ld_writes r.2) + length f)%nat.
Proof.
  intros Hl HF Hm. rewrite io_bytes_len, io_bytes_data, io_bytes_data_short by lia.
  unfold forward_tx. change SAFETY_MAX_FRAME_SIZE with 272.
  rewrite (proj2 (Z.eqb_neq _ _)), Z.gtb_ltb, (proj2 (Z.ltb_ge _ _)) by lia. cbn [orb].
  rewrite Nat2Z.id, take_app_length. destruct (write_all_out (ld_writes s) f HF Hm) as (H1 & H2 & H3).
  rewrite H1. cbn [fst snd]. done.
Qed.

Lemma tx_loop_run fuel s w :
  wf depth w -> (length (l_tx (link_of w)) < fuel)%nat -> Forall never_fails (ld_writes s) ->
  (length (concat (l_tx (link_of w))) <= moving (ld_writes s))%nat ->
  let r := run (tx_loop fuel s) w in
  r.1.1 = TxDone /\ ld_uart r.1.2 = ld_uart s ++ concat (l_tx (link_of w)) /\
  ld_buf r.1.2 = ld_buf s /\ link_of r.2 = mkLink (l_rx (link_of w)) [] /\ wf depth r.2 /\
  Forall never_fails (ld_writes r.1.2) /\
  (moving (ld_writes s) <= moving (ld_writes r.1.2) + length (concat (l_tx (link_of w))))%nat.
Proof.
  revert s w. induction fuel as [|fuel IH]; intros s w Hwf Hfuel HF Hm; [lia|].
  cbn [tx_loop]. rewrite run_bind. destruct (pop_tx_run w Hwf) as (P1 & P2 & P3).
  cbn [link_step] in P1, P2. set (w1 := (run pop_tx_frame w).2) in *. rewrite P1.
  destruct (l_tx (link_of w)) as [|f q] eqn:Hl; cbn [fst snd] in *.
  - change (- - EAGAIN) with EAGAIN. change (EAGAIN =? 0) with false. rewrite Z.eqb_refl. cbn [orb].
    rewrite run_ret. cbn [fst snd concat]. rewrite app_nil_r, P2. do 3 (split; [done|]).
    split; [destruct (link_of w); cbn in *; by subst|]. split; [done|]. split; [done|]. cbn; lia.
  - pose proof (tx_frame_bounds w f q Hwf Hl) as Hlen. cbn [concat length] in Hm, Hfuel |- *.
    rewrite length_app in Hm. change (- 0 =? 0) with true.
    destruct (forward_tx_run s f Hlen HF ltac:(lia)) as (T1 & T2 & T3 & T4 & T5).
    change (Z.to_nat SAFETY_MAX_FRAME_SIZE) with 272%nat.
    destruct (forward_tx s _ _) as [st s1]. cbn [fst snd] in *. subst st.
    destruct (IH s1 w1) as (I1 & I2 & I3 & I4 & I5 & I6 & I7); [done| |done| |]; rewrite ?P2; cbn [l_tx]; [lia..|].
    rewrite P2 in I2, I4, I7. cbn [l_tx l_rx] in I2, I4, I7. rewrite I1, I2, I3, I4, T2, T3, app_assoc.
    do 5 (split; [done|]). split; [done|]. rewrite length_app. lia.
Qed.

(** ** Reading on the other side *)

(** The supervisor's buffer takes any frame. *)
Lemma read_all fs w :
  wf depth w -> l_rx (link_of w) = fs -> Forall (fun f => (length f <= 272)%nat) fs ->
  (run (device_run (replicate (length fs) (Read 1024))) w).1 = (fun f => (Z.of_nat (length f), f)) <$> fs.
Proof.
  intros Hwf Hfs HF. revert w Hwf Hfs. induction HF as [|f fs Hf _ IH]; intros w Hwf Hfs; [done|].
  cbn [length replicate device_run fmap list_fmap]. rewrite !run_bind. cbn [fst snd].
  destruct (op_refines depth (Read 1024) w Hdepth Hwf I) as (H1 & H2 & H3).
  cbn [link_step] in H1, H2. rewrite Hfs in H1, H2. rewrite decide_False in H1 by lia.
  rewrite H1. rewrite run_ret. cbn [fst snd]. rewrite IH; [done|done|]. by rewrite H2.
Qed.

End Linkd.

Lemma seal_type h p : type (seal h p) = type h.
Proof. by destruct h. Qed.
Lemma seal_seq h p : sequence_id (seal h p) = sequence_id h.
Proof. by destruct h. Qed.

Module LinkdProps.
Section Claims.
Context {K : KernelApi safety_fifo_slot} {KO : KernelOk K}.

(** From the UART to the supervisor: valid frames that arrive on the UART
    back to back, cut into reads in any way, are all there for the supervisor
    when they fit an empty RX queue: as many reads of its event loop as there
    are frames return them one by one, and its assembler makes of them exactly
    these frames, valid and in order. *)
Theorem uart_to_supervisor depth rs l s (w : world K) :
  0 <= depth -> wf depth w -> ld_buf s = [] -> reads_fine rs = true ->
  Forall bytes_ok (uart_data rs) -> concat (uart_data rs) = stream l ->
  Forall (fun hp => frame_ok hp.1 hp.2) l -> l_rx (link_of w) = [] -> Z.of_nat (length l) <= depth ->
  let w1 := (run (rx_loop rs s) w).2 in
  let reads := (run (device_run (replicate (length l) (Read 1024))) w1).1 in
  reads = (fun hp => (Z.of_nat (length (frame_bytes hp.1 hp.2)), frame_bytes hp.1 hp.2)) <$> l /\
  feed_reads [] reads.*2 = ((fun hp => received hp.1 hp.2) <$> l, []).
Proof.
  intros Hd Hwf Hb Hrs HF Hstr Hl Hempty Hroom w1 reads.
  set (fs := (fun hp => frame_bytes hp.1 hp.2) <$> l).
  destruct (rx_loop_run depth Hd rs s w Hwf) as (_ & R2 & R3 & _); [by rewrite Hb; constructor|done|].
  rewrite Hb, feed_reads_concat in R2 by (done || constructor). cbn [app] in R2.
  rewrite Hstr, frames_of_stream in R2 by done. cbn [fst snd] in R2. rewrite forwarded_received in R2.
  fold fs w1 in R2, R3.
  assert (Forall (fun f => framed f /\ (length f <= 272)%nat) fs) as Hfs.
  { apply Forall_fmap. eapply Forall_impl; [exact Hl|]. intros [h p] Hok.
    split; [by apply frame_framed|]. pose proof (frame_length_bound h p Hok). cbn [compose fst snd]. lia. }
  assert (l_rx (link_of w1) = fs) as Hrx.
  { rewrite R2, push_all_room; [by rewrite Hempty|done|]. rewrite Hempty. unfold fs. rewrite length_fmap. cbn. lia. }
  assert (reads = (fun f => (Z.of_nat (length f), f)) <$> fs) as Hreads.
  { unfold reads. rewrite <- (length_fmap (fun hp => frame_bytes hp.1 hp.2) l). fold fs.
    apply (read_all depth Hd); [done|done|]. eapply Forall_impl; [exact Hfs|]. by intros f []. }
  rewrite Hreads. split; [unfold fs; by rewrite <- list_fmap_compose|].
  rewrite <- list_fmap_compose. change (snd ∘ _) with (fun f : list Z => f). rewrite list_fmap_id.
  rewrite feed_reads_concat; [|constructor| |done].
  - cbn [app]. by apply frames_of_stream.
  - apply Forall_fmap. eapply Forall_impl; [exact Hl|]. intros [h p] Hok. apply bytes_ok_frame, Hok.
Qed.

(** The firmware refuses the supervisor's acknowledgements: the ACK the
    supervisor writes for a heartbeat goes through the driver and the link
    daemon unchanged, and the command handler of an idle firmware answers it
    with a NACK of reason UNKNOWN_TYPE that names its sequence number. *)
Theorem heartbeat_ack_refused {Zep : ZephyrApi} {ZO : ZephyrOk Zep}
    depth fuel s (w : world K) (f : fw Zep) seq ts acked :
  0 < depth -> wf depth w -> l_tx (link_of w) = [] -> is_u16 seq -> is_u32 ts ->
  Forall never_fails (ld_writes s) -> (20 <= moving (ld_writes s))%nat ->
  rx_ok (rxs f) -> phase (rxs f) = RX_HUNT_MAGIC_LO -> uart_ready f = true ->
  msgq_view (g_rx_msgq f) = [] -> (0 < msgq_size (g_rx_msgq f))%nat ->
  let ack := build_ack seq ts acked in
  let w1 := run (device_op (Write ack)) w in
  let t := run (tx_loop (S (S fuel)) s) w1.2 in
  w1.1 = (20, []) /\ t.1.1 = TxDone /\ ld_uart t.1.2 = ld_uart s ++ ack /\
  exists q now,
    uart_out (run (_ ← rx_feed ack; command_handler_round) f).2 =
    uart_out f ++ wire_frame SAFETY_FRAME_NACK q now
                    (nack_bytes (mkNack seq SAFETY_NACK_UNKNOWN_TYPE 0)).
Proof.
  intros Hd Hwf Htx Hseq Hts Hws Hm Hrx Hph Hrdy Hq Hsz ack w1 t.
  assert (0 <= depth) as Hd0 by lia. set (p := ack_bytes (mkAck acked 0)).
  assert (bytes_ok p) as Hp by apply ack_bytes_ok.
  set (h := safety_frame_init SAFETY_FRAME_ACK seq (Z.of_nat (length p)) ts).
  assert (frame_ok h p) as Hok by (apply frame_init_ok; [by split|done|done|done|change (length p) with 4%nat; lia]).
  assert (ack = frame_bytes h p) as Hack by exact (pack_frame_image SAFETY_FRAME_ACK seq ts p).
  clearbody ack.
  assert (bytes_ok ack) as Hba by (rewrite Hack; apply bytes_ok_frame, Hok).
  assert (length ack = 20%nat) as Hlen by (by rewrite Hack, length_frame_bytes).
  destruct (op_refines depth (Write ack) w Hd0 Hwf) as (W1 & W2 & W3); [split; [done|lia]|].
  fold w1 in W1, W2, W3. cbn [link_step] in W1, W2. rewrite Hlen, Htx in W1, W2.
  assert (safety_frame_validate ack 20 = SAFETY_VALIDATE_OK) as Hv.
  { pose proof (frame_validates h p Hok) as H. by rewrite <- Hack, Hlen in H. }
  rewrite !decide_False, decide_True in W1, W2 by (done || (cbn; lia) || (intros H; by apply H)).
  cbn [fst snd app] in W1, W2.
  destruct (tx_loop_run depth Hd0 (S (S fuel)) s w1.2) as (T1 & T2 & _); rewrite ?W2;
    cbn [l_tx length concat]; rewrite ?app_nil_r, ?Hlen; [done|lia|done|lia|].
  rewrite W2 in T2. cbn [l_tx concat] in T2. rewrite app_nil_r in T2.
  split; [exact W1|]. split; [exact T1|]. split; [exact T2|].
  rewrite Hack. destruct (firmware_answers h p f Hok Hrx Hph Hrdy Hq Hsz) as (f1 & Hans & _ & Hout & _).
  destruct Hans as (_ & _ & _ & _ & now1 & now2 & now3 & q & _ & _ & _ & -> & _).
  assert (command_verdict (mkRxFrame (seal h p) p) = Refused SAFETY_NACK_UNKNOWN_TYPE) as Hno.
  { unfold command_verdict. rewrite decide_True; [done|]. cbn [hdr]. rewrite seal_type. discriminate. }
  assert (sequence_id (hdr (mkRxFrame (seal h p) p)) = seq) as Hsq by (cbn [hdr]; by rewrite seal_seq).
  unfold command_report, command_answer. rewrite Hno, Hsq, Hout, app_nil_l. by exists q, now3.
Qed.

End Claims.

(** ** Witnesses *)

(** The UART takes one byte at a time. *)
Definition slow_uart : linkd := linkd_start (concat (replicate 30 [Wrote 1; WAgain; Wrote 0])).

Lemma slow_uart_fine : Forall never_fails (ld_writes slow_uart) /\ (30 <= moving (ld_writes slow_uart))%nat.
Proof. vm_compute. split; [repeat constructor|lia]. Qed.

(** A heartbeat in two pieces, with an interrupted read in between. *)
Definition pieces : list uart_read := [RData (take 10 sim_heartbeat); RIntr; RData (drop 10 sim_heartbeat)].

Lemma pieces_ok : Forall bytes_ok (uart_data pieces).
Proof.
  constructor; [apply bytes_ok_take, sim_heartbeat_ok|].
  constructor; [apply bytes_ok_drop, sim_heartbeat_ok|constructor].
Qed.

Definition heartbeat_parts : SafetyFrameHeader * list Z :=
  (safety_frame_init SAFETY_FRAME_HEARTBEAT 7 8 1234, heartbeat_bytes (mkHeartbeat 1234 7)).

Lemma heartbeat_parts_ok : frame_ok heartbeat_parts.1 heartbeat_parts.2.
Proof.
  apply (frame_init_ok SAFETY_FRAME_HEARTBEAT 7 1234 (heartbeat_bytes (mkHeartbeat 1234 7)));
    [by split..|apply heartbeat_bytes_ok|apply Nat.leb_le; done].
Qed.

Lemma uart_to_supervisor_witness :
  (run (device_run [Read 1024]) (run (rx_loop pieces slow_uart) sim_world).2).1 = [(24, sim_heartbeat)].
Proof.
  refine (proj1 (uart_to_supervisor 4 pieces [heartbeat_parts] slow_uart sim_world _ sim_wf _ _ pieces_ok _ _ _ _));
    [lia|done|done| | |done|cbn; lia].
  - cbn [pieces uart_data concat]. rewrite app_nil_r, take_drop. symmetry. apply app_nil_r.
  - constructor; [apply heartbeat_parts_ok|constructor].
Defined.

Lemma heartbeat_ack_refused_witness :
  let ack := build_ack 5 100 7 in
  let t := run (tx_loop 2 slow_uart) (run (device_op (Write ack)) sim_world).2 in
  ld_uart t.1.2 = ack.
Proof.
  destruct (heartbeat_ack_refused 4 0 slow_uart sim_world sim_boot 5 100 7) as (_ & _ & H & _);
    [lia|apply sim_wf|done|by split|by split|apply slow_uart_fine
    |pose proof (proj2 slow_uart_fine); lia| |done|done|done|apply Nat.leb_le; done|exact H].
  split; [done|]. split; [|done]. apply (Forall_replicate _ 272). cbn. lia.
Defined.

End LinkdProps.
