(* ===== verification/Bridge.v ===== *)
(** * Host bridge: [bridge/fault_injector.cpp] and [bridge/pty_bridge.cpp]

    The bridge cuts each direction into chunks - frames, and the noise between
    them - and passes every chunk through the fault injector.  What [write]
    returns is an argument; after the listed results every write takes all it is
    given.  The clock at each line of the log is an argument; the sleep of a delay
    is left out. *)

From S2P Require Import Prelude Protocol Supervisor Logger.

(** ** Fault injector *)

Record InjectorConfig := mkInjector {
  drop_every : Z; corrupt_every : Z; delay_ms : Z; drop_type : Z }.

Inductive Action := FORWARD | DROP | CORRUPT | DELAY.

#[global] Instance Action_eq_dec : EqDecision Action.
Proof. solve_decision. Defined.

(** A line of the log, when one is kept: type, sequence number, length, action. *)
Record injector_line := mkInjLine { il_type : Z; il_seq : Z; il_len : Z; il_action : Action }.

(** [frame[12] ^= 0xFF] *)
Definition corrupt_checksum (frame : list Z) : list Z := alter (fun b => Z.lxor b 0xFF) 12%nat frame.

(** The header copied from a chunk, zero when the chunk is shorter. *)
Definition chunk_header (frame : list Z) : SafetyFrameHeader :=
  if Z.of_nat (length frame) >=? SAFETY_HEADER_SIZE then header_of_bytes frame
  else header_of_bytes (replicate 16 0).

(** [FaultInjector::process] with the counter before the call: the new counter,
    the chunk to forward (none when dropped), the delay and the log line. *)
Definition injector_process (cfg : InjectorConfig) (frame_counter : Z) (frame : list Z) :
    Z * option (list Z) * Z * injector_line :=
  let frame_counter := frame_counter + 1 in
  let hdr := chunk_header frame in
  let line := mkInjLine (type hdr) (sequence_id hdr) (Z.of_nat (length frame)) in
  let type_match := (drop_type cfg <? 0) || (type hdr =? u8 (drop_type cfg)) in
  if (drop_every cfg >? 0) && type_match && (Z.rem frame_counter (drop_every cfg) =? 0)
  then (frame_counter, None, 0, line DROP)
  else
    let corrupt := (corrupt_every cfg >? 0) && (Z.rem frame_counter (corrupt_every cfg) =? 0) &&
                   (Z.of_nat (length frame) >=? SAFETY_HEADER_SIZE) in
    let frame := if corrupt then corrupt_checksum frame else frame in
    let action := if corrupt then CORRUPT else FORWARD in
    if delay_ms cfg >? 0
    then (frame_counter, Some frame, delay_ms cfg,
          line (if decide (action = FORWARD) then DELAY else action))
    else (frame_counter, Some frame, 0, line action).

(** ** Framer *)

(** The loop of [ByteFramer::feed]: the chunks and the bytes kept. *)
Fixpoint byte_assemble (fuel : nat) (rest : list Z) : list (list Z) * list Z :=
  match fuel with
  | O => ([], rest)
  | S fuel =>
      let at_magic := hunt rest in
      let noise := take (length rest - length at_magic) rest in
      let pre := if (length noise =? 0)%nat then [] else [noise] in
      let avail := Z.of_nat (length at_magic) in
      if avail <? 2 then (pre, at_magic)
      else if avail <? SAFETY_HEADER_SIZE then (pre, at_magic)
      else
        let plen := payload_length (header_of_bytes at_magic) in
        if plen >? SAFETY_MAX_PAYLOAD then
          let r := byte_assemble fuel (tail at_magic) in
          (pre ++ take 1 at_magic :: r.1, r.2)
        else
          let total := SAFETY_HEADER_SIZE + plen in
          if avail <? total then (pre, at_magic)
          else
            let r := byte_assemble fuel (drop (Z.to_nat total) at_magic) in
            (pre ++ take (Z.to_nat total) at_magic :: r.1, r.2)
  end.

Definition ByteFramer_feed (buf data : list Z) : list (list Z) * list Z :=
  byte_assemble (S (length (buf ++ data))) (buf ++ data).

(** ** Forwarding *)

Inductive pty_write := PWrote (n : nat) | PIntr | PError.

(** The loop that writes a chunk: the bytes that went out and the results left.
    An error other than [EINTR] gives the rest of the chunk up. *)
Fixpoint bridge_write (ws : list pty_write) (data : list Z) : list Z * list pty_write :=
  if (length data =? 0)%nat then ([], ws)
  else
    match ws with
    | [] => (data, [])
    | PWrote n :: ws => let r := bridge_write ws (drop n data) in (take n data ++ r.1, r.2)
    | PIntr :: ws => bridge_write ws data
    | PError :: ws => ([], ws)
    end.

Inductive direction := L2R | R2L.

#[global] Instance direction_eq_dec : EqDecision direction.
Proof. solve_decision. Defined.

(** Change what belongs to one direction. *)
Definition set_dir {A} (d : direction) (x : A) (f : direction -> A) : direction -> A :=
  fun d' => if decide (d' = d) then x else f d'.

Record bridge := mkBridge {
  br_buf : direction -> list Z;       (* buf_ of the two framers *)
  br_counter : Z;                     (* frame_counter_ of the one injector *)
  br_log : list (direction * injector_line);
  br_out : direction -> list Z;       (* bytes forwarded *)
  br_writes : list pty_write;         (* results of the next writes *)
}.

Definition forward_chunk (cfg : InjectorConfig) (d : direction) (s : bridge) (chunk : list Z) : bridge :=
  let p := injector_process cfg (br_counter s) chunk in
  let log := br_log s ++ [(d, p.2)] in
  match p.1.1.2 with
  | None => mkBridge (br_buf s) p.1.1.1 log (br_out s) (br_writes s)
  | Some chunk =>
      let w := bridge_write (br_writes s) chunk in
      mkBridge (br_buf s) p.1.1.1 log (set_dir d (br_out s d ++ w.1) (br_out s)) w.2
  end.

(** [forward] on what [read] returned; nothing on end of file or error. *)
Definition bridge_forward (cfg : InjectorConfig) (s : bridge) (rd : direction * list Z) : bridge :=
  let '(d, data) := rd in
  if (length data =? 0)%nat then s
  else
    let r := ByteFramer_feed (br_buf s d) data in
    foldl (forward_chunk cfg d)
      (mkBridge (set_dir d r.2 (br_buf s)) (br_counter s) (br_log s) (br_out s) (br_writes s)) r.1.

(** The loop of [main] on the reads [poll] announces. *)
Definition bridge_run (cfg : InjectorConfig) (s : bridge) (reads : list (direction * list Z)) : bridge :=
  foldl (bridge_forward cfg) s reads.

Definition bridge_start (ws : list pty_write) : bridge :=
  mkBridge (fun _ => []) 0 [] (fun _ => []) ws.

(** ** The log of the injector *)

(** Its own [type_name]. *)
Definition type_name (t : Z) : string :=
  if t =? SAFETY_FRAME_HEARTBEAT then "HEARTBEAT"
  else if t =? SAFETY_FRAME_TELEMETRY then "TELEMETRY"
  else if t =? SAFETY_FRAME_FAULT_EVENT then "FAULT_EVENT"
  else if t =? SAFETY_FRAME_COMMAND then "COMMAND"
  else if t =? SAFETY_FRAME_ACK then "ACK"
  else if t =? SAFETY_FRAME_NACK then "NACK"
  else if t =? SAFETY_FRAME_RECOVERY_REPORT then "RECOVERY_REPORT"
  else "UNKNOWN".

Definition action_name (a : Action) : string :=
  match a with FORWARD => "FORWARD" | DROP => "DROP" | CORRUPT => "CORRUPT" | DELAY => "DELAY" end.

Definition direction_name (d : direction) : string := match d with L2R => "L->R" | R2L => "R->L" end.

(** [FaultInjector::log_line] at time [ts_ms]. *)
Definition log_line (ts_ms : Z) (d : direction) (l : injector_line) : string :=
  to_string ts_ms +:+ "," +:+ direction_name d +:+ "," +:+ type_name (il_type l) +:+ "," +:+
  to_string (il_seq l) +:+ "," +:+ to_string (il_len l) +:+ "," +:+ action_name (il_action l) +:+ str1 newline.

(** The file after a log with the times of its lines; none is kept without a
    path, or when it cannot be opened. *)
Definition injector_file (log_path : string) (opens : bool) (stamps : list Z)
    (log : list (direction * injector_line)) : option string :=
  if bool_decide (log_path = "") then None
  else if opens then
    Some ("ts_ms,dir,type,seq,len,action" +:+ str1 newline +:+
          foldr (fun e t => log_line e.1 e.2.1 e.2.2 +:+ t) "" (zip stamps log))
  else None.
