(* ===== verification/BridgeProps.v ===== *)
(** * Properties of the host bridge *)

From S2P Require Import Logger LoggerSpec Csv.
From S2P Require Import Prelude Crc32 Protocol KernelApi Device Kfifo Watchdog Chrdev DriverMain DriverInv DriverSpec.
From S2P Require Import Supervisor Framing Bridge.

(** ** The framer *)

Definition noise_of (rest : list Z) : list (list Z) :=
  let noise := take (length rest - length (hunt rest)) rest in
  if (length noise =? 0)%nat then [] else [noise].

Lemma byte_step fuel rest :
  byte_assemble (S fuel) rest =
  match scan_of (hunt rest) with
  | ScanShort => (noise_of rest, hunt rest)
  | ScanBad _ =>
      let r := byte_assemble fuel (tail (hunt rest)) in
      (noise_of rest ++ take 1 (hunt rest) :: r.1, r.2)
  | ScanFrame _ total =>
      let r := byte_assemble fuel (drop total (hunt rest)) in
      (noise_of rest ++ take total (hunt rest) :: r.1, r.2)
  end.
Proof.
  cbn [byte_assemble]. unfold scan_of, SAFETY_HEADER_SIZE. fold (noise_of rest).
  destruct (Z.ltb_spec (Z.of_nat (length (hunt rest))) 2).
  - by rewrite (proj2 (Z.ltb_lt _ _)) by lia.
  - destruct (_ <? 16); [done|]. destruct (_ >? _); [done|]. by destruct (_ <? _).
Qed.

Lemma noise_hunt rest : concat (noise_of rest) ++ hunt rest = rest.
Proof.
  destruct (hunt_suffix rest) as [junk E]. unfold noise_of.
  assert (take (length rest - length (hunt rest)) rest = junk) as ->.
  { rewrite E at 1 3. rewrite length_app, Nat.add_sub. apply take_app_length. }
  rewrite E at 2. by destruct junk; cbn [length Nat.eqb concat]; rewrite ?app_nil_r.
Qed.

(** No byte is lost, added or moved. *)
Lemma byte_concat fuel rest :
  concat (byte_assemble fuel rest).1 ++ (byte_assemble fuel rest).2 = rest.
Proof.
  revert rest. induction fuel as [|fuel IH]; intros rest; [done|]. rewrite byte_step.
  transitivity (concat (noise_of rest) ++ hunt rest); [|apply noise_hunt].
  destruct (scan_of (hunt rest)) as [|hdr|hdr total]; cbn [fst snd]; [done| |];
    rewrite concat_app, <- app_assoc; f_equal; cbn [concat]; rewrite <- app_assoc, IH.
  - change (tail (hunt rest)) with (drop 1 (hunt rest)). apply take_drop.
  - apply take_drop.
Qed.

Lemma scan_not_empty rest : scan_of rest <> ScanShort -> (16 <= length rest)%nat.
Proof. unfold scan_of, SAFETY_HEADER_SIZE. destruct (Z.ltb_spec (Z.of_nat (length rest)) 16); [done|lia]. Qed.

Definition nonempty (c : list Z) : Prop := (0 < length c)%nat.

(** The frames the link daemon would find are among the chunks. *)
Lemma byte_frames fuel rest :
  bytes_ok rest ->
  (byte_assemble fuel rest).2 = (link_assemble fuel rest).2 /\
  sublist (link_assemble fuel rest).1 (byte_assemble fuel rest).1 /\
  Forall nonempty (byte_assemble fuel rest).1.
Proof.
  revert rest. induction fuel as [|fuel IH]; intros rest Hb; [by repeat constructor|].
  assert (Forall nonempty (noise_of rest)) as Hn.
  { unfold noise_of. destruct (Nat.eqb_spec (length (take (length rest - length (hunt rest)) rest)) 0);
      [constructor|]. constructor; [unfold nonempty; lia|constructor]. }
  rewrite byte_step, link_assemble_step. pose proof (bytes_ok_hunt rest Hb) as Hh.
  destruct (scan_of (hunt rest)) as [|hdr|hdr total] eqn:E; cbn [fst snd].
  - split; [done|]. split; [apply sublist_nil_l|done].
  - assert (16 <= length (hunt rest))%nat by (apply scan_not_empty; congruence).
    destruct (IH (tail (hunt rest))) as (H1 & H2 & H3); [by apply (bytes_ok_drop 1)|].
    split; [done|]. split; [by apply sublist_inserts_l, sublist_cons|].
    apply Forall_app. split; [done|]. constructor; [|done]. unfold nonempty. rewrite length_take. lia.
  - pose proof E as (_ & Ht & _)%scan_frame_inv; [|done].
    destruct (IH (drop total (hunt rest))) as (H1 & H2 & H3); [by apply bytes_ok_drop|].
    split; [done|]. split; [by apply sublist_inserts_l, sublist_skip|].
    apply Forall_app. split; [done|]. constructor; [|done]. unfold nonempty. rewrite length_take. lia.
Qed.

(** A sublist of the chunks that accounts for all bytes is all of them. *)
Lemma sublist_concat_le (fs cs : list (list Z)) :
  sublist fs cs -> (length (concat fs) <= length (concat cs))%nat.
Proof. induction 1; cbn [concat]; rewrite ?length_app; cbn; lia. Qed.

Lemma sublist_all (fs cs : list (list Z)) :
  sublist fs cs -> Forall nonempty cs -> length (concat fs) = length (concat cs) -> fs = cs.
Proof.
  induction 1 as [|c fs cs Hs IH|c fs cs Hs IH]; intros HF Hl; [done| |];
    apply Forall_cons_1 in HF as [Hc HF]; cbn [concat] in Hl; rewrite ?length_app in Hl.
  - f_equal. apply IH; [done|lia].
  - exfalso. pose proof (sublist_concat_le fs cs Hs). unfold nonempty in Hc. lia.
Qed.

(** Chunks of a sequence of reads. *)
Fixpoint chunks (buf : list Z) (reads : list (list Z)) : list (list Z) * list Z :=
  match reads with
  | [] => ([], buf)
  | data :: reads =>
      let r := ByteFramer_feed buf data in
      let r' := chunks r.2 reads in (r.1 ++ r'.1, r'.2)
  end.

Lemma chunks_concat buf reads : concat (chunks buf reads).1 ++ (chunks buf reads).2 = buf ++ concat reads.
Proof.
  revert buf. induction reads as [|data reads IH]; intros buf; cbn [chunks concat fst snd]; [by rewrite app_nil_r|].
  rewrite concat_app, <- app_assoc, IH, app_assoc. unfold ByteFramer_feed. rewrite byte_concat. by rewrite app_assoc.
Qed.

Lemma chunks_frames buf reads :
  bytes_ok buf -> Forall bytes_ok reads ->
  (chunks buf reads).2 = (feed_reads buf reads).2 /\
  sublist (forwarded (feed_reads buf reads).1) (chunks buf reads).1 /\ Forall nonempty (chunks buf reads).1.
Proof.
  intros Hb HF. revert buf Hb. induction HF as [|data reads Hd _ IH]; intros buf Hb; cbn [chunks feed_reads fst snd].
  - by repeat constructor.
  - assert (bytes_ok (buf ++ data)) as Hbd by by apply bytes_ok_app.
    destruct (byte_frames (S (length (buf ++ data))) (buf ++ data) Hbd) as (H1 & H2 & H3).
    rewrite link_assemble_frames in H1, H2 by done. cbn [fst snd] in H1, H2.
    fold (ByteFramer_feed buf data) (FrameAssembler_feed buf data) in H1, H2, H3. rewrite H1.
    destruct (IH (FrameAssembler_feed buf data).2) as (I1 & I2 & I3); [by apply bytes_ok_kept|].
    split; [done|]. split; [|by apply Forall_app].
    rewrite forwarded_app. by apply sublist_app.
Qed.

(** ** Forwarding *)

Section Forward.
Context (cfg : InjectorConfig).

(** What the injector lets through of numbered chunks. *)
Fixpoint passed (n : Z) (cs : list (list Z)) : list (list Z) :=
  match cs with
  | [] => []
  | c :: cs => option_list (injector_process cfg n c).1.1.2 ++ passed (n + 1) cs
  end.

Lemma injector_counter n c : (injector_process cfg n c).1.1.1 = n + 1.
Proof. unfold injector_process. by repeat case_match. Qed.

(** The chunk with number [n] (the first has number 1) is dropped, corrupted. *)
Definition drops (n ty : Z) : bool :=
  (drop_every cfg >? 0) && ((drop_type cfg <? 0) || (ty =? u8 (drop_type cfg))) &&
  (Z.rem n (drop_every cfg) =? 0).

Definition corrupts (n : Z) : bool := (corrupt_every cfg >? 0) && (Z.rem n (corrupt_every cfg) =? 0).

Lemma injector_out n c :
  (injector_process cfg n c).1.1.2 =
  if drops (n + 1) (type (chunk_header c)) then None
  else Some (if corrupts (n + 1) && (Z.of_nat (length c) >=? SAFETY_HEADER_SIZE) then corrupt_checksum c else c).
Proof.
  unfold injector_process, drops, corrupts. cbv zeta. destruct (_ && _ && _); [done|].
  by destruct (delay_ms cfg >? 0).
Qed.

Lemma passed_app n cs1 cs2 :
  passed n (cs1 ++ cs2) = passed n cs1 ++ passed (n + Z.of_nat (length cs1)) cs2.
Proof.
  revert n. induction cs1 as [|c cs1 IH]; intros n; cbn [passed app length]; [by rewrite Z.add_0_r|].
  rewrite IH, app_assoc. do 2 f_equal. lia.
Qed.

Lemma bridge_write_all data : bridge_write [] data = (data, []).
Proof. by destruct data. Qed.

Lemma forward_chunks d s cs :
  br_writes s = [] ->
  let s' := foldl (forward_chunk cfg d) s cs in
  br_out s' d = br_out s d ++ concat (passed (br_counter s) cs) /\
  (forall d', d' <> d -> br_out s' d' = br_out s d') /\
  br_buf s' = br_buf s /\ br_counter s' = br_counter s + Z.of_nat (length cs) /\ br_writes s' = [].
Proof.
  revert s. induction cs as [|c cs IH]; intros s Hw; cbn [foldl passed concat length].
  - rewrite app_nil_r, Z.add_0_r. done.
  - set (s1 := forward_chunk cfg d s c).
    assert (br_out s1 d = br_out s d ++ concat (option_list (injector_process cfg (br_counter s) c).1.1.2) /\
            (forall d', d' <> d -> br_out s1 d' = br_out s d') /\ br_buf s1 = br_buf s /\
            br_counter s1 = br_counter s + 1 /\ br_writes s1 = []) as (H1 & H2 & H3 & H4 & H5).
    { unfold s1, forward_chunk. rewrite Hw, injector_counter. destruct (_.1.1.2) as [c'|]; cbn [option_list].
      - rewrite bridge_write_all. cbn [br_out br_buf br_counter br_writes fst snd concat]. unfold set_dir.
        rewrite decide_True by done. cbn. rewrite ?app_nil_r.
        do 2 (split; [done || (intros; by rewrite decide_False)|]). done.
      - cbn. by rewrite app_nil_r. }
    destruct (IH s1 H5) as (I1 & I2 & I3 & I4 & I5). fold s1 in I1, I2, I3, I4, I5 |- *.
    rewrite I1, I3, I4, H1, H3, H4, concat_app, app_assoc. split; [done|].
    split; [intros d' Hd; by rewrite I2, H2|]. split; [done|]. split; [lia|done].
Qed.

(** The lines logged for chunks numbered from [n + 1] on. *)
Fixpoint logged_lines (n : Z) (cs : list (list Z)) : list injector_line :=
  match cs with
  | [] => []
  | c :: cs => (injector_process cfg n c).2 :: logged_lines (n + 1) cs
  end.

Lemma logged_app n cs1 cs2 :
  logged_lines n (cs1 ++ cs2) = logged_lines n cs1 ++ logged_lines (n + Z.of_nat (length cs1)) cs2.
Proof.
  revert n. induction cs1 as [|c cs1 IH]; intros n; cbn [logged_lines app length]; [by rewrite Z.add_0_r|].
  rewrite IH. do 3 f_equal. lia.
Qed.

Lemma forward_chunks_log d s cs :
  br_log (foldl (forward_chunk cfg d) s cs) = br_log s ++ ((fun l => (d, l)) <$> logged_lines (br_counter s) cs).
Proof.
  revert s. induction cs as [|c cs IH]; intros s; cbn [foldl logged_lines fmap list_fmap]; [by rewrite app_nil_r|].
  assert (br_log (forward_chunk cfg d s c) = br_log s ++ [(d, (injector_process cfg (br_counter s) c).2)] /\
          br_counter (forward_chunk cfg d s c) = br_counter s + 1) as [H1 H2].
  { unfold forward_chunk. destruct (_.1.1.2); cbn [br_log br_counter]; by rewrite injector_counter. }
  by rewrite IH, H1, H2, <- app_assoc.
Qed.

(** Reads of one direction. *)
Definition data_of (d : direction) (reads : list (direction * list Z)) : list (list Z) :=
  (filter (fun rd => rd.1 = d) reads).*2.

Lemma forward_read d s data :
  br_writes s = [] ->
  let r := ByteFramer_feed (br_buf s d) data in
  let s' := bridge_forward cfg s (d, data) in
  (0 < length data)%nat ->
  br_out s' d = br_out s d ++ concat (passed (br_counter s) r.1) /\ br_buf s' d = r.2 /\
  (forall d', d' <> d -> br_out s' d' = br_out s d' /\ br_buf s' d' = br_buf s d') /\
  br_counter s' = br_counter s + Z.of_nat (length r.1) /\ br_writes s' = [] /\
  br_log s' = br_log s ++ ((fun l => (d, l)) <$> logged_lines (br_counter s) r.1).
Proof.
  intros Hw r s' Hl. unfold s', bridge_forward. rewrite (proj2 (Nat.eqb_neq _ _)) by lia. fold r.
  destruct (forward_chunks d (mkBridge (set_dir d r.2 (br_buf s)) (br_counter s) (br_log s) (br_out s) (br_writes s))
              r.1 Hw) as (F1 & F2 & F3 & F4 & F5). cbn [br_out br_buf br_counter] in *.
  rewrite F1, F3, F4, F5, forward_chunks_log. unfold set_dir. rewrite decide_True by done. do 2 (split; [done|]).
  split; [|done]. intros d' Hd. by rewrite F2, decide_False.
Qed.

(** ** No injection *)

Definition no_faults : Prop := drop_every cfg <= 0 /\ corrupt_every cfg <= 0.

Lemma passed_all n cs : no_faults -> passed n cs = cs.
Proof.
  intros [H1 H2]. revert n. induction cs as [|c cs IH]; intros n; [done|]. cbn [passed].
  rewrite IH, injector_out. unfold drops, corrupts. rewrite !Z.gtb_ltb.
  by rewrite (proj2 (Z.ltb_ge 0 (drop_every cfg))), (proj2 (Z.ltb_ge 0 (corrupt_every cfg))) by lia.
Qed.

Lemma transparent_step s rd :
  no_faults -> br_writes s = [] ->
  let s' := bridge_forward cfg s rd in
  (forall d, br_out s' d ++ br_buf s' d = (br_out s d ++ br_buf s d) ++ concat (data_of d [rd])) /\
  br_writes s' = [].
Proof.
  intros Hno Hw s'. destruct rd as [d data]. unfold data_of.
  destruct (Nat.eq_dec (length data) 0%nat) as [Hz|Hz].
  - unfold s', bridge_forward. rewrite Hz. cbn [Nat.eqb]. split; [|done]. intros d'.
    destruct data; [|done]. rewrite filter_cons. case_decide; cbn; by rewrite app_nil_r.
  - destruct (forward_read d s data Hw ltac:(lia)) as (F1 & F2 & F3 & _ & F5 & _). fold s' in F1, F2, F3, F5.
    split; [|done]. intros d'. rewrite filter_cons. cbn [fst]. case_decide as Hd.
    + subst d'. rewrite F1, F2, passed_all, <- app_assoc by done. unfold ByteFramer_feed. rewrite byte_concat.
      cbn. by rewrite app_nil_r, app_assoc.
    + destruct (F3 d' ltac:(congruence)) as [-> ->]. cbn. by rewrite app_nil_r.
Qed.

Lemma transparent_run s reads :
  no_faults -> br_writes s = [] -> forall d,
  br_out (bridge_run cfg s reads) d ++ br_buf (bridge_run cfg s reads) d =
  (br_out s d ++ br_buf s d) ++ concat (data_of d reads).
Proof.
  intros Hno. revert s. induction reads as [|rd reads IH]; intros s Hw d; cbn [bridge_run foldl].
  - by rewrite app_nil_r.
  - destruct (transparent_step s rd Hno Hw) as [H1 H2]. fold (bridge_run cfg (bridge_forward cfg s rd) reads).
    rewrite IH, H1, <- app_assoc, <- concat_app by done. unfold data_of.
    by rewrite <- fmap_app, <- filter_app.
Qed.

(** ** Injection in one direction *)

Lemma one_direction d s reads :
  br_writes s = [] -> Forall nonempty reads ->
  let s' := bridge_run cfg s ((fun data => (d, data)) <$> reads) in
  br_out s' d = br_out s d ++ concat (passed (br_counter s) (chunks (br_buf s d) reads).1) /\
  br_buf s' d = (chunks (br_buf s d) reads).2 /\
  br_log s' = br_log s ++ ((fun l => (d, l)) <$> logged_lines (br_counter s) (chunks (br_buf s d) reads).1).
Proof.
  intros Hw HF. revert s Hw. induction HF as [|data reads Hd _ IH]; intros s Hw;
    cbn [bridge_run foldl fmap list_fmap chunks fst snd]; [cbn; by rewrite !app_nil_r|].
  destruct (forward_read d s data Hw Hd) as (F1 & F2 & _ & F4 & F5 & F6).
  set (s1 := bridge_forward cfg s (d, data)) in *. destruct (IH s1 F5) as (I1 & I2 & I3).
  fold (bridge_run cfg s1 ((fun data => (d, data)) <$> reads)). rewrite I1, I2, I3, F1, F2, F4, F6.
  rewrite passed_app, concat_app, logged_app, fmap_app, !app_assoc. done.
Qed.
End Forward.

(** ** What the supervisor sees *)

(** The frame with its checksum corrupted. *)
Definition spoiled (h : SafetyFrameHeader) (p : list Z) : ParsedFrame :=
  mkParsed (header_of_bytes (corrupt_checksum (frame_bytes h p))) p SAFETY_VALIDATE_BAD_CHECKSUM.

Lemma corrupt_frame h p :
  bytes_ok p ->
  exists a b c,
    frame_bytes h p = a ++ (b :: c) ++ p /\ corrupt_checksum (frame_bytes h p) = a ++ (Z.lxor b 0xFF :: c) ++ p /\
    length a = 12%nat /\ length c = 3%nat /\ bytes_ok a /\ is_u8 b /\ bytes_ok c.
Proof.
  intros Hp. set (s := seal h p).
  set (a := le_bytes 2 (magic s) ++ le_bytes 1 (version s) ++ le_bytes 1 (type s) ++
            le_bytes 2 (sequence_id s) ++ le_bytes 2 (payload_length s) ++ le_bytes 4 (timestamp_ms s)).
  assert (exists b c, le_bytes 4 (checksum s) = b :: c) as (b & c & Hbc) by by eexists _, _.
  assert (bytes_ok (b :: c)) as Hbc' by (rewrite <- Hbc; apply bytes_ok_le_bytes).
  assert (frame_bytes h p = a ++ (b :: c) ++ p) as E.
  { unfold frame_bytes, header_bytes, a. fold s. rewrite Hbc. by rewrite <- !app_assoc. }
  exists a, b, c. split; [exact E|]. split.
  - unfold corrupt_checksum. rewrite E, alter_app_r_alt by (change (length a) with 12%nat; lia). done.
  - split; [done|]. split; [by injection (f_equal length Hbc)|]. apply Forall_cons_1 in Hbc' as [].
    split; [|done]. unfold a. rewrite !bytes_ok_app. repeat split; apply bytes_ok_le_bytes.
Qed.

Lemma lxor_ff b : is_u8 b -> is_u8 (Z.lxor b 0xFF) /\ b <> Z.lxor b 0xFF.
Proof.
  intros Hb. split; [apply lxor_range; [lia|done|lia]|]. intros E.
  assert (Z.lxor b (Z.lxor b 0xFF) = 0) as H by (rewrite <- E; apply Z.lxor_nilpotent).
  by rewrite <- Z.lxor_assoc, Z.lxor_nilpotent in H.
Qed.

(** A parsed frame whose image the assembler gives back. *)
Definition reparsed (f : ParsedFrame) : Prop :=
  let b := frame_image f in
  header_ok (header f) /\ magic (header f) = SAFETY_PROTO_MAGIC /\
  payload_length (header f) = Z.of_nat (length (pf_payload f)) /\ (length (pf_payload f) <= 256)%nat /\
  bytes_ok (pf_payload f) /\ safety_frame_validate b (Z.of_nat (length b)) = validate_result f.

Lemma frames_of_image f rest :
  reparsed f -> bytes_ok rest -> frames_of (frame_image f ++ rest) = push_frame f (frames_of rest).
Proof.
  destruct f as [h p v]. unfold reparsed, frame_image. cbn [header pf_payload validate_result].
  intros (Hh & Hm & Hl & Hmax & Hp & Hv) Hrest.
  set (b := header_bytes h ++ p) in *.
  assert (bytes_ok b) as Hb by (apply bytes_ok_app; auto with safety).
  assert (length b = (16 + length p)%nat) as Hlen by (unfold b; by rewrite length_app, length_header_bytes).
  assert (header_of_bytes (b ++ rest) = h) as Hhdr.
  { unfold b. rewrite <- app_assoc, header_of_bytes_app, header_roundtrip by (rewrite ?length_header_bytes; done || lia). done. }
  assert (hunt (b ++ rest) = b ++ rest) as Hhunt.
  { unfold b, header_bytes. rewrite Hm. change (le_bytes 2 SAFETY_PROTO_MAGIC) with [70; 83]. cbn [app].
    by rewrite hunt_cons, magic_value. }
  assert (scan_of (b ++ rest) = ScanFrame h (16 + length p)) as Hscan.
  { unfold scan_of, SAFETY_HEADER_SIZE. rewrite length_app, Hlen, (proj2 (Z.ltb_ge _ _)), Hhdr, Hl by lia.
    unfold SAFETY_MAX_PAYLOAD. rewrite Z.gtb_ltb, !(proj2 (Z.ltb_ge _ _)) by lia. f_equal. lia. }
  rewrite frames_of_step, Hhunt, Hscan by (apply bytes_ok_app; done).
  rewrite <- Hlen, drop_app_length. f_equal. unfold parsed.
  rewrite validate_app, Hv by (done || lia). f_equal. unfold slice, b.
  rewrite <- app_assoc, drop_app_length' by (by rewrite length_header_bytes).
  fold b. rewrite Hlen. replace (16 + length p - 16)%nat with (length p) by lia. apply take_app_length.
Qed.

Lemma frames_of_images fs :
  Forall reparsed fs -> bytes_ok (concat (frame_image <$> fs)) /\ frames_of (concat (frame_image <$> fs)) = (fs, []).
Proof.
  induction 1 as [|f fs Hf _ [IH1 IH2]]; [by split; [constructor|]|]. cbn [fmap list_fmap concat]. split.
  - apply bytes_ok_app. split; [|done]. apply bytes_ok_app. split; [auto with safety|apply Hf].
  - by rewrite frames_of_image, IH2.
Qed.

Lemma received_reparsed h p : frame_ok h p -> reparsed (received h p).
Proof.
  intros Hok. pose proof Hok as (Hh & Hm & Hv & Hl & Hmax & Hp). unfold SAFETY_MAX_PAYLOAD in Hmax.
  split; [by apply seal_header_ok|]. split; [done|]. split; [exact Hl|]. cbn [pf_payload received].
  split; [lia|]. split; [done|]. change (frame_image (received h p)) with (frame_bytes h p).
  rewrite <- (app_nil_r (frame_bytes h p)) at 1. apply validate_frame; [done|]. rewrite length_frame_bytes. lia.
Qed.

Lemma spoiled_reparsed h p :
  frame_ok h p -> frame_image (spoiled h p) = corrupt_checksum (frame_bytes h p) /\ reparsed (spoiled h p).
Proof.
  intros Hok. pose proof Hok as (Hh & Hm & Hv & Hl & Hmax & Hp). unfold SAFETY_MAX_PAYLOAD in Hmax.
  destruct (corrupt_frame h p Hp) as (a & b & c & E & E' & Ha & Hc & Hba & Hbb & Hbc).
  destruct (lxor_ff b Hbb) as [Hx Hne]. unfold spoiled. set (x := Z.lxor b 0xFF) in *.
  assert (bytes_ok (a ++ (x :: c) ++ p)) as Hb.
  { rewrite !bytes_ok_app. split; [done|]. split; [by constructor|done]. }
  assert (length (a ++ (x :: c) ++ p) = (16 + length p)%nat) as Hlen by (rewrite !length_app; cbn [length]; lia).
  assert (frame_image (mkParsed (header_of_bytes (a ++ (x :: c) ++ p)) p SAFETY_VALIDATE_BAD_CHECKSUM) =
          a ++ (x :: c) ++ p) as Himg.
  { unfold frame_image. cbn [header pf_payload]. rewrite header_bytes_of by (done || lia).
    rewrite app_assoc, take_app_length'; [by rewrite <- app_assoc|]. rewrite length_app. cbn [length]. lia. }
  rewrite E'. split; [exact Himg|]. unfold reparsed. rewrite Himg. cbn [header pf_payload validate_result].
  assert (forall y, field 0 2 (a ++ y) = magic h /\ field 6 2 (a ++ y) = payload_length h) as Hf.
  { intros y. assert (forall off n z, (off + n <= 12)%nat -> field off n (a ++ y) = field off n (a ++ z)) as Hany.
    { intros off n z Hn. by rewrite !field_app_l by lia. }
    rewrite !(Hany _ _ ((b :: c) ++ p)) by lia. rewrite <- E.
    pose proof (frame_header h p [] Hh Hp) as Hfh. rewrite app_nil_r in Hfh.
    split; [exact (f_equal magic Hfh)|exact (f_equal payload_length Hfh)]. }
  split; [apply header_of_bytes_ok; [done|lia]|].
  split; [transitivity (magic h); [apply Hf|done]|]. split; [transitivity (payload_length h); [apply Hf|exact Hl]|].
  split; [lia|]. split; [done|].
  apply (checksum_field_detected a (b :: c)); cbn [length]; try lia; try (by constructor).
  - intros [= Hbx]. by apply Hne.
  - rewrite <- E. pose proof (validate_frame h p [] (Z.of_nat (length (frame_bytes h p))) Hok) as Hval.
    rewrite app_nil_r, length_frame_bytes in Hval. rewrite Hlen. apply Hval. lia.
Qed.

Section Fates.
Context (cfg : InjectorConfig).

(** What becomes of the valid frame with number [n], *)
Definition fate (n : Z) (hp : SafetyFrameHeader * list Z) : option ParsedFrame :=
  if drops cfg n (type hp.1) then None
  else Some (if corrupts cfg n then spoiled hp.1 hp.2 else received hp.1 hp.2).

(** and of frames numbered from [n + 1] on. *)
Fixpoint fates (n : Z) (l : list (SafetyFrameHeader * list Z)) : list ParsedFrame :=
  match l with
  | [] => []
  | hp :: l => option_list (fate (n + 1) hp) ++ fates (n + 1) l
  end.

(** What the log says of them. *)
Definition fate_line (n : Z) (hp : SafetyFrameHeader * list Z) : injector_line :=
  mkInjLine (type hp.1) (sequence_id hp.1) (16 + Z.of_nat (length hp.2))
    (if drops cfg n (type hp.1) then DROP else if corrupts cfg n then CORRUPT
     else if delay_ms cfg >? 0 then DELAY else FORWARD).

Fixpoint fate_lines (n : Z) (l : list (SafetyFrameHeader * list Z)) : list injector_line :=
  match l with
  | [] => []
  | hp :: l => fate_line (n + 1) hp :: fate_lines (n + 1) l
  end.

Lemma frame_chunk_header h p : frame_ok h p -> chunk_header (frame_bytes h p) = seal h p.
Proof.
  intros Hok. unfold chunk_header, SAFETY_HEADER_SIZE.
  rewrite Z.geb_leb, (proj2 (Z.leb_le _ _)) by (rewrite length_frame_bytes; lia).
  rewrite <- (app_nil_r (frame_bytes h p)). apply frame_header; apply Hok.
Qed.

Lemma logged_frames n l :
  Forall (fun hp => frame_ok hp.1 hp.2) l ->
  logged_lines cfg n ((fun hp => frame_bytes hp.1 hp.2) <$> l) = fate_lines n l.
Proof.
  intros HF. revert n. induction HF as [|[h p] l Hok _ IH]; intros n; cbn [fmap list_fmap logged_lines fate_lines];
    [done|]. rewrite IH. f_equal. cbn [fst snd] in *. unfold injector_process, fate_line, drops, corrupts.
  rewrite (frame_chunk_header h p Hok). cbv zeta. cbn [fst snd].
  change (type (seal h p)) with (type h). change (sequence_id (seal h p)) with (sequence_id h).
  assert (Z.of_nat (length (frame_bytes h p)) = 16 + Z.of_nat (length p)) as -> by (rewrite length_frame_bytes; lia).
  rewrite (proj2 (Z.geb_le _ SAFETY_HEADER_SIZE)), andb_true_r by (unfold SAFETY_HEADER_SIZE; lia).
  destruct (_ && _ && _); [done|]. destruct (_ && _), (delay_ms cfg >? 0); done.
Qed.

Lemma passed_frames n l :
  Forall (fun hp => frame_ok hp.1 hp.2) l ->
  passed cfg n ((fun hp => frame_bytes hp.1 hp.2) <$> l) = frame_image <$> fates n l /\ Forall reparsed (fates n l).
Proof.
  intros HF. revert n. induction HF as [|[h p] l Hok _ IH]; intros n; cbn [fmap list_fmap passed fates]; [by split|].
  destruct (IH (n + 1)) as [-> I2]. cbn [fst snd] in *. rewrite fmap_app, injector_out. unfold fate. cbn [fst snd].
  assert (Z.of_nat (length (frame_bytes h p)) >= 16) as Hlen by (rewrite length_frame_bytes; lia).
  rewrite (frame_chunk_header h p Hok). unfold SAFETY_HEADER_SIZE.
  rewrite Z.geb_leb, (proj2 (Z.leb_le _ _)), andb_true_r by lia.
  change (type (seal h p)) with (type h).
  destruct (spoiled_reparsed h p Hok) as [S1 S2]. pose proof (received_reparsed h p Hok) as R.
  destruct (drops cfg (n + 1) (type h)); [by split|].
  assert (frame_image (received h p) = frame_bytes h p) as R1 by done.
  destruct (corrupts cfg (n + 1)); (split; [|by constructor]).
  - by rewrite <- S1.
  - by rewrite <- R1.
Qed.
End Fates.

(** Valid frames on one side come out on the other as the injector leaves them,
    however the reads cut them. *)
Lemma chunks_stream (reads : list (list Z)) (l : list (SafetyFrameHeader * list Z)) :
  Forall bytes_ok reads -> Forall (fun hp => frame_ok hp.1 hp.2) l -> concat reads = stream l ->
  chunks [] reads = ((fun hp => frame_bytes hp.1 hp.2) <$> l, []).
Proof.
  intros Hb Hl Hstr. destruct (chunks_frames [] reads) as (C1 & C2 & C3); [constructor|done|].
  rewrite feed_reads_concat in C1, C2 by (done || constructor). cbn [app] in C1, C2.
  rewrite Hstr, frames_of_stream in C1, C2 by done. cbn [fst snd] in C1, C2.
  pose proof (chunks_concat [] reads) as Hcat. rewrite C1, app_nil_r, Hstr in Hcat. cbn [app] in Hcat.
  apply sublist_all in C2; [|done|by rewrite Hcat, forwarded_received].
  rewrite forwarded_received in C2. destruct (chunks [] reads) as [cs rest]. cbn [fst snd] in *. by subst.
Qed.

Lemma bridge_stream (cfg : InjectorConfig) (s : bridge) (d : direction)
    (reads : list (list Z)) (l : list (SafetyFrameHeader * list Z)) :
  br_writes s = [] -> br_buf s d = [] -> br_out s d = [] ->
  Forall nonempty reads -> Forall bytes_ok reads ->
  Forall (fun hp => frame_ok hp.1 hp.2) l -> concat reads = stream l ->
  let s' := bridge_run cfg s ((fun data => (d, data)) <$> reads) in
  br_out s' d = concat (frame_image <$> fates cfg (br_counter s) l) /\ br_buf s' d = [].
Proof.
  intros Hw Hbuf Hout Hne Hb Hl Hstr s'.
  destruct (one_direction cfg d s reads Hw Hne) as (O1 & O2 & _). fold s' in O1, O2.
  rewrite Hbuf, (chunks_stream reads l Hb Hl Hstr) in O1, O2. rewrite Hout in O1. rewrite O1, O2. split; [|done].
  cbn [app fst]. by rewrite (proj1 (passed_frames cfg (br_counter s) l Hl)).
Qed.

(** ** The log *)

(** The fields of a line. *)
Definition log_fields (ts : Z) (e : direction * injector_line) : list string :=
  [to_string ts; direction_name e.1; type_name (il_type e.2); to_string (il_seq e.2); to_string (il_len e.2);
   action_name (il_action e.2)].

Lemma log_fields_cells ts e : Forall cell (log_fields ts e).
Proof.
  repeat constructor; try apply to_string_cell.
  - by destruct e as [[] ?].
  - unfold type_name. repeat case_match; by apply (bool_decide_unpack _).
  - by destruct (il_action e.2).
Qed.

Lemma log_line_fields ts e : log_line ts e.1 e.2 = csv_text (log_fields ts e) +:+ str1 newline.
Proof. unfold log_line, log_fields. cbn [csv_text]. by rewrite !str_app_assoc. Qed.

(** The file splits into the fields of the lines. *)
Lemma injector_file_fields path stamps log :
  path <> "" -> length stamps = length log ->
  exists text, injector_file path true stamps log = Some text /\
    split_comma <$> getlines text = ["ts_ms"; "dir"; "type"; "seq"; "len"; "action"] :: zip_with log_fields stamps log.
Proof.
  intros Hp Hlen. unfold injector_file. rewrite bool_decide_false by done. eexists. split; [reflexivity|].
  rewrite getlines_line by (repeat split; discriminate). cbn [fmap list_fmap]. f_equal.
  revert log Hlen. induction stamps as [|ts stamps IH]; intros [|e log] Hlen; try done.
  change (zip (ts :: stamps) (e :: log)) with ((ts, e) :: zip stamps log). cbn [foldr fst snd].
  rewrite log_line_fields, str_app_assoc, getlines_line by apply csv_no_newline, log_fields_cells.
  cbn [fmap list_fmap zip_with]. rewrite split_csv by (done || apply log_fields_cells). f_equal.
  apply IH. by injection Hlen.
Qed.

Module BridgeProps.

(** The bridge is transparent: with no faults configured and writes that
    take what they are given, after any interleaving of reads from the two
    sides the bytes forwarded in a direction, followed by those the framer
    still keeps, are exactly the bytes read in that direction - frames, noise
    and truncated headers alike. *)
Theorem bridge_transparent (cfg : InjectorConfig) (reads : list (direction * list Z)) (d : direction) :
  no_faults cfg ->
  let s := bridge_run cfg (bridge_start []) reads in
  br_out s d ++ br_buf s d = concat (data_of d reads).
Proof. intros Hno s. exact (transparent_run cfg (bridge_start []) reads Hno eq_refl d). Qed.

(** C26. Injected faults are exactly what the receiver sees: when valid frames
    back to back pass the bridge, cut into reads in any way, the supervisor's
    assembler finds in the output precisely the frames whose number (counted
    from the injector's counter) is not due to be dropped, in order; the ones
    due to be corrupted arrive whole, with their payload, and fail validation
    with BAD_CHECKSUM; all others are valid; and nothing is left over.  The log
    says so: it gains one line per frame, in order, with the frame's type, number
    and length and what was done to it, and its file splits at newlines and
    commas into these fields. *)
Theorem injected_faults_seen (cfg : InjectorConfig) (s : bridge) (d : direction)
    (reads : list (list Z)) (l : list (SafetyFrameHeader * list Z)) :
  br_writes s = [] -> br_buf s d = [] -> br_out s d = [] ->
  Forall nonempty reads -> Forall bytes_ok reads ->
  Forall (fun hp => frame_ok hp.1 hp.2) l -> concat reads = stream l ->
  let s' := bridge_run cfg s ((fun data => (d, data)) <$> reads) in
  FrameAssembler_feed [] (br_out s' d) = (fates cfg (br_counter s) l, []) /\ br_buf s' d = [] /\
  br_log s' = br_log s ++ ((fun line => (d, line)) <$> fate_lines cfg (br_counter s) l) /\
  (forall path stamps, path <> "" -> length stamps = length (br_log s') ->
     exists text, injector_file path true stamps (br_log s') = Some text /\
       split_comma <$> getlines text =
         ["ts_ms"; "dir"; "type"; "seq"; "len"; "action"] :: zip_with log_fields stamps (br_log s')).
Proof.
  intros Hw Hbuf Hout Hne Hb Hl Hstr s'.
  destruct (one_direction cfg d s reads Hw Hne) as (_ & _ & O3). fold s' in O3.
  rewrite Hbuf, (chunks_stream reads l Hb Hl Hstr) in O3. cbn [fst] in O3. rewrite logged_frames in O3 by done.
  destruct (bridge_stream cfg s d reads l Hw Hbuf Hout Hne Hb Hl Hstr) as [O1 O2]. fold s' in O1, O2.
  split; [|split; [done|split; [done|]]]; [|by intros; apply injector_file_fields]. rewrite O1.
  exact (proj2 (frames_of_images _ (proj2 (passed_frames cfg (br_counter s) l Hl)))).
Qed.

(** ** Witnesses *)

Lemma bridge_transparent_witness :
  let s := bridge_run (mkInjector 0 0 5 (- 1)) (bridge_start []) [(L2R, [1; 2; 70]); (R2L, [9]); (L2R, [83; 3])] in
  br_out s L2R ++ br_buf s L2R = [1; 2; 70; 83; 3].
Proof. apply (bridge_transparent (mkInjector 0 0 5 (- 1))). by split. Defined.

Definition beat_parts (n : Z) : SafetyFrameHeader * list Z :=
  (safety_frame_init SAFETY_FRAME_HEARTBEAT n 8 5, heartbeat_bytes (mkHeartbeat 5 n)).

Lemma beat_parts_ok n : is_u16 n -> frame_ok (beat_parts n).1 (beat_parts n).2.
Proof.
  intros Hn. apply (frame_init_ok SAFETY_FRAME_HEARTBEAT n 5 (heartbeat_bytes (mkHeartbeat 5 n)));
    [by split|done|by split| |by apply Nat.leb_le].
  unfold heartbeat_bytes. apply bytes_ok_app. split; apply bytes_ok_le_bytes.
Qed.

(** Every second frame is dropped, every third corrupted. *)
Lemma injected_faults_seen_witness :
  let l := beat_parts <$> [0; 1; 2] in
  let s := bridge_run (mkInjector 2 3 0 (- 1)) (bridge_start []) [(L2R, take 30 (stream l)); (L2R, drop 30 (stream l))] in
  (FrameAssembler_feed [] (br_out s L2R)).1 =
  [received (beat_parts 0).1 (beat_parts 0).2; spoiled (beat_parts 2).1 (beat_parts 2).2] /\
  (fun e => (il_seq e.2, il_action e.2)) <$> br_log s = [(0, FORWARD); (1, DROP); (2, CORRUPT)].
Proof.
  intros l s. assert (Forall (fun hp => frame_ok hp.1 hp.2) l) as Hl.
  { do 3 (constructor; [apply beat_parts_ok; by split|]). constructor. }
  pose proof (bytes_ok_stream l Hl) as Hb.
  destruct (injected_faults_seen (mkInjector 2 3 0 (- 1)) (bridge_start []) L2R
    [take 30 (stream l); drop 30 (stream l)] l) as (H & _ & Hlog & _); [done..| | |done| |].
  - constructor; [|constructor; [|constructor]]; unfold nonempty; rewrite ?length_take, ?length_drop;
      change (length (stream l)) with 72%nat; lia.
  - constructor; [by apply bytes_ok_take|]. constructor; [by apply bytes_ok_drop|constructor].
  - cbn [concat]. by rewrite app_nil_r, take_drop.
  - split; [exact (f_equal fst H)|].
    exact (f_equal (fmap (fun e : direction * injector_line => (il_seq e.2, il_action e.2))) Hlog).
Defined.

End BridgeProps.
