(* ===== verification/Safetyctl.v ===== *)
(** * Command line tool: [userspace/safetyctl/commands.cpp] and [main.cpp]

    A command opens the device, makes one system call of [Chrdev] and prints;
    its exit code and the lines it writes to standard output are the result.
    Messages on standard error are left out. *)

From S2P Require Import Prelude Crc32 Protocol KernelApi Device Kfifo Watchdog Chrdev.
From S2P Require Import Supervisor Logger.

(** The memory of the process as the kernel sees it: the bytes at an address, or
    nothing when the page is not mapped. *)
Class UserMem := user_mem : Z -> option (list Z).

Definition link_state_name (s : Z) : string :=
  if s =? 0 then "BOOTING" else if s =? 1 then "HB_OK" else if s =? 2 then "HB_TIMEOUT"
  else if s =? 3 then "RECOVERING" else "UNKNOWN".

Section Safetyctl.
Context {K : KernelApi safety_fifo_slot} {U : UserMem}.

(** The frame of [send_command]: sequence number and time are zero. *)
Definition ctl_command_frame (cmd a8 a16 a32 : Z) : list Z :=
  let p := command_bytes (mkCommand cmd a8 a16 a32) in
  let hdr := safety_frame_init SAFETY_FRAME_COMMAND 0 8 0 in
  let hdr := hdr <| checksum := safety_frame_compute_checksum hdr (Some p) 8 |> in
  header_bytes hdr ++ p.

Definition send_command (cmd a8 a16 a32 : Z) : prog (world K) bool :=
  let out := ctl_command_frame cmd a8 a16 a32 in
  n ← safety_write (Some out) (Z.of_nat (length out));
  mret (n =? Z.of_nat (length out)).

(** The [i]-th field of [struct safety_copro_stats]. *)
Definition stat_field (st : list Z) (i : nat) : Z := field (4 * i) 4 st.

Definition status_lines (st : list Z) : list string :=
  ["==== safety_copro status ====";
   "current_state        : " +:+ link_state_name (stat_field st 0) +:+ " (" +:+ to_string (stat_field st 0) +:+ ")";
   "heartbeat_count      : " +:+ to_string (stat_field st 1);
   "fault_count          : " +:+ to_string (stat_field st 2);
   "dropped_frame_count  : " +:+ to_string (stat_field st 3);
   "timeout_count        : " +:+ to_string (stat_field st 4);
   "retry_count          : " +:+ to_string (stat_field st 5);
   "protocol_error_count : " +:+ to_string (stat_field st 6);
   "rx_frames_total      : " +:+ to_string (stat_field st 7);
   "rx_queue_depth       : " +:+ to_string (stat_field st 8);
   "tx_queue_depth       : " +:+ to_string (stat_field st 9);
   "============================="].

Definition cmd_status (opened : bool) : prog (world K) (Z * list string) :=
  if negb opened then mret (1, [])
  else
    r ← safety_ioctl SAFETY_IOC_GET_STATS None true;
    if negb (r.1 =? 0) then mret (1, []) else mret (0, status_lines r.2).

(** The fault type and the announcement of a kind. *)
Definition inject_kind (kind : string) : option (Z * string) :=
  if decide (kind = "heartbeat-timeout") then
    Some (SAFETY_FAULT_TASK_HANG, "heartbeat-timeout -> INJECT_FAULT task_hang (stops heartbeats)")
  else if decide (kind = "checksum-error") then
    Some (SAFETY_FAULT_CHECKSUM_ERROR,
          "checksum-error -> INJECT_FAULT checksum_error (usually driven via pty_bridge --corrupt)")
  else None.

(** The third argument of the ioctl is the fault type itself. *)
Definition cmd_inject (opened : bool) (kind : string) : prog (world K) (Z * list string) :=
  match inject_kind kind with
  | None => mret (2, [])
  | Some (fault_type, desc) =>
      if negb opened then mret (1, [desc])
      else
        r ← safety_ioctl SAFETY_IOC_INJECT_FAULT (user_mem fault_type) true;
        if r.1 =? 0 then
          mret (0, [desc; "injected via ioctl SAFETY_IOC_INJECT_FAULT (fault_type=" +:+ to_string fault_type +:+ ")"])
        else
          ok ← send_command SAFETY_CMD_INJECT_FAULT (u8 fault_type) 0 0;
          if ok : bool then mret (0, [desc; "injected via COMMAND frame INJECT_FAULT"])
          else mret (1, [desc])
  end.

Definition cmd_recover (opened : bool) : prog (world K) (Z * list string) :=
  if negb opened then mret (1, [])
  else
    r ← safety_ioctl SAFETY_IOC_FORCE_RECOVERY None true;
    if r.1 =? 0 then mret (0, ["recovery forced via ioctl SAFETY_IOC_FORCE_RECOVERY"])
    else
      ok ← send_command SAFETY_CMD_REQUEST_RECOVERY 0 0 0;
      if ok : bool then mret (0, ["recovery requested via COMMAND frame REQUEST_RECOVERY"])
      else mret (1, []).

(** What [opendir] and [readdir] give: the entries with the contents of each
    file, [None] when it cannot be read. *)
Definition cmd_dump_report (dbg : option (list (string * option string))) : Z * list string :=
  match dbg with
  | Some entries =>
      let files := filter (fun e => e.1 <> "." /\ e.1 <> "..") entries in
      (0, ["==== debugfs dump (/sys/kernel/debug/safety_copro) ===="] ++
          concat ((fun e => ("---- " +:+ e.1 +:+ " ----") ::
                            match e.2 with Some text => getlines text | None => ["(cannot read)"] end) <$> files) ++
          ["================================="])
  | None =>
      (0, ["debugfs '/sys/kernel/debug/safety_copro' not available.";
           "Userspace reports are written by safety-supervisord to:";
           "  reports/events.jsonl        (live/mock event log)";
           "  reports/replay_events.jsonl (replay state changes)"])
  end.

(** ** [main.cpp] *)

Inductive ctl_args := CtlHelp | CtlNoValue | CtlRun (device : string) (positional : list string).

Fixpoint parse_ctl (args : list string) (device : string) (positional : list string) : ctl_args :=
  match args with
  | [] => CtlRun device positional
  | opt :: args =>
      if decide (opt = "--help") then CtlHelp else if decide (opt = "-h") then CtlHelp
      else if decide (opt = "--device") then
        match args with
        | [] => CtlNoValue
        | v :: args => parse_ctl args v positional
        end
      else parse_ctl args device (positional ++ [opt])
  end.

Definition print_help (prog : string) : list string :=
  ["Usage: " +:+ prog +:+ " <command> [options]"; "";
   "Control utility for /dev/safety_copro."; "";
   "Commands:";
   "  status                 read ioctl stats and print counters";
   "  inject <kind>          inject a fault; kind is one of:";
   "                           heartbeat-timeout | checksum-error";
   "  recover                force a recovery on the co-processor";
   "  dump-report            print debugfs files if present, else report paths"; "";
   "Options:";
   "  --device PATH          device path (default /dev/safety_copro)";
   "  --help                 show this help and exit"].

(** [main] called as [prog]; [opened]: the outcome of [open] on a path. *)
Definition ctl_main (prog : string) (opened : string -> bool) (dbg : option (list (string * option string)))
    (args : list string) : Prelude.prog (world K) (Z * list string) :=
  match parse_ctl args "/dev/safety_copro" [] with
  | CtlHelp => mret (0, print_help prog)
  | CtlNoValue => mret (2, [])
  | CtlRun _ [] => mret (2, print_help prog)
  | CtlRun device (cmd :: rest) =>
      if decide (cmd = "status") then cmd_status (opened device)
      else if decide (cmd = "inject") then
        match rest with
        | [] => mret (2, [])
        | kind :: _ => cmd_inject (opened device) kind
        end
      else if decide (cmd = "recover") then cmd_recover (opened device)
      else if decide (cmd = "dump-report") then mret (cmd_dump_report dbg)
      else mret (2, print_help prog)
  end.

End Safetyctl.
