(* ===== verification/SafetyctlProps.v ===== *)
(** * Properties of the command line tool *)

From Stdlib Require Import Ascii.
From S2P Require Import Prelude Crc32 Protocol KernelApi Device Kfifo Watchdog Chrdev DriverMain DriverInv DriverSpec DriverSim DriverRefine.
From S2P Require Import Firmware FirmwareTasks FirmwareRx FirmwareSpec FirmwareInv FirmwareRounds FirmwareProps EndToEnd.
From S2P Require Import Supervisor Framing SupervisorLoop SupervisorInv SupervisorProps Safetyctl.

(** The first page of a process is not mapped. *)
Class PageZero {U : UserMem} : Prop := page_zero a : 0 <= a < 4096 -> user_mem a = None.

Lemma ctl_frame_image cmd a8 a16 a32 :
  ctl_command_frame cmd a8 a16 a32 =
  frame_bytes (safety_frame_init SAFETY_FRAME_COMMAND 0 8 0) (command_bytes (mkCommand cmd a8 a16 a32)).
Proof. exact (pack_frame_image SAFETY_FRAME_COMMAND 0 0 (command_bytes (mkCommand cmd a8 a16 a32))). Qed.

Lemma ctl_frame_ok cmd a8 a16 a32 :
  frame_ok (safety_frame_init SAFETY_FRAME_COMMAND 0 8 0) (command_bytes (mkCommand cmd a8 a16 a32)).
Proof.
  apply (frame_init_ok SAFETY_FRAME_COMMAND 0 0 (command_bytes (mkCommand cmd a8 a16 a32)));
    [by split..| |by apply Nat.leb_le].
  unfold command_bytes. rewrite !bytes_ok_app. repeat split; apply bytes_ok_le_bytes.
Qed.

Section Ctl.
Context {K : KernelApi safety_fifo_slot} {KO : KernelOk K} {U : UserMem} {PZ : PageZero}.

(** A valid frame is queued, or refused when the TX queue is full. *)
Lemma write_frame_run depth h p out (w : world K) :
  0 <= depth -> wf depth w -> frame_ok h p -> out = frame_bytes h p ->
  let r := run (r ← safety_write (Some out) (Z.of_nat (length out)); mret (r =? Z.of_nat (length out))) w in
  let l := link_of w in
  if decide (Z.of_nat (length (l_tx l)) < depth)
  then r.1 = true /\ link_of r.2 = mkLink (l_rx l) (l_tx l ++ [out])
  else r.1 = false /\ link_of r.2 = l.
Proof.
  intros Hd Hwf Hok ->. cbv zeta. pose proof (frame_length_bound h p Hok) as Hlen.
  pose proof (frame_validates h p Hok) as Hv. assert (bytes_ok (frame_bytes h p)) as Hb by apply bytes_ok_frame, Hok.
  set (out := frame_bytes h p) in *. clearbody out. rewrite run_bind, run_ret. cbn [fst snd].
  destruct (op_refines depth (Write out) w Hd Hwf) as (W1 & W2 & _); [split; [done|lia]|].
  cbn [device_op link_step] in W1, W2. rewrite run_bind, run_ret in W1, W2. cbn [fst snd] in W1, W2.
  rewrite decide_False, decide_False, decide_False in W1, W2 by (lia || (intros H; by apply H)).
  case_decide; injection W1 as ->; rewrite W2, ?Z.eqb_refl; [done|].
  split; [|done]. apply Z.eqb_neq. unfold EAGAIN. lia.
Qed.

Lemma send_command_run depth cmd a8 a16 a32 (w : world K) :
  0 <= depth -> wf depth w ->
  let r := run (send_command cmd a8 a16 a32) w in
  let l := link_of w in
  if decide (Z.of_nat (length (l_tx l)) < depth)
  then r.1 = true /\ link_of r.2 = mkLink (l_rx l) (l_tx l ++ [ctl_command_frame cmd a8 a16 a32])
  else r.1 = false /\ link_of r.2 = l.
Proof.
  intros Hd Hwf.
  exact (write_frame_run depth _ _ _ w Hd Hwf (ctl_frame_ok cmd a8 a16 a32) (ctl_frame_image cmd a8 a16 a32)).
Qed.

(** A command that starts a line of the help text. *)
Definition command_of (line : string) : option string :=
  match line with
  | String " " (String " " (String c s)) =>
      if bool_decide (c = " "%char \/ c = "-"%char) then None
      else Some (until " " (String c s))
  | _ => None
  end.

Definition commands_listed (help : list string) : list string := omap command_of help.

(** Status and recovery exit with 0 or 1. *)
Lemma status_code o (w : world K) : (run (cmd_status o) w).1.1 <> 2.
Proof.
  unfold cmd_status. destruct o; cbn [negb]; [|rewrite run_ret; discriminate].
  rewrite run_bind. destruct (negb _); rewrite run_ret; discriminate.
Qed.

Lemma recover_code o (w : world K) : (run (cmd_recover o) w).1.1 <> 2.
Proof.
  unfold cmd_recover. destruct o; cbn [negb]; [|rewrite run_ret; discriminate].
  rewrite run_bind. destruct (_ =? _); [rewrite run_ret; discriminate|].
  rewrite run_bind. match goal with |- context [if ?b then _ else _] => destruct b end; rewrite run_ret; discriminate.
Qed.

(** [main] knows exactly the commands that the help lists, and else prints it. *)
Lemma main_commands prog opened dbg cmd (w : world K) :
  cmd ∉ ["--help"; "-h"; "--device"] ->
  run (ctl_main prog opened dbg [cmd]) w = ((2, print_help prog), w) <-> cmd ∉ commands_listed (print_help prog).
Proof.
  rewrite !not_elem_of_cons. intros (H1 & H2 & H3 & _). unfold ctl_main. cbn [parse_ctl app].
  rewrite !decide_False by done.
  change (commands_listed _) with ["status"; "inject"; "recover"; "dump-report"].
  split.
  - intros Hrun Hin. repeat (apply elem_of_cons in Hin as [->|Hin]); [..|by apply elem_of_nil in Hin].
    + apply (status_code (opened "/dev/safety_copro") w). exact (f_equal (fun r => r.1.1) Hrun).
    + done.
    + apply (recover_code (opened "/dev/safety_copro") w). exact (f_equal (fun r => r.1.1) Hrun).
    + unfold cmd_dump_report in Hrun. by destruct dbg.
  - intros Hin. rewrite !not_elem_of_cons in Hin. destruct Hin as (G1 & G2 & G3 & G4 & _).
    by rewrite !decide_False.
Qed.
End Ctl.

Module SafetyctlProps.
Section Claims.
Context {K : KernelApi safety_fifo_slot} {KO : KernelOk K} {U : UserMem} {PZ : PageZero}.

(** C30. What the commands of [safetyctl] reach: an unknown kind of fault exits
    with 2 and changes nothing; a known kind never takes effect through the
    ioctl, which is given the fault number where the driver expects an address,
    and is queued as a COMMAND frame instead (exit code 0), or refused (exit
    code 1) when the TX queue is full; [recover] always exits with 0, queues no
    frame for the co-processor and only schedules the driver's recovery work.  The
    commands of the help text are the ones [main] knows; for any other word it
    prints the help, exits with 2 and changes nothing. *)
Theorem safetyctl_effects depth (kind : string) (w : world K) :
  0 <= depth -> wf depth w ->
  let r := run (cmd_inject true kind) w in
  let l := link_of w in
  match inject_kind kind with
  | None => r = ((2, []), w)
  | Some (ft, desc) =>
      if decide (Z.of_nat (length (l_tx l)) < depth)
      then r.1 = (0, [desc; "injected via COMMAND frame INJECT_FAULT"]) /\
           link_of r.2 = mkLink (l_rx l) (l_tx l ++ [ctl_command_frame SAFETY_CMD_INJECT_FAULT ft 0 0])
      else r.1 = (1, [desc]) /\ link_of r.2 = l
  end /\
  (let rc := run (cmd_recover true) w in
   rc.1.1 = 0 /\ link_of rc.2 = l /\
   recovery_work (w_dev rc.2) = (schedule_work (recovery_work (w_dev w))).2) /\
  (forall prog opened dbg cmd, cmd ∉ ["--help"; "-h"; "--device"] ->
     run (ctl_main prog opened dbg [cmd]) w = ((2, print_help prog), w) <-> cmd ∉ commands_listed (print_help prog)).
Proof.
  intros Hd Hwf r l. split; [|split; [unfold cmd_recover; cbn [negb]; by rewrite ioctl_force_recovery|]].
  2: intros prog opened dbg cmd; apply main_commands.
  unfold r, cmd_inject. destruct (inject_kind kind) as [[ft desc]|] eqn:Ek; [|done].
  assert (0 <= ft < 256) as Hft.
  { unfold inject_kind in Ek. repeat case_decide; simplify_eq; by split. }
  cbn [negb]. rewrite ioctl_inject_fault, page_zero by lia. unfold no_out. cbn [ioc_inject_fault].
  rewrite !run_bind, !run_ret. cbn [fst snd]. change (- EFAULT =? 0) with false. cbn iota.
  rewrite run_bind, u8_small by done.
  pose proof (send_command_run depth SAFETY_CMD_INJECT_FAULT ft 0 0 w Hd Hwf) as H. fold l in H.
  destruct (run (send_command _ _ _ _) w) as [ok w1]. cbn [fst snd] in *.
  case_decide; destruct H as [-> H]; by rewrite run_ret.
Qed.

End Claims.

(** Nothing is mapped. *)
#[local] Instance EmptyMem : UserMem := fun _ => None.
#[local] Instance EmptyMem_zero : PageZero.
Proof. by intros a _. Qed.

Lemma safetyctl_effects_witness :
  (run (cmd_inject (K := SimK) true "heartbeat-timeout") sim_world).1.1 = 0 /\
  l_tx (link_of (run (cmd_inject (K := SimK) true "heartbeat-timeout") sim_world).2) =
    [ctl_command_frame SAFETY_CMD_INJECT_FAULT SAFETY_FAULT_TASK_HANG 0 0].
Proof.
  destruct (safetyctl_effects 4 "heartbeat-timeout" sim_world ltac:(lia) sim_wf) as [H _].
  assert (exists desc, inject_kind "heartbeat-timeout" = Some (SAFETY_FAULT_TASK_HANG, desc)) as [desc E]
    by by eexists.
  rewrite E, decide_True in H by (cbn; lia).
  destruct H as [H1 H2]. rewrite H1, H2. by split.
Defined.

End SafetyctlProps.
