(* ===== verification/Cli.v ===== *)
(** * Command lines: the option parsers of the programs

    [parse_args] of [userspace/safety-supervisord/main.cpp] and of
    [userspace/safety-linkd/main.cpp], the option loop of
    [bridge/pty_bridge.cpp], and [parse_arg] of [ebpf/safety_trace_user.c], with
    the C library functions they read numbers with.  An argument vector is a
    [list string] without the name of the program; what goes to standard error
    is the message of [BadArgs]. *)

From Stdlib Require Import Ascii.
From S2P Require Import Prelude Supervisor Logger Bridge.

(** ** Reading numbers *)

(** [isspace] in the C locale. *)
Definition is_space (c : ascii) : bool :=
  let n := nat_of_ascii c in (n =? 32)%nat || ((9 <=? n)%nat && (n <=? 13)%nat).

Fixpoint skip_space (s : string) : string :=
  match s with
  | String c s' => if is_space c then skip_space s' else s
  | EmptyString => ""
  end.

(** The value of the digits at the front, after those read so far. *)
Fixpoint digits_value (acc : Z) (s : string) : Z :=
  match s with
  | String c s =>
      if is_digit c then digits_value (10 * acc + (Z.of_nat (nat_of_ascii c) - 48)) s else acc
  | EmptyString => acc
  end.

(** White space, an optional sign and decimal digits, as [strtol] and [strtoul]
    read them: whether there is a minus and the value of the digits; [None]
    without digits.  What follows the digits is not looked at. *)
Definition scan_number (s : string) : option (bool * Z) :=
  let s := skip_space s in
  let '(neg, s) :=
    match s with
    | String c s' =>
        if ascii_dec c "-" then (true, s') else if ascii_dec c "+" then (false, s') else (false, s)
    | EmptyString => (false, s)
    end in
  match s with
  | String c _ => if is_digit c then Some (neg, digits_value 0 s) else None
  | EmptyString => None
  end.

Inductive thrown := invalid_argument | out_of_range.

#[global] Instance thrown_eq_dec : EqDecision thrown.
Proof. solve_decision. Defined.

(** [std::stoul] with a 64-bit [unsigned long]: a minus negates the value in the
    unsigned type. *)
Definition stoul (s : string) : thrown + Z :=
  match scan_number s with
  | None => inl invalid_argument
  | Some (neg, m) =>
      if m >=? 2 ^ 64 then inl out_of_range else inr (if neg : bool then u64 (- m) else m)
  end.

(** [strtol(s, NULL, 10)] with a 64-bit [long]: the value, and whether [errno] is
    set to [ERANGE]. *)
Definition strtol (s : string) : Z * bool :=
  match scan_number s with
  | None => (0, false)
  | Some (neg, m) =>
      let x := if neg : bool then - m else m in
      if x <? - 2 ^ 63 then (- 2 ^ 63, true)
      else if x >=? 2 ^ 63 then (2 ^ 63 - 1, true)
      else (x, false)
  end.

(** [std::atoi]; [None] is the undefined behaviour of a value no [int] holds. *)
Definition atoi (s : string) : option Z :=
  match scan_number s with
  | None => Some 0
  | Some (neg, m) =>
      let x := if neg : bool then - m else m in
      if (- 2 ^ 31 <=? x) && (x <? 2 ^ 31) then Some x else None
  end.

(** ** Results of a parser *)

Inductive parsed (A : Type) :=
  | Parsed (a : A)
  | WantHelp                    (* [--help] *)
  | BadArgs (msg : string)      (* the message on standard error *)
  | Uncaught (e : thrown)       (* an exception nothing catches *)
  | Undefined.                  (* undefined behaviour *)
#[global] Arguments Parsed {A} a.
#[global] Arguments WantHelp {A}.
#[global] Arguments BadArgs {A} msg.
#[global] Arguments Uncaught {A} e.
#[global] Arguments Undefined {A}.

#[global] Instance parsed_eq_dec {A} `{!EqDecision A} : EqDecision (parsed A).
Proof. solve_decision. Defined.

Definition requires_value (opt : string) : string := "error: option " +:+ opt +:+ " requires a value".
Definition unknown_option (opt : string) : string := "error: unknown option '" +:+ opt +:+ "'".

(** ** safety-supervisord *)

Module Sv.

Inductive Mode := LIVE | MOCK | REPLAY.

#[global] Instance Mode_eq_dec : EqDecision Mode.
Proof. solve_decision. Defined.

Record Args := mkArgs {
  mode : Mode;
  device : string;
  mock_file : string;
  replay_file : string;
  report_dir : string;
  hb_timeout_ms : Z;      (* uint32_t *)
  duration_ms : Z;        (* uint32_t *)
}.

#[global] Instance Args_rebuild : Rebuild Args :=
  fun a => mkArgs (mode a) (device a) (mock_file a) (replay_file a) (report_dir a)
             (hb_timeout_ms a) (duration_ms a).
#[global] Instance update_mode : Update mode := ltac:(derive_update).
#[global] Instance update_device : Update device := ltac:(derive_update).
#[global] Instance update_mock_file : Update mock_file := ltac:(derive_update).
#[global] Instance update_replay_file : Update replay_file := ltac:(derive_update).
#[global] Instance update_report_dir : Update report_dir := ltac:(derive_update).
#[global] Instance update_hb_timeout_ms : Update hb_timeout_ms := ltac:(derive_update).
#[global] Instance update_duration_ms : Update duration_ms := ltac:(derive_update).

#[global] Instance Args_eq_dec : EqDecision Args.
Proof. solve_decision. Defined.

Definition default_args : Args := mkArgs LIVE "/dev/safety_copro" "" "" "reports" 350 0.

(** What [--help] prints, line by line. *)
Definition print_help (prog : string) : list string :=
  ["Usage: " +:+ prog +:+ " [options]"; "";
   "Real-Time Safety Co-Processor Supervisor daemon."; "";
   "Mode (choose exactly one; default is live):";
   "  --device PATH            live: open the char device (default /dev/safety_copro)";
   "  --mock-device FILE       read concatenated binary frames from FILE";
   "  --replay FILE            replay an events.jsonl (deterministic, single-thread)"; "";
   "Options:";
   "  --report-dir DIR         output directory for reports (default reports)";
   "  --heartbeat-timeout-ms N heartbeat timeout in ms (default 350)";
   "  --duration-ms N          live/mock: run N ms then exit; 0 = until EOF/signal";
   "  --help                   show this help and exit"].

(** The loop over [argv]; the check of [mode_count] follows it. *)
Fixpoint parse_loop (argv : list string) (a : Args) (mode_count : Z) : parsed Args :=
  match argv with
  | [] =>
      if mode_count >? 1
      then BadArgs "error: --mock-device and --replay are mutually exclusive"
      else Parsed a
  | opt :: argv =>
      if decide (opt = "--help" \/ opt = "-h") then WantHelp
      else if decide (opt = "--device") then
        match argv with
        | [] => BadArgs (requires_value opt)
        | v :: argv => parse_loop argv (a <| device := v |>) mode_count
        end
      else if decide (opt = "--mock-device") then
        match argv with
        | [] => BadArgs (requires_value opt)
        | v :: argv => parse_loop argv (a <| mock_file := v |> <| mode := MOCK |>) (mode_count + 1)
        end
      else if decide (opt = "--replay") then
        match argv with
        | [] => BadArgs (requires_value opt)
        | v :: argv => parse_loop argv (a <| replay_file := v |> <| mode := REPLAY |>) (mode_count + 1)
        end
      else if decide (opt = "--report-dir") then
        match argv with
        | [] => BadArgs (requires_value opt)
        | v :: argv => parse_loop argv (a <| report_dir := v |>) mode_count
        end
      else if decide (opt = "--heartbeat-timeout-ms") then
        match argv with
        | [] => BadArgs (requires_value opt)
        | v :: argv =>
            match stoul v with
            | inl e => Uncaught e
            | inr n => parse_loop argv (a <| hb_timeout_ms := u32 n |>) mode_count
            end
        end
      else if decide (opt = "--duration-ms") then
        match argv with
        | [] => BadArgs (requires_value opt)
        | v :: argv =>
            match stoul v with
            | inl e => Uncaught e
            | inr n => parse_loop argv (a <| duration_ms := u32 n |>) mode_count
            end
        end
      else BadArgs (unknown_option opt)
  end.

Definition parse_args (argv : list string) : parsed Args := parse_loop argv default_args 0.

(** What [main] goes on to do. *)
Inductive dispatch :=
  | Return (code : Z)
  | Terminate              (* std::terminate *)
  | RunReplay (input report_dir : string)
  | RunMock (a : Args)
  | RunLive (a : Args).

Definition main_dispatch (argv : list string) : dispatch :=
  match parse_args argv with
  | BadArgs _ => Return 2
  | WantHelp => Return 0
  | Uncaught _ | Undefined => Terminate
  | Parsed a =>
      match mode a with
      | REPLAY => RunReplay (replay_file a) (report_dir a)
      | MOCK => RunMock a
      | LIVE => RunLive a
      end
  end.

End Sv.

(** ** safety-linkd *)

Module Ld.

Record Args := mkArgs { uart : string; device : string; report_dir : string; duration_ms : Z }.

#[global] Instance Args_rebuild : Rebuild Args :=
  fun a => mkArgs (uart a) (device a) (report_dir a) (duration_ms a).
#[global] Instance update_uart : Update uart := ltac:(derive_update).
#[global] Instance update_device : Update device := ltac:(derive_update).
#[global] Instance update_report_dir : Update report_dir := ltac:(derive_update).
#[global] Instance update_duration_ms : Update duration_ms := ltac:(derive_update).

#[global] Instance Args_eq_dec : EqDecision Args.
Proof. solve_decision. Defined.

Definition default_args : Args := mkArgs "/dev/ttyAMA1" "/dev/safety_copro" "reports" 0.

Definition print_help (prog : string) : list string :=
  ["Usage: " +:+ prog +:+ " [options]"; "";
   "Transport adapter between the Linux protocol UART and /dev/safety_copro."; "";
   "Options:";
   "  --uart PATH        protocol UART path (default /dev/ttyAMA1)";
   "  --device PATH      safety driver path (default /dev/safety_copro)";
   "  --report-dir DIR   report directory (default reports)";
   "  --duration-ms N    run N ms then exit; 0 = until signal";
   "  --help             show this help and exit"].

Fixpoint parse_loop (argv : list string) (args : Args) : parsed Args :=
  match argv with
  | [] => Parsed args
  | opt :: argv =>
      if decide (opt = "--help" \/ opt = "-h") then WantHelp
      else if decide (opt = "--uart") then
        match argv with
        | [] => BadArgs (requires_value opt)
        | v :: argv => parse_loop argv (args <| uart := v |>)
        end
      else if decide (opt = "--device") then
        match argv with
        | [] => BadArgs (requires_value opt)
        | v :: argv => parse_loop argv (args <| device := v |>)
        end
      else if decide (opt = "--report-dir") then
        match argv with
        | [] => BadArgs (requires_value opt)
        | v :: argv => parse_loop argv (args <| report_dir := v |>)
        end
      else if decide (opt = "--duration-ms") then
        match argv with
        | [] => BadArgs (requires_value opt)
        | v :: argv =>
            match stoul v with
            | inl e => Uncaught e
            | inr n => parse_loop argv (args <| duration_ms := u32 n |>)
            end
        end
      else BadArgs (unknown_option opt)
  end.

Definition parse_args (argv : list string) : parsed Args := parse_loop argv default_args.

End Ld.

(** ** pty_bridge *)

Module Br.

Record Args := mkArgs {
  cfg : InjectorConfig;
  log_path : string;
  left_path : string;
  right_path : string;
  left_name_file : string;
  right_name_file : string;
}.

#[global] Instance Args_rebuild : Rebuild Args :=
  fun a => mkArgs (cfg a) (log_path a) (left_path a) (right_path a) (left_name_file a) (right_name_file a).
#[global] Instance update_cfg : Update cfg := ltac:(derive_update).
#[global] Instance update_log_path : Update log_path := ltac:(derive_update).
#[global] Instance update_left_path : Update left_path := ltac:(derive_update).
#[global] Instance update_right_path : Update right_path := ltac:(derive_update).
#[global] Instance update_left_name_file : Update left_name_file := ltac:(derive_update).
#[global] Instance update_right_name_file : Update right_name_file := ltac:(derive_update).

#[global] Instance InjectorConfig_rebuild : Rebuild InjectorConfig :=
  fun c => mkInjector (drop_every c) (corrupt_every c) (delay_ms c) (drop_type c).
#[global] Instance update_drop_every : Update drop_every := ltac:(derive_update).
#[global] Instance update_corrupt_every : Update corrupt_every := ltac:(derive_update).
#[global] Instance update_delay_ms : Update delay_ms := ltac:(derive_update).
#[global] Instance update_drop_type : Update drop_type := ltac:(derive_update).

#[global] Instance InjectorConfig_eq_dec : EqDecision InjectorConfig.
Proof. solve_decision. Defined.
#[global] Instance Args_eq_dec : EqDecision Args.
Proof. solve_decision. Defined.

(** The defaults of [struct InjectorConfig]. *)
Definition default_cfg : InjectorConfig := mkInjector 0 0 0 (- 1).

Definition default_args : Args := mkArgs default_cfg "" "" "" "" "".

Definition print_help (prog : string) : list string :=
  ["Usage: " +:+ prog +:+ " [options]"; "";
   "Host-side UART-like bridge between two QEMU serial endpoints.";
   "Creates two PTYs and forwards frames between them, applying optional";
   "fault injection. Attach each QEMU with -serial /dev/pts/N."; "";
   "Options:";
   "  --left PATH       open an existing LEFT PTY path";
   "  --right PATH      open an existing RIGHT PTY path";
   "  --left-name FILE   write the LEFT slave pts path to FILE (for scripts)";
   "  --right-name FILE  write the RIGHT slave pts path to FILE";
   "  --drop N           drop every Nth frame";
   "  --drop-type TYPE   only drop frames of TYPE (1=HEARTBEAT 2=TELEMETRY";
   "                       3=FAULT_EVENT 4=COMMAND 5=ACK 6=NACK 7=RECOVERY)";
   "  --delay-ms N       delay each forwarded frame by N ms";
   "  --corrupt N        corrupt checksum of every Nth frame";
   "  --log FILE         log transported frames (ts,dir,type,seq,len,action)";
   "  --help             show this help and exit"].

Fixpoint parse_loop (argv : list string) (a : Args) : parsed Args :=
  match argv with
  | [] => Parsed a
  | opt :: argv =>
      if decide (opt = "--help" \/ opt = "-h") then WantHelp
      else if decide (opt = "--left") then
        match argv with
        | [] => BadArgs (requires_value opt)
        | v :: argv => parse_loop argv (a <| left_path := v |>)
        end
      else if decide (opt = "--right") then
        match argv with
        | [] => BadArgs (requires_value opt)
        | v :: argv => parse_loop argv (a <| right_path := v |>)
        end
      else if decide (opt = "--left-name") then
        match argv with
        | [] => BadArgs (requires_value opt)
        | v :: argv => parse_loop argv (a <| left_name_file := v |>)
        end
      else if decide (opt = "--right-name") then
        match argv with
        | [] => BadArgs (requires_value opt)
        | v :: argv => parse_loop argv (a <| right_name_file := v |>)
        end
      else if decide (opt = "--drop") then
        match argv with
        | [] => BadArgs (requires_value opt)
        | v :: argv =>
            match atoi v with
            | None => Undefined
            | Some n => parse_loop argv (a <| cfg ::= fun c => c <| drop_every := n |> |>)
            end
        end
      else if decide (opt = "--drop-type") then
        match argv with
        | [] => BadArgs (requires_value opt)
        | v :: argv =>
            match atoi v with
            | None => Undefined
            | Some n => parse_loop argv (a <| cfg ::= fun c => c <| drop_type := n |> |>)
            end
        end
      else if decide (opt = "--delay-ms") then
        match argv with
        | [] => BadArgs (requires_value opt)
        | v :: argv =>
            match atoi v with
            | None => Undefined
            | Some n => parse_loop argv (a <| cfg ::= fun c => c <| delay_ms := n |> |>)
            end
        end
      else if decide (opt = "--corrupt") then
        match argv with
        | [] => BadArgs (requires_value opt)
        | v :: argv =>
            match atoi v with
            | None => Undefined
            | Some n => parse_loop argv (a <| cfg ::= fun c => c <| corrupt_every := n |> |>)
            end
        end
      else if decide (opt = "--log") then
        match argv with
        | [] => BadArgs (requires_value opt)
        | v :: argv => parse_loop argv (a <| log_path := v |>)
        end
      else BadArgs (unknown_option opt)
  end.

(** The loop and the check that the two paths come together. *)
Definition parse_args (argv : list string) : parsed Args :=
  match parse_loop argv default_args with
  | Parsed a =>
      if negb (bool_decide (left_path a = "" /\ right_path a = "")) &&
         bool_decide (left_path a = "" \/ right_path a = "")
      then BadArgs "error: --left and --right must be used together"
      else Parsed a
  | r => r
  end.

End Br.

(** ** safety_trace_user *)

Module Tr.

Record env := mkEnv { duration_sec : Z; report_dir : string; verbose : Z }.

Definition default_env : env := mkEnv 0 "reports" 0.

(** What the parser of the C library hands over, one call each. *)
Inductive argp_key := KeyDuration (arg : string) | KeyReportDir (arg : string) | KeyVerbose | KeyOther.

(** [argp_usage] prints and exits. *)
Inductive argp_result := ArgpOk (e : env) | ArgpUnknown | ArgpUsage (msg : string).

Definition parse_arg (key : argp_key) (e : env) : argp_result :=
  match key with
  | KeyDuration arg =>
      let r := strtol arg in
      if r.2 || (r.1 <? 0) then ArgpUsage ("Invalid --duration: " +:+ arg)
      else ArgpOk (mkEnv r.1 (report_dir e) (verbose e))
  | KeyReportDir arg => ArgpOk (mkEnv (duration_sec e) arg (verbose e))
  | KeyVerbose => ArgpOk (mkEnv (duration_sec e) (report_dir e) 1)
  | KeyOther => ArgpUnknown
  end.

End Tr.
