(* ===== verification/CliSpec.v ===== *)
(** * What the option parsers accept

    The three parsers of the C++ programs are instances of one table-driven
    parser ([run_table]); on it is shown what is accepted.  Numbers are read back
    from their decimal text. *)

From Stdlib Require Import Ascii DecimalString DecimalPos.
From Stdlib Require DecimalZ.
From S2P Require Import Prelude Supervisor Logger LoggerSpec Bridge Cli.

#[local] Arguments String.append !_ _ /.

(** ** Decimal text *)

(** The value of a list of decimal digits after the value [acc]. *)
Fixpoint uint_value (acc : Z) (d : Decimal.uint) : Z :=
  match d with
  | Decimal.Nil => acc
  | Decimal.D0 d => uint_value (10 * acc + 0) d
  | Decimal.D1 d => uint_value (10 * acc + 1) d
  | Decimal.D2 d => uint_value (10 * acc + 2) d
  | Decimal.D3 d => uint_value (10 * acc + 3) d
  | Decimal.D4 d => uint_value (10 * acc + 4) d
  | Decimal.D5 d => uint_value (10 * acc + 5) d
  | Decimal.D6 d => uint_value (10 * acc + 6) d
  | Decimal.D7 d => uint_value (10 * acc + 7) d
  | Decimal.D8 d => uint_value (10 * acc + 8) d
  | Decimal.D9 d => uint_value (10 * acc + 9) d
  end.

Lemma uint_value_acc d p : Z.pos (Pos.of_uint_acc d p) = uint_value (Z.pos p) d.
Proof. revert p. induction d; intros p; cbn [Pos.of_uint_acc uint_value]; [done|..]; rewrite IHd; f_equal; lia. Qed.

Lemma uint_value_of d : Z.of_uint d = uint_value 0 d.
Proof.
  unfold Z.of_uint. induction d; cbn [Pos.of_uint uint_value Z.of_N]; [done|exact IHd|..];
    rewrite uint_value_acc; done.
Qed.

(** What may follow the digits of a number. *)
Definition no_digit (s : string) : Prop :=
  match s with String c _ => is_digit c = false | EmptyString => True end.

Lemma digits_value_end acc s : no_digit s -> digits_value acc s = acc.
Proof. destruct s as [|c s]; [done|]. cbn. by intros ->. Qed.

Lemma digits_value_uint d acc rest :
  no_digit rest -> digits_value acc (NilEmpty.string_of_uint d +:+ rest) = uint_value acc d.
Proof.
  intros Hr. revert acc.
  induction d; intros acc; cbn [NilEmpty.string_of_uint String.append uint_value];
    [by apply digits_value_end|..]; rewrite <- IHd; done.
Qed.

Lemma nilzero_empty d : d <> Decimal.Nil -> NilZero.string_of_uint d = NilEmpty.string_of_uint d.
Proof. by destruct d. Qed.

(** The decimal text of a natural number has its value whatever follows, and
    starts with a digit. *)
Lemma to_string_digits n rest :
  0 <= n -> no_digit rest ->
  digits_value 0 (to_string n +:+ rest) = n /\
  exists c s, to_string n +:+ rest = String c s /\ is_digit c = true.
Proof.
  intros Hn Hr. destruct (to_int_nonnil n) as [Hp _].
  unfold to_string. destruct (Z.to_int n) as [d|d] eqn:E.
  - assert (d <> Decimal.Nil) as Hd by (intros ->; done). cbn [NilZero.string_of_int].
    pose proof (DecimalZ.of_to n) as Hv. rewrite E in Hv.
    split; [rewrite nilzero_empty, digits_value_uint, <- uint_value_of by done; exact Hv|].
    rewrite nilzero_empty by done. destruct d; [done|..]; cbn [NilEmpty.string_of_uint String.append]; eauto.
  - destruct n; cbn in E; try discriminate; lia.
Qed.

Lemma is_digit_not_space c : is_digit c = true -> is_space c = false.
Proof. destruct c as [[] [] [] [] [] [] [] []]; vm_compute; congruence. Qed.

Lemma is_digit_not_sign c : is_digit c = true -> c <> "-"%char /\ c <> "+"%char.
Proof. intros H; split; intros ->; discriminate H. Qed.

Lemma skip_space_app sp s : all_chars (fun c => is_space c = true) sp -> skip_space (sp +:+ s) = skip_space s.
Proof. induction sp as [|c sp IH]; [done|]. intros [H1 H2]. cbn. rewrite H1. auto. Qed.

(** A number with its sign. *)
Definition signed_text (neg : bool) (n : Z) : string := if neg then String "-" (to_string n) else to_string n.

(** White space, a number and any text that starts with no digit. *)
Lemma scan_number_text sp neg n rest :
  all_chars (fun c => is_space c = true) sp -> 0 <= n -> no_digit rest ->
  scan_number (sp +:+ signed_text neg n +:+ rest) = Some (neg, n).
Proof.
  intros Hsp Hn Hr. destruct (to_string_digits n rest Hn Hr) as (Hv & c & s & Hs & Hc).
  unfold scan_number. rewrite skip_space_app by done. unfold signed_text. destruct neg; cbn [String.append].
  - cbn [skip_space]. change (is_space "-") with false. cbn iota.
    destruct (ascii_dec "-" "-") as [_|]; [|done]. by rewrite Hs, Hc, <- Hs, Hv.
  - rewrite Hs. cbn [skip_space]. rewrite (is_digit_not_space c Hc).
    destruct (is_digit_not_sign c Hc) as [H1 H2].
    destruct (ascii_dec c "-"); [done|]. destruct (ascii_dec c "+"); [done|]. by rewrite Hc, <- Hs, Hv.
Qed.

(** What an [unsigned long] option is given. *)
Lemma stoul_text sp neg n rest :
  all_chars (fun c => is_space c = true) sp -> 0 <= n -> no_digit rest ->
  stoul (sp +:+ signed_text neg n +:+ rest) =
  if n >=? 2 ^ 64 then inl out_of_range else inr (if neg then u64 (- n) else n).
Proof. intros. unfold stoul. by rewrite scan_number_text. Qed.

Lemma str_nil_app s : ("" +:+ s)%string = s.
Proof. done. Qed.

Lemma stoul_to_string n : 0 <= n < 2 ^ 64 -> stoul (to_string n) = inr n.
Proof.
  intros Hn. pose proof (stoul_text "" false n "" I (proj1 Hn) I) as H.
  rewrite str_nil_app, str_app_nil in H. cbn [signed_text] in H. rewrite H.
  destruct (n >=? 2 ^ 64) eqn:E; [lia|done].
Qed.

Lemma atoi_to_string n : 0 <= n < 2 ^ 31 -> atoi (to_string n) = Some n.
Proof.
  intros Hn. pose proof (scan_number_text "" false n "" I (proj1 Hn) I) as H.
  rewrite str_nil_app, str_app_nil in H. cbn [signed_text] in H. unfold atoi. rewrite H.
  by rewrite (proj2 (Z.leb_le _ _)), (proj2 (Z.ltb_lt _ _)) by lia.
Qed.

Lemma scan_number_nonneg s neg m : scan_number s = Some (neg, m) -> 0 <= m.
Proof.
  assert (forall s acc, 0 <= acc -> 0 <= digits_value acc s) as Hd.
  { clear. induction s as [|c s IH]; intros acc Hacc; cbn; [done|].
    destruct (is_digit c) eqn:E; [|done]. apply IH.
    apply andb_prop in E as [?%Nat.leb_le _]. lia. }
  unfold scan_number. destruct (skip_space s) as [|c s']; [done|].
  destruct (ascii_dec c "-"); [|destruct (ascii_dec c "+")];
    [destruct s'; [done|]..|]; case_match; intros [= <- <-]; apply (Hd (String _ _) 0); lia.
Qed.

(** ** One parser for all *)

(** An option takes a value, which may not do, and changes the arguments. *)
Definition setter (A : Type) : Type := string -> option (string -> A -> parsed A).

Definition is_help (opt : string) : Prop := opt = "--help" \/ opt = "-h".

#[global] Instance is_help_dec opt : Decision (is_help opt).
Proof. unfold is_help. apply _. Defined.

Fixpoint run_table {A} (opts : setter A) (argv : list string) (a : A) : parsed A :=
  match argv with
  | [] => Parsed a
  | opt :: argv =>
      if decide (is_help opt) then WantHelp
      else
        match opts opt with
        | None => BadArgs (unknown_option opt)
        | Some set =>
            match argv with
            | [] => BadArgs (requires_value opt)
            | v :: argv => match set v a with Parsed a => run_table opts argv a | r => r end
            end
        end
  end.

(** The arguments a list of options with their values spells. *)
Definition spell (l : list (string * string)) : list string := concat ((fun o => [o.1; o.2]) <$> l).

(** One option after the other. *)
Fixpoint apply_options {A} (opts : setter A) (l : list (string * string)) (a : A) : option A :=
  match l with
  | [] => Some a
  | (opt, v) :: l =>
      match opts opt with
      | Some set => match set v a with Parsed a => apply_options opts l a | _ => None end
      | None => None
      end
  end.

Section Table.
Context {A : Type} (opts : setter A) (no_help : forall opt, is_help opt -> opts opt = None).

(** Accepted are exactly the vectors that spell options one after the other. *)
Lemma run_table_iff argv a b :
  run_table opts argv a = Parsed b <-> exists l, argv = spell l /\ apply_options opts l a = Some b.
Proof.
  split.
  - revert a. induction argv as [argv IH] using (induction_ltof1 _ length). intros a H.
    destruct argv as [|opt argv]; cbn [run_table] in H.
    { injection H as <-. by exists []. }
    destruct (decide (is_help opt)); [done|]. destruct (opts opt) as [set|] eqn:Eo; [|done].
    destruct argv as [|v argv]; [done|]. destruct (set v a) as [a'| | | |] eqn:Es; try done.
    destruct (IH argv) with (a := a') as (l & -> & Hl); [unfold ltof; cbn; lia|done|].
    exists ((opt, v) :: l). split; [done|]. cbn [apply_options]. by rewrite Eo, Es.
  - intros (l & -> & H). revert a H. induction l as [|[opt v] l IH]; intros a H; cbn in *.
    { by injection H as <-. }
    destruct (opts opt) as [set|] eqn:Eo; [|done]. rewrite decide_False.
    2: { intros Hh. by rewrite no_help in Eo. }
    destruct (set v a) as [a'| | | |] eqn:Es; try done. by apply IH.
Qed.

Lemma apply_options_app l1 l2 a :
  apply_options opts (l1 ++ l2) a = apply_options opts l1 a ≫= apply_options opts l2.
Proof.
  revert a. induction l1 as [|[opt v] l1 IH]; intros a; [done|]. cbn [app apply_options].
  destruct (opts opt) as [set|]; [|done]. destruct (set v a); try done; apply IH.
Qed.

End Table.

(** A value that is a number, and one that is text. *)
Definition set_ulong {A} (f : Z -> A -> A) (v : string) (a : A) : parsed A :=
  match stoul v with inl e => Uncaught e | inr n => Parsed (f (u32 n) a) end.
Definition set_int {A} (f : Z -> A -> A) (v : string) (a : A) : parsed A :=
  match atoi v with None => Undefined | Some n => Parsed (f n a) end.
Definition set_text {A} (f : string -> A -> A) (v : string) (a : A) : parsed A := Parsed (f v a).

(** ** The three tables *)

Definition sv_options : setter (Sv.Args * Z) := fun opt =>
  if decide (opt = "--device") then Some (set_text (fun v a => (a.1 <| Sv.device := v |>, a.2)))
  else if decide (opt = "--mock-device")
  then Some (set_text (fun v a => (a.1 <| Sv.mock_file := v |> <| Sv.mode := Sv.MOCK |>, a.2 + 1)))
  else if decide (opt = "--replay")
  then Some (set_text (fun v a => (a.1 <| Sv.replay_file := v |> <| Sv.mode := Sv.REPLAY |>, a.2 + 1)))
  else if decide (opt = "--report-dir") then Some (set_text (fun v a => (a.1 <| Sv.report_dir := v |>, a.2)))
  else if decide (opt = "--heartbeat-timeout-ms")
  then Some (set_ulong (fun n a => (a.1 <| Sv.hb_timeout_ms := n |>, a.2)))
  else if decide (opt = "--duration-ms")
  then Some (set_ulong (fun n a => (a.1 <| Sv.duration_ms := n |>, a.2)))
  else None.

Definition ld_options : setter Ld.Args := fun opt =>
  if decide (opt = "--uart") then Some (set_text (fun v a => a <| Ld.uart := v |>))
  else if decide (opt = "--device") then Some (set_text (fun v a => a <| Ld.device := v |>))
  else if decide (opt = "--report-dir") then Some (set_text (fun v a => a <| Ld.report_dir := v |>))
  else if decide (opt = "--duration-ms") then Some (set_ulong (fun n a => a <| Ld.duration_ms := n |>))
  else None.

Definition br_options : setter Br.Args := fun opt =>
  if decide (opt = "--left") then Some (set_text (fun v a => a <| Br.left_path := v |>))
  else if decide (opt = "--right") then Some (set_text (fun v a => a <| Br.right_path := v |>))
  else if decide (opt = "--left-name") then Some (set_text (fun v a => a <| Br.left_name_file := v |>))
  else if decide (opt = "--right-name") then Some (set_text (fun v a => a <| Br.right_name_file := v |>))
  else if decide (opt = "--drop")
  then Some (set_int (fun n a => a <| Br.cfg ::= fun c => c <| Bridge.drop_every := n |> |>))
  else if decide (opt = "--drop-type")
  then Some (set_int (fun n a => a <| Br.cfg ::= fun c => c <| Bridge.drop_type := n |> |>))
  else if decide (opt = "--delay-ms")
  then Some (set_int (fun n a => a <| Br.cfg ::= fun c => c <| Bridge.delay_ms := n |> |>))
  else if decide (opt = "--corrupt")
  then Some (set_int (fun n a => a <| Br.cfg ::= fun c => c <| Bridge.corrupt_every := n |> |>))
  else if decide (opt = "--log") then Some (set_text (fun v a => a <| Br.log_path := v |>))
  else None.

(** The check of [mode_count]. *)
Definition sv_check (r : parsed (Sv.Args * Z)) : parsed Sv.Args :=
  match r with
  | Parsed (a, n) =>
      if n >? 1 then BadArgs "error: --mock-device and --replay are mutually exclusive" else Parsed a
  | WantHelp => WantHelp | BadArgs m => BadArgs m | Uncaught e => Uncaught e | Undefined => Undefined
  end.

(** Each chain of tests against the table, one option at a time. *)
#[local] Ltac table_step argv IH :=
  repeat lazymatch goal with
  | |- context [decide (?x = ?y :> string)] =>
      destruct (decide (x = y)) as [->|];
      [try (destruct argv; [done|]; cbn [fst snd];
            unfold set_text, set_ulong, set_int; repeat case_match; try done;
            rewrite IH by (unfold ltof; cbn; lia); done)|]
  end; try done.

Lemma sv_parse_table argv a n : Sv.parse_loop argv a n = sv_check (run_table sv_options argv (a, n)).
Proof.
  revert a n. induction argv as [argv IH] using (induction_ltof1 _ length). intros a n.
  destruct argv as [|opt argv]; [done|]. cbn [Sv.parse_loop run_table]. unfold is_help.
  destruct (decide (opt = "--help" \/ opt = "-h")); [done|]. unfold sv_options at 1. table_step argv IH.
Qed.

Lemma ld_parse_table argv a : Ld.parse_loop argv a = run_table ld_options argv a.
Proof.
  revert a. induction argv as [argv IH] using (induction_ltof1 _ length). intros a.
  destruct argv as [|opt argv]; [done|]. cbn [Ld.parse_loop run_table]. unfold is_help.
  destruct (decide (opt = "--help" \/ opt = "-h")); [done|]. unfold ld_options at 1. table_step argv IH.
Qed.

Lemma br_parse_table argv a : Br.parse_loop argv a = run_table br_options argv a.
Proof.
  revert a. induction argv as [argv IH] using (induction_ltof1 _ length). intros a.
  destruct argv as [|opt argv]; [done|]. cbn [Br.parse_loop run_table]. unfold is_help.
  destruct (decide (opt = "--help" \/ opt = "-h")); [done|]. unfold br_options at 1. table_step argv IH.
Qed.

(** ** Help texts *)

(** The option a line of a help text describes, and the default it gives. *)
Definition option_of (line : string) : option string :=
  if String.prefix "  --" line then Some (until " " (String.substring 2 (String.length line) line)) else None.

Definition default_of (line : string) : option string :=
  i ← String.index 0 "(default " line; Some (until ")" (String.substring (i + 9) (String.length line) line)).

Definition options_listed (help : list string) : list string := omap option_of help.

Definition defaults_listed (help : list string) : list (string * string) :=
  omap (fun line => o ← option_of line; d ← default_of line; Some (o, d)) help.

(** A true help text: listed are exactly the options the parser knows, but for the
    short [-h], and giving an option the default it prints changes nothing. *)
Definition help_true {A} (help : list string) (parse : list string -> parsed A) : Prop :=
  (forall opt, opt ∈ options_listed help <-> opt <> "-h" /\ parse [opt] <> BadArgs (unknown_option opt)) /\
  (forall opt v, (opt, v) ∈ defaults_listed help -> parse [opt; v] = parse []).
