(* ===== verification/CliProps.v ===== *)
(** * Properties of the command lines *)

From S2P Require Import Prelude Supervisor Logger LoggerSpec Bridge Cli CliSpec.

#[local] Arguments stoul : simpl never.
#[local] Arguments atoi : simpl never.
#[local] Arguments to_string : simpl never.
#[local] Arguments u32 : simpl never.

(** ** Well-formed arguments *)

Definition is_int (x : Z) : Prop := - 2 ^ 31 <= x < 2 ^ 31.

Definition sv_args_ok (a : Sv.Args) : Prop :=
  is_u32 (Sv.hb_timeout_ms a) /\ is_u32 (Sv.duration_ms a) /\
  match Sv.mode a with
  | Sv.LIVE => Sv.mock_file a = "" /\ Sv.replay_file a = ""
  | Sv.MOCK => Sv.replay_file a = ""
  | Sv.REPLAY => Sv.mock_file a = ""
  end.

Definition ld_args_ok (a : Ld.Args) : Prop := is_u32 (Ld.duration_ms a).

Definition br_args_ok (a : Br.Args) : Prop :=
  is_int (drop_every (Br.cfg a)) /\ is_int (corrupt_every (Br.cfg a)) /\
  is_int (delay_ms (Br.cfg a)) /\ is_int (drop_type (Br.cfg a)) /\
  (Br.left_path a = "" <-> Br.right_path a = "").

(** ** A command line for every value *)

Definition sv_argv (a : Sv.Args) : list string :=
  match Sv.mode a with
  | Sv.LIVE => []
  | Sv.MOCK => ["--mock-device"; Sv.mock_file a]
  | Sv.REPLAY => ["--replay"; Sv.replay_file a]
  end ++
  ["--device"; Sv.device a; "--report-dir"; Sv.report_dir a;
   "--heartbeat-timeout-ms"; to_string (Sv.hb_timeout_ms a);
   "--duration-ms"; to_string (Sv.duration_ms a)].

Definition ld_argv (a : Ld.Args) : list string :=
  ["--uart"; Ld.uart a; "--device"; Ld.device a; "--report-dir"; Ld.report_dir a;
   "--duration-ms"; to_string (Ld.duration_ms a)].

Definition int_text (x : Z) : string := signed_text (x <? 0) (Z.abs x).

Definition br_argv (a : Br.Args) : list string :=
  ["--drop"; int_text (drop_every (Br.cfg a)); "--drop-type"; int_text (drop_type (Br.cfg a));
   "--delay-ms"; int_text (delay_ms (Br.cfg a)); "--corrupt"; int_text (corrupt_every (Br.cfg a));
   "--left"; Br.left_path a; "--right"; Br.right_path a;
   "--left-name"; Br.left_name_file a; "--right-name"; Br.right_name_file a; "--log"; Br.log_path a].

Lemma atoi_int_text x : is_int x -> atoi (int_text x) = Some x.
Proof.
  intros Hx. unfold atoi, int_text.
  pose proof (scan_number_text "" (x <? 0) (Z.abs x) "" I (Z.abs_nonneg x) I) as H.
  rewrite str_nil_app, str_app_nil in H. rewrite H. unfold is_int in Hx.
  replace (if x <? 0 then - Z.abs x else Z.abs x) with x by (destruct (x <? 0) eqn:E; lia).
  by rewrite (proj2 (Z.leb_le _ _)), (proj2 (Z.ltb_lt _ _)) by lia.
Qed.

Lemma atoi_range v x : atoi v = Some x -> is_int x.
Proof.
  unfold atoi, is_int. destruct (scan_number v) as [[neg m]|]; [|intros [= <-]; lia].
  destruct neg; case_match; intros [= <-]; lia.
Qed.

Lemma stoul_u32 n : is_u32 n -> stoul (to_string n) = inr n /\ u32 n = n.
Proof. intros Hn. cbn in Hn. split; [apply stoul_to_string; lia|by apply u32_small]. Qed.

(** An invariant of one option after the other. *)
Lemma apply_options_inv {A} (opts : setter A) (P : A -> Prop) :
  (forall opt set v a b, opts opt = Some set -> P a -> set v a = Parsed b -> P b) ->
  forall l a b, P a -> apply_options opts l a = Some b -> P b.
Proof.
  intros Hstep. induction l as [|[opt v] l IH]; intros a b Ha H; cbn in H; [by injection H as <-|].
  destruct (opts opt) as [set|] eqn:Eo; [|done]. destruct (set v a) as [a'| | | |] eqn:Es; try done.
  eapply IH, H. by eapply Hstep.
Qed.

(** What holds during the loop of the supervisor, with [mode_count]. *)
Definition sv_loop_ok (p : Sv.Args * Z) : Prop :=
  is_u32 (Sv.hb_timeout_ms p.1) /\ is_u32 (Sv.duration_ms p.1) /\ 0 <= p.2 /\
  (p.2 = 0 -> Sv.mode p.1 = Sv.LIVE /\ Sv.mock_file p.1 = "" /\ Sv.replay_file p.1 = "") /\
  (p.2 = 1 -> (Sv.mode p.1 = Sv.MOCK /\ Sv.replay_file p.1 = "") \/
              (Sv.mode p.1 = Sv.REPLAY /\ Sv.mock_file p.1 = "")).

#[local] Ltac each_option :=
  repeat lazymatch goal with
  | |- (if decide ?c then _ else _) = Some _ -> _ => destruct (decide c) as [->|]
  end; try discriminate; intros [= <-]; unfold set_text, set_ulong, set_int.

Lemma sv_options_ok opt set v a b :
  sv_options opt = Some set -> sv_loop_ok a -> set v a = Parsed b -> sv_loop_ok b.
Proof.
  unfold sv_options. each_option; intros (H1 & H2 & H3 & H4 & H5); repeat case_match; intros [= <-];
    unfold sv_loop_ok; cbn [fst snd]; destruct a as [[] cnt]; cbn in *;
    pose proof (u32_range z) as Hu || idtac; cbn in *; intuition (lia || congruence || eauto).
  all: destruct H4 as (_ & -> & ->); [lia|auto].
Qed.

Lemma ld_options_ok opt set v a b :
  ld_options opt = Some set -> ld_args_ok a -> set v a = Parsed b -> ld_args_ok b.
Proof.
  unfold ld_options. each_option; intros H; repeat case_match; intros [= <-]; try exact H.
  apply u32_range.
Qed.

Definition br_loop_ok (a : Br.Args) : Prop :=
  is_int (drop_every (Br.cfg a)) /\ is_int (corrupt_every (Br.cfg a)) /\
  is_int (delay_ms (Br.cfg a)) /\ is_int (drop_type (Br.cfg a)).

Lemma br_options_ok opt set v a b :
  br_options opt = Some set -> br_loop_ok a -> set v a = Parsed b -> br_loop_ok b.
Proof.
  unfold br_options. each_option; intros (H1 & H2 & H3 & H4); repeat case_match; intros [= <-];
    unfold br_loop_ok; cbn; eauto 8 using atoi_range.
Qed.

(** ** The three parsers *)

Lemma no_help_sv opt : is_help opt -> sv_options opt = None.
Proof. by intros [-> | ->]. Qed.
Lemma no_help_ld opt : is_help opt -> ld_options opt = None.
Proof. by intros [-> | ->]. Qed.
Lemma no_help_br opt : is_help opt -> br_options opt = None.
Proof. by intros [-> | ->]. Qed.

(** A vector is accepted when it spells options, at most one of them a mode. *)
Lemma sv_parse_iff argv a :
  Sv.parse_args argv = Parsed a <->
  exists l n, argv = spell l /\ apply_options sv_options l (Sv.default_args, 0) = Some (a, n) /\ n <= 1.
Proof.
  unfold Sv.parse_args. rewrite sv_parse_table. split.
  - intros H. destruct (run_table _ _ _) as [[a' n]| | | |] eqn:E; cbn in H; try done.
    apply (run_table_iff _ no_help_sv) in E as (l & -> & Hl). destruct (n >? 1) eqn:En; [done|].
    injection H as ->. exists l, n. split; [done|]. split; [done|lia].
  - intros (l & n & -> & Hl & Hn).
    rewrite (proj2 (run_table_iff _ no_help_sv (spell l) _ (a, n))) by eauto. cbn.
    destruct (n >? 1) eqn:En; [lia|done].
Qed.

Lemma sv_parse_ok argv a : Sv.parse_args argv = Parsed a -> sv_args_ok a.
Proof.
  intros (l & n & -> & Hl & Hn)%sv_parse_iff.
  apply (apply_options_inv _ sv_loop_ok sv_options_ok) in Hl as (H1 & H2 & H3 & H4 & H5).
  2: { repeat split; cbn; lia || done. }
  cbn [fst snd] in *. split; [done|]. split; [done|].
  assert (n = 0 \/ n = 1) as [-> | ->] by lia.
  - destruct H4 as (-> & H4); done.
  - by destruct H5 as [(-> & H5) | (-> & H5)].
Qed.

Lemma ld_parse_ok argv a : Ld.parse_args argv = Parsed a -> ld_args_ok a.
Proof.
  unfold Ld.parse_args. rewrite ld_parse_table. intros (l & -> & Hl)%(run_table_iff _ no_help_ld).
  eapply (apply_options_inv _ ld_args_ok ld_options_ok), Hl. unfold ld_args_ok. cbn. lia.
Qed.

Lemma br_parse_ok argv a : Br.parse_args argv = Parsed a -> br_args_ok a.
Proof.
  unfold Br.parse_args. rewrite br_parse_table.
  destruct (run_table _ _ _) as [a'| | | |] eqn:E; try done.
  apply (run_table_iff _ no_help_br) in E as (l & -> & Hl).
  apply (apply_options_inv _ br_loop_ok br_options_ok) in Hl as (H1 & H2 & H3 & H4).
  2: { repeat split; cbn; lia. }
  intros H. case_match eqn:Et; [done|]. injection H as ->. do 4 (split; [done|]).
  destruct (decide (Br.left_path a = "")), (decide (Br.right_path a = "")); try done;
    try tauto; exfalso; revert Et; rewrite bool_decide_eq_false_2, bool_decide_eq_true_2 by tauto; done.
Qed.

(** Options looked up in a table. *)
#[local] Ltac look_up t :=
  cbn [apply_options]; unfold t;
  repeat first [rewrite decide_True by done | rewrite decide_False by done]; cbn;
  unfold set_ulong, set_int.

Lemma sv_parse_argv a : sv_args_ok a -> Sv.parse_args (sv_argv a) = Parsed a.
Proof.
  destruct a as [m dv mf rf rd hb du]. intros (H1 & H2 & H3). cbn in H1, H2, H3.
  destruct (stoul_u32 hb H1) as [Eh Uh], (stoul_u32 du H2) as [Ed Ud].
  apply sv_parse_iff.
  exists (match m with Sv.LIVE => [] | Sv.MOCK => [("--mock-device", mf)] | Sv.REPLAY => [("--replay", rf)] end ++
          [("--device", dv); ("--report-dir", rd); ("--heartbeat-timeout-ms", to_string hb);
           ("--duration-ms", to_string du)]), (if decide (m = Sv.LIVE) then 0 else 1).
  split; [by destruct m|]. split; [|by destruct m].
  destruct m; cbn [app]; look_up sv_options; rewrite Eh; cbn; rewrite Ed; cbn; rewrite Uh, Ud; cbn.
  - by destruct H3 as [-> ->].
  - by rewrite H3.
  - by rewrite H3.
Qed.

Lemma ld_parse_argv a : ld_args_ok a -> Ld.parse_args (ld_argv a) = Parsed a.
Proof.
  destruct a as [u dv rd du]. intros H. destruct (stoul_u32 du H) as [Ed Ud].
  unfold Ld.parse_args. rewrite ld_parse_table. apply (run_table_iff _ no_help_ld).
  exists [("--uart", u); ("--device", dv); ("--report-dir", rd); ("--duration-ms", to_string du)].
  split; [done|]. look_up ld_options. rewrite Ed. cbn. by rewrite Ud.
Qed.

Lemma br_parse_argv a : br_args_ok a -> Br.parse_args (br_argv a) = Parsed a.
Proof.
  destruct a as [[de ce dl dt] lg lp rp ln rn]. intros (H1 & H2 & H3 & H4 & H5). cbn in H1, H2, H3, H4, H5.
  unfold Br.parse_args. rewrite br_parse_table.
  rewrite (proj2 (run_table_iff _ no_help_br _ _ (Br.mkArgs (mkInjector de ce dl dt) lg lp rp ln rn))).
  - cbn [Br.left_path Br.right_path]. case_match eqn:Et; [|done].
    apply andb_prop in Et as [E1%negb_true_iff%bool_decide_eq_false_1 E2%bool_decide_eq_true_1]. tauto.
  - exists [("--drop", int_text de); ("--drop-type", int_text dt); ("--delay-ms", int_text dl);
            ("--corrupt", int_text ce); ("--left", lp); ("--right", rp); ("--left-name", ln);
            ("--right-name", rn); ("--log", lg)].
    split; [done|]. look_up br_options.
    rewrite (atoi_int_text de) by done. cbn. rewrite (atoi_int_text dt) by done. cbn.
    rewrite (atoi_int_text dl) by done. cbn. by rewrite (atoi_int_text ce) by done.
Qed.

(** ** Help texts *)

(** An option is known when a value is missing behind it. *)
#[local] Ltac known_options :=
  split;
  [ intros H; repeat (apply elem_of_cons in H as [->|H]; [by split|]); by apply elem_of_nil in H
  | intros [Hh Hk]; repeat case_decide; destruct_or?; subst;
    first [by apply (bool_decide_unpack _) | by destruct Hh | by destruct Hk] ].

Lemma sv_help_true prog : help_true (Sv.print_help prog) Sv.parse_args.
Proof.
  split.
  - intros opt. change (options_listed _) with
      ["--device"; "--mock-device"; "--replay"; "--report-dir"; "--heartbeat-timeout-ms"; "--duration-ms"; "--help"].
    unfold Sv.parse_args. cbn [Sv.parse_loop]. known_options.
  - change (defaults_listed _) with
      [("--device", "/dev/safety_copro"); ("--report-dir", "reports"); ("--heartbeat-timeout-ms", "350")].
    intros opt v H. repeat (apply elem_of_cons in H as [[= -> ->]|H]; [by vm_compute|]). by apply elem_of_nil in H.
Qed.

Lemma ld_help_true prog : help_true (Ld.print_help prog) Ld.parse_args.
Proof.
  split.
  - intros opt. change (options_listed _) with ["--uart"; "--device"; "--report-dir"; "--duration-ms"; "--help"].
    unfold Ld.parse_args. cbn [Ld.parse_loop]. known_options.
  - change (defaults_listed _) with
      [("--uart", "/dev/ttyAMA1"); ("--device", "/dev/safety_copro"); ("--report-dir", "reports")].
    intros opt v H. repeat (apply elem_of_cons in H as [[= -> ->]|H]; [by vm_compute|]). by apply elem_of_nil in H.
Qed.

Lemma br_help_true prog : help_true (Br.print_help prog) Br.parse_args.
Proof.
  split.
  - intros opt. change (options_listed _) with
      ["--left"; "--right"; "--left-name"; "--right-name"; "--drop"; "--drop-type"; "--delay-ms"; "--corrupt";
       "--log"; "--help"].
    unfold Br.parse_args. cbn [Br.parse_loop]. known_options.
  - change (defaults_listed _) with (@nil (string * string)). by intros opt v ?%elem_of_nil.
Qed.

Module Props.

(** C32. What a program accepts is well formed, and every well-formed value has a
    command line that is read back as it: the supervisor, the link daemon and
    the bridge.  Their help texts are true: they list exactly the options the
    parser knows, and giving an option the default printed there changes nothing. *)
Theorem args_well_formed :
  ((forall argv a, Sv.parse_args argv = Parsed a -> sv_args_ok a) /\
   (forall a, sv_args_ok a -> Sv.parse_args (sv_argv a) = Parsed a)) /\
  ((forall argv a, Ld.parse_args argv = Parsed a -> ld_args_ok a) /\
   (forall a, ld_args_ok a -> Ld.parse_args (ld_argv a) = Parsed a)) /\
  ((forall argv a, Br.parse_args argv = Parsed a -> br_args_ok a) /\
   (forall a, br_args_ok a -> Br.parse_args (br_argv a) = Parsed a)) /\
  (forall prog, help_true (Sv.print_help prog) Sv.parse_args /\ help_true (Ld.print_help prog) Ld.parse_args /\
                help_true (Br.print_help prog) Br.parse_args).
Proof.
  split; [|split; [|split; [|auto using sv_help_true, ld_help_true, br_help_true]]]; split; eauto using sv_parse_ok, sv_parse_argv, ld_parse_ok, ld_parse_argv, br_parse_ok,
    br_parse_argv.
Qed.

(** The bridge between two given serial lines that drops every third frame of
    type 1. *)
Lemma args_well_formed_witness :
  let a := Br.mkArgs (mkInjector 3 0 0 1) "" "/dev/ttyS0" "/dev/ttyS1" "" "" in
  br_args_ok a /\ Br.parse_args (br_argv a) = Parsed a /\
  Br.parse_args (br_argv a) = Br.parse_args
    ["--drop"; "3"; "--drop-type"; "1"; "--left"; "/dev/ttyS0"; "--right"; "/dev/ttyS1"].
Proof.
  assert (br_args_ok (Br.mkArgs (mkInjector 3 0 0 1) "" "/dev/ttyS0" "/dev/ttyS1" "" "")) as Hok.
  { unfold br_args_ok, is_int. cbn. repeat split; try lia; intros; discriminate. }
  split; [exact Hok|]. destruct args_well_formed as (_ & _ & (_ & Hb) & _).
  split; [exact (Hb _ Hok)|vm_compute; reflexivity].
Defined.

End Props.
