(* ===== verification/SupervisorTimer.v ===== *)
(** * Supervisor: the clock of the event loop

    [EventLoop::run] of [userspace/safety-supervisord/event_loop.cpp] with its
    waits and its duration, around the dispatch of [SupervisorLoop], and the
    heartbeat timer as the kernel sees it. *)

From S2P Require Import Prelude Protocol Supervisor SupervisorLoop Logger LoggerSpec Cli CliSpec.

(** ** The heartbeat timer *)

Record itimerspec := mkIts { tv_sec : Z; tv_nsec : Z }.

(** The [it_value] of [arm_heartbeat_timer]. *)
Definition heartbeat_its (hb_timeout_ms : Z) : itimerspec :=
  mkIts (hb_timeout_ms / 1000) (hb_timeout_ms mod 1000 * 1000000).

(** [timerfd_settime] with a relative [it_value] at a time in nanoseconds: when
    the timer expires; a zero [it_value] disarms it. *)
Definition timerfd_settime (now_ns : Z) (its : itimerspec) : option Z :=
  if (tv_sec its =? 0) && (tv_nsec its =? 0) then None
  else Some (now_ns + tv_sec its * 1000000000 + tv_nsec its).

(** ** The loop *)

(** Conversion to [int]. *)
Definition int32 (x : Z) : Z := (x + 2 ^ 31) mod 2 ^ 32 - 2 ^ 31.

(** The timeout given to [epoll_wait]; [None]: the duration is over. *)
Definition wait_timeout (duration_ms elapsed : Z) : option Z :=
  if duration_ms >? 0 then
    if elapsed >=? duration_ms then None
    else
      let remaining := int32 (duration_ms - elapsed) in
      Some (if remaining <? 200 then remaining else 200)
  else Some 200.

(** What [epoll_wait] returns: [EINTR], another error, or events. *)
Inductive epoll_result := EpIntr | EpError | EpEvents (es : list loop_event).

(** One round: the value of [running], the clock at its top and what
    [epoll_wait] returns in it. *)
Record loop_round := mkRound { rd_running : bool; rd_now : Z; rd_epoll : epoll_result }.

Inductive loop_end := LoopStopped | LoopElapsed | LoopFailed | LoopRunning.

#[global] Instance loop_end_eq_dec : EqDecision loop_end.
Proof. solve_decision. Defined.

Section Timed.
Context {E : SvEnv}.

(** [EventLoop::run]; [LoopRunning] when the given rounds are used up. *)
Fixpoint loop_timed (duration_ms start : Z) (rounds : list loop_round) : prog sv loop_end :=
  match rounds with
  | [] => mret LoopRunning
  | r :: rounds =>
      if negb (rd_running r) then mret LoopStopped
      else
        match wait_timeout duration_ms (rd_now r - start) with
        | None => mret LoopElapsed
        | Some _ =>
            match rd_epoll r with
            | EpIntr => loop_timed duration_ms start rounds
            | EpError => mret LoopFailed
            | EpEvents es => _ ← loop_run es; loop_timed duration_ms start rounds
            end
        end
  end.

End Timed.

(** ** Timeouts *)

Lemma int32_small x : - 2 ^ 31 <= x < 2 ^ 31 -> int32 x = x.
Proof. intros H. unfold int32. rewrite Z.mod_small; lia. Qed.

Lemma int32_wrap x : 2 ^ 31 <= x < 2 ^ 32 -> int32 x = x - 2 ^ 32.
Proof.
  intros H. unfold int32. replace (x + 2 ^ 31) with ((x - 2 ^ 31) + 1 * 2 ^ 32) by lia.
  rewrite Z_mod_plus_full, Z.mod_small; lia.
Qed.

Lemma wait_timeout_short duration elapsed :
  0 < duration -> elapsed < duration -> duration - elapsed < 2 ^ 31 ->
  wait_timeout duration elapsed = Some (Z.min 200 (duration - elapsed)).
Proof.
  intros Hd He Hs. unfold wait_timeout. rewrite (proj2 (Z.gtb_lt _ _)) by lia.
  destruct (elapsed >=? duration) eqn:Eg; [lia|]. rewrite int32_small by lia.
  f_equal. destruct (_ <? 200) eqn:El; lia.
Qed.

(** Both ends of the arithmetic of [arm_heartbeat_timer]. *)
Lemma heartbeat_expiry now hb :
  0 <= hb ->
  0 <= tv_nsec (heartbeat_its hb) < 1000000000 /\
  timerfd_settime now (heartbeat_its hb) = if hb =? 0 then None else Some (now + hb * 1000000).
Proof.
  intros Hb. pose proof (Z.mod_pos_bound hb 1000 ltac:(lia)). pose proof (Z.div_mod hb 1000 ltac:(lia)).
  assert (0 <= hb / 1000) by (apply Z.div_pos; lia).
  unfold timerfd_settime, heartbeat_its. cbn [tv_sec tv_nsec]. split; [lia|].
  destruct (hb =? 0) eqn:E0.
  - apply Z.eqb_eq in E0 as ->. done.
  - case_match eqn:Ez; [lia|]. f_equal. lia.
Qed.

(** ** The loop as a prefix of its rounds *)

Section TimedSpec.
Context {E : SvEnv}.

(** The rounds [EventLoop::run] goes through, and how it ends. *)
Fixpoint rounds_done (duration start : Z) (rounds : list loop_round) : list loop_round * loop_end :=
  match rounds with
  | [] => ([], LoopRunning)
  | r :: rounds =>
      if negb (rd_running r) then ([], LoopStopped)
      else if (0 <? duration) && (duration <=? rd_now r - start) then ([], LoopElapsed)
      else
        match rd_epoll r with
        | EpError => ([], LoopFailed)
        | _ => let d := rounds_done duration start rounds in (r :: d.1, d.2)
        end
  end.

Definition round_events (r : loop_round) : list loop_event :=
  match rd_epoll r with EpEvents es => es | _ => [] end.

Lemma run_loop_app es1 es2 (s : sv) :
  (run (loop_run (es1 ++ es2)) s).2 = (run (loop_run es2) (run (loop_run es1) s).2).2.
Proof.
  revert s. induction es1 as [|e es1 IH]; intros s; [done|]. cbn [app loop_run].
  rewrite !run_bind. apply IH.
Qed.

Lemma loop_timed_run duration start rounds (s : sv) :
  run (loop_timed duration start rounds) s =
  ((rounds_done duration start rounds).2,
   (run (loop_run (concat (round_events <$> (rounds_done duration start rounds).1))) s).2).
Proof.
  revert s. induction rounds as [|r rounds IH]; intros s; [done|]. cbn [loop_timed rounds_done].
  destruct (rd_running r); cbn [negb]; [|done].
  assert (wait_timeout duration (rd_now r - start) = None <->
          (0 <? duration) && (duration <=? rd_now r - start) = true) as Hw.
  { unfold wait_timeout. rewrite andb_true_iff, Z.ltb_lt, Z.leb_le.
    destruct (duration >? 0) eqn:Ed; [destruct (_ >=? _) eqn:Ee|]; (split; [|intros]); (done || lia). }
  destruct Hw as [Hw1 Hw2].
  destruct (_ && _); destruct (wait_timeout _ _) as [t|];
    [discriminate (Hw2 eq_refl)|done| |discriminate (Hw1 eq_refl)].
  destruct (rd_epoll r) as [| |es] eqn:Er; [|done|].
  - rewrite IH. cbn [fst snd fmap list_fmap concat]. unfold round_events. by rewrite Er.
  - rewrite run_bind, IH. cbn [fst snd fmap list_fmap concat]. unfold round_events.
    by rewrite Er, run_loop_app.
Qed.

(** A wait that brings nothing. *)
Definition quiet (r : loop_round) : Prop := rd_epoll r = EpEvents [].

#[global] Instance loop_event_eq_dec : EqDecision loop_event.
Proof. solve_decision. Defined.
#[global] Instance epoll_result_eq_dec : EqDecision epoll_result.
Proof. solve_decision. Defined.
#[global] Instance quiet_dec r : Decision (quiet r).
Proof. unfold quiet. apply _. Defined.

(** The clock does not run backwards, and a wait that brings nothing lasts for
    its timeout. *)
Fixpoint clock_ok (duration start : Z) (rounds : list loop_round) : Prop :=
  match rounds with
  | r :: (r' :: _) as rest =>
      rd_now r <= rd_now r' /\
      (quiet r -> forall t, wait_timeout duration (rd_now r - start) = Some t -> rd_now r + t <= rd_now r') /\
      clock_ok duration start rest
  | _ => True
  end.

Definition quiet_count (rounds : list loop_round) : Z := Z.of_nat (length (filter quiet rounds)).

Lemma quiet_cons r rounds : quiet_count (r :: rounds) = (if decide (quiet r) then 1 else 0) + quiet_count rounds.
Proof. unfold quiet_count. rewrite filter_cons. destruct (decide (quiet r)); cbn [length]; lia. Qed.

(** With enough waits that bring nothing the loop ends: the time left is used up
    200 milliseconds at a time. *)
Lemma rounds_end duration start r rounds :
  0 < duration < 2 ^ 31 -> start <= rd_now r -> clock_ok duration start (r :: rounds) ->
  Z.max 0 (duration - (rd_now r - start)) <= 200 * (quiet_count (r :: rounds) - 1) ->
  (rounds_done duration start (r :: rounds)).2 <> LoopRunning.
Proof.
  intros Hd. revert r. induction rounds as [|r' rounds IH]; intros r Hs Hc Hq.
  - cbn [rounds_done]. destruct (negb _); [done|]. rewrite quiet_cons in Hq. unfold quiet_count in Hq. cbn in Hq.
    assert (duration <= rd_now r - start) as Hle by (destruct (decide (quiet r)); lia).
    rewrite (proj2 (Z.ltb_lt _ _)), (proj2 (Z.leb_le _ _)) by lia. done.
  - remember (r' :: rounds) as rest eqn:Erest. cbn [rounds_done].
    destruct (negb _); [done|]. rewrite (proj2 (Z.ltb_lt _ _)) by lia. cbn [andb].
    destruct (duration <=? rd_now r - start) eqn:Ee; [done|].
    rewrite quiet_cons in Hq. subst rest. destruct Hc as (Hmono & Hquiet & Hc).
    assert ((rounds_done duration start (r' :: rounds)).2 <> LoopRunning) as Hend.
    { apply IH; [lia|done|]. destruct (decide (quiet r)) as [Hr|Hr]; [|lia].
      specialize (Hquiet Hr _ (wait_timeout_short duration (rd_now r - start) ltac:(lia) ltac:(lia) ltac:(lia))).
      lia. }
    destruct (rd_epoll r); [exact Hend|done|exact Hend].
Qed.

End TimedSpec.
