(* ===== verification/TimerProps.v ===== *)
(** * Properties of the event loop's clock and of the options that set it *)

From S2P Require Import Prelude Protocol Supervisor SupervisorLoop Logger LoggerSpec Cli CliSpec SupervisorTimer.

(** ** Rounds *)

Section Rounds.
Context {E : SvEnv}.

(** What ends the loop in a round: it was told to stop, the duration is over, or
    [epoll_wait] failed. *)
Definition ends_in (duration start : Z) (r : loop_round) (e : loop_end) : Prop :=
  match e with
  | LoopStopped => rd_running r = false
  | LoopElapsed => rd_running r = true /\ duration <= rd_now r - start
  | LoopFailed => rd_running r = true /\ rd_now r - start < duration /\ rd_epoll r = EpError
  | LoopRunning => False
  end.

(** The rounds gone through, and the one in which the loop ends. *)
Lemma rounds_done_stop duration start rounds :
  0 < duration -> (rounds_done duration start rounds).2 <> LoopRunning ->
  exists stop rest, rounds = (rounds_done duration start rounds).1 ++ stop :: rest /\
    ends_in duration start stop (rounds_done duration start rounds).2.
Proof.
  intros Hd. induction rounds as [|r rounds IH]; cbn [rounds_done]; [done|].
  destruct (rd_running r) eqn:Er; cbn [negb]; [|by exists r, rounds].
  rewrite (proj2 (Z.ltb_lt _ _)) by done. cbn [andb].
  destruct (duration <=? rd_now r - start) eqn:Et; [exists r, rounds; cbn; split_and!; (done || lia)|].
  destruct (rd_epoll r) eqn:Ep; cbn [fst snd].
  - intros (stop & rest & H & He)%IH. exists stop, rest. split; [by rewrite H at 1|done].
  - intros _. exists r, rounds. cbn. split_and!; (done || lia).
  - intros (stop & rest & H & He)%IH. exists stop, rest. split; [by rewrite H at 1|done].
Qed.

(** In every round the loop goes through it was told to run and had time left. *)
Lemma rounds_done_time duration start rounds :
  0 < duration ->
  Forall (fun r => rd_running r = true /\ rd_now r - start < duration /\ rd_epoll r <> EpError)
    (rounds_done duration start rounds).1.
Proof.
  intros Hd. induction rounds as [|r rounds IH]; cbn [rounds_done]; [constructor|].
  destruct (rd_running r) eqn:Er; cbn [negb]; [|constructor].
  destruct (_ && _) eqn:Et; [constructor|]. apply andb_false_iff in Et.
  destruct (rd_epoll r) eqn:Ep; cbn [fst]; [|constructor|]; constructor; try done; rewrite Ep; split_and!; (done || lia).
Qed.

(** The clock never shows a time before the start. *)
Lemma clock_after duration start r rounds :
  start <= rd_now r -> clock_ok duration start (r :: rounds) -> Forall (fun r => start <= rd_now r) (r :: rounds).
Proof.
  revert r. induction rounds as [|r' rounds IH]; intros r Hs Hc; [by constructor|].
  destruct Hc as (Hm & _ & Hc). constructor; [done|]. apply IH; [lia|done].
Qed.

End Rounds.

(** The reduction to 32 bits does not see the 64-bit negation. *)
Lemma u32_negate n : u32 (u64 (- n)) = u32 (- n).
Proof. unfold u32, u64. apply Z.mod_mod_divide. by exists (2 ^ 32). Qed.

Lemma u32_neg_zero n : (u32 (- n) =? 0) = (n mod 2 ^ 32 =? 0).
Proof.
  unfold u32. destruct (Z.eq_dec (n mod 2 ^ 32) 0) as [E|E].
  - by rewrite Z_mod_zero_opp_full, E.
  - rewrite Z_mod_nz_opp_full by done. pose proof (Z.mod_pos_bound n (2 ^ 32) ltac:(lia)). lia.
Qed.

Module Props.

(** C33. With a duration below 2^31 ms the event loop ends when it should: enough
    waits that bring nothing use the time up; it ends in the first round in which
    it is told to stop, the clock shows that the duration is over, or
    [epoll_wait] fails, and returns which; no earlier wait is longer than 200 ms
    or reaches past the duration; and exactly the events of the rounds before are
    handled, in order. *)
Theorem event_loop_duration `{E : SvEnv} (duration start : Z) (r : loop_round) (rounds : list loop_round) (s : sv) :
  0 < duration < 2 ^ 31 -> start <= rd_now r -> clock_ok duration start (r :: rounds) ->
  duration <= 200 * (quiet_count (r :: rounds) - 1) ->
  let out := run (loop_timed duration start (r :: rounds)) s in
  out.1 <> LoopRunning /\
  exists done stop rest,
    r :: rounds = done ++ stop :: rest /\ ends_in duration start stop out.1 /\
    Forall (fun r => rd_running r = true /\ rd_now r - start < duration /\ rd_epoll r <> EpError /\
                     exists t, wait_timeout duration (rd_now r - start) = Some t /\ 1 <= t <= 200 /\
                               rd_now r - start + t <= duration) done /\
    out.2 = (run (loop_run (concat (round_events <$> done))) s).2.
Proof.
  intros Hd Hs Hc Hq. cbn zeta. rewrite loop_timed_run. cbn [fst snd].
  assert ((rounds_done duration start (r :: rounds)).2 <> LoopRunning) as Hend by (apply rounds_end; [done..|lia]).
  split; [exact Hend|].
  destruct (rounds_done_stop duration start (r :: rounds) ltac:(lia) Hend) as (stop & rest & Hrest & Hstop).
  exists (rounds_done duration start (r :: rounds)).1, stop, rest. do 2 (split; [done|]). split; [|done].
  pose proof (clock_after duration start r rounds Hs Hc) as Ha. rewrite Hrest in Ha.
  apply Forall_app in Ha as [Ha _].
  pose proof (rounds_done_time duration start (r :: rounds) ltac:(lia)) as Ht.
  eapply Forall_impl; [apply Forall_and; split; [exact Ha|exact Ht]|].
  intros x (Hx & Hrun & Hlt & Hep). do 3 (split; [done|]). rewrite wait_timeout_short by lia.
  eexists. split; [reflexivity|]. lia.
Qed.

(** C34. The text of [--heartbeat-timeout-ms] is read as a 64-bit number, with
    its sign and whatever follows it, and cut to 32 bits: a number of 2^64 or
    more terminates the daemon, and the armed timer expires after that many
    milliseconds, never when the number is a multiple of 2^32. *)
Theorem heartbeat_option (sp rest : string) (neg : bool) (n now : Z) :
  all_chars (fun c => is_space c = true) sp -> 0 <= n -> no_digit rest ->
  let hb := u32 (if neg then - n else n) in
  Sv.main_dispatch ["--heartbeat-timeout-ms"; sp +:+ signed_text neg n +:+ rest] =
    (if n >=? 2 ^ 64 then Sv.Terminate else Sv.RunLive (Sv.default_args <| Sv.hb_timeout_ms := hb |>)) /\
  0 <= tv_nsec (heartbeat_its hb) < 1000000000 /\
  timerfd_settime now (heartbeat_its hb) =
    if n mod 2 ^ 32 =? 0 then None else Some (now + hb * 1000000).
Proof.
  intros Hsp Hn Hr. cbn zeta. split.
  - unfold Sv.main_dispatch, Sv.parse_args. cbn [Sv.parse_loop].
    repeat first [rewrite decide_True by done | rewrite decide_False by (done || by intros [|])].
    rewrite stoul_text by done. destruct (n >=? 2 ^ 64); [done|]. cbn.
    destruct neg; [by rewrite u32_negate|done].
  - destruct (heartbeat_expiry now (u32 (if neg then - n else n))) as [H1 H2].
    { destruct (u32_range (if neg then - n else n)) as [H _]. exact H. }
    split; [exact H1|]. rewrite H2. destruct neg; [by rewrite u32_neg_zero|done].
Qed.

(** The duration of the option in 32 bits is an [int] for [epoll_wait]: from
    2^31 ms on the first wait has a negative timeout, which is no timeout. *)
Lemma long_duration_blocks duration :
  2 ^ 31 <= duration < 2 ^ 32 -> wait_timeout duration 0 = Some (duration - 2 ^ 32).
Proof.
  intros H. unfold wait_timeout. rewrite (proj2 (Z.gtb_lt _ _)) by lia.
  replace (0 >=? duration) with false by lia. rewrite Z.sub_0_r, int32_wrap by lia.
  f_equal. destruct (_ <? 200) eqn:El; lia.
Qed.

#[local] Instance timer_env : SvEnv :=
  {| steady_now_ms := fun n => Z.of_nat n; device_write_ok := fun _ => true; heartbeat_timeout_ms := 350 |}.

(** Three silent waits use up 400 ms. *)
Lemma event_loop_duration_witness :
  let rounds := [mkRound true 1200 (EpEvents []); mkRound true 1400 EpIntr; mkRound true 1400 (EpEvents [])] in
  clock_ok 400 1000 (mkRound true 1000 (EpEvents []) :: rounds) /\
  (run (loop_timed 400 1000 (mkRound true 1000 (EpEvents []) :: rounds)) sv_start).1 <> LoopRunning.
Proof.
  assert (clock_ok 400 1000 (mkRound true 1000 (EpEvents []) ::
            [mkRound true 1200 (EpEvents []); mkRound true 1400 EpIntr; mkRound true 1400 (EpEvents [])])) as Hc.
  { cbn. split_and!; try lia; intros H t Ht; try discriminate H; vm_compute in Ht; injection Ht as <-; lia. }
  split; [exact Hc|].
  apply (event_loop_duration 400 1000 (mkRound true 1000 (EpEvents [])) _ sv_start); [lia|cbn; lia|exact Hc|].
  vm_compute. discriminate.
Defined.

(** [" -4294967296 ms"]: accepted, and the watchdog of the daemon is off. *)
Lemma heartbeat_option_witness :
  Sv.main_dispatch ["--heartbeat-timeout-ms"; " " +:+ signed_text true 4294967296 +:+ " ms"] =
    Sv.RunLive (Sv.default_args <| Sv.hb_timeout_ms := 0 |>) /\
  timerfd_settime 5 (heartbeat_its 0) = None.
Proof.
  destruct (heartbeat_option " " " ms" true 4294967296 5) as (H1 & _ & H3); [by split|lia|done|].
  split; [exact H1|exact H3].
Defined.

End Props.
