(* ===== verification/Descriptors.v ===== *)
(** * File descriptors and start-up

    The RAII wrappers ([UniqueFd] of
    [userspace/safety-supervisord/device_client.h], [Fd] of
    [userspace/safety-linkd/main.cpp]) over the descriptor table of the process,
    and the start-up and exit paths that use them: [EventLoop::setup] and
    [run_live], [main] of the link daemon, [make_pty] and [main] of the bridge.
    What a system call returns is an argument; a descriptor it returns is
    negative or new. *)

From stdpp Require Import gmap.
From S2P Require Import Prelude Cli.

(** ** The descriptor table *)

(** Objects are numbered.  [released]: descriptors the program took over with
    [release]. *)
Record fds := mkFds {
  open_fds : gset Z;         (* open in the kernel *)
  objs : gmap nat Z;         (* fd_ of the live objects *)
  released : gset Z;
  bad_close : bool;          (* some close hit a descriptor that is not open *)
}.

#[global] Instance fds_rebuild : Rebuild fds :=
  fun s => mkFds (open_fds s) (objs s) (released s) (bad_close s).
#[global] Instance update_open_fds : Update open_fds := ltac:(derive_update).
#[global] Instance update_objs : Update objs := ltac:(derive_update).
#[global] Instance update_released : Update released := ltac:(derive_update).
#[global] Instance update_bad_close : Update bad_close := ltac:(derive_update).

Definition fds_start : fds := mkFds ∅ ∅ ∅ false.

(** [close]. *)
Definition os_close (fd : Z) (s : fds) : fds :=
  if decide (fd ∈ open_fds s) then s <| open_fds ::= fun o => o ∖ {[fd]} |>
  else s <| bad_close := true |>.

(** A call that returned [fd], negative on failure. *)
Definition os_open (fd : Z) (s : fds) : fds :=
  if fd >=? 0 then s <| open_fds ::= fun o => {[fd]} ∪ o |> else s.

(** ** [UniqueFd] *)

(** [fd_] of a live object; the default is never used. *)
Definition fd_of (s : fds) (o : nat) : Z := default (- 1) (objs s !! o).
Definition set_fd (o : nat) (fd : Z) (s : fds) : fds := s <| objs ::= <[o := fd]> |>.

(** [explicit UniqueFd(int fd)], and [UniqueFd()] with -1. *)
Definition fd_construct (o : nat) (fd : Z) (s : fds) : fds := set_fd o fd s.

Definition fd_reset (o : nat) (fd : Z) (s : fds) : fds :=
  let s := if fd_of s o >=? 0 then os_close (fd_of s o) s else s in
  set_fd o fd s.

Definition fd_destroy (o : nat) (s : fds) : fds := (fd_reset o (- 1) s) <| objs ::= delete o |>.

(** [UniqueFd(UniqueFd &&o)] *)
Definition fd_move_construct (new o : nat) (s : fds) : fds :=
  set_fd o (- 1) (set_fd new (fd_of s o) s).

(** [operator=(UniqueFd &&o)] *)
Definition fd_move_assign (this o : nat) (s : fds) : fds :=
  if decide (this = o) then s
  else
    let s := fd_reset this (- 1) s in
    set_fd o (- 1) (set_fd this (fd_of s o) s).

Definition fd_release (o : nat) (s : fds) : Z * fds :=
  let f := fd_of s o in
  (f, (set_fd o (- 1) s) <| released ::= fun r => if f >=? 0 then {[f]} ∪ r else r |>).

(** ** [Fd] of the link daemon *)

Module LinkFd.

Definition destroy (o : nat) (s : fds) : fds :=
  (if fd_of s o >=? 0 then os_close (fd_of s o) s else s) <| objs ::= delete o |>.

Definition move_construct (new o : nat) (s : fds) : fds :=
  set_fd o (- 1) (set_fd new (fd_of s o) s).

Definition move_assign (this o : nat) (s : fds) : fds :=
  if decide (this = o) then s
  else
    let s := if fd_of s this >=? 0 then os_close (fd_of s this) s else s in
    set_fd o (- 1) (set_fd this (fd_of s o) s).

Definition reset (o : nat) (fd : Z) (s : fds) : fds :=
  let s := if fd_of s o >=? 0 then os_close (fd_of s o) s else s in
  set_fd o fd s.

End LinkFd.

(** ** safety-linkd *)

(** The results of the calls of [main] before its loop, in order. *)
Record ld_calls := mkLdCalls {
  mkdir_ok : bool; report_open : bool; uart_fd : Z; raw_ok : bool; dev_fd : Z }.

(** The objects [uart] and [dev]. *)
Definition obj_uart : nat := 0.
Definition obj_dev : nat := 1.

(** [main] up to its loop: the code it returns with (its objects destroyed), or
    [None] when the loop is reached. *)
Definition linkd_setup (c : ld_calls) (s : fds) : option Z * fds :=
  if negb (mkdir_ok c) then (Some 1, s)
  else if negb (report_open c) then (Some 1, s)
  else
    let s := fd_construct obj_uart (uart_fd c) (os_open (uart_fd c) s) in
    if negb (uart_fd c >=? 0) then (Some 1, LinkFd.destroy obj_uart s)
    else if negb (raw_ok c) then (Some 1, LinkFd.destroy obj_uart s)
    else
      let s := fd_construct obj_dev (dev_fd c) (os_open (dev_fd c) s) in
      if negb (dev_fd c >=? 0) then (Some 1, LinkFd.destroy obj_uart (LinkFd.destroy obj_dev s))
      else (None, s).

(** The return after the loop, with [code] 0, or 1 when [poll] or [read] fails. *)
Definition linkd_return (code : Z) (s : fds) : Z * fds :=
  (code, LinkFd.destroy obj_uart (LinkFd.destroy obj_dev s)).

(** ** pty_bridge *)

(** The results of the calls of [make_pty]. *)
Record pty_calls := mkPtyCalls {
  openpt_fd : Z; grant_ok : bool; unlock_ok : bool; pts_name : option string }.

(** The master, and the name of the slave when there is one. *)
Definition make_pty (c : pty_calls) (s : fds) : Z * option string * fds :=
  let master := openpt_fd c in
  let s := os_open master s in
  if master <? 0 then (- 1, None, s)
  else if negb (grant_ok c) || negb (unlock_ok c) then (- 1, None, os_close master s)
  else
    match pts_name c with
    | None => (- 1, None, os_close master s)
    | Some name => (master, Some name, s)
    end.

(** The results for both ends: of [open], when paths are given, or of
    [make_pty]. *)
Record br_calls := mkBrCalls { left_fd : Z; right_fd : Z; left_pty : pty_calls; right_pty : pty_calls }.

(** [main] after the options: the code it returns with, or both descriptors and
    the two printed names. *)
Definition bridge_setup (a : Br.Args) (c : br_calls) (s : fds) :
    (Z + Z * Z * (string * string)) * fds :=
  let paths := negb (bool_decide (Br.left_path a = "" /\ Br.right_path a = "")) in
  if paths && bool_decide (Br.left_path a = "" \/ Br.right_path a = "") then (inl 2, s)
  else
    let ends :=
      if paths then
        let s := os_open (left_fd c) s in
        if left_fd c <? 0 then (inl 1, s)
        else
          let s := os_open (right_fd c) s in
          if right_fd c <? 0 then (inl 1, os_close (left_fd c) s)
          else (inr (left_fd c, right_fd c, Br.left_path a, Br.right_path a), s)
      else
        let '(lfd, name, s) := make_pty (left_pty c) s in
        (inr (lfd, - 1, default "" name, ""), s) in
    match ends with
    | (inl code, s) => (inl code, s)
    | (inr (lfd, rfd, left_slave, right_slave), s) =>
        if lfd <? 0 then (inl 1, s)
        else if rfd <? 0 then
          let '(rfd, name, s) := make_pty (right_pty c) s in
          if rfd <? 0 then (inl 1, os_close lfd s)
          else (inr (lfd, rfd, (left_slave, default "" name)), s)
        else (inr (lfd, rfd, (left_slave, right_slave)), s)
    end.

(** The end of [main]. *)
Definition bridge_return (lfd rfd : Z) (s : fds) : Z * fds := (0, os_close rfd (os_close lfd s)).

(** ** safety-supervisord *)

(** The results of [open_device], of [logger.start()] and of the calls of
    [EventLoop::setup]. *)
Record sv_calls := mkSvCalls {
  device_fd : Z; logger_ok : bool;
  epoll_fd : Z; timer_fd : Z; wake_fd : Z;
  add_device : bool; add_timer : bool; add_wake : bool }.

(** [device_] of the client, [epoll_], [timer_] and [wake_] of the event loop. *)
Definition obj_device : nat := 0.
Definition obj_epoll : nat := 1.
Definition obj_timer : nat := 2.
Definition obj_wake : nat := 3.

(** [open_device]: an object that holds -1 before. *)
Definition open_device (fd : Z) (s : fds) : bool * fds :=
  let s := os_open fd s in
  if fd <? 0 then (false, s) else (true, fd_reset obj_device fd s).

(** The constructor of [EventLoop]. *)
Definition loop_construct (s : fds) : fds :=
  fd_construct obj_wake (- 1) (fd_construct obj_timer (- 1) (fd_construct obj_epoll (- 1) s)).

Definition loop_destroy (s : fds) : fds := fd_destroy obj_epoll (fd_destroy obj_timer (fd_destroy obj_wake s)).

(** [EventLoop::setup]: whether it succeeded, and whether the timer was armed. *)
Definition loop_setup (c : sv_calls) (s : fds) : bool * bool * fds :=
  let s := os_open (epoll_fd c) s in
  if epoll_fd c <? 0 then (false, false, s)
  else
    let s := fd_reset obj_epoll (epoll_fd c) s in
    let s := os_open (timer_fd c) s in
    if timer_fd c <? 0 then (false, false, s)
    else
      let s := fd_reset obj_timer (timer_fd c) s in
      let s := os_open (wake_fd c) s in
      if wake_fd c <? 0 then (false, false, s)
      else
        let s := fd_reset obj_wake (wake_fd c) s in
        if negb (add_device c) then (false, false, s)
        else if negb (add_timer c) then (false, false, s)
        else if negb (add_wake c) then (false, false, s)
        else (true, true, s).

(** [run_live]: its code, whether the loop ran, and the table after the
    destructors. *)
Definition run_live (c : sv_calls) (s : fds) : Z * bool * fds :=
  let s := fd_construct obj_device (- 1) s in
  let '(opened, s) := open_device (device_fd c) s in
  if negb opened then (1, false, fd_destroy obj_device s)
  else if negb (logger_ok c) then (1, false, fd_destroy obj_device s)
  else
    let s := loop_construct s in
    let '(ok, _, s) := loop_setup c s in
    let s' := fd_destroy obj_device (loop_destroy s) in
    if negb ok then (1, false, s') else (0, true, s').
