(* ===== verification/DescriptorsProps.v ===== *)
(** * Descriptors are closed exactly once

    An invariant of the wrappers under any sequence of their operations, and the
    descriptor table after every way the programs start up and return. *)

From stdpp Require Import gmap.
From S2P Require Import Prelude Cli Descriptors.

(** ** Ownership *)

(** Every open descriptor has exactly one owner: a live object or, after
    [release], the program; and nothing was closed that was not open. *)
Record fds_ok (s : fds) : Prop := {
  no_bad_close : bad_close s = false;
  owned_open : forall o fd, objs s !! o = Some fd -> 0 <= fd -> (fd ∈ open_fds s) /\ (fd ∉ released s);
  owner_unique : forall o o' fd, objs s !! o = Some fd -> objs s !! o' = Some fd -> 0 <= fd -> o = o';
  open_owned : forall fd, fd ∈ open_fds s -> (fd ∈ released s) \/ exists o, objs s !! o = Some fd /\ 0 <= fd;
}.

Lemma fds_start_ok : fds_ok fds_start.
Proof. split; [done|set_solver..]. Qed.

(** Operations on objects; a call that opens a descriptor returned [fd]. *)
Inductive fd_op :=
  | OpNew (o : nat) (fd : Z)
  | OpResetTo (o : nat) (fd : Z)
  | OpReset (o : nat)
  | OpMove (new o : nat)
  | OpAssign (this o : nat)
  | OpRelease (o : nat)
  | OpDestroy (o : nat).

Definition fd_step (op : fd_op) (s : fds) : fds :=
  match op with
  | OpNew o fd => fd_construct o fd (os_open fd s)
  | OpResetTo o fd => fd_reset o fd (os_open fd s)
  | OpReset o => fd_reset o (- 1) s
  | OpMove new o => fd_move_construct new o s
  | OpAssign this o => fd_move_assign this o s
  | OpRelease o => snd (fd_release o s)
  | OpDestroy o => fd_destroy o s
  end.

(** The same with the class of the link daemon, which has no [release]. *)
Definition link_fd_step (op : fd_op) (s : fds) : fds :=
  match op with
  | OpNew o fd => fd_construct o fd (os_open fd s)
  | OpResetTo o fd => LinkFd.reset o fd (os_open fd s)
  | OpReset o => LinkFd.reset o (- 1) s
  | OpMove new o => LinkFd.move_construct new o s
  | OpAssign this o => LinkFd.move_assign this o s
  | OpRelease _ => s
  | OpDestroy o => LinkFd.destroy o s
  end.

(** What the language and the kernel guarantee: operations on live objects, a
    new place for a new object, a new number for a new descriptor. *)
Definition live (s : fds) (o : nat) : Prop := is_Some (objs s !! o).
Definition new_fd (s : fds) (fd : Z) : Prop := (fd ∉ open_fds s) /\ (fd ∉ released s).

Definition fd_pre (op : fd_op) (s : fds) : Prop :=
  match op with
  | OpNew o fd => ~ live s o /\ new_fd s fd
  | OpResetTo o fd => live s o /\ new_fd s fd
  | OpReset o | OpRelease o | OpDestroy o => live s o
  | OpMove new o => ~ live s new /\ live s o
  | OpAssign this o => live s this /\ live s o
  end.

(** Reached by the operations of one of the classes. *)
Inductive fd_reach (step : fd_op -> fds -> fds) : fds -> Prop :=
  | fd_reach_start : fd_reach step fds_start
  | fd_reach_step op s : fd_reach step s -> fd_pre op s -> fd_reach step (step op s).

Lemma fd_of_Some s o fd : objs s !! o = Some fd -> fd_of s o = fd.
Proof. unfold fd_of. by intros ->. Qed.
Lemma fd_of_None s o : objs s !! o = None -> fd_of s o = - 1.
Proof. unfold fd_of. by intros ->. Qed.

(** [set_fd] with a descriptor nobody owns, on a place that owns nothing. *)
Lemma set_fd_ok o fd s :
  fds_ok s -> (forall old, objs s !! o = Some old -> old < 0) -> fd < 0 -> fds_ok (set_fd o fd s).
Proof.
  intros [H1 H2 H3 H4] Hold Hfd. split; cbn; [done|..].
  - intros o' fd'. rewrite lookup_insert_Some. intros [[<- <-]|[_ Ho]] ?; [lia|eauto].
  - intros o1 o2 fd'. rewrite !lookup_insert_Some. intros [[<- <-]|[? ?]] [[<- ?]|[? ?]] ?; try lia; eauto.
  - intros fd' [Hr|(o' & Ho & Hp)]%H4; [by left|]. right. exists o'. split; [|done].
    apply lookup_insert_Some. right. split; [|done]. intros <-. specialize (Hold _ Ho). lia.
Qed.

(** An object that owns a descriptor gives it up: closed or released. *)
Lemma fd_reset_none o s : fds_ok s -> fds_ok (fd_reset o (- 1) s) /\ objs (fd_reset o (- 1) s) !! o = Some (- 1).
Proof.
  intros Hok. split; [|cbn; apply lookup_insert_eq]. unfold fd_reset.
  destruct (objs s !! o) as [fd|] eqn:Eo; [rewrite (fd_of_Some _ _ _ Eo)|rewrite (fd_of_None _ _ Eo)].
  2: { cbn. apply set_fd_ok; [done|naive_solver|lia]. }
  destruct (fd >=? 0) eqn:Ef; cbn zeta iota.
  2: { apply set_fd_ok; [exact Hok| |lia]. intros old. rewrite Eo. intros [= ->]. lia. }
  destruct Hok as [H1 H2 H3 H4]. destruct (H2 o fd Eo) as [Hop Hre]; [lia|].
  unfold os_close. rewrite decide_True by done. split; cbn; [done|..].
  - intros o' fd'. rewrite lookup_insert_Some. intros [[<- <-]|[Hne Ho]] ?; [lia|].
    destruct (H2 o' fd' Ho) as [? ?]; [lia|]. split; [|done]. apply elem_of_difference. split; [done|].
    intros ->%elem_of_singleton. apply Hne. eapply H3; eauto.
  - intros o1 o2 fd'. rewrite !lookup_insert_Some. intros [[<- <-]|[? ?]] [[<- ?]|[? ?]] ?; try lia; eauto.
  - intros fd' [[Hr|(o' & Ho & Hp)]%H4 Hn]%elem_of_difference; [by left|]. right. exists o'. split; [|done].
    apply lookup_insert_Some. right. split; [|done]. intros <-. rewrite Eo in Ho. injection Ho as ->.
    by apply Hn, elem_of_singleton.
Qed.

(** A new descriptor goes to an object that owns nothing. *)
Lemma adopt_ok o fd s :
  fds_ok s -> new_fd s fd -> (forall old, objs s !! o = Some old -> old < 0) ->
  fds_ok (set_fd o fd (os_open fd s)).
Proof.
  intros Hok [Hn Hr] Hold. unfold os_open. destruct (fd >=? 0) eqn:Ef; [|apply set_fd_ok; [done..|lia]].
  destruct Hok as [H1 H2 H3 H4]. split; cbn; [done|..].
  - intros o' fd'. rewrite lookup_insert_Some. intros [[<- <-]|[_ Ho]] ?; [set_solver|].
    destruct (H2 o' fd' Ho) as [? ?]; [lia|]. set_solver.
  - intros o1 o2 fd'. rewrite !lookup_insert_Some. intros [[<- <-]|[? Ho1]] [[<- ?]|[? Ho2]] ?; subst;
      [done|by destruct (H2 _ _ Ho2)|by destruct (H2 _ _ Ho1)|eauto].
  - intros fd' [->%elem_of_singleton|[Hr'|(o' & Ho & Hp)]%H4]%elem_of_union.
    + right. exists o. rewrite lookup_insert_eq. split; [done|lia].
    + by left.
    + right. exists o'. split; [|done]. apply lookup_insert_Some. right. split; [|done].
      intros <-. specialize (Hold _ Ho). lia.
Qed.

(** Ownership moves from one object to another that owns nothing. *)
Lemma move_ok new o s :
  fds_ok s -> new <> o -> live s o -> (forall old, objs s !! new = Some old -> old < 0) ->
  fds_ok (fd_move_construct new o s).
Proof.
  intros [H1 H2 H3 H4] Hne [fd Ho] Hold. unfold fd_move_construct. rewrite (fd_of_Some _ _ _ Ho). split; cbn; [done|..].
  - intros o' fd'. rewrite !lookup_insert_Some. intros [[<- <-]|[? [[<- <-]|[? ?]]]] ?; [lia|eauto..].
  - intros o1 o2 fd'. rewrite !lookup_insert_Some.
    intros [[<- <-]|[? [[<- <-]|[? Ha]]]] [[<- ?]|[? [[<- ?]|[? Hb]]]] ?; subst; try lia; try done.
    + by destruct (H3 _ _ _ Ho Hb).
    + by destruct (H3 _ _ _ Ha Ho).
    + eauto.
  - intros fd' [Hr|(o' & Ho' & Hp)]%H4; [by left|]. right.
    destruct (decide (o' = o)) as [->|].
    + rewrite Ho in Ho'. injection Ho' as ->. exists new. rewrite lookup_insert_ne, lookup_insert_eq by done. done.
    + exists o'. rewrite lookup_insert_ne by done. split; [|done]. rewrite lookup_insert_ne; [done|].
      intros <-. specialize (Hold _ Ho'). lia.
Qed.

Lemma release_ok o s : fds_ok s -> live s o -> fds_ok (fd_release o s).2.
Proof.
  intros [H1 H2 H3 H4] [fd Ho]. unfold fd_release. rewrite (fd_of_Some _ _ _ Ho). cbn [snd].
  split; cbn; [done|..].
  - intros o' fd'. rewrite lookup_insert_Some. intros [[<- <-]|[? Ho']] ?; [lia|].
    destruct (H2 _ _ Ho') as [? ?]; [done|]. split; [done|]. case_match; [|done].
    intros [->%elem_of_singleton|?]%elem_of_union; [|done]. by destruct (H3 _ _ _ Ho Ho').
  - intros o1 o2 fd'. rewrite !lookup_insert_Some. intros [[<- <-]|[? ?]] [[<- ?]|[? ?]] ?; try lia; eauto.
  - intros fd' [Hr|(o' & Ho' & Hp)]%H4; [left; case_match; set_solver|].
    destruct (decide (o' = o)) as [->|].
    + left. rewrite Ho in Ho'. injection Ho' as ->. case_match; [set_solver|lia].
    + right. exists o'. by rewrite lookup_insert_ne.
Qed.

(** Opening first and closing the old descriptor then, or the other way round. *)
Lemma fd_reset_open o fd s :
  fds_ok s -> live s o -> new_fd s fd ->
  fd_reset o fd (os_open fd s) = set_fd o fd (os_open fd (fd_reset o (- 1) s)).
Proof.
  intros [H1 H2 H3 H4] [old Ho] [Hn _].
  assert (fd_of (os_open fd s) o = old) as Eo by (unfold os_open; case_match; by apply fd_of_Some).
  unfold fd_reset. rewrite Eo, (fd_of_Some _ _ _ Ho). unfold os_open, set_fd.
  destruct s as [op ob re bc]. cbn [objs open_fds released] in *.
  destruct (fd >=? 0) eqn:Ef; (destruct (old >=? 0) eqn:Eold;
    [destruct (H2 o old Ho) as [Hop Hre]; [lia|]; unfold os_close; cbn [open_fds update update_open_fds];
     rewrite !decide_True by set_solver|]);
    unfold set_fd, update, update_open_fds, update_objs; cbn [open_fds objs released bad_close];
    rewrite ?insert_insert_eq; f_equal; clear -Hn Hop || clear -Hn; set_solver.
Qed.

(** Other objects keep their descriptor. *)
Lemma fd_reset_ne o o' s : o <> o' -> objs (fd_reset o (- 1) s) !! o' = objs s !! o'.
Proof.
  intros Hne. unfold fd_reset, os_close. repeat case_match; cbn; by rewrite lookup_insert_ne.
Qed.

(** An object that owns nothing may go. *)
Lemma delete_ok o s : fds_ok s -> objs s !! o = Some (- 1) -> fds_ok (s <| objs ::= delete o |>).
Proof.
  intros [H1 H2 H3 H4] Ho. split; cbn; [done|..].
  - intros o' fd. rewrite lookup_delete_Some. intros [_ ?]. eauto.
  - intros o1 o2 fd. rewrite !lookup_delete_Some. intros [_ ?] [_ ?]. eauto.
  - intros fd [Hr|(o' & Ho' & Hp)]%H4; [by left|]. right. exists o'. split; [|done].
    apply lookup_delete_Some. split; [|done]. intros <-. rewrite Ho in Ho'. injection Ho' as <-. lia.
Qed.

Lemma fd_step_ok op s : fds_ok s -> fd_pre op s -> fds_ok (fd_step op s).
Proof.
  intros Hok. destruct op as [o fd|o fd|o|new o|this o|o|o]; cbn [fd_pre fd_step].
  - intros [Ho Hn]. apply adopt_ok; [done..|]. intros old E. destruct Ho. by exists old.
  - intros [Ho Hn]. destruct (fd_reset_none o s Hok) as [Hr Eo]. rewrite fd_reset_open by done.
    apply adopt_ok; [done| |intros old; rewrite Eo; intros [= <-]; lia].
    destruct Hn as [Hn1 Hn2]. unfold new_fd, fd_reset, os_close, set_fd. repeat case_match; set_solver.
  - intros _. by apply fd_reset_none.
  - intros [Hn Ho]. apply move_ok; [done|naive_solver|done|]. intros old E. destruct Hn. by exists old.
  - intros [Ht Ho]. unfold fd_move_assign. destruct (decide (this = o)) as [->|Hne]; [done|].
    destruct (fd_reset_none this s Hok) as [Hr Eo]. apply (move_ok this o); [done..| |].
    + unfold live. by rewrite fd_reset_ne.
    + intros old. rewrite Eo. intros [= <-]. lia.
  - by apply release_ok.
  - intros _. destruct (fd_reset_none o s Hok) as [Hr Eo]. by apply delete_ok.
Qed.

Lemma fd_reach_ok s : fd_reach fd_step s -> fds_ok s.
Proof. induction 1; [apply fds_start_ok|by apply fd_step_ok]. Qed.

(** ** Programs as sequences of operations *)

(** Nothing is left: no descriptor, no object, and no failed close. *)
Definition all_closed (s : fds) : Prop :=
  open_fds s = ∅ /\ objs s = ∅ /\ released s = ∅ /\ bad_close s = false.

(** Operations that make and destroy objects, from the live objects [l] and the
    descriptors [used] so far, to the destruction of the last. *)
Fixpoint ops_ok (l : gset nat) (used : list Z) (ops : list fd_op) : Prop :=
  match ops with
  | [] => bool_decide (l = ∅) = true
  | OpNew o fd :: ops =>
      bool_decide (o ∉ l) = true /\ Forall (fun x => fd < 0 \/ fd <> x) used /\
      ops_ok ({[o]} ∪ l) (fd :: used) ops
  | OpResetTo o fd :: ops =>
      bool_decide (o ∈ l) = true /\ Forall (fun x => fd < 0 \/ fd <> x) used /\ ops_ok l (fd :: used) ops
  | OpDestroy o :: ops => bool_decide (o ∈ l) = true /\ ops_ok (l ∖ {[o]}) used ops
  | _ => False
  end.

Definition run_ops (ops : list fd_op) (s : fds) : fds := foldl (fun s op => fd_step op s) s ops.

Lemma os_close_same fd s : objs (os_close fd s) = objs s /\ released (os_close fd s) = released s /\
                           open_fds (os_close fd s) ⊆ open_fds s.
Proof. unfold os_close. case_decide; cbn; split_and!; set_solver. Qed.

Lemma os_open_same fd s : objs (os_open fd s) = objs s /\ released (os_open fd s) = released s /\
                          open_fds (os_open fd s) ⊆ {[fd]} ∪ open_fds s.
Proof. unfold os_open. case_match; cbn; split_and!; set_solver. Qed.

Lemma fd_reset_same o fd s : objs (fd_reset o fd s) = <[o := fd]> (objs s) /\
                             released (fd_reset o fd s) = released s /\ open_fds (fd_reset o fd s) ⊆ open_fds s.
Proof.
  unfold fd_reset. destruct (os_close_same (fd_of s o) s) as (H1 & H2 & H3).
  case_match; cbn; [rewrite H1, H2|]; split_and!; done.
Qed.

Lemma all_closed_ok s : fds_ok s -> released s = ∅ -> objs s = ∅ -> all_closed s.
Proof.
  intros [H1 _ _ H4] Hr Ho. split_and!; [|done..]. apply set_eq. intros fd. split; [|set_solver].
  intros [H|(o & H & _)]%H4; [set_solver|]. by rewrite Ho in H.
Qed.

(** A failed call returns no open descriptor, a successful one an unused one. *)
Lemma unused_new fd used s :
  fds_ok s -> released s = ∅ -> open_fds s ⊆ list_to_set used ->
  Forall (fun x => fd < 0 \/ fd <> x) used -> new_fd s fd.
Proof.
  intros [_ _ _ H4] Hr Hu Hfd. split; [|rewrite Hr; apply not_elem_of_empty].
  intros Hin. assert (fd < 0) as Hneg.
  { rewrite Forall_forall in Hfd. destruct (Hfd fd) as [?|?]; [|done..].
    by apply Hu, elem_of_list_to_set in Hin. }
  apply H4 in Hin as [Hin|(o & _ & Hp)]; [|lia]. rewrite Hr in Hin. by apply not_elem_of_empty in Hin.
Qed.

Lemma ops_closed ops l used s :
  fds_ok s -> dom (objs s) = l -> released s = ∅ -> open_fds s ⊆ list_to_set used -> ops_ok l used ops ->
  all_closed (run_ops ops s).
Proof.
  revert l used s. induction ops as [|op ops IH]; intros l used s Hok Hl Hr Hu H.
  { apply all_closed_ok; [done..|]. apply bool_decide_eq_true_1 in H. subst l. by apply dom_empty_inv_L. }
  destruct op as [o fd|o fd| | | | |o]; try done; cbn [ops_ok] in H.
  - destruct H as (Ho%bool_decide_eq_true_1 & Hfd & H), (os_open_same fd s) as (E1 & E2 & E3).
    assert (fd_pre (OpNew o fd) s) as Hpre.
    { split; [|by eapply unused_new]. rewrite <- Hl in Ho. intros Hlive. by apply Ho, elem_of_dom. }
    apply (IH ({[o]} ∪ l) (fd :: used) (fd_step (OpNew o fd) s)); [by apply fd_step_ok|..|done];
      cbn [fd_step]; unfold fd_construct, set_fd; cbn [objs released open_fds update update_objs].
    + by rewrite E1, dom_insert_L, Hl.
    + by rewrite E2.
    + etrans; [exact E3|by apply union_mono_l].
  - destruct H as (Ho%bool_decide_eq_true_1 & Hfd & H), (os_open_same fd s) as (E1 & E2 & E3).
    destruct (fd_reset_same o fd (os_open fd s)) as (F1 & F2 & F3).
    assert (fd_pre (OpResetTo o fd) s) as Hpre.
    { split; [|by eapply unused_new]. apply elem_of_dom. by rewrite Hl. }
    apply (IH l (fd :: used) (fd_step (OpResetTo o fd) s)); [by apply fd_step_ok|..|done]; cbn [fd_step].
    + rewrite F1, E1, dom_insert_L, Hl. by apply subseteq_union_1_L, singleton_subseteq_l.
    + by rewrite F2, E2.
    + etrans; [exact F3|]. etrans; [exact E3|by apply union_mono_l].
  - destruct H as (Ho%bool_decide_eq_true_1 & H). destruct (fd_reset_same o (- 1) s) as (F1 & F2 & F3).
    assert (fd_pre (OpDestroy o) s) as Hpre by (apply elem_of_dom; by rewrite Hl).
    apply (IH (l ∖ {[o]}) used (fd_step (OpDestroy o) s)); [by apply fd_step_ok|..|done];
      cbn [fd_step]; unfold fd_destroy; cbn [objs released open_fds update update_objs].
    + by rewrite F1, delete_insert_eq, dom_delete_L, Hl.
    + by rewrite F2.
    + by etrans.
Qed.

(** From the empty table. *)
Lemma ops_start_closed ops : ops_ok ∅ [] ops -> all_closed (run_ops ops fds_start).
Proof. by apply ops_closed; [apply fds_start_ok|..]. Qed.

(** ** The three programs *)

(** The destructor of the link daemon's class does the same as the other. *)
Lemma link_destroy o s : LinkFd.destroy o s = fd_destroy o s.
Proof.
  unfold LinkFd.destroy, fd_destroy, fd_reset, set_fd. case_match; unfold update, update_objs; cbn;
    by rewrite delete_insert_eq.
Qed.

(** So do its moves, on live objects. *)
Lemma link_move_assign this o s : LinkFd.move_assign this o s = fd_move_assign this o s.
Proof.
  unfold LinkFd.move_assign, fd_move_assign. case_decide as Hne; [done|]. unfold fd_reset.
  assert (forall t fd, fd_of (set_fd this fd t) o = fd_of t o) as H
    by (intros t fd; unfold fd_of, set_fd; cbn; by rewrite lookup_insert_ne).
  case_match; rewrite H; unfold set_fd, update, update_objs; cbn; by rewrite insert_insert_eq.
Qed.

Lemma link_fd_step_ok op s : fds_ok s -> fd_pre op s -> fds_ok (link_fd_step op s).
Proof.
  intros Hok Hpre. destruct op as [o fd|o fd|o|new o|this o|o|o]; cbn [link_fd_step]; [| | | | |exact Hok|].
  - by apply (fd_step_ok (OpNew o fd)).
  - by apply (fd_step_ok (OpResetTo o fd)).
  - by apply (fd_step_ok (OpReset o)).
  - by apply (fd_step_ok (OpMove new o)).
  - rewrite link_move_assign. by apply (fd_step_ok (OpAssign this o)).
  - rewrite link_destroy. by apply (fd_step_ok (OpDestroy o)).
Qed.

Lemma link_fd_reach_ok s : fd_reach link_fd_step s -> fds_ok s.
Proof. induction 1; [apply fds_start_ok|by apply link_fd_step_ok]. Qed.

(** Descriptors that successful calls return one after the other, while none is
    closed, differ. *)
Fixpoint distinct_fds (l : list Z) : Prop :=
  match l with [] => True | fd :: l => (0 <= fd -> fd ∉ l) /\ distinct_fds l end.

Lemma os_open_neg fd s : fd < 0 -> os_open fd s = s.
Proof. intros H. unfold os_open. destruct (fd >=? 0) eqn:E; [lia|done]. Qed.

(** A list of made and destroyed objects, with the arithmetic of descriptors. *)
#[local] Ltac by_ops_goal :=
  apply ops_start_closed; cbn [ops_ok];
  repeat match goal with
  | |- _ /\ _ => split
  | |- bool_decide _ = true => vm_compute; reflexivity
  | |- Forall _ _ => repeat constructor; lia
  end.
#[local] Ltac by_ops ops :=
  lazymatch goal with |- all_closed ?s =>
    assert (s = run_ops ops fds_start) as ->;
    [cbn [run_ops foldl fd_step]; rewrite ?(os_open_neg (- 1)) by lia; reflexivity|]
  end; by_ops_goal.

Lemma linkd_closed c code :
  distinct_fds [uart_fd c; dev_fd c] ->
  match linkd_setup c fds_start with
  | (Some e, s) => e = 1 /\ all_closed s
  | (None, s) => open_fds s = {[uart_fd c; dev_fd c]} /\ (linkd_return code s).1 = code /\
                 all_closed (linkd_return code s).2
  end.
Proof.
  destruct c as [mk rep ua raw dv]. unfold linkd_setup, linkd_return. cbn [mkdir_ok report_open uart_fd raw_ok dev_fd].
  intros Hd. rewrite !link_destroy.
  destruct mk, rep; cbn [negb]; try (split; [done|by_ops (@nil fd_op)]).
  destruct (ua >=? 0) eqn:Eu; cbn [negb].
  2: { split; [done|]. by_ops [OpNew 0 ua; OpDestroy 0]. }
  destruct raw; cbn [negb].
  2: { split; [done|]. by_ops [OpNew 0 ua; OpDestroy 0]. }
  destruct (dv >=? 0) eqn:Ed; cbn [negb].
  2: { split; [done|].
       by_ops [OpNew 0 ua; OpNew 1 dv; OpDestroy 1; OpDestroy 0]. }
  destruct Hd as [Hd _]. specialize (Hd ltac:(lia)). rewrite !not_elem_of_cons in Hd.
  split_and!; [|done|].
  - unfold os_open, fd_construct, set_fd. rewrite Eu, Ed. cbn. set_solver.
  - cbn [snd]. rewrite !link_destroy.
    by_ops [OpNew 0 ua; OpNew 1 dv; OpDestroy 1; OpDestroy 0].
Qed.

#[local] Strategy 1000 [os_open os_close fd_reset fd_destroy fd_construct].

Lemma run_live_closed c :
  distinct_fds [device_fd c; epoll_fd c; timer_fd c; wake_fd c] ->
  let '(code, ran, s) := run_live c fds_start in
  all_closed s /\ (code = 0 <-> ran = true) /\
  (ran = true <-> 0 <= device_fd c /\ logger_ok c = true /\ 0 <= epoll_fd c /\ 0 <= timer_fd c /\
                  0 <= wake_fd c /\ add_device c = true /\ add_timer c = true /\ add_wake c = true).
Proof.
  destruct c as [dv lg ep ti wk a1 a2 a3]. unfold run_live, open_device.
  cbn [device_fd logger_ok epoll_fd timer_fd wake_fd add_device add_timer add_wake].
  intros Hd. destruct (dv <? 0) eqn:Edv; cbn [negb].
  { rewrite (os_open_neg dv) by lia. cbn [negb]. split_and!; [|lia..|naive_solver lia].
    by_ops [OpNew 0 (-1); OpDestroy 0]. }
  destruct lg; cbn [negb].
  2: { split_and!; [|lia..|naive_solver]. by_ops [OpNew 0 (-1); OpResetTo 0 dv; OpDestroy 0]. }
  unfold loop_setup, loop_construct, loop_destroy. cbn [epoll_fd timer_fd wake_fd add_device add_timer add_wake].
  destruct Hd as (H1 & H2 & H3 & _). specialize (H1 ltac:(lia)); rewrite !not_elem_of_cons in H1.
  destruct (ep <? 0) eqn:Eep; cbn [negb].
  { rewrite (os_open_neg ep) by lia. split_and!; [|lia..|naive_solver lia].
    by_ops [OpNew 0 (-1); OpResetTo 0 dv; OpNew 1 (-1); OpNew 2 (-1); OpNew 3 (-1);
            OpDestroy 3; OpDestroy 2; OpDestroy 1; OpDestroy 0]. }
  specialize (H2 ltac:(lia)). rewrite !not_elem_of_cons in H2. destruct (ti <? 0) eqn:Eti; cbn [negb].
  { rewrite (os_open_neg ti) by lia. split_and!; [|lia..|naive_solver lia].
    by_ops [OpNew 0 (-1); OpResetTo 0 dv; OpNew 1 (-1); OpNew 2 (-1); OpNew 3 (-1); OpResetTo 1 ep;
            OpDestroy 3; OpDestroy 2; OpDestroy 1; OpDestroy 0]. }
  specialize (H3 ltac:(lia)). rewrite !not_elem_of_cons in H3. destruct (wk <? 0) eqn:Ewk; cbn [negb].
  { rewrite (os_open_neg wk) by lia. split_and!; [|lia..|naive_solver lia].
    by_ops [OpNew 0 (-1); OpResetTo 0 dv; OpNew 1 (-1); OpNew 2 (-1); OpNew 3 (-1); OpResetTo 1 ep;
            OpResetTo 2 ti; OpDestroy 3; OpDestroy 2; OpDestroy 1; OpDestroy 0]. }
  assert (all_closed (run_ops [OpNew 0 (-1); OpResetTo 0 dv; OpNew 1 (-1); OpNew 2 (-1); OpNew 3 (-1);
            OpResetTo 1 ep; OpResetTo 2 ti; OpResetTo 3 wk;
            OpDestroy 3; OpDestroy 2; OpDestroy 1; OpDestroy 0] fds_start)) as Hall by by_ops_goal.
  cbn [run_ops foldl fd_step] in Hall. rewrite ?(os_open_neg (- 1)) in Hall by lia.
  destruct a1, a2, a3; cbn [negb]; (split; [exact Hall|]); (split; [lia|]); naive_solver lia.
Qed.

(** The two endpoints of the bridge are plain integers. *)
Definition pty_distinct (c : br_calls) : Prop :=
  distinct_fds [left_fd c; right_fd c] /\
  distinct_fds [openpt_fd (left_pty c); openpt_fd (right_pty c)].

Lemma os_open_close fd s : fd ∉ open_fds s -> 0 <= fd -> os_close fd (os_open fd s) = s.
Proof.
  intros Hn Hp. unfold os_open, os_close. replace (fd >=? 0) with true by lia. destruct s as [op ob re bc].
  cbn in *. rewrite decide_True by set_solver. unfold update, update_open_fds. cbn. f_equal. set_solver.
Qed.

(** [make_pty] keeps a descriptor only when it succeeds. *)
Lemma make_pty_cases c s :
  (openpt_fd c ∉ open_fds s) ->
  (exists name, make_pty c s = (openpt_fd c, Some name, os_open (openpt_fd c) s) /\ 0 <= openpt_fd c) \/
  make_pty c s = (- 1, None, s).
Proof.
  intros Hn. unfold make_pty. destruct (openpt_fd c <? 0) eqn:E.
  { right. by rewrite os_open_neg by lia. }
  destruct (negb (grant_ok c) || negb (unlock_ok c)).
  { right. by rewrite os_open_close by (done || lia). }
  destruct (pts_name c) as [name|]; [left; exists name; split; [done|lia]|].
  right. by rewrite os_open_close by (done || lia).
Qed.

Lemma os_close_other a b s : a <> b -> 0 <= b -> os_close a (os_open b s) = os_open b (os_close a s).
Proof.
  intros Hne Hb. unfold os_open, os_close. replace (b >=? 0) with true by lia. destruct s as [op ob re bc].
  unfold update, update_open_fds, update_bad_close. cbn [open_fds objs released bad_close].
  destruct (decide (a ∈ op)).
  - rewrite decide_True by set_solver. cbn. f_equal. set_solver.
  - rewrite decide_False by set_solver. done.
Qed.

Lemma two_closed a b s :
  open_fds s = ∅ -> a <> b -> 0 <= a -> 0 <= b ->
  open_fds (os_open b (os_open a s)) = {[a; b]} /\
  os_close b (os_close a (os_open b (os_open a s))) = s.
Proof.
  intros Ho Hne Ha Hb. split.
  - unfold os_open. rewrite !(proj2 (Z.geb_le _ _)) by lia. cbn -[union]. rewrite Ho. set_solver.
  - rewrite os_close_other, (os_open_close a), (os_open_close b) by (done || lia || rewrite Ho; apply not_elem_of_empty).
    done.
Qed.

Lemma start_closed : all_closed fds_start.
Proof. done. Qed.

Lemma bridge_closed argv c :
  pty_distinct c ->
  match Br.parse_args argv with
  | Parsed a =>
      match bridge_setup a c fds_start with
      | (inl code, s) => code = 1 /\ all_closed s
      | (inr (l, r, _), s) => open_fds s = {[l; r]} /\ l <> r /\ all_closed (bridge_return l r s).2
      end
  | _ => True
  end.
Proof.
  intros (H1 & H2). destruct (Br.parse_args argv) as [a| | | |] eqn:Ep; [|done..].
  unfold bridge_setup, bridge_return. cbn [snd].
  assert (negb (bool_decide (Br.left_path a = "" /\ Br.right_path a = "")) &&
          bool_decide (Br.left_path a = "" \/ Br.right_path a = "") = false) as Hpaths.
  { unfold Br.parse_args in Ep. destruct (Br.parse_loop _ _) as [a'| | | |]; try done.
    case_match eqn:Et; [done|]. by injection Ep as <-. }
  rewrite Hpaths. destruct (negb _) eqn:Epaths.
  - destruct (left_fd c <? 0) eqn:El; [by rewrite os_open_neg by lia|].
    destruct H1 as [H1 _]. specialize (H1 ltac:(lia)). rewrite not_elem_of_cons in H1.
    destruct (right_fd c <? 0) eqn:Er.
    + rewrite (os_open_neg (right_fd c)), os_open_close by (done || lia). done.
    + rewrite El, Er. destruct (two_closed (left_fd c) (right_fd c) fds_start eq_refl) as [E1 E2]; [tauto|lia..|].
      rewrite E1, E2. split; [done|]. split; [tauto|apply start_closed].
  - destruct H2 as [H2 _].
    destruct (make_pty_cases (left_pty c) fds_start) as [(nl & -> & Hl)| ->]; [done| |by cbn].
    specialize (H2 Hl). rewrite not_elem_of_cons in H2.
    replace (openpt_fd (left_pty c) <? 0) with false by lia. change (- 1 <? 0) with true. cbn iota.
    destruct (make_pty_cases (right_pty c) (os_open (openpt_fd (left_pty c)) fds_start)) as [(nr & -> & Hr)| ->].
    + intros Hin. apply os_open_same in Hin. rewrite elem_of_union, elem_of_singleton in Hin.
      destruct Hin as [Hin|Hin]; [|by apply not_elem_of_empty in Hin]. by destruct H2.
    + replace (openpt_fd (right_pty c) <? 0) with false by lia.
      destruct (two_closed (openpt_fd (left_pty c)) (openpt_fd (right_pty c)) fds_start eq_refl) as [E1 E2];
        [tauto|lia..|]. rewrite E1, E2. split; [done|]. split; [tauto|apply start_closed].
    + change (- 1 <? 0) with true. cbn iota. rewrite os_open_close by (done || lia). done.
Qed.

Module Props.

(** C35. No descriptor leaks and none is closed twice: whatever sequence of
    operations objects of the supervisor's class, or of the link daemon's, go
    through - resets, moves and assignments included - every open descriptor has
    exactly one owner; and however the calls of the start-up turn out, the link daemon, the
    bridge and the live supervisor return with every descriptor they opened
    closed. *)
Theorem no_descriptor_leaks :
  (forall s, fd_reach fd_step s -> fds_ok s) /\
  (forall s, fd_reach link_fd_step s -> fds_ok s) /\
  (forall c code, distinct_fds [uart_fd c; dev_fd c] ->
    match linkd_setup c fds_start with
    | (Some e, s) => e = 1 /\ all_closed s
    | (None, s) => open_fds s = {[uart_fd c; dev_fd c]} /\ (linkd_return code s).1 = code /\
                   all_closed (linkd_return code s).2
    end) /\
  (forall argv c, pty_distinct c ->
    match Br.parse_args argv with
    | Parsed a =>
        match bridge_setup a c fds_start with
        | (inl code, s) => code = 1 /\ all_closed s
        | (inr (l, r, _), s) => open_fds s = {[l; r]} /\ l <> r /\ all_closed (bridge_return l r s).2
        end
    | _ => True
    end) /\
  (forall c, distinct_fds [device_fd c; epoll_fd c; timer_fd c; wake_fd c] ->
    let '(code, ran, s) := run_live c fds_start in
    all_closed s /\ (code = 0 <-> ran = true) /\
    (ran = true <-> 0 <= device_fd c /\ logger_ok c = true /\ 0 <= epoll_fd c /\ 0 <= timer_fd c /\
                    0 <= wake_fd c /\ add_device c = true /\ add_timer c = true /\ add_wake c = true)).
Proof.
  split; [apply fd_reach_ok|]. split; [apply link_fd_reach_ok|]. split; [apply linkd_closed|]. split; [apply bridge_closed|apply run_live_closed].
Qed.

(** Concrete start-ups: the link daemon whose device does not open, and the
    supervisor whose eventfd fails. *)
Lemma no_descriptor_leaks_witness :
  (let '(code, s) := linkd_setup (mkLdCalls true true 3 true (-1)) fds_start in
   (exists e, code = Some e /\ e = 1 /\ all_closed s)) /\
  (let '(code, ran, s) := run_live (mkSvCalls 3 true 4 5 (-1) true true true) fds_start in all_closed s).
Proof.
  destruct no_descriptor_leaks as (_ & _ & Hl & _ & Hs). split.
  - exists 1. split; [reflexivity|]. apply (Hl (mkLdCalls true true 3 true (-1)) 0).
    cbn [distinct_fds uart_fd dev_fd]. rewrite !not_elem_of_cons. split_and!; intros; split_and?; try done; try discriminate;
      apply not_elem_of_nil.
  - apply (Hs (mkSvCalls 3 true 4 5 (-1) true true true)).
    cbn [distinct_fds device_fd epoll_fd timer_fd wake_fd]. rewrite !not_elem_of_cons.
    split_and!; intros; split_and?; try done; try discriminate; apply not_elem_of_nil.
Defined.

End Props.
