(* ===== verification/TracerReport.v ===== *)
(** * The eBPF tracer, user side: the report files and [main] of
    [ebpf/safety_trace_user.c]

    The text of the three files, the polling loop and the order of set-up and
    clean-up.  [None] for a text is the undefined behaviour of a shift by the
    full width.  Messages on standard output and standard error are left out. *)

From Stdlib Require Import Ascii SpecFloat.
From S2P Require Import Prelude Supervisor Logger Cli Ebpf EbpfReport.

(** ** [printf] *)

Definition line (s : string) : string := s +:+ str1 newline.

(** The decimal digits of [x], at least [n] of them. *)
Fixpoint zeros (n : nat) : string := match n with O => "" | S n => String "0" (zeros n) end.
Definition padded (n : nat) (x : Z) : string :=
  let s := to_string x in zeros (n - String.length s) +:+ s.

(** The integer nearest to [n / d], ties to even. *)
Definition round_half_even (n d : Z) : Z :=
  let q := n / d in
  let r := n mod d in
  if 2 * r <? d then q else if d <? 2 * r then q + 1 else if Z.even q then q else q + 1.

(** A fixed-point number with [prec] digits after the point, from its value in
    units of the last digit. *)
Definition fixed_text (prec : nat) (x : Z) : string :=
  let p := 10 ^ Z.of_nat prec in
  to_string (x / p) +:+ (if (prec =? 0)%nat then "" else "." +:+ padded prec (x mod p)).

(** [%.<prec>f]: the exact value of the double, rounded to nearest. *)
Definition fixed_units (prec : nat) (m : positive) (e : Z) : Z :=
  let n := Z.pos m * 10 ^ Z.of_nat prec in
  if e <? 0 then round_half_even n (2 ^ (- e)) else n * 2 ^ e.

Definition fmt_f (prec : nat) (x : spec_float) : string :=
  match x with
  | S754_zero s => (if s then "-" else "") +:+ fixed_text prec 0
  | S754_finite s m e => (if s then "-" else "") +:+ fixed_text prec (fixed_units prec m e)
  | S754_infinity s => if s then "-inf" else "inf"
  | S754_nan => "nan"
  end.

(** ** latency_report.csv *)

Definition csv_header : string := "metric,unit,count,min,p50,p90,max,avg".

Definition csv_line (r : metric_row) : option string :=
  p50 ← hist_percentile_ns (h r) 50;
  p90 ← hist_percentile_ns (h r) 90;
  Some (name r +:+ "," +:+ unit_ r +:+ "," +:+ to_string (count (h r)) +:+ "," +:+ to_string (min (h r)) +:+
        "," +:+ to_string p50 +:+ "," +:+ to_string p90 +:+ "," +:+ to_string (max (h r)) +:+ "," +:+
        fmt_f 0 (hist_avg_ns (h r))).

Fixpoint csv_lines (rows : list metric_row) : option string :=
  match rows with
  | [] => Some ""
  | r :: rows => l ← csv_line r; rest ← csv_lines rows; Some (line l +:+ rest)
  end.

Definition write_csv (rows : list metric_row) : option string :=
  rest ← csv_lines rows; Some (line csv_header +:+ rest).

(** ** latency_report.md *)

Definition md_line (r : metric_row) : option string :=
  p50 ← hist_percentile_ns (h r) 50;
  p90 ← hist_percentile_ns (h r) 90;
  Some ("| " +:+ name r +:+ " | " +:+ to_string (count (h r)) +:+ " | " +:+ to_string (min (h r)) +:+ " | " +:+
        to_string p50 +:+ " | " +:+ to_string p90 +:+ " | " +:+ to_string (max (h r)) +:+ " | " +:+
        fmt_f 0 (hist_avg_ns (h r)) +:+ " |").

Fixpoint md_lines (rows : list metric_row) : option string :=
  match rows with
  | [] => Some ""
  | r :: rows => l ← md_line r; rest ← md_lines rows; Some (line l +:+ rest)
  end.

(** The line of bucket [s], none when it is empty: bounds and count. *)
Definition bucket_row (s c : Z) : option (option (Z * Z * Z)) :=
  if c =? 0 then Some None
  else
    lo ← (if s =? 0 then Some 0 else shl_1ull s);
    hi ← shl_1ull (s + 1);
    Some (Some (lo, hi - 1, c)).

(** The loop over the buckets from [s] on. *)
Fixpoint bucket_rows (s : Z) (cs : list Z) : option (list (Z * Z * Z)) :=
  match cs with
  | [] => Some []
  | c :: cs =>
      b ← bucket_row s c;
      rest ← bucket_rows (s + 1) cs;
      Some (match b with Some b => b :: rest | None => rest end)
  end.

Definition bucket_text (b : Z * Z * Z) : string :=
  line ("| [" +:+ to_string b.1.1 +:+ ", " +:+ to_string b.1.2 +:+ "] | " +:+ to_string b.2 +:+ " |").

Definition concat_text (l : list string) : string := foldr String.append "" l.

Definition md_distribution (r : metric_row) : option string :=
  if count (h r) =? 0 then
    Some (line ("### " +:+ name r) +:+ line "" +:+ line "No samples observed." +:+ line "")
  else
    bs ← bucket_rows 0 (slots (h r));
    Some (line ("### " +:+ name r) +:+ line "" +:+ line "| range (ns) | count |" +:+
          line "|------------|------:|" +:+ concat_text (bucket_text <$> bs) +:+ line "").

Fixpoint md_distributions (rows : list metric_row) : option string :=
  match rows with
  | [] => Some ""
  | r :: rows => d ← md_distribution r; rest ← md_distributions rows; Some (d +:+ rest)
  end.

Definition counter_line (nm : string) (counters : list Z) (i : nat) : string :=
  line ("| " +:+ nm +:+ " | " +:+ to_string (default 0 (counters !! i)) +:+ " |").

Definition write_md_latency (rows : list metric_row) (counters : list Z) : option string :=
  table ← md_lines rows;
  dist ← md_distributions rows;
  Some (line "# Safety Co-Processor Supervisor - Latency Report" +:+ line "" +:+
        line "All latency values are in nanoseconds (ns). Percentiles (p50/p90) are approximated from log2 histogram buckets and represent the upper bound of the bucket containing the target rank. min/max/avg are exact." +:+
        line "" +:+
        line "## Latency metrics" +:+ line "" +:+
        line "| Metric | Count | Min (ns) | p50 (ns) | p90 (ns) | Max (ns) | Avg (ns) |" +:+
        line "|--------|------:|---------:|---------:|---------:|---------:|---------:|" +:+
        table +:+ line "" +:+ line "## Histogram distributions (log2 buckets)" +:+ line "" +:+
        dist +:+ line "## safety_copro tracepoint counts" +:+ line "" +:+
        line "| Tracepoint | Count |" +:+ line "|------------|------:|" +:+
        counter_line "safety_frame_received" counters CNT_FRAME_RECEIVED +:+
        counter_line "safety_frame_dropped" counters CNT_FRAME_DROPPED +:+
        counter_line "safety_timeout_detected" counters CNT_TIMEOUT_DETECTED +:+
        counter_line "safety_recovery_queued" counters CNT_RECOVERY_QUEUED +:+
        counter_line "safety_poll_wakeup" counters CNT_POLL_WAKEUP +:+ line "").

(** ** fault_timeline.md *)

Definition rel_seconds (g_start_mono_ns ts_ns : Z) : spec_float :=
  if ts_ns <=? g_start_mono_ns then S754_zero false
  else double_div (double_of_Z (u64 (ts_ns - g_start_mono_ns))) (double_of_Z 1000000000).

Definition ms_text (none : string) (d : option Z) : string :=
  match d with
  | Some d => fmt_f 3 (double_div (double_of_Z d) (double_of_Z 1000000))
  | None => none
  end.

Definition event_row (start : Z) (i : nat) (e : timeline_event) : string :=
  line ("| " +:+ to_string (Z.of_nat i + 1) +:+ " | " +:+ fmt_f 6 (rel_seconds start (ts e)) +:+ " | " +:+
        tl_kind_str (kind e) +:+ " | " +:+ to_string (aux e) +:+ " |").

Definition cycle_row (start : Z) (i : nat) (c : fault_cycle) : string :=
  let '(to_rec, rec_res, total) := cycle_durations c in
  line ("| " +:+ to_string (Z.of_nat i + 1) +:+ " | " +:+ fmt_f 6 (rel_seconds start (t_timeout c)) +:+ " | " +:+
        ms_text "n/a" to_rec +:+ " | " +:+ ms_text "n/a" rec_res +:+ " | " +:+
        ms_text "n/a (not yet recovered)" total +:+ " |").

Definition write_fault_timeline (start : Z) (g_timeline : list timeline_event) : string :=
  line "# Safety Co-Processor Supervisor - Fault-to-Recovery Timeline" +:+ line "" +:+
  line "Timestamps are relative to tracing start (seconds). Durations are in milliseconds (ms)." +:+ line "" +:+
  if (length g_timeline =? 0)%nat then
    line "No fault/recovery events were observed during the tracing window."
  else
    line "## Ordered events" +:+ line "" +:+
    line "| # | t (s) | event | aux |" +:+ line "|--:|------:|-------|----:|" +:+
    concat_text (imap (event_row start) g_timeline) +:+ line "" +:+
    line "## Fault-to-recovery cycles" +:+ line "" +:+
    line "| Cycle | timeout t (s) | timeout->recovery (ms) | recovery->restored (ms) | total fault->recovery (ms) |" +:+
    line "|------:|--------------:|-----------------------:|------------------------:|---------------------------:|" +:+
    concat_text (imap (cycle_row start) (fault_cycles (length g_timeline) g_timeline)) +:+ line "".

(** ** The three files *)

(** What [mkdir] and the three [fopen] say: the directory is there, a file
    opens. *)
Record report_calls := mkReportCalls {
  ncpu : Z; dir_there : bool; csv_open : bool; md_open : bool; timeline_open : bool }.

(** [snprintf(path, sizeof(path), "%s/<file>", dir)] into 1024 bytes. *)
Definition report_path (dir file : string) : string := String.substring 0 1023 (dir +:+ "/" +:+ file).

(** [generate_reports]: its result and the files written, in order; a text is
    [None] where writing it is undefined. *)
Definition generate_reports (c : report_calls) (dir : string) (rows : list metric_row) (counters : list Z)
    (start : Z) (g_timeline : list timeline_event) : Z * list (string * option string) :=
  if ncpu c <=? 0 then (- 1, [])
  else if negb (dir_there c) then (- 1, [])
  else if negb (csv_open c) then (- 1, [])
  else
    let csv := (report_path dir "latency_report.csv", write_csv rows) in
    if negb (md_open c) then (- 1, [csv])
    else
      let md := (report_path dir "latency_report.md", write_md_latency rows counters) in
      if negb (timeline_open c) then (- 1, [csv; md])
      else (0, [csv; md; (report_path dir "fault_timeline.md", Some (write_fault_timeline start g_timeline))]).

(** ** The polling loop *)

Definition EINTR_ : Z := 4.

(** One round: whether [exiting] is set at its top, the records the callback gets
    with their sizes, what [ring_buffer__poll] returns, and the clock after it. *)
Record poll_round := mkPoll {
  exiting : bool; records : list (timeline_event * Z); poll_err : Z; poll_now : Z }.

Inductive trace_end := TrExiting | TrIntr | TrError | TrDeadline | TrRunning.

#[global] Instance trace_end_eq_dec : EqDecision trace_end.
Proof. solve_decision. Defined.

Definition collect (g_timeline : list timeline_event) (recs : list (timeline_event * Z)) : list timeline_event :=
  foldl (fun g r => handle_rb_event g r.1 r.2) g_timeline recs.

(** [deadline_ns]; 0 for none. *)
Definition trace_deadline (start duration_sec : Z) : Z :=
  if duration_sec >? 0 then u64 (start + u64 (duration_sec * 1000000000)) else 0.

Fixpoint trace_loop (deadline_ns : Z) (rounds : list poll_round) (g : list timeline_event) :
    trace_end * list timeline_event :=
  match rounds with
  | [] => (TrRunning, g)
  | r :: rounds =>
      if exiting r then (TrExiting, g)
      else
        let g := collect g (records r) in
        if poll_err r =? - EINTR_ then (TrIntr, g)
        else if poll_err r <? 0 then (TrError, g)
        else if negb (deadline_ns =? 0) && (poll_now r >=? deadline_ns) then (TrDeadline, g)
        else trace_loop deadline_ns rounds g
  end.

(** ** [main] *)

(** The results of setting up: the skeleton opens, [load] and [attach] return
    an error or 0, the ring buffer is made. *)
Record setup_calls := mkSetup { skel_ok : bool; load_err : Z; attach_err : Z; rb_ok : bool }.

(** What [main] holds and gives back. *)
Inductive resource_op := SkelOpen | SkelDestroy | RbNew | RbFree.

#[global] Instance resource_op_eq_dec : EqDecision resource_op.
Proof. solve_decision. Defined.

(** [main] once the options are read: its code, the resources in order, and what
    [generate_reports] wrote.  [last]: the records of the final
    [ring_buffer__consume].  Freeing no ring buffer does nothing. *)
Definition trace_main (e : Tr.env) (c : setup_calls) (start : Z) (rounds : list poll_round)
    (last : list (timeline_event * Z)) (rc : report_calls) (rows : list metric_row) (counters : list Z) :
    Z * list resource_op * list (string * option string) :=
  if negb (skel_ok c) then (1, [], [])
  else if negb (load_err c =? 0) then (1, [SkelOpen; SkelDestroy], [])
  else if negb (attach_err c =? 0) then (1, [SkelOpen; SkelDestroy], [])
  else if negb (rb_ok c) then (1, [SkelOpen; SkelDestroy], [])
  else
    let t := trace_loop (trace_deadline start (Tr.duration_sec e)) rounds [] in
    let g := collect t.2 last in
    let rep := generate_reports rc (Tr.report_dir e) rows counters start g in
    (if rep.1 =? 0 then 0 else 1, [SkelOpen; RbNew; RbFree; SkelDestroy], rep.2).
