(* ===== verification/TracerSpec.v ===== *)
(** * What the report files say

    The CSV file is read back field by field; the lines of a histogram count the
    samples in their ranges; the timeline holds the records delivered. *)

From Stdlib Require Import Ascii SpecFloat.
From S2P Require Import Prelude Supervisor Logger LoggerSpec Csv Cli CliSpec.
From S2P Require Import Ebpf EbpfReport EbpfHist EbpfCycles TracerReport.

#[local] Arguments String.append !_ _ /.

(** ** Fields of a line *)

Lemma zeros_cell n : cell (zeros n).
Proof. induction n; [done|]. by split. Qed.

Lemma fixed_text_cell prec x : cell (fixed_text prec x).
Proof.
  unfold fixed_text, padded. apply cell_app; [apply to_string_cell|]. destruct (prec =? 0)%nat; [done|].
  apply (cell_app "."); [done|]. apply cell_app; [apply zeros_cell|apply to_string_cell].
Qed.

Lemma fmt_f_cell prec x : cell (fmt_f prec x).
Proof. destruct x as [[]|[]| |[]]; cbn [fmt_f]; try done; (apply cell_app; [done|]); apply fixed_text_cell. Qed.

(** ** The CSV file *)

Section Csv.
Variables (r : metric_row) (p50 p90 : Z).
Hypotheses (cells : cell (name r) /\ cell (unit_ r))
           (H50 : hist_percentile_ns (h r) 50 = Some p50) (H90 : hist_percentile_ns (h r) 90 = Some p90).

Definition csv_fields : list string :=
  [name r; unit_ r; to_string (count (h r)); to_string (min (h r)); to_string p50; to_string p90;
   to_string (max (h r)); fmt_f 0 (hist_avg_ns (h r))].

Lemma csv_line_fields :
  exists l, csv_line r = Some l /\ split_comma l = csv_fields /\ all_chars not_newline l.
Proof.
  unfold csv_line. rewrite H50, H90. cbn [mbind option_bind]. eexists. split; [reflexivity|].
  destruct cells as [Hn Hu]. split.
  - do 7 (rewrite split_comma_app by (done || apply to_string_cell)).
    by rewrite split_comma_cell by apply fmt_f_cell.
  - assert (all_chars not_newline ",") as Hc by done.
    rewrite !all_chars_app. split_and?; auto using cell_no_newline, to_string_cell, fmt_f_cell.
Qed.

End Csv.

(** The two percentiles of a row are defined. *)
Definition percentiles_defined (r : metric_row) : Prop :=
  exists p50 p90, hist_percentile_ns (h r) 50 = Some p50 /\ hist_percentile_ns (h r) 90 = Some p90.

Lemma csv_lines_fields rows :
  Forall (fun r => cell (name r) /\ cell (unit_ r) /\ percentiles_defined r) rows ->
  exists text, csv_lines rows = Some text /\
    Forall2 (fun r l => forall p50 p90, hist_percentile_ns (h r) 50 = Some p50 ->
                        hist_percentile_ns (h r) 90 = Some p90 -> split_comma l = csv_fields r p50 p90)
      rows (getlines text).
Proof.
  induction 1 as [|r rows (Hn & Hu & p50 & p90 & H5 & H9) _ (text & Ht & IH)]; [by exists ""|].
  destruct (csv_line_fields r p50 p90 (conj Hn Hu) H5 H9) as (l & Hl & Hf & Hnl).
  cbn [csv_lines]. rewrite Hl, Ht. cbn [mbind option_bind]. eexists. split; [reflexivity|].
  unfold line. rewrite str_app_assoc, getlines_line by done. constructor; [|done].
  intros q5 q9 H5' H9'. rewrite H5 in H5'. rewrite H9 in H9'. by injection H5' as <-; injection H9' as <-.
Qed.

(** ** The lines of a histogram *)

(** The number of samples between two bounds. *)
Definition samples_in (l : list Z) (lo hi : Z) : Z :=
  Z.of_nat (length (filter (fun x => lo <= x <= hi) l)).

Definition bucket_lo (s : Z) : Z := if s =? 0 then 0 else 2 ^ s.
Definition bucket_hi (s : Z) : Z := 2 ^ (s + 1) - 1.

Lemma bucket_range x s : 0 <= x -> 0 <= s -> Z.log2 x = s <-> bucket_lo s <= x <= bucket_hi s.
Proof.
  intros Hx Hs. unfold bucket_lo, bucket_hi. destruct (Z.eqb_spec s 0) as [->|Hne].
  - change (2 ^ (0 + 1)) with 2. split; [|intros H; assert (x = 0 \/ x = 1) as [-> | ->] by lia; done].
    intros H. destruct (decide (x <= 1)) as [Hle|Hgt]; [lia|].
    pose proof (Z.log2_le_mono 2 x ltac:(lia)) as Hm. change (Z.log2 2) with 1 in Hm. lia.
  - rewrite log2_bucket by lia. lia.
Qed.

Lemma in_bucket_samples l s :
  Forall is_u64 l -> 0 <= s -> in_bucket l s = samples_in l (bucket_lo s) (bucket_hi s).
Proof.
  intros Hl Hs. unfold in_bucket, samples_in. f_equal. induction Hl as [|x l Hx Hl IH]; [done|].
  pose proof (bucket_range x s (proj1 Hx) Hs) as Hb. rewrite !filter_cons.
  destruct (decide (Z.log2 x = s)), (decide (bucket_lo s <= x <= bucket_hi s)); cbn [length]; tauto || congruence.
Qed.

(** The lines the samples call for: one for each range that is not empty. *)
Definition wanted_rows (l : list Z) (ss : list Z) : list (Z * Z * Z) :=
  filter (fun b => b.2 <> 0) ((fun s => (bucket_lo s, bucket_hi s, samples_in l (bucket_lo s) (bucket_hi s))) <$> ss).

Lemma wanted_cons l s ss :
  wanted_rows l (s :: ss) =
  (if samples_in l (bucket_lo s) (bucket_hi s) =? 0 then []
   else [(bucket_lo s, bucket_hi s, samples_in l (bucket_lo s) (bucket_hi s))]) ++ wanted_rows l ss.
Proof.
  unfold wanted_rows. cbn [fmap list_fmap]. rewrite filter_cons. cbn [snd].
  destruct (Z.eqb_spec (samples_in l (bucket_lo s) (bucket_hi s)) 0) as [E|E];
    [rewrite decide_False by (intros H'; by apply H')|rewrite decide_True by done]; done.
Qed.

Lemma bucket_row_some s c :
  0 <= s < 63 -> bucket_row s c = Some (if c =? 0 then None else Some (bucket_lo s, bucket_hi s, c)).
Proof.
  intros Hs. unfold bucket_row, bucket_lo, bucket_hi, shl_1ull. destruct (c =? 0); [done|].
  rewrite (proj2 (Z.ltb_lt s 64)), (proj2 (Z.ltb_lt (s + 1) 64)) by lia. by destruct (s =? 0).
Qed.

Lemma bucket_rows_spec l n s :
  Forall is_u64 l -> 0 <= s -> s + Z.of_nat n = 64 ->
  bucket_rows s ((fun i => in_bucket l (Z.of_nat i)) <$> seq (Z.to_nat s) n) =
  if bool_decide (n <> 0%nat /\ samples_in l (2 ^ 63) (2 ^ 64 - 1) <> 0) then None
  else Some (wanted_rows l (Z.of_nat <$> seq (Z.to_nat s) (n - 1))).
Proof.
  intros Hl. revert s. induction n as [|n IH]; intros s Hs Hn; [by rewrite bool_decide_eq_false_2 by tauto|].
  cbn [seq fmap list_fmap bucket_rows]. rewrite Z2Nat.id by lia.
  rewrite in_bucket_samples by done. destruct n as [|n].
  - assert (s = 63) as -> by lia. unfold bucket_row. cbn [bucket_rows].
    change (bucket_lo 63) with (2 ^ 63). change (bucket_hi 63) with (2 ^ 64 - 1).
    destruct (Z.eqb_spec (samples_in l (2 ^ 63) (2 ^ 64 - 1)) 0) as [E|E].
    + rewrite bool_decide_eq_false_2 by tauto. done.
    + rewrite bool_decide_eq_true_2 by (split; [lia|done]). done.
  - rewrite bucket_row_some by lia. cbn [mbind option_bind].
    specialize (IH (s + 1) ltac:(lia) ltac:(lia)). replace (Z.to_nat (s + 1)) with (S (Z.to_nat s)) in IH by lia.
    rewrite IH. destruct (decide (samples_in l (2 ^ 63) (2 ^ 64 - 1) = 0)) as [E0|E0].
    2: { rewrite !bool_decide_eq_true_2 by (split; [lia|done]). by destruct (_ =? 0). }
    rewrite !bool_decide_eq_false_2 by tauto. cbn [mbind option_bind]. f_equal.
    replace (S (S n) - 1)%nat with (S (S n - 1)) by lia. cbn [seq fmap list_fmap].
    rewrite wanted_cons, Z2Nat.id by lia. by destruct (_ =? 0).
Qed.

(** The table of a histogram: with no sample of 2^63 ns or more, one line for
    each of the ranges [0, 1], [2, 3], [4, 7] ... that holds samples, with their
    number; else its text is undefined. *)
Lemma bucket_rows_exact l hh :
  summarises l hh ->
  bucket_rows 0 (slots hh) =
  if bool_decide (samples_in l (2 ^ 63) (2 ^ 64 - 1) <> 0) then None
  else Some (wanted_rows l (Z.of_nat <$> seq 0 63)).
Proof.
  intros Hs. rewrite (sum_slots _ _ Hs).
  pose proof (bucket_rows_spec l 64 0 (sum_u64 _ _ Hs) ltac:(lia) ltac:(lia)) as H.
  change (Z.to_nat 0) with 0%nat in H. change (64 - 1)%nat with 63%nat in H. rewrite H.
  destruct (decide (samples_in l (2 ^ 63) (2 ^ 64 - 1) = 0)) as [E0|E0].
  - by rewrite !bool_decide_eq_false_2 by tauto.
  - by rewrite !bool_decide_eq_true_2 by (done || (split; [lia|done])).
Qed.

(** ** latency_report.md *)

(** A row of a Markdown table. *)
Definition md_row (cells : list string) : string :=
  "|" +:+ foldr (fun c t => " " +:+ c +:+ " |" +:+ t) "" cells.

(** What the row of a metric shows. *)
Definition summary_cells (r : metric_row) : list string :=
  [name r; to_string (count (h r)); to_string (min (h r));
   to_string (default 0 (hist_percentile_ns (h r) 50)); to_string (default 0 (hist_percentile_ns (h r) 90));
   to_string (max (h r)); fmt_f 0 (hist_avg_ns (h r))].

Definition range_cells (b : Z * Z * Z) : list string :=
  ["[" +:+ to_string b.1.1 +:+ ", " +:+ to_string b.1.2 +:+ "]"; to_string b.2].

(** The section of a metric with the samples [l]. *)
Definition section_lines (r : metric_row) (l : list Z) : list string :=
  ["### " +:+ name r; ""] ++
  (if decide (l = []) then ["No samples observed."]
   else md_row ["range (ns)"; "count"] :: "|------------|------:|" ::
        (md_row ∘ range_cells <$> wanted_rows l (Z.of_nat <$> seq 0 63))) ++ [""].

Definition counter_cells (counters : list Z) (c : string * nat) : list string :=
  [c.1; to_string (default 0 (counters !! c.2))].

(** The whole file. *)
Definition latency_md_lines (rows : list metric_row) (samples : list (list Z)) (counters : list Z) : list string :=
  ["# Safety Co-Processor Supervisor - Latency Report"; "";
   "All latency values are in nanoseconds (ns). Percentiles (p50/p90) are approximated from log2 histogram buckets and represent the upper bound of the bucket containing the target rank. min/max/avg are exact.";
   ""; "## Latency metrics"; "";
   md_row ["Metric"; "Count"; "Min (ns)"; "p50 (ns)"; "p90 (ns)"; "Max (ns)"; "Avg (ns)"];
   "|--------|------:|---------:|---------:|---------:|---------:|---------:|"] ++
  (md_row ∘ summary_cells <$> rows) ++
  [""; "## Histogram distributions (log2 buckets)"; ""] ++
  concat (zip_with section_lines rows samples) ++
  ["## safety_copro tracepoint counts"; ""; md_row ["Tracepoint"; "Count"]; "|------------|------:|"] ++
  (md_row ∘ counter_cells counters <$>
     [("safety_frame_received", CNT_FRAME_RECEIVED); ("safety_frame_dropped", CNT_FRAME_DROPPED);
      ("safety_timeout_detected", CNT_TIMEOUT_DETECTED); ("safety_recovery_queued", CNT_RECOVERY_QUEUED);
      ("safety_poll_wakeup", CNT_POLL_WAKEUP)]) ++ [""].

(** Text made of lines. *)
Definition lines_text (ls : list string) : string := concat_text (line <$> ls).

Lemma lines_text_app a b : lines_text (a ++ b) = lines_text a +:+ lines_text b.
Proof.
  induction a as [|l a IH]; [done|]. cbn [lines_text concat_text fmap list_fmap foldr app].
  rewrite str_app_assoc. by f_equal.
Qed.

Lemma lines_text_cons l ls : lines_text (l :: ls) = line l +:+ lines_text ls.
Proof. done. Qed.

Lemma lines_text_step l ls k : lines_text (l :: ls) +:+ k = line l +:+ (lines_text ls +:+ k).
Proof. rewrite lines_text_cons. apply str_app_assoc. Qed.

Lemma lines_text_end k : lines_text [] +:+ k = k.
Proof. done. Qed.

Lemma getlines_lines_text ls : Forall (all_chars not_newline) ls -> getlines (lines_text ls) = ls.
Proof.
  induction 1 as [|l ls Hl _ IH]; [done|]. rewrite lines_text_cons. unfold line.
  by rewrite str_app_assoc, getlines_line, IH.
Qed.

Lemma md_row_no_newline cells : Forall (all_chars not_newline) cells -> all_chars not_newline (md_row cells).
Proof.
  intros H. unfold md_row. apply all_chars_app. split; [by repeat split|].
  induction H as [|c cells Hc _ IH]; [done|]. cbn [foldr]. rewrite !all_chars_app. by repeat split.
Qed.

Lemma md_lines_text rows :
  Forall percentiles_defined rows -> md_lines rows = Some (lines_text (md_row ∘ summary_cells <$> rows)).
Proof.
  induction 1 as [|r rows (p50 & p90 & H5 & H9) _ IH]; [done|]. cbn [md_lines fmap list_fmap].
  rewrite lines_text_cons, IH. unfold md_line, compose, summary_cells. by rewrite H5, H9.
Qed.

Lemma bucket_text_lines bs : concat_text (bucket_text <$> bs) = lines_text (md_row ∘ range_cells <$> bs).
Proof.
  induction bs as [|b bs IH]; [done|]. cbn [fmap list_fmap]. rewrite lines_text_cons. cbn [concat_text foldr].
  unfold concat_text in IH. rewrite IH. f_equal. unfold bucket_text, compose, md_row, range_cells. cbn [foldr].
  f_equal. by rewrite !str_app_assoc.
Qed.

Lemma md_distribution_text l r :
  summarises l (h r) ->
  md_distribution r = if bool_decide (samples_in l (2 ^ 63) (2 ^ 64 - 1) <> 0) then None
                      else Some (lines_text (section_lines r l)).
Proof.
  intros Hs. unfold md_distribution, section_lines. rewrite (sum_count _ _ Hs).
  destruct (decide (l = [])) as [->|Hl].
  { rewrite bool_decide_eq_false_2 by (intros H; by apply H). cbn [length Z.of_nat Z.eqb]. done. }
  destruct (Z.eqb_spec (Z.of_nat (length l)) 0) as [E|_]; [destruct l; [done|cbn in E; lia]|].
  rewrite (bucket_rows_exact _ _ Hs). case_match; [done|]. cbn [mbind option_bind].
  rewrite bucket_text_lines. cbn [app]. by rewrite !lines_text_cons, lines_text_app.
Qed.

Lemma md_distributions_text rows samples :
  Forall2 summarises samples (h <$> rows) ->
  md_distributions rows =
  if bool_decide (Exists (fun l => samples_in l (2 ^ 63) (2 ^ 64 - 1) <> 0) samples) then None
  else Some (lines_text (concat (zip_with section_lines rows samples))).
Proof.
  revert samples. induction rows as [|r rows IH]; intros samples H.
  { apply Forall2_nil_inv_r in H as ->. by rewrite bool_decide_eq_false_2 by (intros H; inversion H). }
  apply Forall2_cons_inv_r in H as (l & samples' & Hs & H & ->). cbn [md_distributions zip_with concat].
  rewrite (md_distribution_text _ _ Hs), (IH _ H), lines_text_app.
  do 2 (case_bool_decide; cbn [mbind option_bind]); [rewrite bool_decide_eq_true_2|rewrite bool_decide_eq_true_2
    |rewrite bool_decide_eq_true_2|rewrite bool_decide_eq_false_2]; rewrite ?Exists_cons; tauto.
Qed.

Lemma section_no_newline r l : cell (name r) -> Forall (all_chars not_newline) (section_lines r l).
Proof.
  intros Hn. unfold section_lines. rewrite !Forall_app, !Forall_cons. split_and!; try done.
  { apply all_chars_app. split; [by repeat split|by apply cell_no_newline]. }
  destruct (decide _); [by repeat constructor|]. rewrite !Forall_cons. split_and!; [by repeat split..|].
  apply Forall_fmap, Forall_true. intros b. apply md_row_no_newline. unfold range_cells. rewrite !Forall_cons.
  split_and!; [|apply to_string_no_newline|done]. rewrite !all_chars_app.
  split_and!; apply to_string_no_newline || by repeat split.
Qed.

Lemma latency_md_no_newline rows samples counters :
  Forall (fun r => cell (name r)) rows -> Forall (all_chars not_newline) (latency_md_lines rows samples counters).
Proof.
  intros H. unfold latency_md_lines. rewrite !Forall_app. split_and!.
  - repeat (constructor; [by repeat split|]). constructor.
  - apply Forall_fmap. eapply Forall_impl; [exact H|]. intros r Hr. apply md_row_no_newline. unfold summary_cells.
    repeat (constructor; [by (apply cell_no_newline; exact Hr) || apply to_string_no_newline ||
      apply cell_no_newline, fmt_f_cell|]). constructor.
  - repeat (constructor; [by repeat split|]). constructor.
  - revert samples. induction H as [|r rows Hr _ IH]; intros [|l samples]; [constructor..|].
    cbn [zip_with concat]. apply Forall_app. split; [by apply section_no_newline|apply IH].
  - repeat (constructor; [by repeat split|]). constructor.
  - apply Forall_fmap. unfold compose, counter_cells.
    do 5 (apply Forall_cons_2; [apply md_row_no_newline, Forall_cons_2; [by repeat split|];
      apply Forall_cons_2; [apply to_string_no_newline|constructor]|]). constructor.
  - by repeat constructor.
Qed.

(** The file, line by line; with a sample of 2^63 ns or more its text is
    undefined. *)
Lemma write_md_latency_lines rows samples counters :
  Forall (fun r => cell (name r)) rows -> Forall percentiles_defined rows ->
  Forall2 summarises samples (h <$> rows) ->
  getlines <$> write_md_latency rows counters =
  if bool_decide (Exists (fun l => samples_in l (2 ^ 63) (2 ^ 64 - 1) <> 0) samples) then None
  else Some (latency_md_lines rows samples counters).
Proof.
  intros Hn Hp Hs. unfold write_md_latency. rewrite (md_lines_text _ Hp), (md_distributions_text _ _ Hs).
  case_bool_decide; [done|]. cbn [mbind option_bind fmap option_fmap option_map]. apply (f_equal Some).
  rewrite <- (getlines_lines_text (latency_md_lines rows samples counters)) by by apply latency_md_no_newline.
  apply (f_equal getlines). unfold latency_md_lines. rewrite !lines_text_app.
  rewrite !lines_text_step, !lines_text_end. cbn [fmap list_fmap]. rewrite !lines_text_step, !lines_text_end.
  repeat (apply (f_equal2 String.append); [reflexivity|]). reflexivity.
Qed.

(** ** The timeline *)

(** Records the callback keeps. *)
Definition whole (r : timeline_event * Z) : Prop := 16 <= r.2.

Lemma collect_spec g recs :
  (length g <= MAX_TIMELINE)%nat ->
  collect g recs = take MAX_TIMELINE (g ++ (filter whole recs).*1).
Proof.
  revert g. induction recs as [|r recs IH]; intros g Hg.
  { cbn. by rewrite app_nil_r, take_ge. }
  unfold collect. cbn [foldl]. fold (collect (handle_rb_event g r.1 r.2) recs).
  rewrite filter_cons. unfold handle_rb_event.
  destruct (r.2 <? 16) eqn:Er.
  { rewrite decide_False by (unfold whole; lia). by apply IH. }
  rewrite decide_True by (unfold whole; lia). cbn [fmap list_fmap].
  destruct (length g <? MAX_TIMELINE)%nat eqn:El.
  - apply Nat.ltb_lt in El. rewrite IH by (rewrite length_app; cbn; lia). by rewrite <- app_assoc.
  - apply Nat.ltb_ge in El. rewrite IH by done. rewrite !take_app_le by lia. done.
Qed.

Lemma length_collect g recs :
  (length g <= MAX_TIMELINE)%nat -> (length (collect g recs) <= MAX_TIMELINE)%nat.
Proof. intros H. rewrite collect_spec by done. rewrite length_take. lia. Qed.

(** The rounds the loop goes through, and how it ends. *)
Fixpoint polls_done (deadline : Z) (rounds : list poll_round) : list poll_round * trace_end :=
  match rounds with
  | [] => ([], TrRunning)
  | r :: rounds =>
      if exiting r then ([], TrExiting)
      else if poll_err r =? - EINTR_ then ([r], TrIntr)
      else if poll_err r <? 0 then ([r], TrError)
      else if negb (deadline =? 0) && (poll_now r >=? deadline) then ([r], TrDeadline)
      else let d := polls_done deadline rounds in (r :: d.1, d.2)
  end.

Lemma take_take_app {A} n (g l : list A) : (length g <= n)%nat -> forall k, take n (take n (g ++ l) ++ k) = take n (g ++ l ++ k).
Proof.
  intros Hg k. rewrite app_assoc. destruct (decide (length (g ++ l) <= n)%nat) as [H|H].
  - by rewrite (take_ge (g ++ l)) by lia.
  - rewrite (take_app_le (take n (g ++ l)) k) by (rewrite length_take; lia).
    rewrite (take_app_le (g ++ l) k) by lia. by rewrite take_take, Nat.min_id.
Qed.

Lemma trace_loop_run deadline rounds g :
  (length g <= MAX_TIMELINE)%nat ->
  trace_loop deadline rounds g =
  ((polls_done deadline rounds).2,
   take MAX_TIMELINE (g ++ (filter whole (concat (records <$> (polls_done deadline rounds).1))).*1)).
Proof.
  revert g. induction rounds as [|r rounds IH]; intros g Hg; cbn [trace_loop polls_done].
  { cbn. by rewrite app_nil_r, take_ge. }
  destruct (exiting r); [cbn; by rewrite app_nil_r, take_ge|].
  assert (collect g (records r) = take MAX_TIMELINE (g ++ (filter whole (concat (records <$> [r]))).*1)) as Hc.
  { cbn [fmap list_fmap concat]. rewrite app_nil_r. by apply collect_spec. }
  destruct (poll_err r =? - EINTR_); [by rewrite Hc|]. destruct (poll_err r <? 0); [by rewrite Hc|].
  destruct (_ && _); [by rewrite Hc|]. rewrite IH by by apply length_collect. cbn [fst snd]. f_equal.
  rewrite collect_spec by done. cbn [fmap list_fmap concat]. rewrite filter_app, fmap_app.
  by apply take_take_app.
Qed.
