(* ===== verification/Doubles.v ===== *)
(** * The doubles of the tracer's report

    [double_of_Z] is exact below 2^53 and [double_div] is within half a unit of
    the last place of the quotient, so a printed number is within half a unit of
    its last digit, and little more, of the number it stands for. *)

From Stdlib Require Import SpecFloat.
From S2P Require Import Prelude Ebpf EbpfReport TracerReport.

Abbreviation round_aux := (binary_round_aux 53 1024).

(** ** Numbers of digits *)

Lemma digits_log2 p : Z.pos (digits2_pos p) = Z.log2 (Z.pos p) + 1.
Proof.
  induction p as [p IH|p IH|]; cbn [digits2_pos]; [| |done].
  - rewrite Pos2Z.inj_succ, IH. change (Z.pos p~1) with (2 * Z.pos p + 1). rewrite Z.log2_succ_double by lia. lia.
  - rewrite Pos2Z.inj_succ, IH. change (Z.pos p~0) with (2 * Z.pos p). rewrite Z.log2_double by lia. lia.
Qed.

Lemma digits_range p n : 2 ^ (n - 1) <= Z.pos p < 2 ^ n -> 0 < n -> Zdigits2 (Z.pos p) = n.
Proof.
  intros H Hn. cbn [Zdigits2]. rewrite digits_log2.
  rewrite (Z.log2_unique (Z.pos p) (n - 1)); [lia..|]. by replace (Z.succ (n - 1)) with n by lia.
Qed.

Lemma fexp_normal e : -1021 <= e -> fexp 53 1024 e = e - 53.
Proof. intros H. unfold fexp, emin. lia. Qed.

(** ** Rounding *)

(** A location against a remainder [r] of a division by [d]. *)
Definition loc_ok (r d : Z) (l : location) : Prop :=
  match l with
  | loc_Exact => r = 0
  | loc_Inexact c => 0 < r < d /\ (2 * r ?= d) = c
  end.

Lemma new_location_ok d r : 0 <= r < d -> loc_ok r d (new_location d r).
Proof.
  intros Hr. unfold new_location, new_location_even, new_location_odd.
  destruct (Z.even d) eqn:Ed; destruct (Z.eqb_spec r 0); try done; cbn [loc_ok]; (split; [lia|]); [done|].
  assert (Z.odd d = true) as Ho by (by rewrite <- Z.negb_even, Ed).
  apply Z.odd_spec in Ho as [k Hk].
  destruct (Z.compare_spec (2 * r + 1) d); destruct (Z.compare_spec (2 * r) d); done || lia.
Qed.

Lemma round_even_close m r d l :
  0 <= m -> 0 <= r < d -> loc_ok r d l ->
  let m' := round_nearest_even m l in
  m <= m' <= m + 1 /\ 2 * Z.abs (m * d + r - m' * d) <= d.
Proof.
  intros Hm Hr Hl. cbn zeta. destruct l as [|c]; cbn [round_nearest_even loc_ok] in *; [lia|]. destruct Hl as [Hr' Hc].
  destruct (Z.compare_spec (2 * r) d); subst c; [destruct (Z.even m)|..]; lia.
Qed.

Lemma record_loc m l : loc_of_shr_record (shr_record_of_loc m l) = l.
Proof. by destruct l as [|[]]. Qed.
Lemma record_m m l : shr_m (shr_record_of_loc m l) = m.
Proof. by destruct l as [|[]]. Qed.

(** One bit less: the bit joins the remainder. *)
Lemma shr_1_ok m r d l :
  0 <= m -> 0 <= r < d -> loc_ok r d l ->
  let rec := shr_1 (shr_record_of_loc m l) in
  shr_m rec = m / 2 /\ loc_ok (m mod 2 * d + r) (2 * d) (loc_of_shr_record rec).
Proof.
  intros Hm Hr Hl.
  assert (exists b, m = 2 * (m / 2) + Z.b2z b /\ m mod 2 = Z.b2z b /\
            shr_1 (shr_record_of_loc m l) =
            Build_shr_record (m / 2) b (shr_r (shr_record_of_loc m l) || shr_s (shr_record_of_loc m l)))
    as (b & Hdiv & Hmod & ->).
  { exists (Z.odd m). pose proof (Z.div_mod m 2 ltac:(lia)) as Hdm. pose proof (Zmod_odd m) as Hmo.
    unfold Z.b2z. split; [lia|]. split; [exact Hmo|]. clear Hdm Hmo.
    destruct m as [|[p|p|]|p]; try lia;
      try replace (Z.pos p~1 / 2) with (Z.pos p) by (apply (Z.div_unique _ _ _ 1); lia);
      try replace (Z.pos p~0 / 2) with (Z.pos p) by (apply (Z.div_unique _ _ _ 0); lia);
      by destruct l as [|[]]. }
  cbn zeta. split; [done|]. rewrite Hmod. clear Hdiv Hmod.
  destruct l as [|c]; [|destruct Hl as [Hr' Hc]; destruct (Z.compare_spec (2 * r) d); subst c]; cbn [loc_ok] in *;
    destruct b; cbn [shr_r shr_s orb shr_record_of_loc loc_of_shr_record loc_ok Z.b2z]; try lia;
    (split; [lia|]); match goal with |- (?x ?= ?y) = _ => destruct (Z.compare_spec x y) end; done || lia.
Qed.

(** A quotient of 53 or 54 bits with its remainder is rounded to 53 bits: the
    exponent grows by [n] bits, and the result is within half a unit. *)
Lemma round_aux_close q r d e l :
  0 < d -> 0 <= r < d -> loc_ok r d l -> 2 ^ 52 <= q < 2 ^ 54 -> -1074 <= e <= 900 ->
  exists m n, round_aux false q e l = S754_finite false m (e + n) /\ 0 <= n <= 2 /\
              2 ^ 52 <= Z.pos m < 2 ^ 53 /\ 2 * Z.abs (q * d + r - Z.pos m * 2 ^ n * d) <= 2 ^ n * d.
Proof.
  intros Hd Hr Hl Hq He. unfold binary_round_aux, shr_fexp.
  assert (exists m1 l1 k d1, shr (shr_record_of_loc q l) e (fexp 53 1024 (Zdigits2 q + e) - e) =
            (m1, e + k) /\ loc_of_shr_record m1 = l1 /\ 0 <= k <= 1 /\ d1 = 2 ^ k * d /\
            2 ^ 52 <= shr_m m1 < 2 ^ 53 /\ 0 <= q * d + r - shr_m m1 * d1 < d1 /\
            loc_ok (q * d + r - shr_m m1 * d1) d1 l1) as (m1 & l1 & k & d1 & -> & Hl1 & Hk & Hd1 & Hm1 & Hr1 & Hok).
  { destruct q as [|q|q]; try lia. destruct (decide (Z.pos q < 2 ^ 53)) as [Hs|Hs].
    - rewrite (digits_range q 53), fexp_normal by lia. replace (53 + e - 53 - e) with 0 by lia.
      exists (shr_record_of_loc (Z.pos q) l), l, 0, d. rewrite record_loc, record_m. cbn [shr].
      replace (Z.pos q * d + r - Z.pos q * d) with r by lia. rewrite Z.add_0_r. split_and!; try done; lia.
    - rewrite (digits_range q 54), fexp_normal by lia. replace (54 + e - 53 - e) with 1 by lia.
      destruct (shr_1_ok (Z.pos q) r d l) as [Em El]; [lia|done..|].
      exists (shr_1 (shr_record_of_loc (Z.pos q) l)), (loc_of_shr_record (shr_1 (shr_record_of_loc (Z.pos q) l))), 1, (2 * d).
      cbn [shr iter_pos]. rewrite Em. pose proof (Z.div_mod (Z.pos q) 2 ltac:(lia)) as Hdm.
      pose proof (Z.mod_pos_bound (Z.pos q) 2 ltac:(lia)).
      replace (Z.pos q * d + r - Z.pos q / 2 * (2 * d)) with (Z.pos q mod 2 * d + r) by nia.
      split_and!; try done; try lia; nia. }
  rewrite Hl1. destruct (round_even_close (shr_m m1) _ d1 l1 ltac:(lia) Hr1 Hok) as [Hb Hc].
  set (m2 := round_nearest_even (shr_m m1) l1) in *. clearbody m2.
  replace (shr_m m1 * d1 + (q * d + r - shr_m m1 * d1)) with (q * d + r) in Hc by lia.
  destruct m2 as [|m2|m2]; try lia.
  destruct (decide (Z.pos m2 = 2 ^ 53)) as [E|E].
  - rewrite (digits_range m2 54), fexp_normal by lia. replace (54 + (e + k) - 53 - (e + k)) with 1 by lia.
    injection E as ->. cbn [shr iter_pos shr_record_of_loc shr_1 shr_m].
    rewrite (proj2 (Z.leb_le _ _)) by lia. exists (2 ^ 52)%positive, (k + 1).
    split; [f_equal; lia|]. split; [lia|]. split; [lia|]. rewrite Z.pow_add_r by lia.
    change (Z.pos (2 ^ 52)) with (2 ^ 52). change (Z.pos (2 ^ 53)) with (2 ^ 53) in Hc. subst d1.
    replace (2 ^ 52 * (2 ^ k * 2 ^ 1) * d) with (2 ^ 53 * (2 ^ k * d)) by lia. nia.
  - rewrite (digits_range m2 53), fexp_normal by lia. replace (53 + (e + k) - 53 - (e + k)) with 0 by lia.
    cbn [shr shr_record_of_loc shr_m]. rewrite (proj2 (Z.leb_le _ _)) by lia. exists m2, k.
    split_and!; [done|lia..|]. subst d1. replace (Z.pos m2 * 2 ^ k * d) with (Z.pos m2 * (2 ^ k * d)) by lia. lia.
Qed.

(** A mantissa of 53 bits is kept. *)
Lemma round_aux_exact m e :
  2 ^ 52 <= Z.pos m < 2 ^ 53 -> -1074 <= e <= 900 -> round_aux false (Z.pos m) e loc_Exact = S754_finite false m e.
Proof.
  intros Hm He. unfold binary_round_aux, shr_fexp.
  rewrite (digits_range m 53), fexp_normal by lia. replace (53 + e - 53 - e) with 0 by lia.
  cbn [shr shr_record_of_loc shr_m loc_of_shr_record round_nearest_even].
  rewrite (digits_range m 53), fexp_normal by lia. replace (53 + e - 53 - e) with 0 by lia.
  cbn [shr shr_record_of_loc shr_m]. by rewrite (proj2 (Z.leb_le _ _)) by lia.
Qed.

(** ** Integers and quotients *)

Lemma iter_shift p k : Z.pos (Pos.iter xO p k) = Z.pos p * 2 ^ Z.pos k.
Proof.
  revert p. induction k as [|k IH] using Pos.peano_ind; intros p; [cbn; lia|].
  rewrite Pos.iter_succ, Pos2Z.inj_xO, IH, Pos2Z.inj_succ, Z.pow_succ_r by lia. lia.
Qed.

(** An integer below 2^53 is a double, with a mantissa of 53 bits. *)
Lemma double_of_Z_small a :
  0 < a < 2 ^ 53 ->
  exists m e, double_of_Z a = S754_finite false m (- e) /\ 2 ^ 52 <= Z.pos m < 2 ^ 53 /\ 0 <= e <= 52 /\
              Z.pos m = a * 2 ^ e.
Proof.
  intros Ha. destruct a as [|p|p]; try lia.
  pose proof (Z.log2_spec (Z.pos p) ltac:(lia)) as Hlog.
  assert (Z.log2 (Z.pos p) < 53) as Hlt by (apply Z.log2_lt_pow2; lia).
  pose proof (Z.log2_nonneg (Z.pos p)) as Hnn.
  remember (52 - Z.log2 (Z.pos p)) as e eqn:Hee.
  assert (2 ^ 52 <= Z.pos p * 2 ^ e < 2 ^ 53) as Hm.
  { replace (2 ^ 52) with (2 ^ Z.log2 (Z.pos p) * 2 ^ e) by (rewrite <- Z.pow_add_r by lia; apply f_equal; lia).
    replace (2 ^ 53) with (2 ^ Z.succ (Z.log2 (Z.pos p)) * 2 ^ e) by (rewrite <- Z.pow_add_r by lia; apply f_equal; lia).
    assert (0 < 2 ^ e) by (apply Z.pow_pos_nonneg; lia). nia. }
  assert (exists m, shl_align p 0 (fexp 53 1024 (Z.pos (digits2_pos p) + 0)) = (m, - e) /\
                    Z.pos m = Z.pos p * 2 ^ e) as (m & Hal & Em).
  { rewrite digits_log2, fexp_normal by lia. unfold shl_align.
    replace (Z.log2 (Z.pos p) + 1 + 0 - 53 - 0) with (- e) by lia.
    replace (Z.log2 (Z.pos p) + 1 + 0 - 53) with (- e) by lia.
    clear Hm. destruct e as [|k|k]; [exists p; split; [done|lia]| |lia].
    exists (Pos.iter xO p k). by rewrite iter_shift. }
  unfold double_of_Z, binary_normalize, binary_round. rewrite Hal.
  rewrite round_aux_exact by lia. exists m, e. split_and!; done || lia.
Qed.

(** A quotient of two such integers is within half a unit of the last of its 53
    bits: [m] is nearest to [a * 2^e / b]. *)
Lemma double_div_close a b :
  0 < a < 2 ^ 52 -> 0 < b < 2 ^ 53 ->
  exists m e, double_div (double_of_Z a) (double_of_Z b) = S754_finite false m (- e) /\
              2 ^ 52 <= Z.pos m < 2 ^ 53 /\ 0 <= e /\ 2 * Z.abs (a * 2 ^ e - Z.pos m * b) <= b.
Proof.
  intros Ha Hb.
  destruct (double_of_Z_small a) as (ma & ea & -> & Hma & Hea & Ea); [lia|].
  destruct (double_of_Z_small b) as (mb & eb & -> & Hmb & Heb & Eb); [lia|].
  unfold double_div, SFdiv, SFdiv_core_binary.
  rewrite (digits_range ma 53), (digits_range mb 53), fexp_normal by lia.
  replace (Z.min (53 + - ea - (53 + - eb) - 53) (- ea - - eb)) with (eb - ea - 53) by lia.
  replace (- ea - - eb - (eb - ea - 53)) with 53 by lia. rewrite Z.shiftl_mul_pow2 by lia.
  destruct (Z.div_eucl (Z.pos ma * 2 ^ 53) (Z.pos mb)) as [q r] eqn:Eq.
  pose proof (Z_div_mod (Z.pos ma * 2 ^ 53) (Z.pos mb) ltac:(lia)) as Hqr. rewrite Eq in Hqr.
  destruct Hqr as [Hq Hr]. clear Eq. cbn [xorb].
  destruct (round_aux_close q r (Z.pos mb) (eb - ea - 53) (new_location (Z.pos mb) r)) as (m & n & -> & Hn & Hm & Hc);
    [lia|lia|apply new_location_ok; lia|nia|lia|].
  exists m, (53 + ea - eb - n). split; [f_equal; lia|]. split; [done|].
  assert (0 < 2 ^ n) as Hn0 by (apply Z.pow_pos_nonneg; lia).
  (* in units of 2^(n + eb): a * 2^(53 + ea - eb - n) *)
  replace (q * Z.pos mb + r) with (Z.pos ma * 2 ^ 53) in Hc by lia. rewrite Ea, Eb in Hc.
  assert (0 < 2 ^ eb) as Heb0 by (apply Z.pow_pos_nonneg; lia).
  assert (0 <= 53 + ea - eb - n) as Hexp.
  { destruct (Z.le_gt_cases 0 (53 + ea - eb - n)) as [|Hneg]; [done|exfalso].
    assert (a * 2 ^ ea * 2 ^ 53 = a * 2 ^ (ea + 53)) as E1 by (rewrite Z.pow_add_r by lia; lia).
    assert (2 ^ (ea + 54) <= 2 ^ (n + eb)) as H1 by (apply Z.pow_le_mono_r; lia).
    replace (ea + 54) with (Z.succ (ea + 53)) in H1 by lia. rewrite Z.pow_succ_r, (Z.pow_add_r 2 n) in H1 by lia.
    assert (0 < 2 ^ (ea + 53)) by (apply Z.pow_pos_nonneg; lia).
    set (P := 2 ^ (ea + 53)) in *. set (Q := 2 ^ n * 2 ^ eb) in *.
    replace (Z.pos m * 2 ^ n * (b * 2 ^ eb)) with (Z.pos m * b * Q) in Hc by (unfold Q; ring).
    replace (2 ^ n * (b * 2 ^ eb)) with (b * Q) in Hc by (unfold Q; ring). rewrite E1 in Hc. clearbody P Q.
    assert (a * P < 2 ^ 52 * P) by nia. assert (2 ^ 52 * (b * Q) <= Z.pos m * b * Q) by nia.
    assert (Q <= b * Q) by nia. lia. }
  split; [done|].
  assert (2 ^ ea * 2 ^ 53 = 2 ^ (53 + ea - eb - n) * (2 ^ n * 2 ^ eb)) as E.
  { rewrite <- !Z.pow_add_r by lia. apply f_equal. lia. }
  set (P := 2 ^ (53 + ea - eb - n)) in *. set (Q := 2 ^ n * 2 ^ eb) in *.
  replace (a * 2 ^ ea * 2 ^ 53) with (a * P * Q) in Hc by (rewrite <- (Z.mul_assoc a (2 ^ ea)), E; ring).
  replace (Z.pos m * 2 ^ n * (b * 2 ^ eb)) with (Z.pos m * b * Q) in Hc by (unfold Q; ring).
  replace (2 ^ n * (b * 2 ^ eb)) with (b * Q) in Hc by (unfold Q; ring).
  assert (0 < Q) by (unfold Q; nia). clearbody P Q.
  rewrite <- Z.mul_sub_distr_r, Z.abs_mul, (Z.abs_eq Q) in Hc by lia. nia.
Qed.

(** ** Printing *)

Lemma round_half_even_close n d : 0 < d -> 2 * Z.abs (round_half_even n d * d - n) <= d.
Proof.
  intros Hd. unfold round_half_even. pose proof (Z.div_mod n d ltac:(lia)). pose proof (Z.mod_pos_bound n d Hd).
  repeat case_match; lia.
Qed.

Lemma fixed_units_close prec m e :
  0 <= e -> 2 * Z.abs (fixed_units prec m (- e) * 2 ^ e - Z.pos m * 10 ^ Z.of_nat prec) <= 2 ^ e.
Proof.
  intros He. unfold fixed_units. destruct (Z.ltb_spec (- e) 0) as [H|H].
  - rewrite Z.opp_involutive. apply round_half_even_close. by apply Z.pow_pos_nonneg.
  - assert (e = 0) as -> by lia. change (2 ^ (- 0)) with 1. change (2 ^ 0) with 1. lia.
Qed.

(** The number printed for a quotient: within half a unit of its last digit, and
    what the double loses. *)
Lemma quotient_printed prec a b :
  0 < a < 2 ^ 52 -> 0 < b < 2 ^ 53 ->
  exists u, fmt_f prec (double_div (double_of_Z a) (double_of_Z b)) = fixed_text prec u /\
            2 * (2 ^ 53 - 1) * Z.abs (u * b - a * 10 ^ Z.of_nat prec) <=
            (2 ^ 53 - 1) * b + 2 * a * 10 ^ Z.of_nat prec.
Proof.
  intros Ha Hb. destruct (double_div_close a b Ha Hb) as (m & e & -> & Hm & He & Hc).
  pose proof (fixed_units_close prec m e He) as Hu. exists (fixed_units prec m (- e)). split; [done|].
  set (u := fixed_units prec m (- e)) in *. clearbody u.
  assert (0 < 2 ^ e) as HP by by apply Z.pow_pos_nonneg. set (P := 2 ^ e) in *. clearbody P.
  assert (0 < 10 ^ Z.of_nat prec) as HT by (apply Z.pow_pos_nonneg; lia). set (T := 10 ^ Z.of_nat prec) in *.
  clearbody T.
  (* |u b - a T| P <= b |u P - m T| + T |m b - a P| *)
  assert (2 * (Z.abs (u * b - a * T) * P) <= b * P + T * b) as Hsum by nia.
  (* 2^53 - 1 <= 2 m - 1, so P is large *)
  assert ((2 ^ 53 - 1) * b <= 2 * a * P) as Hbig by nia.
  nia.
Qed.
