(* ===== verification/TracerProps.v ===== *)
(** * Properties of the tracer's reports and of its main loop *)

From Stdlib Require Import Ascii SpecFloat.
From S2P Require Import Prelude Supervisor Logger LoggerSpec Csv Cli CliSpec.
From S2P Require Import Ebpf EbpfReport EbpfHist TracerReport TracerSpec Doubles.

(** ** Times *)

(** A time in nanoseconds, shown with three digits less. *)
Lemma time_printed prec d :
  0 <= d < 2 ^ 52 -> 3 <= Z.of_nat prec <= 12 ->
  exists u, fmt_f prec (double_div (double_of_Z d) (double_of_Z (10 ^ (Z.of_nat prec + 3)))) = fixed_text prec u /\
            Z.abs (1000 * u - d) <= 500.
Proof.
  intros Hd Hp. assert (10 ^ (Z.of_nat prec + 3) = 1000 * 10 ^ Z.of_nat prec) as ET
    by (rewrite Z.pow_add_r by lia; lia).
  assert (10 ^ (Z.of_nat prec + 3) < 2 ^ 53) as HT by (apply (Z.le_lt_trans _ (10 ^ 15)); [apply Z.pow_le_mono_r|]; lia).
  assert (0 < 10 ^ Z.of_nat prec) as HP by (apply Z.pow_pos_nonneg; lia).
  destruct (decide (d = 0)) as [->|Hne].
  - exists 0. split; [|done]. destruct (double_of_Z_small (10 ^ (Z.of_nat prec + 3))) as (m & e & -> & _); [lia|].
    change (double_of_Z 0) with (S754_zero false). done.
  - destruct (quotient_printed prec d (10 ^ (Z.of_nat prec + 3))) as (u & -> & Hu); [lia..|].
    exists u. split; [done|]. rewrite ET in Hu. set (T := 10 ^ Z.of_nat prec) in *. clearbody T.
    replace (u * (1000 * T) - d * T) with ((1000 * u - d) * T) in Hu by lia.
    rewrite Z.abs_mul, (Z.abs_eq T) in Hu by lia. nia.
Qed.

(** The nearest integer of a mean. *)
Lemma mean_printed s c :
  0 <= s < 2 ^ 52 -> 0 < c < 2 ^ 53 ->
  exists u, fmt_f 0 (double_div (double_of_Z s) (double_of_Z c)) = to_string u /\ 2 * Z.abs (u * c - s) <= c.
Proof.
  intros Hs Hc. assert (forall u, fixed_text 0 u = to_string u) as Hfix.
  { intros u. unfold fixed_text. change (10 ^ Z.of_nat 0) with 1. rewrite Z.div_1_r. apply str_app_nil. }
  destruct (decide (s = 0)) as [->|Hne].
  - exists 0. split; [|lia]. destruct (double_of_Z_small c) as (m & e & -> & _); [lia|].
    change (double_of_Z 0) with (S754_zero false). done.
  - destruct (quotient_printed 0 s c) as (u & -> & Hu); [lia..|]. exists u. split; [apply Hfix|].
    change (10 ^ Z.of_nat 0) with 1 in Hu. rewrite !Z.mul_1_r in Hu. nia.
Qed.

(** ** The deadline *)

Lemma trace_deadline_small start dur :
  0 < dur -> 0 <= start -> start + dur * 1000000000 < 2 ^ 64 ->
  trace_deadline start dur = start + dur * 1000000000.
Proof.
  intros Hd Hs Hb. unfold trace_deadline. rewrite (proj2 (Z.gtb_lt _ _)) by lia.
  by rewrite (u64_small (dur * _)), u64_small by (cbn; lia).
Qed.

(** From 2^55 seconds on the product wraps: the deadline can be the start. *)
Lemma trace_deadline_wraps start : is_u64 start -> trace_deadline start (2 ^ 55) = start.
Proof.
  intros Hs. unfold trace_deadline. change (2 ^ 55 >? 0) with true. cbn iota.
  change (u64 (2 ^ 55 * 1000000000)) with 0. rewrite Z.add_0_r. by apply u64_small.
Qed.

(** No round is taken after one whose clock has reached the deadline. *)
Lemma polls_before deadline rounds :
  deadline <> 0 -> Forall (fun r => poll_now r < deadline) (removelast (polls_done deadline rounds).1) /\
  ((polls_done deadline rounds).2 = TrRunning -> Forall (fun r => poll_now r < deadline) rounds).
Proof.
  intros Hd. induction rounds as [|r rounds [IH1 IH2]]; cbn [polls_done]; [split; [constructor|constructor]|].
  destruct (exiting r); [split; [constructor|done]|].
  destruct (poll_err r =? - EINTR_); [split; [constructor|done]|].
  destruct (poll_err r <? 0); [split; [constructor|done]|].
  destruct (Z.eqb_spec deadline 0) as [|_]; [done|]. cbn [negb andb].
  destruct (Z.geb_spec (poll_now r) deadline) as [|Hlt]; [split; [constructor|done]|].
  cbn [fst snd]. split; [|intros H; constructor; [lia|auto]].
  destruct (polls_done deadline rounds).1 as [|r' l] eqn:El; [constructor|].
  change (removelast (r :: r' :: l)) with (r :: removelast (r' :: l)). constructor; [lia|done].
Qed.

(** How many of the three files come about: they are opened in order, up to the
    first that does not open, and none without a CPU or the directory. *)
Fixpoint leading (l : list bool) : nat := match l with true :: l => S (leading l) | _ => 0 end.

Definition files_opened (rc : report_calls) : nat :=
  if bool_decide (0 < ncpu rc) && dir_there rc then leading [csv_open rc; md_open rc; timeline_open rc] else 0.

Lemma generate_reports_files rc dir rows counters start g :
  generate_reports rc dir rows counters start g =
  (if bool_decide (files_opened rc = 3%nat) then 0 else - 1,
   take (files_opened rc)
     [(report_path dir "latency_report.csv", write_csv rows);
      (report_path dir "latency_report.md", write_md_latency rows counters);
      (report_path dir "fault_timeline.md", Some (write_fault_timeline start g))]).
Proof.
  unfold generate_reports, files_opened. destruct (Z.leb_spec (ncpu rc) 0).
  { by rewrite (bool_decide_eq_false_2 (0 < _)) by lia. }
  rewrite (bool_decide_eq_true_2 (0 < _)) by lia.
  by destruct (dir_there rc), (csv_open rc), (md_open rc), (timeline_open rc).
Qed.

(** The timeline at the end: the first 4096 whole records that came. *)
Lemma timeline_collected deadline rounds last :
  collect (trace_loop deadline rounds []).2 last =
  take MAX_TIMELINE (filter whole (concat (records <$> (polls_done deadline rounds).1) ++ last)).*1.
Proof.
  rewrite trace_loop_run by (cbn; lia). cbn [snd app]. rewrite collect_spec by (rewrite length_take; lia).
  rewrite filter_app, fmap_app. apply (take_take_app MAX_TIMELINE []). cbn. lia.
Qed.

(** The average of a row, read back from its text. *)
Lemma average_read h :
  0 <= sum h < 2 ^ 52 -> 0 < count h < 2 ^ 53 ->
  exists u, stoul (fmt_f 0 (hist_avg_ns h)) = inr u /\ 2 * Z.abs (u * count h - sum h) <= count h.
Proof.
  intros Hs Hc. unfold hist_avg_ns. destruct (Z.eqb_spec (count h) 0); [lia|].
  destruct (mean_printed (sum h) (count h) Hs Hc) as (u & -> & Hu). exists u. split; [|done].
  apply stoul_to_string. nia.
Qed.

Module Props.

(** C37. The numbers of the reports: a duration or time below 2^52 ns (52 days)
    is printed to the nearest microsecond, in milliseconds and in seconds, and
    the average of a row is the nearest integer to sum / count, although both go
    through doubles. *)
Theorem report_numbers_nearest :
  (forall none d, 0 <= d < 2 ^ 52 ->
     exists u, ms_text none (Some d) = fixed_text 3 u /\ Z.abs (1000 * u - d) <= 500) /\
  (forall start t, 0 <= t - start < 2 ^ 52 ->
     exists u, fmt_f 6 (rel_seconds start t) = fixed_text 6 u /\ Z.abs (1000 * u - (t - start)) <= 500) /\
  (forall h, 0 <= sum h < 2 ^ 52 -> 0 < count h < 2 ^ 53 ->
     exists u, fmt_f 0 (hist_avg_ns h) = to_string u /\ 2 * Z.abs (u * count h - sum h) <= count h).
Proof.
  split; [|split].
  - intros none d Hd. apply (time_printed 3); [done|lia].
  - intros start t Ht. unfold rel_seconds. destruct (Z.leb_spec t start) as [Hle|Hgt].
    + exists 0. split; [done|lia].
    + rewrite u64_small by (cbn; lia). apply (time_printed 6); [done|lia].
  - intros h Hs Hc. unfold hist_avg_ns. destruct (Z.eqb_spec (count h) 0); [lia|]. by apply mean_printed.
Qed.

(** C36. The latency files can be read back. Line [i + 1] of the CSV file has the
    eight fields of row [i]: name and unit are read as they were, and count,
    minimum, both percentiles and maximum as the numbers they were; the last is
    the average, whose number is the nearest integer to sum / count. The
    lines of the Markdown file are those of [latency_md_lines]: a table row per
    metric, and per metric a section with exactly the ranges that hold
    samples, each with its bounds and the number of samples between them; its
    text is undefined only when a sample is 2^63 ns or more. *)
Theorem latency_files_read_back (rows : list metric_row) :
  Forall (fun r => cell (name r) /\ cell (unit_ r) /\ percentiles_defined r) rows ->
  (exists text,
     write_csv rows = Some text /\ length (getlines text) = S (length rows) /\
     forall i r l p50 p90,
       rows !! i = Some r -> getlines text !! S i = Some l ->
       hist_percentile_ns (h r) 50 = Some p50 -> hist_percentile_ns (h r) 90 = Some p90 ->
       Forall is_u64 [count (h r); min (h r); p50; p90; max (h r)] ->
       length (split_comma l) = 8%nat /\
       take 2 (split_comma l) = [name r; unit_ r] /\
       stoul <$> take 5 (drop 2 (split_comma l)) = inr <$> [count (h r); min (h r); p50; p90; max (h r)] /\
       split_comma l !! 7%nat = Some (fmt_f 0 (hist_avg_ns (h r))) /\
       (0 <= sum (h r) < 2 ^ 52 -> 0 < count (h r) < 2 ^ 53 ->
          exists u, stoul <$> split_comma l !! 7%nat = Some (inr u) /\
                    2 * Z.abs (u * count (h r) - sum (h r)) <= count (h r))) /\
  (forall samples counters, Forall2 summarises samples (h <$> rows) ->
     getlines <$> write_md_latency rows counters =
     if bool_decide (Exists (fun l => samples_in l (2 ^ 63) (2 ^ 64 - 1) <> 0) samples) then None
     else Some (latency_md_lines rows samples counters)).
Proof.
  intros Hrows. split.
  2: { intros samples counters. apply write_md_latency_lines; (eapply Forall_impl; [exact Hrows|]); naive_solver. }
  destruct (csv_lines_fields rows Hrows) as (text & Ht & Hf).
  exists (line csv_header +:+ text). unfold write_csv. rewrite Ht. split; [done|].
  unfold line. rewrite str_app_assoc, getlines_line by (vm_compute; repeat split; discriminate).
  pose proof (Forall2_length _ _ _ Hf) as Hlen. split; [cbn; by rewrite Hlen|].
  intros i r l p50 p90 Hr Hl H5 H9 HF. cbn in Hl.
  pose proof (Forall2_lookup_lr _ _ _ _ _ _ Hf Hr Hl p50 p90 H5 H9) as ->. split; [done|]. split; [done|].
  split; [|split; [done|]].
  - cbn [csv_fields drop take fmap list_fmap].
    rewrite !Forall_cons in HF. destruct HF as (Hc & Hm & Hp & Hq & Hx & _). cbn in Hc, Hm, Hp, Hq, Hx.
    by rewrite !stoul_to_string by lia.
  - intros Hs Hc. destruct (average_read _ Hs Hc) as (u & Hu & Hb). exists u. split; [|done].
    unfold csv_fields. cbn [lookup list_lookup fmap option_fmap option_map]. by rewrite Hu.
Qed.

(** C38. [main] of the tracer, on every outcome of its calls. When the skeleton
    does not open it returns 1 with nothing taken; when loading, attaching or
    the ring buffer fails it returns 1 with the skeleton destroyed; no file is
    written in either case. Else it frees the ring buffer, then the skeleton,
    and the files written are the CSV report, the Markdown report and the
    timeline up to the first that does not open (none without a CPU or the
    directory), the timeline with the first 4096 records that came, in order;
    it returns 0 when all three are written and 1 when not. With a duration that
    fits 64 bits of nanoseconds no round is taken after the deadline and the
    loop does not go on past it. *)
Theorem trace_main_outcome (e : Tr.env) (c : setup_calls) (start : Z) (rounds : list poll_round)
    (last : list (timeline_event * Z)) (rc : report_calls) (rows : list metric_row) (counters : list Z) :
  let out := trace_main e c start rounds last rc rows counters in
  let deadline := trace_deadline start (Tr.duration_sec e) in
  let polls := polls_done deadline rounds in
  (skel_ok c = false -> out = (1, [], [])) /\
  (skel_ok c = true -> load_err c <> 0 \/ attach_err c <> 0 \/ rb_ok c = false ->
     out = (1, [SkelOpen; SkelDestroy], [])) /\
  (skel_ok c = true -> load_err c = 0 -> attach_err c = 0 -> rb_ok c = true ->
     out = (if bool_decide (files_opened rc = 3%nat) then 0 else 1,
            [SkelOpen; RbNew; RbFree; SkelDestroy],
            take (files_opened rc)
              [(report_path (Tr.report_dir e) "latency_report.csv", write_csv rows);
               (report_path (Tr.report_dir e) "latency_report.md", write_md_latency rows counters);
               (report_path (Tr.report_dir e) "fault_timeline.md",
                Some (write_fault_timeline start
                  (take MAX_TIMELINE (filter whole (concat (records <$> polls.1) ++ last)).*1)))])) /\
  (0 < Tr.duration_sec e -> 0 <= start -> start + Tr.duration_sec e * 1000000000 < 2 ^ 64 ->
     deadline = start + Tr.duration_sec e * 1000000000 /\
     Forall (fun r => poll_now r < deadline) (removelast polls.1) /\
     (polls.2 = TrRunning -> Forall (fun r => poll_now r < deadline) rounds)).
Proof.
  cbn zeta. unfold trace_main. split; [by intros ->|]. split; [|split].
  - intros ->. cbn [negb]. destruct (Z.eqb_spec (load_err c) 0); cbn [negb]; [|done].
    destruct (Z.eqb_spec (attach_err c) 0); cbn [negb]; [|done]. intros [?|[?| ->]]; done.
  - intros -> -> -> ->. cbn [negb Z.eqb]. rewrite generate_reports_files, timeline_collected. cbn [fst snd].
    by case_bool_decide.
  - intros. rewrite trace_deadline_small by lia. split; [done|]. apply polls_before. lia.
Qed.

(** 1.5 s and 2.5 ms; a mean of 7 / 2. *)
Lemma report_numbers_nearest_witness :
  (exists u, ms_text "n/a" (Some 2500000) = fixed_text 3 u /\ Z.abs (1000 * u - 2500000) <= 500) /\
  (exists u, fmt_f 6 (rel_seconds 100 1500000100) = fixed_text 6 u /\ Z.abs (1000 * u - (1500000100 - 100)) <= 500) /\
  ms_text "n/a" (Some 2500000) = "2.500" /\ fmt_f 6 (rel_seconds 100 1500000100) = "1.500000".
Proof.
  destruct report_numbers_nearest as (H1 & H2 & _).
  split; [apply H1; lia|]. split; [apply H2; lia|]. split; vm_compute; reflexivity.
Defined.

(** A row with the three samples 5, 100 and 3000. *)
Definition demo_row : metric_row :=
  mkRow "read_latency_ns" "ns" (hist_record (hist_record (hist_record hist_zero 5) 100) 3000).

Lemma demo_row_ok : cell (name demo_row) /\ cell (unit_ demo_row) /\ percentiles_defined demo_row.
Proof.
  split; [vm_compute; repeat split; discriminate|]. split; [vm_compute; repeat split; discriminate|].
  exists 128, 4096. split; vm_compute; reflexivity.
Qed.

Lemma demo_summary : summarises [5; 100; 3000] (h demo_row).
Proof.
  apply (hist_record_summarises [5; 100]); [done|done|].
  apply (hist_record_summarises [5]); [done|done|].
  apply (hist_record_summarises []); [done|done|]. apply summarises_nil.
Qed.

Lemma latency_files_read_back_witness :
  (exists text, write_csv [demo_row] = Some text /\ length (getlines text) = 2%nat) /\
  getlines <$> write_md_latency [demo_row] [] =
    (if bool_decide (Exists (fun l => samples_in l (2 ^ 63) (2 ^ 64 - 1) <> 0) [[5; 100; 3000]]) then None
     else Some (latency_md_lines [demo_row] [[5; 100; 3000]] [])) /\
  take 3 (drop 4 (section_lines demo_row [5; 100; 3000])) =
    ["| [4, 7] | 1 |"; "| [64, 127] | 1 |"; "| [2048, 4095] | 1 |"].
Proof.
  destruct (latency_files_read_back [demo_row]) as [(text & Ht & Hl & _) Hb].
  { constructor; [exact demo_row_ok|constructor]. }
  split; [exists text; by split|].
  split; [exact (Hb [[5; 100; 3000]] [] ltac:(constructor; [exact demo_summary|constructor]))|].
  vm_compute. reflexivity.
Defined.

(** A run of one second: a record arrives, the second poll is past the deadline. *)
Lemma trace_main_outcome_witness :
  let e := Tr.mkEnv 1 "reports" 0 in
  let ev := mkTlEvent 1200 TL_TIMEOUT 1 in
  let rounds := [mkPoll false [(ev, 16)] 1 2000; mkPoll false [] 0 1000001000] in
  let out := trace_main e (mkSetup true 0 0 true) 1000 rounds [] (mkReportCalls 2 true true true true) [] [] in
  out.1.1 = 0 /\ trace_deadline 1000 1 = 1000001000 /\
  out.2 !! 2%nat = Some ("reports/fault_timeline.md", Some (write_fault_timeline 1000 [ev])).
Proof.
  cbv zeta.
  destruct (trace_main_outcome (Tr.mkEnv 1 "reports" 0) (mkSetup true 0 0 true) 1000
    [mkPoll false [(mkTlEvent 1200 TL_TIMEOUT 1, 16)] 1 2000; mkPoll false [] 0 1000001000] []
    (mkReportCalls 2 true true true true) [] []) as (_ & _ & H0 & Hd).
  rewrite (H0 eq_refl eq_refl eq_refl eq_refl). split; [reflexivity|].
  split; [apply Hd; cbn; lia|]. vm_compute. reflexivity.
Defined.

End Props.
