(* ===== verification/DeviceClient.v ===== *)
(** * Device client: [userspace/safety-supervisord/device_client.cpp]

    The reads and writes of the supervisor on the driver of [Chrdev], and what
    they come to.  [open_device] is in [Descriptors]. *)

From S2P Require Import Prelude Crc32 Protocol KernelApi Device Kfifo Watchdog Chrdev DriverInv DriverSpec DriverRefine.
From S2P Require Import Linkd.

Section Client.
Context {K : KernelApi safety_fifo_slot}.

(** [read_some] on the device, opened for blocking reads: one list of sleeps per
    call of [read].  A call a signal interrupts is made again; [None]: the last
    call still sleeps. *)
Fixpoint read_some (calls : list (list Z)) (cap : Z) : prog (world K) (option (Z * list Z)) :=
  match calls with
  | [] => mret None
  | waits :: calls =>
      r ← safety_read false waits cap true;
      match r with
      | Some (n, bytes) => if n =? - ERESTARTSYS then read_some calls cap else mret (Some (n, bytes))
      | None => mret None
      end
  end.

(** [write_all] with at most [fuel] calls of [write]; [None]: more are needed. *)
Fixpoint write_all (fuel : nat) (data : list Z) : prog (world K) (option bool) :=
  if (length data =? 0)%nat then mret (Some true)
  else
    match fuel with
    | O => mret None
    | S fuel =>
        n ← safety_write (Some data) (Z.of_nat (length data));
        if n <? 0 then
          if n =? - EINTR then write_all fuel data else mret (Some false)
        else write_all fuel (drop (Z.to_nat n) data)
    end.

Definition send_out (fuel : nat) (data : list Z) : prog (world K) (option bool) := write_all fuel data.
Definition write_device (fuel : nat) (data : list Z) : prog (world K) (option bool) := write_all fuel data.

(** Buffers one after the other. *)
Fixpoint send_each (fuel : nat) (bufs : list (list Z)) : prog (world K) (list (option bool)) :=
  match bufs with
  | [] => mret []
  | b :: bufs => ok ← send_out fuel b; oks ← send_each fuel bufs; mret (ok :: oks)
  end.

(** ** What they do *)

Context {KO : KernelOk K} (depth : Z) (Hdepth : 0 <= depth).
Implicit Types (w : world K).

(** With a frame waiting it does not matter how a read would have slept. *)
Lemma read_waiting waits cap f q w :
  wf depth w -> l_rx (link_of w) = f :: q -> Z.of_nat (length f) <= cap ->
  run (safety_read false waits cap true) w = (Some (Z.of_nat (length f), f), (run (device_op (Read cap)) w).2).
Proof.
  intros Hwf Hrx Hcap. pose proof (wf_rx _ _ Hwf) as Hok. unfold link_of in Hrx. cbn [l_rx] in Hrx.
  destruct (kfifo_view (rx_fifo (w_dev w))) as [|s v] eqn:Hv; [done|].
  cbn [fmap list_fmap] in Hrx. injection Hrx as Hs _. apply Forall_cons_1 in Hok as [(Hb & Hl & Hf) _].
  destruct (framed_length _ Hb Hf) as [Hlen _].
  destruct (pop_frame_some s v w slot_buffer Hv) as (fq & Hpop & _).
  cbn [device_op]. unfold safety_read. destruct waits; cbn [safety_read_wait];
    rewrite !run_bind, Hpop; cbn [fst snd]; rewrite (proj2 (Z.eqb_neq _ _)) by lia; cbn [negb];
    rewrite !run_ret; cbn [fst snd]; rewrite Hs in Hl, Hlen |- *; rewrite Hl, (proj2 (Z.ltb_ge _ _)), Nat2Z.id, take_ge by lia;
    cbn [negb]; by rewrite ?run_ret.
Qed.

(** A frame that waits is read by the first call. *)
Lemma read_some_run calls cap f q w :
  wf depth w -> l_rx (link_of w) = f :: q -> Z.of_nat (length f) <= cap -> calls <> [] ->
  let r := run (read_some calls cap) w in
  r.1 = Some (Z.of_nat (length f), f) /\ link_of r.2 = mkLink q (l_tx (link_of w)) /\ wf depth r.2.
Proof.
  intros Hwf Hrx Hcap Hne. destruct calls as [|waits calls]; [done|]. cbn [read_some].
  rewrite run_bind, (read_waiting waits cap f q) by done. cbn [fst snd].
  rewrite (proj2 (Z.eqb_neq _ _)), run_ret by (unfold ERESTARTSYS; lia). cbn [fst snd].
  destruct (op_refines depth (Read cap) w Hdepth Hwf I) as (_ & H2 & H3). split; [done|]. split; [|done].
  cbn [link_step] in H2. by rewrite Hrx in H2.
Qed.

(** A buffer is written by one call, whole or not at all: the retries of
    [write_all] are never taken. *)
Lemma send_out_run fuel b w :
  wf depth w -> bytes_ok b -> (0 < length b)%nat -> Z.of_nat (length b) < 2 ^ 32 -> (2 <= fuel)%nat ->
  let r := run (device_op (Write b)) w in
  run (send_out fuel b) w = (Some (bool_decide (r.1.1 = Z.of_nat (length b))), r.2).
Proof.
  intros Hwf Hb Hl Hmax Hf. destruct fuel as [|[|fuel]]; [lia..|]. unfold send_out. cbn [write_all].
  destruct (op_refines depth (Write b) w Hdepth Hwf) as (H1 & _); [by split|].
  cbn [device_op] in H1 |- *. rewrite run_bind, run_ret in H1 |- *. cbn [fst snd] in H1 |- *.
  rewrite (proj2 (Nat.eqb_neq _ _)) by lia. rewrite run_bind.
  destruct (run (safety_write (Some b) (Z.of_nat (length b))) w) as [n w1]. cbn [fst snd] in H1 |- *.
  assert (n = Z.of_nat (length b) \/ n = - EINVAL \/ n = - EMSGSIZE \/ n = - EAGAIN) as Hn.
  { cbn [link_step] in H1. repeat case_decide; injection H1 as ->; tauto. }
  destruct Hn as [-> |Hn].
  - rewrite (proj2 (Z.ltb_ge _ _)), Nat2Z.id, drop_all, bool_decide_true by (done || lia). done.
  - rewrite (proj2 (Z.ltb_lt _ _)), (proj2 (Z.eqb_neq _ _)), bool_decide_false
      by (unfold EINVAL, EMSGSIZE, EAGAIN, EINTR in *; lia). done.
Qed.

Lemma send_each_run fuel bufs w :
  wf depth w -> Forall (fun b => bytes_ok b /\ (0 < length b)%nat /\ Z.of_nat (length b) < 2 ^ 32) bufs ->
  (2 <= fuel)%nat ->
  (run (send_each fuel bufs) w).2 = (run (device_run (Write <$> bufs)) w).2.
Proof.
  intros Hwf HF Hf. revert w Hwf. induction HF as [|b bufs (Hb & Hl & Hm) _ IH]; intros w Hwf; [done|].
  cbn [send_each fmap list_fmap device_run]. rewrite !run_bind, send_out_run by done. cbn [fst snd].
  rewrite run_ret. cbn [fst snd]. apply IH. by apply (op_refines depth (Write b) w Hdepth Hwf).
Qed.

End Client.
