(* ===== verification/System.v ===== *)
(** * The whole line: firmware, bridge, link daemon, driver and supervisor

    The parts joined the way the processes are: what one stage puts out is what
    the next one reads.  Each stage has its lemma; the theorem of [SystemProps]
    chains them. *)

From stdpp Require Import gmap.
From S2P Require Import Prelude Crc32 Protocol KernelApi Device Kfifo Watchdog Chrdev DriverMain DriverInv DriverSpec DriverSim DriverRefine DeviceClient.
From S2P Require Import Firmware FirmwareTasks FirmwareRx FirmwareSpec FirmwareInv FirmwareRounds FirmwareProps EndToEnd.
From S2P Require Import Supervisor Framing SupervisorLoop SupervisorInv SupervisorProps Linkd LinkdProps Bridge BridgeProps.

(** ** Frames on the way *)

(** A parsed frame the driver takes: whole, of this version, its checksum right
    or wrong. *)
Definition carried (f : ParsedFrame) : Prop :=
  reparsed f /\ (validate_result f = SAFETY_VALIDATE_OK \/ validate_result f = SAFETY_VALIDATE_BAD_CHECKSUM).

Lemma carried_bytes f : carried f -> bytes_ok (frame_image f).
Proof. intros [(_ & _ & _ & _ & Hp & _) _]. apply bytes_ok_app. auto with safety. Qed.

Lemma length_frame_image f : length (frame_image f) = (16 + length (pf_payload f))%nat.
Proof. unfold frame_image. by rewrite length_app, length_header_bytes. Qed.

Lemma header_frame_image f : header_ok (header f) -> header_of_bytes (frame_image f) = header f.
Proof.
  intros Hh. unfold frame_image.
  by rewrite header_of_bytes_app, header_roundtrip by (rewrite ?length_header_bytes; done || lia).
Qed.

Lemma carried_framed f : carried f -> framed (frame_image f) /\ (length (frame_image f) <= 272)%nat.
Proof.
  intros [(Hh & Hm & Hl & Hmax & _ & Hv) Hr].
  assert (version (header f) = SAFETY_PROTO_VERSION) as Hver.
  { unfold safety_frame_validate in Hv. rewrite header_frame_image in Hv by done.
    rewrite Hm, Z.eqb_refl in Hv. cbn [negb] in Hv.
    destruct (Z.of_nat _ <? _); [destruct Hr; congruence|].
    destruct (Z.eqb_spec (version (header f)) SAFETY_PROTO_VERSION); [done|]. cbn [negb] in Hv. destruct Hr; congruence. }
  rewrite length_frame_image. split; [|lia]. unfold framed. rewrite header_frame_image by done.
  rewrite length_frame_image. unfold SAFETY_HEADER_SIZE, SAFETY_MAX_PAYLOAD. do 3 (split; [done || lia|]). lia.
Qed.

Lemma carried_forwarded fs : Forall carried fs -> forwarded fs = frame_image <$> fs.
Proof.
  unfold forwarded. induction 1 as [|f fs [_ Hf] _ IH]; [done|].
  rewrite filter_cons, decide_True by (intros H; destruct Hf; congruence). cbn [fmap list_fmap]. by rewrite IH.
Qed.

Lemma fates_carried cfg n l :
  Forall (fun hp => frame_ok hp.1 hp.2) l -> Forall carried (fates cfg n l).
Proof.
  intros HF. revert n. induction HF as [|[h p] l Hok _ IH]; intros n; [constructor|]. cbn [fates].
  apply Forall_app. split; [|apply IH]. unfold fate. cbn [fst snd] in *.
  destruct (drops cfg (n + 1) (type h)); [constructor|].
  constructor; [|constructor]. destruct (corrupts cfg (n + 1)).
  - split; [by apply spoiled_reparsed|by right].
  - split; [by apply received_reparsed|by left].
Qed.

(** Pieces of a byte string hold bytes. *)
Lemma bytes_ok_pieces (ls : list (list Z)) : bytes_ok (concat ls) -> Forall bytes_ok ls.
Proof.
  induction ls as [|l ls IH]; [constructor|]. cbn [concat]. intros [H1 H2]%bytes_ok_app.
  constructor; [done|by apply IH].
Qed.

(** ** The link daemon *)

Section Devices.
Context {K : KernelApi safety_fifo_slot} {KO : KernelOk K}.
Context (depth : Z) (Hdepth : 0 <= depth).
Implicit Types (w : world K).

(** Frames on the UART are queued for the supervisor. *)
Lemma uart_queued rs fs ld w :
  wf depth w -> ld_buf ld = [] -> reads_fine rs = true -> Forall carried fs ->
  concat (uart_data rs) = concat (frame_image <$> fs) ->
  l_rx (link_of w) = [] -> Z.of_nat (length fs) <= depth ->
  let r := run (rx_loop rs ld) w in
  r.1.1 = true /\ link_of r.2 = mkLink (frame_image <$> fs) (l_tx (link_of w)) /\ wf depth r.2 /\
  ld_buf r.1.2 = [] /\ ld_uart r.1.2 = ld_uart ld /\ ld_writes r.1.2 = ld_writes ld.
Proof.
  intros Hwf Hb Hrs Hc Hstr Hrx Hroom r.
  destruct (frames_of_images fs) as [Hok Hfs]; [eapply Forall_impl; [exact Hc|]; by intros f []|].
  assert (Forall bytes_ok (uart_data rs)) as HF by (apply bytes_ok_pieces; by rewrite Hstr).
  destruct (rx_loop_run depth Hdepth rs ld w Hwf) as (R1 & R2 & R3 & R4 & R5 & R6); [by rewrite Hb; constructor|done|].
  fold r in R1, R2, R3, R4, R5, R6.
  rewrite Hb, feed_reads_concat in R2, R4 by (done || constructor). cbn [app] in R2, R4.
  rewrite Hstr, Hfs in R2, R4. cbn [fst snd] in R2, R4. rewrite carried_forwarded in R2 by done.
  split; [congruence|]. split; [|done]. rewrite R2, push_all_room.
  - by rewrite Hrx.
  - apply Forall_fmap. eapply Forall_impl; [exact Hc|]. intros f. apply carried_framed.
  - rewrite Hrx, length_fmap. cbn. lia.
Qed.

(** ** The supervisor on the driver *)

Context {E : SvEnv}.

(** [n] turns of the event loop in which the driver is readable: each reads once,
    handles what it got, and writes to the driver what that sent. *)
Fixpoint supervise (n : nat) (w : world K) (s : sv) : world K * sv :=
  match n with
  | O => (w, s)
  | S n =>
      let r := run (DeviceClient.read_some [[]] 1024) w in
      let data := match r.1 with Some (_, bytes) => bytes | None => [] end in
      let s1 := (run (loop_dispatch (LReadable data)) s).2 in
      let w1 := (run (DeviceClient.send_each 2 (drop (length (SupervisorLoop.sent s)) (SupervisorLoop.sent s1))) r.2).2 in
      supervise n w1 s1
  end.

(** Handling a frame leaves the assembler's buffer alone. *)
Ltac keeps :=
  repeat first
    [ eapply (safe_bind _ (fun _ => True)); [|intros ? _]
    | apply safe_atomic; intros s Hs; by split
    | done
    | case_match ].

Lemma frame_buf f s : asm_buf (run (process_frame f) s).2 = asm_buf s.
Proof.
  apply (safe_run (fun t => asm_buf t = asm_buf s) (fun _ => True)); [|done].
  unfold process_frame, nack_bad_frame, on_heartbeat, on_fault_event, sv_apply, arm_heartbeat_timer,
    notify_heartbeat_restored, next_tx_seq, send_out, logger_push, sv_get, sv_set.
  keeps.
Qed.

(** The image of one frame in a read is handled as that frame. *)
Lemma readable_frame f s :
  carried f -> asm_buf s = [] ->
  (run (loop_dispatch (LReadable (frame_image f))) s).2 = (run (process_frame f) s).2.
Proof.
  intros Hf Hs. cbn [loop_dispatch]. unfold handle_readable.
  rewrite (proj2 (Nat.eqb_neq _ _)) by (rewrite length_frame_image; lia).
  rewrite run_bind, run_atomic, Hs. cbn [fst snd].
  change (FrameAssembler_feed [] (frame_image f)) with (frames_of (frame_image f)).
  pose proof (proj2 (frames_of_images [f] ltac:(constructor; [apply Hf|constructor]))) as Hfr.
  cbn [fmap list_fmap concat] in Hfr. rewrite app_nil_r in Hfr. rewrite Hfr. cbn [fst snd process_frames].
  rewrite run_bind, run_ret. cbn [snd].
  replace (s <| asm_buf := [] |>) with s; [done|]. rewrite <- Hs. by destruct s.
Qed.

Lemma sendable_length b : bytes_ok b -> sendable b -> 16 <= Z.of_nat (length b) <= 272.
Proof.
  intros Hb [Hv Hl]. split; [|done].
  destruct (validate_ok_inv b (Z.of_nat (length b)) Hb ltac:(lia) Hv) as (h & p & rest & _ & Hd & Hlen & _). lia.
Qed.

Lemma sendable_sizes out :
  Forall (fun b => bytes_ok b /\ sendable b) out ->
  Forall (fun b => bytes_ok b /\ (0 < length b)%nat /\ Z.of_nat (length b) < 2 ^ 32) out.
Proof.
  intros HF. eapply Forall_impl; [exact HF|]. intros b [Hb Hs]. pose proof (sendable_length b Hb Hs). split; [done|lia].
Qed.

(** Valid frames that fit are queued for the link daemon. *)
Lemma write_all_queued out w :
  wf depth w -> Forall (fun b => bytes_ok b /\ sendable b) out ->
  Z.of_nat (length (l_tx (link_of w)) + length out) <= depth ->
  let r := run (device_run (Write <$> out)) w in
  r.1 = (fun b => (Z.of_nat (length b), [])) <$> out /\
  link_of r.2 = mkLink (l_rx (link_of w)) (l_tx (link_of w) ++ out) /\ wf depth r.2.
Proof.
  intros Hwf HF. revert w Hwf. induction HF as [|b out [Hb Hs] _ IH]; intros w Hwf Hroom;
    cbn [fmap list_fmap device_run].
  { rewrite run_ret. cbn [fst snd]. rewrite app_nil_r. by destruct (link_of w). }
  cbn [length] in Hroom. rewrite !run_bind, run_ret. cbn [fst snd].
  pose proof (sendable_length b Hb Hs) as Hl. destruct Hs as [Hv _].
  destruct (op_refines depth (Write b) w Hdepth Hwf) as (H1 & H2 & H3); [split; [done|lia]|].
  cbn [link_step] in H1, H2. rewrite !decide_False, decide_True in H1, H2 by (done || lia || (intros H; by apply H)).
  cbn [fst snd] in H1, H2. destruct (IH _ H3) as (I1 & I2 & I3); [rewrite H2; cbn [l_tx]; rewrite length_app; cbn [length]; lia|].
  rewrite H1, I1, I2, H2. cbn [l_rx l_tx]. split; [done|]. split; [by rewrite <- app_assoc|done].
Qed.

(** The loop handles the frames that wait as it would handle them at once, and
    its answers wait for the link daemon. *)
Lemma supervise_run fs w s :
  wf depth w -> Forall carried fs -> l_rx (link_of w) = frame_image <$> fs -> asm_buf s = [] ->
  let out := answers (seen_ s) (tx_seq_ s) fs in
  Forall (fun b => bytes_ok b /\ sendable b) out ->
  Z.of_nat (length (l_tx (link_of w)) + length out) <= depth ->
  let r := supervise (length fs) w s in
  link_of r.1 = mkLink [] (l_tx (link_of w) ++ out) /\ wf depth r.1 /\ r.2 = (run (process_frames fs) s).2.
Proof.
  intros Hwf HF. revert w s Hwf. induction HF as [|f fs Hf _ IH]; intros w s Hwf Hrx Hbuf; cbn zeta.
  { intros _ _. cbn [answers supervise length process_frames fst snd]. rewrite app_nil_r, run_ret. split; [|done].
    destruct (link_of w) as [rx tx]. cbn in Hrx |- *. by rewrite Hrx. }
  cbn [length supervise]. destruct (carried_framed f Hf) as [_ Hlen].
  destruct (read_some_run depth Hdepth [[]] 1024 (frame_image f) _ w Hwf Hrx) as (H1 & H2 & H3);
    [lia|done|]. rewrite H1. cbn [fst snd].
  rewrite readable_frame by done. set (w0 := (run (DeviceClient.read_some [[]] 1024) w).2) in *.
  destruct (frame_answers f s) as (out & seen & tx & (A1 & A2 & A3) & Hout). rewrite Hout.
  pose proof (frame_buf f s) as Hb. set (s1 := (run (process_frame f) s).2) in *.
  intros [HF1 HF2]%Forall_app Hroom. rewrite length_app in Hroom. rewrite A1, drop_app_length.
  rewrite (send_each_run depth Hdepth) by (done || lia || by apply sendable_sizes).
  destruct (write_all_queued out w0 H3 HF1) as (_ & Q1 & Q2); [rewrite H2; cbn [l_tx]; lia|].
  rewrite H2 in Q1. cbn [l_rx l_tx] in Q1.
  destruct (IH _ s1 Q2) as (I1 & I2 & I3); rewrite ?Q1, ?A2, ?A3; cbn [l_rx l_tx]; [done|congruence|done| |].
  { rewrite length_app. lia. }
  rewrite I1, I3, Q1, A2, A3. cbn [l_tx process_frames]. rewrite app_assoc. split; [done|]. split; [done|].
  by rewrite run_bind.
Qed.

(** ** The answers *)

Definition is_answer (hp : SafetyFrameHeader * list Z) : Prop :=
  frame_ok hp.1 hp.2 /\ (type hp.1 = SAFETY_FRAME_ACK \/ type hp.1 = SAFETY_FRAME_NACK).

Lemma answers_parts seen tx fs :
  is_u16 tx ->
  exists la, answers seen tx fs = (fun hp => frame_bytes hp.1 hp.2) <$> la /\ Forall is_answer la.
Proof.
  revert seen tx. induction fs as [|f fs IH]; intros seen tx Htx; [by exists []|]. cbn [answers].
  assert (is_u16 (u16 (tx + 1))) as Htx' by apply u16_range.
  assert (forall ty p t seen, ty = SAFETY_FRAME_ACK \/ ty = SAFETY_FRAME_NACK -> bytes_ok p -> (length p <= 256)%nat ->
    is_u32 t ->
    exists la, pack_frame ty tx t p :: answers seen (u16 (tx + 1)) fs = (fun hp => frame_bytes hp.1 hp.2) <$> la /\
               Forall is_answer la) as Hcons.
  { intros ty p t seen' Hty Hp Hl Ht. destruct (IH seen' _ Htx') as (la & -> & Hla).
    exists ((safety_frame_init ty tx (Z.of_nat (length p)) t, p) :: la).
    rewrite pack_frame_image. split; [done|]. constructor; [|done]. split; [|exact Hty].
    apply frame_init_ok; [by destruct Hty as [-> | ->]; split|done|done|done|done]. }
  destruct (negb (pf_ok f)).
  { unfold build_nack. apply Hcons; [by right|apply nack_bytes_ok| |apply u32_range].
    unfold nack_bytes. rewrite !length_app, !length_le_bytes. lia. }
  case_bool_decide; [by apply IH|]. destruct (pf_type f =? SAFETY_FRAME_HEARTBEAT); [|by apply IH].
  unfold build_ack. apply Hcons; [by left|apply ack_bytes_ok| |apply u32_range].
  unfold ack_bytes. rewrite !length_app, !length_le_bytes. lia.
Qed.

Lemma answers_sendable seen tx fs : is_u16 tx -> Forall (fun b => bytes_ok b /\ sendable b) (answers seen tx fs).
Proof.
  intros Htx. destruct (answers_parts seen tx fs Htx) as (la & -> & Hla). apply Forall_fmap.
  eapply Forall_impl; [exact Hla|]. intros [h p] [Hok _]. cbn [compose fst snd] in *.
  split; [apply bytes_ok_frame, Hok|]. split; [by apply frame_validates|by apply frame_length_bound].
Qed.

Lemma length_answers seen tx fs : (length (answers seen tx fs) <= length fs)%nat.
Proof.
  revert seen tx. induction fs as [|f fs IH]; intros seen tx; [done|]. cbn [answers length].
  destruct (negb (pf_ok f)); [cbn [length]; apply le_n_S, IH|].
  case_bool_decide; [apply le_S, IH|].
  destruct (_ =? _); [cbn [length]; apply le_n_S, IH|apply le_S, IH].
Qed.

(** The answer to one frame that is bad or a new heartbeat. *)
Definition answer_to (tx : Z) (f : ParsedFrame) : list Z :=
  if pf_ok f then build_ack tx (u32 (pf_ts_ms f)) (pf_seq f)
  else build_nack tx (u32 (pf_ts_ms f)) (pf_seq f) SAFETY_NACK_CHECKSUM.

Definition numbered_answers (tx : Z) (fs : list ParsedFrame) : list (list Z) :=
  imap (fun i f => answer_to (u16 (tx + Z.of_nat i)) f) fs.

(** Good frames are heartbeats with sequence numbers not in [seen]. *)
Definition new_beats (seen : gset (Z * Z)) (fs : list ParsedFrame) : Prop :=
  Forall (fun f => pf_ok f = true ->
            pf_type f = SAFETY_FRAME_HEARTBEAT /\ (SAFETY_FRAME_HEARTBEAT, pf_seq f) ∉ seen) fs.

Definition good_seqs (fs : list ParsedFrame) : list Z := pf_seq <$> filter (fun f => pf_ok f = true) fs.

Lemma u16_add_succ tx i : u16 (u16 (tx + 1) + Z.of_nat i) = u16 (tx + Z.of_nat (S i)).
Proof. unfold u16. rewrite Zplus_mod_idemp_l. f_equal. lia. Qed.

Lemma numbered_cons tx f fs :
  is_u16 tx -> numbered_answers tx (f :: fs) = answer_to tx f :: numbered_answers (u16 (tx + 1)) fs.
Proof.
  intros Htx. unfold numbered_answers. rewrite imap_cons. f_equal; [by rewrite Z.add_0_r, u16_small|].
  apply imap_ext. intros i g _. cbn. by rewrite u16_add_succ.
Qed.

Lemma answers_numbered seen tx fs :
  is_u16 tx -> new_beats seen fs -> NoDup (good_seqs fs) -> answers seen tx fs = numbered_answers tx fs.
Proof.
  revert seen tx. induction fs as [|f fs IH]; intros seen tx Htx HF Hnd; [done|].
  apply Forall_cons_1 in HF as [Hf HF].
  rewrite numbered_cons by done. unfold answer_to. cbn [answers].
  assert (is_u16 (u16 (tx + 1))) as Htx' by apply u16_range. unfold good_seqs in Hnd. rewrite filter_cons in Hnd.
  destruct (pf_ok f) eqn:Eok; cbn [negb].
  - destruct (Hf eq_refl) as [Hty Hin]. rewrite Hty, bool_decide_false, Z.eqb_refl by done.
    rewrite decide_True in Hnd by done. cbn [fmap list_fmap] in Hnd. apply NoDup_cons in Hnd as [Hnot Hnd].
    rewrite IH; [done..| |exact Hnd]. apply Forall_forall. intros g Hg Hok.
    rewrite Forall_forall in HF. destruct (HF g Hg Hok) as [H1 H2]. split; [exact H1|].
    rewrite elem_of_union, elem_of_singleton. intros [[= Hs]|?]; [|done]. apply Hnot. rewrite <- Hs.
    apply list_elem_of_fmap. exists g. split; [done|]. apply list_elem_of_filter. by split.
  - rewrite decide_False in Hnd by done. by rewrite IH.
Qed.

(** Heartbeats keep a healthy daemon healthy, and the first one starts it. *)
Lemma beats_healthy fs s :
  new_beats ∅ fs -> fsm s = HEALTHY -> fsm (run (process_frames fs) s).2 = HEALTHY.
Proof.
  intros HF. revert s. induction HF as [|f fs Hf _ IH]; intros s Hs; [done|]. cbn [process_frames].
  rewrite run_bind. apply IH. rewrite frame_fsm. unfold frame_target. rewrite Hs.
  destruct (pf_ok f) eqn:Eok; [|done]. destruct (Hf eq_refl) as [-> _]. by destruct (negb true || _).
Qed.

Lemma beats_start fs s :
  new_beats (seen_ s) fs -> fsm s = BOOTING ->
  fsm (run (process_frames fs) s).2 = if existsb pf_ok fs then HEALTHY else BOOTING.
Proof.
  revert s. induction fs as [|f fs IH]; intros s HF Hs; [done|]. apply Forall_cons_1 in HF as [Hf HF].
  cbn [process_frames existsb].
  rewrite run_bind. pose proof (frame_fsm f s) as Hfsm. pose proof (frame_seen f s) as Hseen.
  set (s1 := (run (process_frame f) s).2) in *. unfold frame_target in Hfsm.
  destruct (pf_ok f) eqn:Eok; cbn [negb orb] in Hfsm |- *.
  - destruct (Hf eq_refl) as [Hty Hin]. rewrite Hty, bool_decide_false, Z.eqb_refl, Hs in Hfsm by done.
    apply beats_healthy; [|exact Hfsm]. eapply Forall_impl; [exact HF|]. intros g Hg Hok.
    split; [by apply Hg|apply not_elem_of_empty].
  - apply IH; [by rewrite Hseen|congruence].
Qed.

End Devices.

(** ** The firmware's heartbeats *)

Section Beats.
Context {Zep : ZephyrApi} {ZO : ZephyrOk Zep}.
Implicit Types (f : fw Zep).

(** Header and payload of the heartbeat round number [i] sends. *)
Definition beat_at (b : Z) f (i : nat) : SafetyFrameHeader * list Z :=
  let p := heartbeat_bytes (mkHeartbeat (u32 (k_uptime_get (fw_now f + 2 * i))) (u32 (b + Z.of_nat i))) in
  (safety_frame_init SAFETY_FRAME_HEARTBEAT (u16 (tx_sequence f + Z.of_nat i)) (Z.of_nat (length p))
     (u32 (k_uptime_get (fw_now f + 2 * i + 1))), p).

Definition beats (b : Z) f (n : nat) : list (SafetyFrameHeader * list Z) := beat_at b f <$> seq 0 n.

Lemma beats_frame_ok b f n : Forall (fun hp => frame_ok hp.1 hp.2) (beats b f n).
Proof.
  apply Forall_fmap, Forall_true. intros i. cbn [compose beat_at fst snd].
  apply frame_init_ok; [done|apply u16_range|apply u32_range|apply heartbeat_bytes_ok|].
  unfold heartbeat_bytes. rewrite length_app, !length_le_bytes. lia.
Qed.

Lemma beats_stream b f n : mjoin (heartbeat_frame b f <$> seq 0 n) = Framing.stream (beats b f n).
Proof.
  unfold Framing.stream, beats. rewrite <- list_fmap_compose.
  induction (seq 0 n) as [|i l IH]; [done|]. exact (f_equal (app (heartbeat_frame b f i)) IH).
Qed.

Lemma u16_window x i j :
  Z.of_nat i < 2 ^ 16 -> Z.of_nat j < 2 ^ 16 -> u16 (x + Z.of_nat i) = u16 (x + Z.of_nat j) -> i = j.
Proof.
  intros Hi Hj H. unfold u16 in H. assert ((Z.of_nat i - Z.of_nat j) mod 2 ^ 16 = 0) as Hm.
  { replace (Z.of_nat i - Z.of_nat j) with ((x + Z.of_nat i) - (x + Z.of_nat j)) by lia.
    by rewrite Zminus_mod, H, Z.sub_diag. }
  apply Z.mod_divide in Hm as [k Hk]; [|done]. assert (k = 0) by lia. lia.
Qed.

(** What gets through is heartbeats, each with its own sequence number. *)
Lemma fate_sequences cfg m l :
  sublist (good_seqs (fates cfg m l)) ((fun hp => sequence_id hp.1) <$> l).
Proof.
  revert m. induction l as [|[h p] l IH]; intros m; [done|]. cbn [fates fmap list_fmap].
  unfold fate. cbn [fst snd]. destruct (drops cfg _ _); [apply sublist_cons, IH|].
  match goal with |- context [option_list (Some ?x) ++ ?r] => change (option_list (Some x) ++ r) with (x :: r) end.
  unfold good_seqs. destruct (corrupts cfg _); rewrite filter_cons; case_decide as Hd; try done.
  - apply sublist_cons, IH.
  - cbn [fmap list_fmap]. apply sublist_skip, IH.
Qed.

Lemma beats_sequences cfg m b f n :
  Z.of_nat n <= 2 ^ 16 -> NoDup (good_seqs (fates cfg m (beats b f n))).
Proof.
  intros Hn. eapply sublist_NoDup; [|apply fate_sequences].
  unfold beats. rewrite <- list_fmap_compose. apply NoDup_fmap_2_strong; [|apply NoDup_seq].
  intros i j Hi%elem_of_seq Hj%elem_of_seq. cbn [compose beat_at fst]. apply u16_window; lia.
Qed.

Lemma fates_good cfg m l (P : SafetyFrameHeader * list Z -> Prop) :
  Forall P l -> Forall (fun g => pf_ok g = true -> exists hp, P hp /\ g = received hp.1 hp.2) (fates cfg m l).
Proof.
  intros HF. revert m. induction HF as [|[h p] l Hp _ IH]; intros m; [constructor|]. cbn [fates].
  apply Forall_app. split; [|apply IH]. unfold fate. cbn [fst snd].
  destruct (drops cfg _ _); [constructor|]. destruct (corrupts cfg _); (constructor; [|constructor]); [done|].
  intros _. by exists (h, p).
Qed.

Lemma beats_new cfg m b f n seen :
  (forall i, (i < n)%nat -> (SAFETY_FRAME_HEARTBEAT, u16 (tx_sequence f + Z.of_nat i)) ∉ seen) ->
  new_beats seen (fates cfg m (beats b f n)).
Proof.
  intros Hseen. eapply Forall_impl; [apply (fates_good cfg m (beats b f n)
    (fun hp => type hp.1 = SAFETY_FRAME_HEARTBEAT /\ (SAFETY_FRAME_HEARTBEAT, sequence_id hp.1) ∉ seen))|].
  - unfold beats. apply Forall_fmap, Forall_forall. intros i Hi%elem_of_seq. split; [done|].
    apply Hseen. lia.
  - intros g Hg Hok. destruct (Hg Hok) as ([h p] & [H1 H2] & ->). cbn [fst snd] in *.
    unfold pf_type, pf_seq, received. cbn [header]. by rewrite seal_type, seal_seq.
Qed.

(** A receiver at rest takes answers into the command queue, and its command
    handler refuses them. *)
Lemma answers_received la f :
  Forall is_answer la -> rx_ok (rxs f) -> phase (rxs f) = RX_HUNT_MAGIC_LO ->
  (length (msgq_view (g_rx_msgq f)) + length la <= msgq_size (g_rx_msgq f))%nat ->
  let f' := (run (rx_feed (concat ((fun hp => frame_bytes hp.1 hp.2) <$> la))) f).2 in
  let msgs := (fun hp => mkRxFrame (seal hp.1 hp.2) hp.2) <$> la in
  msgq_view (g_rx_msgq f') = msgq_view (g_rx_msgq f) ++ msgs /\ phase (rxs f') = RX_HUNT_MAGIC_LO /\
  Forall (fun msg => command_verdict msg = Refused SAFETY_NACK_UNKNOWN_TYPE) msgs.
Proof.
  intros Hla Hr Hph Hroom f' msgs. set (l := (fun hp : SafetyFrameHeader * list Z => ([] : list Z, hp)) <$> la).
  assert (concat ((fun hp => frame_bytes hp.1 hp.2) <$> la) = FirmwareRx.stream l) as Hl.
  { unfold FirmwareRx.stream, l. clear. induction la as [|hp la IH]; [done|].
    exact (f_equal (app (frame_bytes hp.1 hp.2)) IH). }
  assert (rx_message <$> l = msgs) as Hm by (unfold l, msgs; by rewrite <- list_fmap_compose).
  assert (Forall clean l) as Hc.
  { unfold l. apply Forall_fmap. eapply Forall_impl; [exact Hla|]. intros hp [H _]. by split; [constructor|]. }
  destruct (rx_feed_run (FirmwareRx.stream l) f ltac:(lia)) as (H1 & _ & H3 & _).
  destruct (rx_run_stream l (rxs f) Hc Hr Hph) as (r & Hrun & _ & Hph').
  unfold f'. rewrite Hl, H1, H3, Hrun, Hm. cbn [fst snd]. split; [|split; [done|]].
  - rewrite take_ge; [done|]. unfold msgs. rewrite length_app, length_fmap. lia.
  - apply Forall_fmap. eapply Forall_impl; [exact Hla|]. intros [h p] [_ Hty]. cbn [compose fst snd] in *.
    unfold command_verdict. rewrite decide_True; [done|]. cbn [hdr]. rewrite seal_type. by destruct Hty as [-> | ->].
Qed.

End Beats.

(** Sending heartbeats leaves the receiver alone. *)
Lemma beats_keep {Zep : ZephyrApi} {ZO : ZephyrOk Zep} n b (f : fw Zep) :
  uart_ready f = true -> is_u32 b ->
  inject_task_hang (g_fault_state f) = 0 -> in_safe_mode (g_fault_state f) = 0 ->
  let f1 := (run (heartbeat_task_entry n b) f).2 in rxs f1 = rxs f /\ g_rx_msgq f1 = g_rx_msgq f.
Proof.
  revert b f. induction n as [|n IH]; intros b f Hr Hb Hh Hs; cbn [heartbeat_task_entry]; [done|].
  destruct (heartbeat_round_sends b f Hr Hb Hh Hs) as [H1 H2]. step_run. rewrite H1, H2.
  set (f' := update _ _). destruct (IH (u32 (b + 1)) f') as [I1 I2]; [done|apply u32_range|done|done|].
  by rewrite I1, I2.
Qed.

Module SystemProps.


(** ** A concrete round trip *)

#[local] Existing Instance SupervisorProps.Props.SimSv.

(** Three heartbeats; every second frame is dropped, every third corrupted. *)
Definition trip_cfg : InjectorConfig := mkInjector 2 3 0 (- 1).
Definition trip_beats : list Z := uart_out (run (heartbeat_task_entry 3 0) sim_boot).2.
Definition trip_reads : list (list Z) := [take 30 trip_beats; drop 30 trip_beats].
Definition trip_line : list Z :=
  br_out (bridge_run trip_cfg (bridge_start []) ((fun data => (R2L, data)) <$> trip_reads)) R2L.
Definition trip_uart : list uart_read := [RData (take 7 trip_line); RIntr; RData (drop 7 trip_line)].
Definition trip_link : linkd := linkd_start (concat (replicate 60 [Wrote 1; WAgain; Wrote 0])).
Definition trip_frames : list ParsedFrame := fates trip_cfg 0 (beats 0 sim_boot 3).

Lemma trip_fine :
  length trip_frames = 2%nat /\ existsb pf_ok trip_frames = true /\ uart_out sim_boot = [] /\
  length trip_beats = 72%nat /\ (2 <= msgq_size (g_rx_msgq sim_boot))%nat /\
  Forall never_fails (ld_writes trip_link) /\
  (length (concat (numbered_answers (tx_seq_ sv_start) trip_frames)) <= moving (ld_writes trip_link))%nat.
Proof.
  do 4 (split; [vm_compute; reflexivity|]). split; [apply Nat.leb_le; vm_compute; reflexivity|].
  split; [vm_compute; repeat constructor|apply Nat.leb_le; vm_compute; reflexivity].
Qed.

Lemma sim_boot_receiver : rx_ok (rxs sim_boot) /\ phase (rxs sim_boot) = RX_HUNT_MAGIC_LO.
Proof.
  split; [|done]. split; [done|]. split; [|done]. apply (Forall_replicate _ 272). cbn. lia.
Qed.


End SystemProps.
