(* ===== verification/Recovery.v ===== *)
(** * A recovery over the whole line

    What becomes of a recovery from end to end: the heartbeat timer of the
    supervisor expires, its command travels over driver and link daemon to the
    firmware, and the firmware's report, acknowledgement and new heartbeats
    travel back. *)

From stdpp Require Import gmap.
From S2P Require Import Prelude Crc32 Protocol KernelApi Device Kfifo Watchdog Chrdev DriverMain DriverInv DriverSpec DriverSim DriverRefine DeviceClient.
From S2P Require Import Firmware FirmwareTasks FirmwareRx FirmwareSpec FirmwareInv FirmwareRounds FirmwareProps EndToEnd.
From S2P Require Import Supervisor Framing SupervisorLoop SupervisorInv SupervisorProps Linkd LinkdProps Bridge BridgeProps System.

(** ** The command *)

Definition recovery_header (seq ts : Z) : SafetyFrameHeader :=
  safety_frame_init SAFETY_FRAME_COMMAND seq 8 (u32 ts).
Definition recovery_payload : list Z := command_bytes (mkCommand SAFETY_CMD_REQUEST_RECOVERY SAFETY_FAULT_NONE 0 0).

Lemma recovery_header_ok seq ts : is_u16 seq -> frame_ok (recovery_header seq ts) recovery_payload.
Proof.
  intros Hs. apply (frame_init_ok SAFETY_FRAME_COMMAND seq (u32 ts) recovery_payload);
    [by split|done|apply u32_range| |vm_compute; lia].
  apply (bool_decide_unpack (Forall _ _)). by vm_compute.
Qed.

Lemma recovery_command_image seq ts : recovery_command seq ts = frame_bytes (recovery_header seq ts) recovery_payload.
Proof.
  unfold recovery_command, build_command. rewrite pack_frame_image.
  change (length (command_bytes _)) with 8%nat. reflexivity.
Qed.

(** The state of faults after a recovery. *)
Definition cleared (s : safety_fault_state) : safety_fault_state :=
  mkFaultState 0 0 0 (fault_count s) 0 (heartbeat_interval_ms s).

(** The firmware reports and acknowledges. *)
Definition report_payload (now : Z) : list Z := recovery_report_bytes (mkRecoveryReport 1 0 0 now).
Definition ack_payload (seq : Z) : list Z := ack_bytes (mkAck seq 0).

Lemma firmware_recovers {Zep : ZephyrApi} {ZO : ZephyrOk Zep} seq ts (f : fw Zep) :
  is_u16 seq -> rx_ok (rxs f) -> phase (rxs f) = RX_HUNT_MAGIC_LO -> uart_ready f = true ->
  msgq_view (g_rx_msgq f) = [] -> (0 < msgq_size (g_rx_msgq f))%nat ->
  let f1 := (run (_ ← rx_feed (recovery_command seq ts); command_handler_round) f).2 in
  g_fault_state f1 = cleared (g_fault_state f) /\ uart_ready f1 = true /\
  exists h1 h2 now,
    uart_out f1 = uart_out f ++ frame_bytes h1 (report_payload now) ++ frame_bytes h2 (ack_payload seq) /\
    frame_ok h1 (report_payload now) /\ frame_ok h2 (ack_payload seq) /\
    type h1 = SAFETY_FRAME_RECOVERY_REPORT /\ type h2 = SAFETY_FRAME_ACK.
Proof.
  intros Hs Hrx Hph Hrdy Hq Hsz f1. unfold f1. rewrite recovery_command_image.
  destruct (firmware_answers _ _ f (recovery_header_ok seq ts Hs) Hrx Hph Hrdy Hq Hsz)
    as (f0 & (A1 & _ & _ & A2 & now1 & now2 & now3 & q & N1 & N2 & N3 & A3 & Hseq) & B1 & B2 & _ & B3).
  set (msg := mkRxFrame (seal (recovery_header seq ts) recovery_payload) recovery_payload) in *.
  assert (command_verdict msg = Accepted) as Hv by done.
  assert (command (command_of_bytes (payload msg)) = 3) as Hc by done.
  unfold command_effect, command_report, command_answer in A1, A3. rewrite Hv, Hc in A1, A3.
  rewrite A1, A2, A3, B1, B2. split; [done|]. split; [congruence|].
  do 3 eexists. split; [reflexivity|]. unfold report_payload, ack_payload. split_and!; try done.
  all: destruct Hseq as [-> | ->]; apply frame_init_ok; try done; try (by split); try apply u16_range; auto with safety; by apply Nat.leb_le.
Qed.

(** ** The supervisor *)

Section Daemon.
Context {E : SvEnv}.
Implicit Types s : sv.

(** What a step leaves alone of the frames received and the numbers used. *)
Definition same_frames s0 s : Prop := asm_buf s = asm_buf s0 /\ seen_ s = seen_ s0 /\ tx_seq_ s = tx_seq_ s0.

Lemma worker_section_frames s : same_frames s (worker_section s).2 /\ sent (worker_section s).2 = sent s.
Proof.
  assert (forall q, same_frames s (worker_drain q s).2 /\ sent (worker_drain q s).2 = sent s) as Hd.
  { induction q as [|r q IH]; cbn [worker_drain]; repeat case_match; done. }
  unfold worker_section. repeat case_match; try done; apply Hd.
Qed.

Ltac keeps :=
  repeat first
    [ eapply (safe_bind _ (fun _ => True)); [|intros ? _]
    | apply safe_atomic; intros ? ?; by split
    | done
    | case_match ].

Lemma worker_run_frames n s : same_frames s (run (worker_run n) s).2.
Proof.
  apply (safe_run (same_frames s) (fun _ => True)); [|done].
  induction n as [|n IH]; [done|]. cbn [worker_run]. eapply (safe_bind _ (fun _ => True)); [|by intros _ _].
  unfold worker_round, post_recovery_report, send_out, sv_set.
  eapply (safe_bind _ (fun _ => True)); [|intros ? _; keeps].
  apply safe_atomic. intros t (H1 & H2 & H3). split; [|done].
  destruct (worker_section_frames t) as [(G1 & G2 & G3) _]. split_and!; congruence.
Qed.

Lemma drain_frames s :
  let s' := (run drain_recovery_reports s).2 in same_frames s s' /\ sent s' = sent s.
Proof.
  apply (safe_run (fun t => same_frames s t /\ sent t = sent s) (fun _ => True)); [|done].
  unfold drain_recovery_reports.
  eapply (safe_bind _ (fun _ => True)); [apply safe_atomic; intros ? ?; by split|intros reps _].
  apply safe_drain_all, Forall_true. intros rep. unfold drain_one, sv_apply, logger_push, sv_set.
  keeps.
Qed.

Lemma timeout_frames s :
  at_rest s ->
  let s1 := (run on_heartbeat_timeout s).2 in
  asm_buf s1 = asm_buf s /\ seen_ s1 = seen_ s /\ tx_seq_ s1 = u16 (tx_seq_ s + 1).
Proof.
  intros [Hf Hq Ha Hr Hs Hp]. unfold on_heartbeat_timeout, now_ms, logger_push, sv_get, sv_set,
    next_tx_seq, request_recovery, arm_heartbeat_timer, sv_set. cbn zeta.
  do 3 (rewrite run_bind, run_atomic; cbn [fst snd]). rewrite run_bind.
  rewrite (run_apply_valid _ _ HEALTHY DEGRADED) by done. cbn [fst snd valid andb].
  rewrite bool_decide_true by done. rewrite !run_bind, !run_atomic. done.
Qed.

(** The daemon from the expiry of its timer to the end of its recovery. *)
Definition gives_up (n : nat) s : sv :=
  (run drain_recovery_reports (run (worker_run (S (S n))) (run on_heartbeat_timeout s).2).2).2.

Lemma gives_up_run n s :
  at_rest s ->
  let s' := gives_up n s in
  fsm s' = FAILED /\ sent s' = sent s ++ [recovery_command (tx_seq_ s) (steady_now_ms (clock s))] /\
  asm_buf s' = asm_buf s /\ seen_ s' = seen_ s /\ tx_seq_ s' = u16 (tx_seq_ s + 1).
Proof.
  intros Hrest. unfold gives_up.
  destruct (timeout_requests s Hrest) as (F1 & Q1 & A1 & R1 & St1 & P1 & Se1 & _).
  destruct (timeout_frames s Hrest) as (B1 & N1 & X1).
  set (s1 := (run on_heartbeat_timeout s).2) in *.
  destruct (worker_gives_up n s1 _ _ Q1 A1 St1 P1 R1) as (F2 & Se2 & R2 & _).
  destruct (worker_run_frames (S (S n)) s1) as (B2 & N2 & X2).
  set (s2 := (run (worker_run (S (S n))) s1).2) in *.
  destruct (drain_frames s2) as [(B3 & N3 & X3) Se3].
  split; [|split_and!; congruence].
  rewrite drain_fsm, F2, F1, R2. by destruct (device_write_ok _).
Qed.

(** Frames do not take it out of FAILED. *)
Lemma failed_frames fs s : fsm s = FAILED -> fsm (run (process_frames fs) s).2 = FAILED.
Proof.
  revert s. induction fs as [|f fs IH]; intros s Hs; [done|]. cbn [process_frames]. rewrite run_bind. apply IH.
  rewrite frame_fsm. unfold frame_target. rewrite Hs. by repeat case_match.
Qed.

(** A good frame that is no heartbeat is not answered. *)
Lemma answers_other seen tx f fs :
  pf_ok f = true -> pf_type f <> SAFETY_FRAME_HEARTBEAT ->
  exists seen', answers seen tx (f :: fs) = answers seen' tx fs /\
    forall q, (SAFETY_FRAME_HEARTBEAT, q) ∉ seen -> (SAFETY_FRAME_HEARTBEAT, q) ∉ seen'.
Proof.
  intros Hok Hty. cbn [answers]. rewrite Hok, (proj2 (Z.eqb_neq _ _)) by done. cbn [negb].
  case_bool_decide; [by exists seen|]. eexists. split; [done|].
  intros q Hq. rewrite elem_of_union, elem_of_singleton. intros [[= ]|?]; [congruence|done].
Qed.

End Daemon.

(** ** The line *)

(** One valid frame written by the supervisor, sent on by the link daemon. *)
Lemma written_and_sent {K : KernelApi safety_fifo_slot} {KO : KernelOk K} depth b ld (w : world K) :
  0 < depth -> wf depth w -> link_of w = mkLink [] [] -> bytes_ok b -> sendable b ->
  Forall never_fails (ld_writes ld) -> (length b <= moving (ld_writes ld))%nat ->
  let put := run (DeviceClient.send_out 2 b) w in
  let down := run (tx_loop 2 ld) put.2 in
  put.1 = Some true /\ ld_uart down.1.2 = ld_uart ld ++ b /\ ld_buf down.1.2 = ld_buf ld /\
  link_of down.2 = mkLink [] [] /\ wf depth down.2.
Proof.
  intros Hd Hwf Hlink Hb Hs Hws Hmov put down. assert (0 <= depth) as Hd0 by lia.
  pose proof (sendable_length b Hb Hs) as Hl.
  destruct (write_all_queued depth Hd0 [b] w Hwf) as (Q1 & Q2 & Q3);
    [by constructor|rewrite Hlink; cbn; lia|].
  cbn [fmap list_fmap device_run] in Q1, Q2, Q3. rewrite !run_bind, !run_ret in Q1, Q2, Q3. cbn [fst snd] in Q1, Q2, Q3.
  assert (put = (Some true, (run (device_op (Write b)) w).2)) as Hput.
  { unfold put. rewrite (send_out_run depth Hd0) by (done || lia).
    assert ((run (device_op (Write b)) w).1 = (Z.of_nat (length b), [])) as -> by (by injection Q1).
    by rewrite bool_decide_true. }
  unfold down. rewrite Hput. cbn [fst snd]. rewrite Hlink in Q2. cbn [l_rx l_tx app] in Q2.
  destruct (tx_loop_run depth Hd0 2 ld _ Q3) as (_ & T2 & T3 & T4 & T5 & _); rewrite ?Q2;
    cbn [l_tx length concat]; rewrite ?app_nil_r; [lia|done|done|].
  rewrite Q2 in T2, T4. cbn [l_rx l_tx concat] in T2, T4. by rewrite app_nil_r in T2.
Qed.

Lemma received_carried l :
  Forall (fun hp => frame_ok hp.1 hp.2) l -> Forall carried ((fun hp => received hp.1 hp.2) <$> l).
Proof.
  intros HF. apply Forall_fmap. eapply Forall_impl; [exact HF|]. intros [h p] Hok. cbn [compose fst snd].
  split; [by apply received_reparsed|by left].
Qed.

Lemma received_stream l : concat (frame_image <$> ((fun hp => received hp.1 hp.2) <$> l)) = Framing.stream l.
Proof. unfold Framing.stream. rewrite <- list_fmap_compose. by induction l as [|hp l IH]; [|cbn; f_equal]. Qed.

Lemma beats_received_new {Zep : ZephyrApi} b (f : fw Zep) n seen :
  (forall i, (i < n)%nat -> (SAFETY_FRAME_HEARTBEAT, u16 (tx_sequence f + Z.of_nat i)) ∉ seen) ->
  new_beats seen ((fun hp => received hp.1 hp.2) <$> beats b f n).
Proof.
  intros H. unfold new_beats, beats. rewrite <- list_fmap_compose. apply Forall_fmap, Forall_forall.
  intros i Hi%elem_of_seq _. cbn [compose]. unfold pf_type, pf_seq, received. cbn [header].
  rewrite seal_type, seal_seq. split; [done|]. apply H. lia.
Qed.

Lemma good_seqs_received l :
  good_seqs ((fun hp => received hp.1 hp.2) <$> l) = (fun hp => sequence_id hp.1) <$> l.
Proof.
  unfold good_seqs. induction l as [|[h p] l IH]; [done|]. cbn [fmap list_fmap].
  rewrite filter_cons, decide_True by done. cbn [fmap list_fmap fst snd]. exact (f_equal (cons _) IH).
Qed.

Lemma beats_received_seqs {Zep : ZephyrApi} b (f : fw Zep) n :
  Z.of_nat n <= 2 ^ 16 -> NoDup (good_seqs ((fun hp => received hp.1 hp.2) <$> beats b f n)).
Proof.
  intros Hn. rewrite good_seqs_received. unfold beats. rewrite <- list_fmap_compose. apply NoDup_fmap_2_strong; [|apply NoDup_seq].
  intros i j Hi%elem_of_seq Hj%elem_of_seq. cbn [compose beat_at fst]. apply u16_window; lia.
Qed.

Module Props.

(** C9. A recovery goes the whole way and comes back in vain.  When the heartbeat
    timer of a healthy daemon at rest expires, the worker's REQUEST_RECOVERY is
    taken by the driver and sent by the link daemon as it was written; the firmware,
    in whatever state of faults and safe mode, receives it, clears every fault,
    leaves safe mode, answers with a RECOVERY_REPORT of success and an ACK of that
    command, and sends heartbeats again.  All of this comes back, in any pieces,
    through link daemon and driver to the daemon, which acknowledges each of the
    heartbeats and looks at neither report nor ACK: it has been FAILED since the
    command was sent, and remains so in every interleaving of its threads. *)
Theorem recovery_round_trip {K : KernelApi safety_fifo_slot} {KO : KernelOk K}
    {Zep : ZephyrApi} {ZO : ZephyrOk Zep} {E : SvEnv}
    (rounds n : nat) (b : Z) (f : fw Zep) (rs : list uart_read) (ld : linkd) (depth : Z) (w : world K) (s : sv)
    (c : list (prog sv unit) * sv) :
  let cmd := recovery_command (tx_seq_ s) (steady_now_ms (clock s)) in
  let s3 := gives_up rounds s in
  let put := run (DeviceClient.send_out 2 cmd) w in
  let down := run (tx_loop 2 ld) put.2 in
  let line := drop (length (ld_uart ld)) (ld_uart down.1.2) in
  let f1 := (run (_ ← rx_feed line; command_handler_round) f).2 in
  let f2 := (run (heartbeat_task_entry n b) f1).2 in
  let up := run (rx_loop rs down.1.2) down.2 in
  let sup := supervise (2 + n) up.2 s3 in
  let out := numbered_answers (u16 (tx_seq_ s + 1)) ((fun hp => received hp.1 hp.2) <$> beats b f1 n) in
  (* the supervisor *)
  at_rest s -> asm_buf s = [] -> is_u16 (tx_seq_ s) ->
  (forall i, (i < n)%nat -> (SAFETY_FRAME_HEARTBEAT, u16 (tx_sequence f1 + Z.of_nat i)) ∉ seen_ s) ->
  (* the driver and the link daemon *)
  wf depth w -> link_of w = mkLink [] [] -> 2 + Z.of_nat n <= depth ->
  ld_buf ld = [] -> reads_fine rs = true -> Forall never_fails (ld_writes ld) ->
  (length cmd <= moving (ld_writes ld))%nat ->
  (* the firmware *)
  rx_ok (rxs f) -> phase (rxs f) = RX_HUNT_MAGIC_LO -> uart_ready f = true ->
  msgq_view (g_rx_msgq f) = [] -> (0 < msgq_size (g_rx_msgq f))%nat ->
  Z.of_nat n <= 2 ^ 16 -> is_u32 b -> uart_out f2 = uart_out f ++ concat (uart_data rs) ->
  fsm s3 = FAILED /\ SupervisorLoop.sent s3 = SupervisorLoop.sent s ++ [cmd] /\ put.1 = Some true /\ line = cmd /\
  g_fault_state f1 = cleared (g_fault_state f) /\
  (exists h1 h2 now,
     concat (uart_data rs) = frame_bytes h1 (report_payload now) ++ frame_bytes h2 (ack_payload (tx_seq_ s)) ++
                             Framing.stream (beats b f1 n) /\
     type h1 = SAFETY_FRAME_RECOVERY_REPORT /\ type h2 = SAFETY_FRAME_ACK) /\
  SupervisorLoop.sent sup.2 = SupervisorLoop.sent s ++ cmd :: out /\ link_of sup.1 = mkLink [] out /\
  fsm sup.2 = FAILED /\ (pool_reach sv_thread sup.2 c -> fsm c.2 = FAILED).
Proof.
  intros cmd s3 put down line f1 f2 up sup out Hrest Hasm Htx Hnew Hwf Hlink Hroom Hlb Hrs Hws Hmov
    Hrx Hph Hrdy Hq Hsz Hn Hb Hdata.
  assert (0 < depth) as Hd by lia. assert (0 <= depth) as Hd0 by lia.
  destruct (gives_up_run rounds s Hrest) as (G1 & G2 & G3 & G4 & G5). fold s3 cmd in G1, G2, G3, G4, G5.
  rewrite Hasm in G3.
  pose proof (recovery_header_ok (tx_seq_ s) (steady_now_ms (clock s)) Htx) as Hcmd.
  assert (bytes_ok cmd /\ sendable cmd) as [Hbc Hsc].
  { unfold cmd. rewrite recovery_command_image. split; [apply bytes_ok_frame, Hcmd|].
    split; [by apply frame_validates|by apply frame_length_bound]. }
  destruct (written_and_sent depth cmd ld w Hd Hwf Hlink Hbc Hsc Hws Hmov) as (P1 & P2 & P3 & P4 & P5).
  fold put down in P1, P2, P3, P4, P5.
  assert (line = cmd) as Hline by (unfold line; by rewrite P2, drop_app_length).
  destruct (firmware_recovers (tx_seq_ s) (steady_now_ms (clock s)) f Htx Hrx Hph Hrdy Hq Hsz)
    as (F1 & F2 & h1 & h2 & now & F3 & F4 & F5 & F6 & F7).
  fold cmd in F1, F2, F3. rewrite <- Hline in F1, F2, F3. fold f1 in F1, F2, F3.
  set (l := (h1, report_payload now) :: (h2, ack_payload (tx_seq_ s)) :: beats b f1 n).
  assert (concat (uart_data rs) = Framing.stream l) as Hstr.
  { pose proof (heartbeat_task_sends n b f1 F2 Hb) as H. rewrite F1 in H. specialize (H eq_refl eq_refl).
    fold f2 in H. rewrite Hdata, F3, beats_stream, <- !app_assoc in H. by apply app_inv_head in H. }
  assert (Forall (fun hp => frame_ok hp.1 hp.2) l) as Hl by (do 2 (constructor; [done|]); apply beats_frame_ok).
  pose proof (received_carried l Hl) as Hc. set (fs := (fun hp => received hp.1 hp.2) <$> l) in *.
  assert (length fs = (2 + n)%nat) as Hlen by (unfold fs, l, beats; cbn [fmap list_fmap length]; by rewrite !length_fmap, length_seq).
  destruct (uart_queued depth Hd0 rs fs down.1.2 down.2 P5) as (_ & U2 & U3 & _);
    [congruence|done|done|by rewrite Hstr; unfold fs; rewrite received_stream|by rewrite P4|lia|].
  fold up in U2, U3. rewrite P4 in U2. cbn [l_tx] in U2.
  assert (answers (seen_ s3) (tx_seq_ s3) fs = out) as Hans.
  { rewrite G4, G5. unfold fs, l. rewrite !fmap_cons. cbn [fst snd].
    destruct (answers_other (seen_ s) (u16 (tx_seq_ s + 1)) (received h1 (report_payload now))
      (received h2 (ack_payload (tx_seq_ s)) :: ((fun hp => received hp.1 hp.2) <$> beats b f1 n)))
      as (seen1 & -> & Hs1); [done|unfold pf_type, received; cbn [header]; by rewrite seal_type, F6|].
    destruct (answers_other seen1 (u16 (tx_seq_ s + 1)) (received h2 (ack_payload (tx_seq_ s)))
      ((fun hp => received hp.1 hp.2) <$> beats b f1 n))
      as (seen2 & -> & Hs2); [done|unfold pf_type, received; cbn [header]; by rewrite seal_type, F7|].
    apply answers_numbered; [apply u16_range| |by apply beats_received_seqs].
    apply beats_received_new. auto. }
  assert (is_u16 (tx_seq_ s3)) as Htx3 by (rewrite G5; apply u16_range).
  pose proof (answers_sendable (seen_ s3) (tx_seq_ s3) fs Htx3) as Hsd.
  assert (Z.of_nat (length out) <= depth) as Hol.
  { unfold out, numbered_answers. rewrite length_imap, length_fmap. unfold beats. rewrite length_fmap, length_seq. lia. }
  destruct (supervise_run depth Hd0 fs up.2 s3 U3 Hc) as (S1 & _ & S3);
    rewrite ?U2, ?Hans; cbn [l_rx l_tx length]; [done|done|by rewrite <- Hans|lia|].
  rewrite Hlen in S1, S3. fold sup in S1, S3. rewrite U2, Hans in S1. cbn [l_tx app] in S1.
  assert (fsm sup.2 = FAILED) as HF by (rewrite S3; by apply failed_frames).
  do 5 (split; [done|]). split; [exists h1, h2, now; split; [exact Hstr|by split]|].
  split; [by rewrite S3, frames_answers, Hans, G2, <- app_assoc|]. do 2 (split; [done|]).
  intros Hc'. destruct (pool_invariant sv_thread (stuck_in FAILED) sup.2 c HF) as [H _]; [|done|exact H].
  intros p Hp. apply terminal_threads; [by left|done].
Qed.

(** ** A concrete recovery *)

#[local] Existing Instance SupervisorProps.Props.SimSv.

(** A firmware that has sent one heartbeat and hangs. *)
Definition hung : fw SimZep :=
  (run (_ ← heartbeat_task_entry 1 0; _ ← apply_inject SAFETY_FAULT_TASK_HANG; mret tt) sim_boot).2.

Definition trip_cmd : list Z := recovery_command (tx_seq_ SupervisorProps.Props.sim_rest)
  (steady_now_ms (clock SupervisorProps.Props.sim_rest)).
Definition trip_down : (tx_end * linkd) * world SimK :=
  run (tx_loop 2 LinkdProps.LinkdProps.slow_uart) (run (DeviceClient.send_out 2 trip_cmd) sim_world).2.
Definition trip_awake : fw SimZep :=
  (run (_ ← rx_feed (drop (length (ld_uart LinkdProps.LinkdProps.slow_uart)) (ld_uart trip_down.1.2)); command_handler_round) hung).2.
Definition trip_back : list Z :=
  drop (length (uart_out hung)) (uart_out (run (heartbeat_task_entry 2 1) trip_awake).2).
Definition trip_reads : list uart_read := [RData (take 50 trip_back); RIntr; RData (drop 50 trip_back)].

Lemma hung_receiver : rx_ok (rxs hung) /\ phase (rxs hung) = RX_HUNT_MAGIC_LO.
Proof.
  split; [|done]. split; [done|]. split; [|done]. apply (Forall_replicate _ 272). cbn. lia.
Qed.

Lemma trip_facts :
  inject_task_hang (g_fault_state hung) = 1 /\ uart_ready hung = true /\ msgq_view (g_rx_msgq hung) = [] /\
  (0 < msgq_size (g_rx_msgq hung))%nat /\ length trip_cmd = 24%nat /\
  uart_out (run (heartbeat_task_entry 2 1) trip_awake).2 = uart_out hung ++ trip_back /\
  ((SAFETY_FRAME_HEARTBEAT, u16 (tx_sequence trip_awake + 0)) ∉ seen_ SupervisorProps.Props.sim_rest) /\
  ((SAFETY_FRAME_HEARTBEAT, u16 (tx_sequence trip_awake + 1)) ∉ seen_ SupervisorProps.Props.sim_rest).
Proof.
  do 3 (split; [by vm_compute|]). split; [apply Nat.leb_le; by vm_compute|].
  do 2 (split; [by vm_compute|]). split; apply (bool_decide_unpack _); by vm_compute.
Qed.

Lemma recovery_round_trip_witness :
  let s3 := gives_up 0 SupervisorProps.Props.sim_rest in
  let up := run (rx_loop trip_reads trip_down.1.2) trip_down.2 in
  let sup := supervise 4 up.2 s3 in
  inject_task_hang (g_fault_state hung) = 1 /\ inject_task_hang (g_fault_state trip_awake) = 0 /\
  length (l_tx (link_of sup.1)) = 2%nat /\ fsm sup.2 = FAILED.
Proof.
  destruct trip_facts as (F1 & F2 & F3 & F4 & F5 & F6 & F7 & F8). destruct hung_receiver as [R1 R2].
  destruct LinkdProps.LinkdProps.slow_uart_fine as [L1 L2].
  destruct (recovery_round_trip 0 2 1 hung trip_reads LinkdProps.LinkdProps.slow_uart 4 sim_world
    SupervisorProps.Props.sim_rest ([], SupervisorProps.Props.sim_rest))
    as (_ & _ & _ & _ & H5 & _ & _ & H8 & H9 & _).
  - exact SupervisorProps.Props.sim_rest_ok.
  - by vm_compute.
  - apply (bool_decide_unpack _). by vm_compute.
  - intros [|[|i]] Hi; [exact F7|exact F8|lia].
  - exact sim_wf.
  - reflexivity.
  - lia.
  - reflexivity.
  - reflexivity.
  - exact L1.
  - change (length trip_cmd <= moving (ld_writes LinkdProps.LinkdProps.slow_uart))%nat. rewrite F5. lia.
  - exact R1.
  - exact R2.
  - exact F2.
  - exact F3.
  - exact F4.
  - lia.
  - by split.
  - unfold trip_reads. cbn [uart_data concat]. rewrite app_nil_r, take_drop. exact F6.
  - split; [exact F1|]. split; [exact (f_equal inject_task_hang H5)|].
    split; [exact (f_equal (fun l => length (l_tx l)) H8)|exact H9].
Defined.

End Props.
