(* ===== verification/TraceLayout.v ===== *)
(** * The records of the driver's tracepoints in memory

    The tracer has no BTF of the driver and declares the records of its
    tracepoints by hand ([safety_trace.bpf.c]); the driver's own layout comes from
    [TP_STRUCT__entry] ([safety_copro_trace.h]).  Both are lists of fields laid out
    by the C rules; here a record is written with the one and read with the
    other. *)

From S2P Require Import Prelude Crc32 Protocol KernelApi Device Ebpf EbpfReport EbpfHist EbpfSpec EbpfProps.

(** ** Layout of C structs *)

(** A member: its name, size and alignment. *)
Record member := mkMember { m_name : string; m_size : nat; m_align : nat }.

(** The first multiple of [a] from [off] on. *)
Definition align_up (off a : nat) : nat := (off + (a - 1)) / a * a.

(** Offset of each member when the struct goes on at [off]. *)
Fixpoint offsets (off : nat) (ms : list member) : list (member * nat) :=
  match ms with
  | [] => []
  | m :: ms => let o := align_up off (m_align m) in (m, o) :: offsets (o + m_size m) ms
  end.

(** Where the member of a name is, and its size. *)
Definition offset_of (ms : list member) (nm : string) : option (nat * nat) :=
  r ← List.find (fun mo => bool_decide (m_name mo.1 = nm)) (offsets 0 ms); Some (r.2, m_size r.1).

Definition u8_ (nm : string) : member := mkMember nm 1 1.
Definition u16_ (nm : string) : member := mkMember nm 2 2.
Definition u32_ (nm : string) : member := mkMember nm 4 4.

(** ** The driver's records *)

(** [struct trace_entry] of the kernel, the first member of every record. *)
Definition trace_entry : member := mkMember "ent" 8 4.

(** [TP_STRUCT__entry] and [TP_fast_assign]: the members with their values. *)
Definition tp_struct (e : kevent) : option (list (member * Z)) :=
  match e with
  | safety_frame_received seq ty qlen => Some [(u16_ "seq", seq); (u8_ "type", ty); (u32_ "qlen", qlen)]
  | safety_frame_dropped seq ty => Some [(u16_ "seq", seq); (u8_ "type", ty)]
  | safety_timeout_detected ms cnt => Some [(u32_ "timeout_ms", ms); (u32_ "count", cnt)]
  | safety_recovery_queued cnt => Some [(u32_ "count", cnt)]
  | safety_poll_wakeup events => Some [(u32_ "events", events)]
  | wake_up_rx_wq | wake_up_tx_wq => None
  end.

(** Values written at their offsets, from [off] on, into memory that holds
    something; padding keeps what was there. *)
Fixpoint assign (off : nat) (fs : list (member * Z)) (mem : list Z) : list Z :=
  match fs with
  | [] => mem
  | (m, x) :: fs =>
      let o := align_up off (m_align m) in
      assign (o + m_size m) fs (overwrite o (le_bytes (m_size m) x) mem)
  end.

(** The record of an event: the bytes of [trace_entry] are the kernel's. *)
Definition tp_record (fs : list (member * Z)) (mem : list Z) : list Z := assign (m_size trace_entry) fs mem.

(** ** The tracer's records *)

(** [struct safety_tp_common]. *)
Definition safety_tp_common : list member :=
  [u16_ "common_type"; u8_ "common_flags"; u8_ "common_preempt_count"; mkMember "common_pid" 4 4].

(** Size and alignment of a struct, tail padding included. *)
Definition struct_align (ms : list member) : nat := foldr Nat.max 1%nat (m_align <$> ms).
Definition struct_size (ms : list member) : nat :=
  align_up (foldl (fun off m => align_up off (m_align m) + m_size m) 0 ms)%nat (struct_align ms).

Definition common : member :=
  mkMember "common" (struct_size safety_tp_common) (struct_align safety_tp_common).

(** The tracepoints the tracer attaches to, with the struct each program takes
    its context as. *)
Inductive tp := TpFrameReceived | TpFrameDropped | TpTimeoutDetected | TpRecoveryQueued | TpPollWakeup.

Definition trace_event_struct (t : tp) : list member :=
  match t with
  | TpFrameReceived => [common; u16_ "seq"; u8_ "type"; u32_ "qlen"]
  | TpFrameDropped => [common; u16_ "seq"; u8_ "type"]
  | TpTimeoutDetected => [common; u32_ "timeout_ms"; u32_ "count"]
  | TpRecoveryQueued => [common; u32_ "count"]
  | TpPollWakeup => [common; u32_ "events"]
  end.

(** [ctx->nm]. *)
Definition ctx_field (t : tp) (nm : string) (rec : list Z) : option Z :=
  '(off, n) ← offset_of (trace_event_struct t) nm; Some (field off n rec).

(** The event a program sees in a record. *)
Definition event_of_record (c : bpf_ctx) (t : tp) (rec : list Z) : option bpf_event :=
  match t with
  | TpFrameReceived => seq ← ctx_field t "seq" rec; Some (EvFrame c seq)
  | TpFrameDropped => Some (EvDropped c)
  | TpTimeoutDetected => cnt ← ctx_field t "count" rec; Some (EvTimeout c cnt)
  | TpRecoveryQueued => cnt ← ctx_field t "count" rec; Some (EvRecovery c cnt)
  | TpPollWakeup => Some (EvPoll c)
  end.

(** The tracepoint of an event. *)
Definition tp_of (e : kevent) : option tp :=
  match e with
  | safety_frame_received _ _ _ => Some TpFrameReceived
  | safety_frame_dropped _ _ => Some TpFrameDropped
  | safety_timeout_detected _ _ => Some TpTimeoutDetected
  | safety_recovery_queued _ => Some TpRecoveryQueued
  | safety_poll_wakeup _ => Some TpPollWakeup
  | wake_up_rx_wq | wake_up_tx_wq => None
  end.

(** ** Reading back what was assigned *)

Lemma field_overwrite off src dst :
  (off + length src <= length dst)%nat -> field off (length src) (overwrite off src dst) = le_value src.
Proof.
  intros H. unfold field, slice, overwrite. rewrite drop_app_length' by (rewrite length_take; lia).
  by rewrite take_app_length.
Qed.

Lemma field_overwrite_below o n off src dst :
  (o + n <= off)%nat -> (off + length src <= length dst)%nat ->
  field o n (overwrite off src dst) = field o n dst.
Proof.
  intros Ho H. unfold overwrite. rewrite field_app_l by (rewrite length_take; lia).
  rewrite <- (take_drop off dst) at 2. by rewrite field_app_l by (rewrite length_take; lia).
Qed.

(** Where the members end. *)
Definition assign_end (off : nat) (fs : list (member * Z)) : nat :=
  foldl (fun o f => align_up o (m_align f.1) + m_size f.1)%nat off fs.

Lemma align_up_le off a : (0 < a)%nat -> (off <= align_up off a)%nat.
Proof. intros Ha. unfold align_up. pose proof (Nat.div_mod (off + (a - 1)) a). pose proof (Nat.mod_upper_bound (off + (a - 1)) a). nia. Qed.

Definition aligned_member (f : member * Z) : Prop := (0 < m_align f.1)%nat.

Lemma assign_end_le off fs : Forall aligned_member fs -> (off <= assign_end off fs)%nat.
Proof.
  intros HF. revert off. induction HF as [|f fs Hf _ IH]; intros off; [done|]. cbn [assign_end foldl].
  fold (assign_end (align_up off (m_align f.1) + m_size f.1) fs).
  etransitivity; [|apply IH]. pose proof (align_up_le off _ Hf). lia.
Qed.

Lemma assign_below o n off fs mem :
  Forall aligned_member fs -> (o + n <= off)%nat -> (assign_end off fs <= length mem)%nat ->
  field o n (assign off fs mem) = field o n mem /\ length (assign off fs mem) = length mem.
Proof.
  intros HF. revert off mem. induction HF as [|[m x] fs Hf HF IH]; intros off mem Ho Hend; [done|].
  cbn [assign assign_end foldl fst] in *. fold (assign_end (align_up off (m_align m) + m_size m) fs) in Hend.
  pose proof (assign_end_le (align_up off (m_align m) + m_size m) fs HF) as Hle.
  pose proof (align_up_le off _ Hf) as Ha. cbn [fst] in Ha.
  assert (align_up off (m_align m) + length (le_bytes (m_size m) x) <= length mem)%nat as Hfit
    by (rewrite length_le_bytes; lia).
  destruct (IH (align_up off (m_align m) + m_size m)%nat (overwrite (align_up off (m_align m)) (le_bytes (m_size m) x) mem))
    as [-> ->]; [lia|by rewrite length_overwrite|].
  rewrite length_overwrite by done. split; [|done]. apply field_overwrite_below; [lia|done].
Qed.

(** Each member is found at its offset. *)
Lemma assign_reads off fs mem i m x :
  Forall aligned_member fs -> (assign_end off fs <= length mem)%nat -> fs !! i = Some (m, x) ->
  exists o, offsets off fs.*1 !! i = Some (m, o) /\
            field o (m_size m) (assign off fs mem) = x mod 2 ^ (8 * Z.of_nat (m_size m)).
Proof.
  intros HF. revert off mem i. induction HF as [|[m' x'] fs Hf HF IH]; intros off mem i Hend Hi; [done|].
  cbn [assign assign_end foldl fmap list_fmap offsets fst] in *.
  set (o' := align_up off (m_align m')) in *. fold (assign_end (o' + m_size m') fs) in Hend.
  pose proof (assign_end_le (o' + m_size m') fs HF) as Hle.
  assert (o' + length (le_bytes (m_size m') x') <= length mem)%nat as Hfit by (rewrite length_le_bytes; lia).
  destruct i as [|i]; cbn in Hi.
  - injection Hi as -> ->. exists o'. split; [done|].
    destruct (assign_below o' (m_size m) (o' + m_size m) fs (overwrite o' (le_bytes (m_size m) x) mem) HF)
      as [-> _]; [lia|by rewrite length_overwrite|].
    rewrite <- (length_le_bytes (m_size m) x) at 1. rewrite field_overwrite by done. apply le_value_le_bytes.
  - apply IH; [by rewrite length_overwrite|done].
Qed.

Definition wide_member (f : member * Z) : Z := f.2 mod 2 ^ (8 * Z.of_nat (m_size f.1)).

(** The structs of the tracer put every member where the driver puts it. *)
Lemma struct_offsets e t fs :
  tp_of e = Some t -> tp_struct e = Some fs ->
  Forall aligned_member fs /\ (assign_end 8 fs <= 16)%nat /\
  Forall (fun mo => offset_of (trace_event_struct t) (m_name mo.1) = Some (mo.2, m_size mo.1)) (offsets 8 fs.*1).
Proof.
  intros Ht Hf. destruct e; try discriminate; injection Ht as <-; injection Hf as <-;
    (split; [repeat constructor|]; split; [apply Nat.leb_le; reflexivity|repeat constructor]).
Qed.

Lemma ctx_reads e t fs mem m x :
  tp_of e = Some t -> tp_struct e = Some fs -> (16 <= length mem)%nat -> (m, x) ∈ fs ->
  ctx_field t (m_name m) (tp_record fs mem) = Some (wide_member (m, x)).
Proof.
  intros Ht Hf Hlen [i Hi]%list_elem_of_lookup. destruct (struct_offsets e t fs Ht Hf) as (Ha & Hend & Hoff).
  destruct (assign_reads 8 fs mem i m x Ha ltac:(lia) Hi) as (o & Ho & Hval).
  rewrite Forall_lookup in Hoff. pose proof (Hoff i (m, o) Ho) as Hname. cbn [fst snd] in Hname.
  unfold ctx_field. rewrite Hname. exact (f_equal Some Hval).
Qed.

(** What [TP_PROTO] passes on: the arguments in the types of the prototype. *)
Definition as_passed (e : kevent) : kevent :=
  match e with
  | safety_frame_received seq ty qlen => safety_frame_received (u16 seq) (u8 ty) (u32 qlen)
  | safety_frame_dropped seq ty => safety_frame_dropped (u16 seq) (u8 ty)
  | safety_timeout_detected ms cnt => safety_timeout_detected (u32 ms) (u32 cnt)
  | safety_recovery_queued cnt => safety_recovery_queued (u32 cnt)
  | safety_poll_wakeup events => safety_poll_wakeup (u32 events)
  | e => e
  end.

(** The event a program makes of the record the driver writes over [mem]. *)
Definition traced (c : bpf_ctx) (e : kevent) (mem : list Z) : option bpf_event :=
  t ← tp_of e; fs ← tp_struct e; event_of_record c t (tp_record fs mem).

Lemma traced_event c e mem : (16 <= length mem)%nat -> traced c e mem = tracepoint c (as_passed e).
Proof.
  intros Hlen. unfold traced.
  assert (forall t fs m x, tp_of e = Some t -> tp_struct e = Some fs -> (m, x) ∈ fs ->
    ctx_field t (m_name m) (tp_record fs mem) = Some (wide_member (m, x))) as H
    by (intros; by eapply ctx_reads).
  destruct e as [seq ty qlen| |ms cnt|cnt| | |]; try done; cbn [tp_of tp_struct mbind option_bind event_of_record].
  - pose proof (H _ _ (u16_ "seq") seq eq_refl eq_refl ltac:(apply list_elem_of_here)) as E.
    cbn [m_name u16_] in E. by rewrite E.
  - pose proof (H _ _ (u32_ "count") cnt eq_refl eq_refl ltac:(apply list_elem_of_further, list_elem_of_here)) as E.
    cbn [m_name u32_] in E. by rewrite E.
  - pose proof (H _ _ (u32_ "count") cnt eq_refl eq_refl ltac:(apply list_elem_of_here)) as E.
    cbn [m_name u32_] in E. by rewrite E.
Qed.

Module LayoutProps.

(** C39. The structs the tracer declares by hand match the driver's tracepoints:
    whatever the memory of a record held before, every member of
    [TP_STRUCT__entry] is found under its name where the tracer's struct has it,
    with the value assigned, cut to its width; the struct is no longer than the
    record's 16 bytes and the kernel's own first 8 bytes are left alone; and so,
    for any log of the driver, the tracer's programs do exactly what they would
    with the arguments of the events themselves. *)
Theorem tracer_structs_match :
  (forall e t fs mem, tp_of e = Some t -> tp_struct e = Some fs -> (16 <= length mem)%nat ->
     (forall m x, (m, x) ∈ fs -> ctx_field t (m_name m) (tp_record fs mem) = Some (wide_member (m, x))) /\
     (struct_size (trace_event_struct t) <= 16)%nat /\
     (forall o n, (o + n <= 8)%nat -> field o n (tp_record fs mem) = field o n mem)) /\
  (forall {B : BpfApi} (c : bpf_ctx) (log : list (kevent * list Z)) (s : bpf B),
     Forall (fun r => (16 <= length r.2)%nat) log ->
     handle_all (omap (fun r => traced c r.1 r.2) log) s = handle_all (omap (fun r => tracepoint c (as_passed r.1)) log) s).
Proof.
  split.
  - intros e t fs mem Ht Hf Hlen. destruct (struct_offsets e t fs Ht Hf) as (Ha & Hend & _). split; [|split].
    + intros m x Hin. by apply (ctx_reads e).
    + destruct t; apply Nat.leb_le; vm_compute; reflexivity.
    + intros o n Ho. apply (assign_below o n 8 fs mem); [done|exact Ho|lia].
  - intros B c log s HF. f_equal. induction HF as [|r log Hr _ IH]; [done|]. cbn [omap list_omap].
    rewrite traced_event, IH by done. done.
Qed.

(** A frame with sequence number 258 over memory of 0xAA. *)
Lemma tracer_structs_match_witness :
  let mem := replicate 16 0xAA in
  let rec := tp_record [(u16_ "seq", 258); (u8_ "type", 1); (u32_ "qlen", 3)] mem in
  ctx_field TpFrameReceived "qlen" rec = Some 3 /\
  drop 8 rec = [2; 1; 1; 0xAA; 3; 0; 0; 0].
Proof.
  destruct tracer_structs_match as [H _]. split; [|vm_compute; reflexivity].
  destruct (H (safety_frame_received 258 1 3) TpFrameReceived _ (replicate 16 0xAA) eq_refl eq_refl) as [Hr _];
    [apply Nat.leb_le; reflexivity|].
  exact (Hr (u32_ "qlen") 3 ltac:(apply list_elem_of_further, list_elem_of_further, list_elem_of_here)).
Defined.

End LayoutProps.
