(* ===== verification/LinkdRun.v ===== *)
(** * The main loop of the link daemon as a relay

    [linkd_loop] is the loop of [main] in [userspace/safety-linkd/main.cpp], one
    [linkd_turn] per iteration.  It runs as one thread among the entry points of
    the driver that other processes, the watchdog and the recovery work are in;
    [relay_events] is what its own calls do to the queues of the driver. *)

From S2P Require Import Prelude Crc32 Protocol KernelApi Device Kfifo Watchdog Chrdev DriverMain DriverInv DriverSpec DriverSim DriverRefine DriverProps DriverSteps.
From S2P Require Import Supervisor Framing Linkd LinkdProps.

(** ** The loop *)

(** What [poll] returns: [EINTR], another error, or whether the UART is
    readable. *)
Inductive poll_result := PollIntr | PollFail | PollOk (pollin : bool).

(** One iteration: [g_running] and the clock at its top, the result of [poll], and
    what the reads of the UART return. *)
Record linkd_turn := mkTurn {
  tn_running : bool; tn_now : Z; tn_poll : poll_result; tn_reads : list uart_read }.

(** [main] has returned, or is still in the loop. *)
Inductive linkd_end := LdReturned (code : Z) | LdRunning.

(** [args.duration_ms] is over. *)
Definition time_up (duration_ms start now : Z) : bool := (duration_ms >? 0) && (now - start >=? duration_ms).

Section Loop.
Context {K : KernelApi safety_fifo_slot}.

(** The loop; [fuel] bounds the sending loop of one iteration. *)
Fixpoint linkd_loop (duration_ms start : Z) (fuel : nat) (turns : list linkd_turn) (s : linkd) :
    prog (world K) (linkd_end * linkd) :=
  match turns with
  | [] => mret (LdRunning, s)
  | t :: turns =>
      if negb (tn_running t) then mret (LdReturned 0, s)
      else if time_up duration_ms start (tn_now t) then mret (LdReturned 0, s)
      else
        match tn_poll t with
        | PollIntr => linkd_loop duration_ms start fuel turns s
        | PollFail => mret (LdReturned 1, s)
        | PollOk pollin =>
            r ← link_round pollin (tn_reads t) fuel s;
            match r.1 with
            | None => mret (LdReturned 1, r.2)
            | Some TxDone => linkd_loop duration_ms start fuel turns r.2
            | Some _ => mret (LdRunning, r.2)
            end
        end
  end.

(** The daemon, and the other threads in the driver. *)
Definition daemon_thread (p : prog (world K) (linkd_end * linkd)) : prog (world K) (option (linkd_end * linkd)) :=
  r ← p; mret (Some r).
Definition other_thread (p : prog (world K) unit) : prog (world K) (option (linkd_end * linkd)) :=
  _ ← p; mret None.
Definition threads (p : prog (world K) (linkd_end * linkd)) (others : list (prog (world K) unit)) :=
  daemon_thread p :: (other_thread <$> others).

(** ** The relay *)

(** The reads of an iteration: none unless the UART is readable. *)
Definition turn_reads (t : linkd_turn) : list uart_read :=
  match tn_poll t with PollOk true => tn_reads t | _ => [] end.

(** The result of [main] when the iteration ends it. *)
Definition turn_end (t : linkd_turn) : option Z :=
  match tn_poll t with
  | PollFail => Some 1
  | PollIntr => None
  | PollOk _ => if reads_fine (turn_reads t) then None else Some 1
  end.

(** The iterations taken, and how the loop ends. *)
Fixpoint turns_taken (duration_ms start : Z) (turns : list linkd_turn) : list linkd_turn * linkd_end :=
  match turns with
  | [] => ([], LdRunning)
  | t :: turns =>
      if negb (tn_running t) || time_up duration_ms start (tn_now t) then ([], LdReturned 0)
      else
        match turn_end t with
        | Some c => ([t], LdReturned c)
        | None => let r := turns_taken duration_ms start turns in (t :: r.1, r.2)
        end
  end.

(** What the framer makes of the bytes that arrive in an iteration. *)
Definition turn_feed (buf : list Z) (t : linkd_turn) : list ParsedFrame * list Z :=
  feed_reads buf (uart_data (turn_reads t)).

(** Frames are taken until the queue is empty. *)
Definition drained (fs : list (list Z)) : list link_event :=
  ((fun f => (Pop, (0, io_bytes f))) <$> fs) ++ [(Pop, (- EAGAIN, []))].

(** The daemon's operations on the queues in one iteration: the frames found in
    the bytes that arrived are pushed, each once and in order, and unless the
    iteration is cut short the TX queue is read until a pop finds it empty. *)
Definition turn_events (buf : list Z) (t : linkd_turn) (es : list link_event) : Prop :=
  exists pushed rest, es = pushed ++ rest /\ pushed.*1 = Push <$> forwarded (turn_feed buf t).1 /\
    match tn_poll t, turn_end t with
    | PollOk _, None => exists fs, rest = drained fs
    | _, _ => rest = []
    end.

(** Iterations one after the other, from one content of the framer's buffer to
    another. *)
Fixpoint relay_events (buf : list Z) (turns : list linkd_turn) (es : list link_event) (buf' : list Z) : Prop :=
  match turns with
  | [] => es = [] /\ buf' = buf
  | t :: turns =>
      exists es1 es2, es = es1 ++ es2 /\ turn_events buf t es1 /\
        relay_events (turn_feed buf t).2 turns es2 buf'
  end.

(** What the UART delivers is bytes. *)
Definition turn_ok (t : linkd_turn) : Prop := Forall bytes_ok (uart_data (turn_reads t)).

End Loop.

Section Steps.
Context {K : KernelApi safety_fifo_slot} {KO : KernelOk K}.
Context (depth : Z) (Hdepth : 0 <= depth).
Implicit Types (s : linkd) (w : world K).

(** ** Receiving *)

Lemma does_push_rx f :
  pushable f -> does depth (fun es _ => es.*1 = [Push f]) (push_rx_frame (K := K) f).
Proof.
  intros [Hb Hl]. unfold push_rx_frame. change SAFETY_MAX_FRAME_SIZE with 272.
  rewrite (proj2 (Nat.eqb_neq _ _)), Z.gtb_ltb, (proj2 (Z.ltb_ge _ _)) by lia. cbn [orb].
  change 272 with SAFETY_MAX_FRAME_SIZE. rewrite io_of_frame, ioctl_push_rx by lia.
  eapply (does_bind depth (fun es _ => es.*1 = [Push f])); [|intros es r He; cbn; by rewrite app_nil_r].
  unfold no_out, ioc_push_rx_frame. rewrite io_bytes_len by lia. change SAFETY_MAX_FRAME_SIZE with 272.
  rewrite Z.gtb_ltb, (proj2 (Z.ltb_ge _ _)) by lia. change (Z.to_nat 272) with 272%nat.
  rewrite io_bytes_data, io_bytes_data_short, queue_rx_prefix by lia.
  eapply does_bind; [apply does_queue_rx; [done|lia]|]. by intros es rc ->.
Qed.

(** What forwarding leaves of the state. *)
Definition same_link s s' : Prop :=
  ld_buf s' = ld_buf s /\ ld_uart s' = ld_uart s /\ ld_writes s' = ld_writes s.

Lemma does_forward_all s fs :
  Forall pushable fs ->
  does depth (fun es s' => es.*1 = Push <$> fs /\ same_link s s') (forward_all (K := K) s fs).
Proof.
  intros HF. revert s. induction HF as [|f fs Hf _ IH]; intros s; [done|].
  cbn [forward_all]. eapply (does_bind depth (fun es s' => es.*1 = [Push f] /\ same_link s s')).
  - unfold forward_rx. eapply does_bind; [by apply does_push_rx|]. intros es e He. split; [by rewrite app_nil_r|].
    by destruct (e =? 0).
  - intros es s1 [He (B1 & B2 & B3)]. eapply does_mono; [|apply IH]. intros es' s' [He' (C1 & C2 & C3)].
    split; [by rewrite fmap_app, He, He'|]. split; [congruence|]. split; congruence.
Qed.

Lemma does_rx_loop rs s :
  bytes_ok (ld_buf s) -> Forall bytes_ok (uart_data rs) ->
  let a := feed_reads (ld_buf s) (uart_data rs) in
  does depth (fun es r => es.*1 = Push <$> forwarded a.1 /\ r.1 = reads_fine rs /\
    ld_buf r.2 = a.2 /\ ld_uart r.2 = ld_uart s /\ ld_writes r.2 = ld_writes s) (rx_loop (K := K) rs s).
Proof.
  revert s. induction rs as [|[data| | |e] rs IH]; intros s Hb HF a;
    cbn [rx_loop uart_data feed_reads reads_fine] in *; [done| |by apply IH|done..].
  apply Forall_cons_1 in HF as [Hd HF]. assert (bytes_ok (ld_buf s ++ data)) as Hbd by by apply bytes_ok_app.
  unfold LinkFramer_feed. rewrite link_assemble_frames by done.
  unfold a. set (a1 := FrameAssembler_feed (ld_buf s) data). change (assemble _ _) with a1. cbn [fst snd].
  assert (Forall pushable (forwarded a1.1)) as Hp.
  { pose proof (link_frames_pushable (S (length (ld_buf s ++ data))) (ld_buf s ++ data) Hbd) as H.
    by rewrite link_assemble_frames in H. }
  eapply does_bind; [by apply does_forward_all|]. intros es s1 [He (B1 & B2 & B3)]. cbn in B1, B2, B3.
  eapply does_mono; [|apply IH; [rewrite B1; by apply bytes_ok_kept|done]].
  intros es' r (H1 & H2 & H3 & H4 & H5). rewrite B1 in H1, H3. rewrite fmap_app, He, H1, forwarded_app, fmap_app.
  split; [done|]. split; [done|]. split; [done|]. split; congruence.
Qed.

(** ** Sending *)

Lemma does_pop_tx_frame :
  does depth (fun es r => (es = [(Pop, (- EAGAIN, []))] /\ r = (EAGAIN, [])) \/
    exists f, es = [(Pop, (0, io_bytes f))] /\ r = (0, io_bytes f) /\ (0 < length f <= 272)%nat)
    (pop_tx_frame (K := K)).
Proof.
  unfold pop_tx_frame. rewrite ioctl_pop_tx. eapply does_bind; [apply does_ioc_pop_tx|].
  intros es r [-> [-> |(f & -> & Hl)]]; [by left|right]. by exists f.
Qed.

Lemma popped_pop f es : (length f <= 272)%nat -> popped ((Pop, (0, io_bytes f)) :: es) = f :: popped es.
Proof. intros H. change (popped (?e :: es)) with (popped [e] ++ popped es). unfold popped at 1. cbn. by rewrite frame_of_io_bytes. Qed.

Lemma popped_drained fs : Forall (fun f => (length f <= 272)%nat) fs -> popped (drained fs) = fs.
Proof.
  unfold drained. induction 1 as [|f fs Hf _ IH]; [done|].
  cbn [fmap list_fmap app]. by rewrite popped_pop, IH.
Qed.

Lemma popped_pushed es fs : es.*1 = Push <$> fs -> popped es = [].
Proof.
  revert fs. induction es as [|[op r] es IH]; intros [|f fs] H; [done..|]. injection H as -> H. by apply (IH fs).
Qed.

(** Bytes sent, and the results of writes left. *)
Definition sent_on s s' (fs : list (list Z)) : Prop :=
  ld_uart s' = ld_uart s ++ concat fs /\ Forall never_fails (ld_writes s') /\
  (moving (ld_writes s) <= moving (ld_writes s') + length (concat fs))%nat.

(** More frames than the fuel, or more bytes than writes that move some. *)
Definition too_many fuel s (fs : list (list Z)) : Prop :=
  (fuel <= length fs)%nat \/ (moving (ld_writes s) < length (concat fs))%nat.

Definition pops (es : list link_event) : Prop := Forall (fun e => e.1 = Pop) es.

Lemma write_all_never_fails ws data : Forall never_fails ws -> Forall never_fails (write_all ws data).2.
Proof.
  intros HF. revert data. induction HF as [|x ws Hx HF IH]; intros data; [cbn; by case_match|].
  cbn [write_all]. destruct (_ =? 0)%nat; [by constructor|]. destruct x; [apply IH|apply IH|apply IH|done].
Qed.

(** A frame from the driver: sent, unless it has more bytes than there are
    writes. *)
Lemma forward_tx_frame s f :
  (0 < length f <= 272)%nat -> Forall never_fails (ld_writes s) ->
  exists e s1, forward_tx s (field 0 4 (io_bytes f)) (slice 4 (Z.to_nat SAFETY_MAX_FRAME_SIZE) (io_bytes f)) = (e, s1) /\
    e <> TxDone /\ ld_buf s1 = ld_buf s /\ Forall never_fails (ld_writes s1) /\
    ((length f <= moving (ld_writes s))%nat -> e = TxMore /\ sent_on s s1 [f]).
Proof.
  intros Hl HF. change (Z.to_nat SAFETY_MAX_FRAME_SIZE) with 272%nat.
  destruct (forward_tx s (field 0 4 (io_bytes f)) (slice 4 272 (io_bytes f))) as [e s1] eqn:E.
  exists e, s1. split; [done|].
  assert (e <> TxDone /\ ld_buf s1 = ld_buf s /\ Forall never_fails (ld_writes s1)) as (H1 & H2 & H3).
  { unfold forward_tx in E. destruct (_ || _); [by injection E as <- <-|].
    pose proof (write_all_never_fails (ld_writes s) (take (Z.to_nat (field 0 4 (io_bytes f))) (slice 4 272 (io_bytes f))) HF) as Hw.
    destruct (write_all _ _) as [[[z|] out] ws]; cbn [fst snd] in *; [destruct (z =? 0)|]; by injection E as <- <-. }
  do 3 (split; [done|]). intros Hm. destruct (forward_tx_run s f Hl HF Hm) as (T1 & T2 & T3 & T4 & T5).
  rewrite E in T1, T2, T4, T5. cbn [fst snd] in *. split; [done|]. unfold sent_on. cbn [concat]. by rewrite app_nil_r.
Qed.

Lemma sent_on_trans s s1 s2 fs1 fs2 :
  sent_on s s1 fs1 -> sent_on s1 s2 fs2 -> sent_on s s2 (fs1 ++ fs2).
Proof.
  intros (A1 & A2 & A3) (B1 & B2 & B3). unfold sent_on. rewrite concat_app, app_assoc, B1, A1, length_app.
  split; [done|]. split; [done|lia].
Qed.

Lemma too_many_before fuel s fs1 fs2 : too_many fuel s fs1 -> too_many fuel s (fs1 ++ fs2).
Proof. intros [H|H]; [left|right]; rewrite ?concat_app, !length_app; lia. Qed.

Lemma too_many_later fuel s s1 fs1 fs2 :
  sent_on s s1 fs1 -> too_many fuel s1 fs2 -> too_many (length fs1 + fuel) s (fs1 ++ fs2).
Proof. intros (_ & _ & A3) [H|H]; [left|right]; rewrite ?concat_app, !length_app; lia. Qed.

Lemma too_many_less fuel fuel' s fs : (fuel' <= fuel)%nat -> too_many fuel s fs -> too_many fuel' s fs.
Proof. intros H [H'|H']; [left; lia|by right]. Qed.

Lemma does_tx_loop fuel s :
  Forall never_fails (ld_writes s) ->
  does depth (fun es r => pops es /\ ld_buf r.2 = ld_buf s /\ Forall never_fails (ld_writes r.2) /\
    (~ too_many fuel s (popped es) -> r.1 = TxDone /\ es = drained (popped es) /\ sent_on s r.2 (popped es)))
    (tx_loop (K := K) fuel s).
Proof.
  revert s. induction fuel as [|fuel IH]; intros s HF.
  { split; [constructor|]. do 2 (split; [done|]). intros []. left. cbn. lia. }
  cbn [tx_loop]. eapply does_bind; [apply does_pop_tx_frame|]. intros es r [[-> ->]|(f & -> & -> & Hl)]; cbn [fst snd].
  - change (EAGAIN =? 0) with false. rewrite Z.eqb_refl. cbn [orb]. split; [by repeat constructor|].
    do 2 (split; [done|]). intros _. do 2 (split; [done|]). unfold sent_on. cbn. rewrite app_nil_r. split; [done|]. split; [done|lia].
  - rewrite Z.eqb_refl. assert (popped [(Pop, (0, io_bytes f))] = [f]) as Hf1 by (rewrite popped_pop by lia; done).
    destruct (forward_tx_frame s f Hl HF) as (e & s1 & -> & He & Hb1 & HF1 & Hm).
    assert (~ too_many (S fuel) s [f] -> e = TxMore /\ sent_on s s1 [f]) as Hm'.
    { intros Hn. apply Hm. destruct (decide (length f <= moving (ld_writes s))%nat); [done|].
      destruct Hn. right. cbn [concat]. rewrite app_nil_r. lia. }
    destruct e; [done| |].
    + split; [by repeat constructor|]. do 2 (split; [done|]). rewrite app_nil_r, Hf1. intros Hn.
      by destruct (Hm' Hn).
    + eapply does_mono; [|by apply IH]. intros es [e s'] (Hp & Hb & HF' & Hr). rewrite popped_app, Hf1. cbn [fst snd] in *.
      split; [by constructor|]. split; [congruence|]. split; [done|]. intros Hn.
      destruct Hm' as [_ Hs1]; [intros H; by apply Hn, (too_many_before _ _ [f])|].
      destruct Hr as (H1 & H2 & H3); [intros H; by apply Hn, (too_many_later fuel s s1 [f])|].
      split; [done|]. split; [by rewrite H2 at 1|by eapply sent_on_trans].
Qed.

(** ** A round, and the loop *)

(** The daemon pushes and pops. *)
Definition relays (es : list link_event) : Prop := Forall (fun e => is_write e = false) es.

Lemma relays_pushed es fs : es.*1 = Push <$> fs -> relays es.
Proof.
  revert fs. induction es as [|[op r] es IH]; intros [|f fs] H; [constructor|done..|].
  injection H as -> H. constructor; [done|by apply (IH fs)].
Qed.

Lemma relays_pops es : pops es -> relays es.
Proof. intros H. eapply Forall_impl; [exact H|]. intros [op r] Hop. cbn in Hop. by subst op. Qed.

Lemma does_link_round pollin rs fuel s :
  let reads := if pollin : bool then rs else [] in
  let a := feed_reads (ld_buf s) (uart_data reads) in
  bytes_ok (ld_buf s) -> Forall bytes_ok (uart_data reads) -> Forall never_fails (ld_writes s) ->
  does depth (fun es r => relays es /\ ld_buf r.2 = a.2 /\ Forall never_fails (ld_writes r.2) /\
    if reads_fine reads then
      ~ too_many fuel s (popped es) ->
      r.1 = Some TxDone /\ sent_on s r.2 (popped es) /\
      exists pushed, es = pushed ++ drained (popped es) /\ pushed.*1 = Push <$> forwarded a.1
    else r.1 = None /\ ld_uart r.2 = ld_uart s /\ es.*1 = Push <$> forwarded a.1)
    (link_round (K := K) pollin rs fuel s).
Proof.
  intros reads a Hb HR HF. unfold link_round.
  eapply (does_bind depth (fun es r => es.*1 = Push <$> forwarded a.1 /\ r.1 = reads_fine reads /\
    ld_buf r.2 = a.2 /\ ld_uart r.2 = ld_uart s /\ ld_writes r.2 = ld_writes s)).
  { unfold a, reads in *. destruct pollin; [by apply does_rx_loop|done]. }
  intros es [ok s1] (H1 & H2 & H3 & H4 & H5). cbn [fst snd] in *. subst ok.
  pose proof (relays_pushed _ _ H1) as Hr. pose proof (popped_pushed _ _ H1) as Hp.
  assert (forall fs, too_many fuel s1 fs -> too_many fuel s fs) as Hm by (unfold too_many; by rewrite H5).
  assert (forall s2 fs, sent_on s1 s2 fs -> sent_on s s2 fs) as Hs by (unfold sent_on; intros s2 fs; by rewrite H4, H5).
  destruct (reads_fine reads).
  - eapply does_bind; [apply does_tx_loop; by rewrite H5|]. intros es2 [e s2] (T1 & T2 & T3 & T4). cbn [fst snd] in *.
    apply does_ret. cbn [fst snd]. rewrite app_nil_r, popped_app, Hp. split; [apply Forall_app; split; [done|by apply relays_pops]|].
    split; [congruence|]. split; [done|]. intros Hn. destruct T4 as (-> & T5 & T6); [intros H; by apply Hn, Hm|].
    split; [done|]. split; [by apply Hs|]. exists es. split; [by rewrite T5 at 1|done].
  - apply does_ret. rewrite app_nil_r. cbn [fst snd]. split; [done|]. split; [done|]. split; [by rewrite H5|]. done.
Qed.

Lemma bytes_ok_reads buf reads :
  bytes_ok buf -> Forall bytes_ok reads -> bytes_ok (feed_reads buf reads).2.
Proof.
  intros Hb HF. revert buf Hb. induction HF as [|d reads Hd _ IH]; intros buf Hb; [done|].
  cbn [feed_reads snd]. apply IH, bytes_ok_kept, bytes_ok_app. by split.
Qed.

(** An iteration in which [poll] fails or is interrupted does nothing. *)
Lemma idle_turn buf t :
  (forall pollin, tn_poll t <> PollOk pollin) -> turn_feed buf t = ([], buf) /\ turn_events buf t [].
Proof.
  intros H. assert (turn_feed buf t = ([], buf)) as Hf.
  { unfold turn_feed, turn_reads. destruct (tn_poll t) as [| |pollin]; [done|done|]. by destruct (H pollin). }
  split; [done|]. exists [], []. rewrite Hf. destruct (tn_poll t) as [| |pollin]; [done|done|]. by destruct (H pollin).
Qed.

(** Leaving the loop at its top. *)
Lemma loop_left fuel s (taken : list linkd_turn * linkd_end) :
  taken.1 = [] ->
  relays [] /\ (~ too_many fuel s (popped []) -> taken.2 = taken.2 /\
    relay_events (ld_buf s) taken.1 [] (ld_buf s) /\ ld_uart s = ld_uart s ++ concat (popped [])).
Proof. intros ->. split; [constructor|]. intros _. split; [done|]. split; [done|]. cbn. by rewrite app_nil_r. Qed.

Lemma does_linkd_loop duration start fuel turns s :
  bytes_ok (ld_buf s) -> Forall turn_ok turns -> Forall never_fails (ld_writes s) ->
  let taken := turns_taken duration start turns in
  does depth (fun es r => relays es /\
    (~ too_many fuel s (popped es) ->
     r.1 = taken.2 /\ relay_events (ld_buf s) taken.1 es (ld_buf r.2) /\ ld_uart r.2 = ld_uart s ++ concat (popped es)))
    (linkd_loop (K := K) duration start fuel turns s).
Proof.
  intros Hb HT. revert s Hb. induction HT as [|t turns Ht _ IH]; intros s Hb HF; cbn zeta.
  { by apply (loop_left fuel s ([], LdRunning)). }
  cbn [linkd_loop turns_taken]. destruct (negb (tn_running t)); cbn [orb]; [by apply (loop_left fuel s ([], LdReturned 0))|].
  destruct (time_up duration start (tn_now t)); [by apply (loop_left fuel s ([], LdReturned 0))|].
  destruct (tn_poll t) as [| |pollin] eqn:Ep.
  - destruct (idle_turn (ld_buf s) t) as [Hf He]; [by rewrite Ep|].
    assert (turn_end t = None) as -> by (unfold turn_end; by rewrite Ep). cbn [fst snd relay_events]. rewrite Hf.
    eapply does_mono; [|by apply IH]. intros es r [H1 H2]. split; [done|]. intros Hn.
    destruct (H2 Hn) as (H3 & H4 & H5). split; [done|]. split; [|done]. by exists [], es.
  - destruct (idle_turn (ld_buf s) t) as [Hf He]; [by rewrite Ep|].
    assert (turn_end t = Some 1) as -> by (unfold turn_end; by rewrite Ep). cbn [fst snd relay_events]. rewrite Hf.
    split; [constructor|]. intros _. split; [done|]. split; [|by rewrite app_nil_r]. by exists [], [].
  - assert (turn_reads t = if pollin then tn_reads t else []) as Hrd by (unfold turn_reads; by rewrite Ep).
    assert (turn_end t = if reads_fine (turn_reads t) then None else Some 1) as He by (unfold turn_end; by rewrite Ep).
    unfold turn_ok in Ht. pose proof (does_link_round pollin (tn_reads t) fuel s) as Hround. cbn zeta in Hround.
    rewrite <- Hrd in Hround. specialize (Hround Hb Ht HF). fold (turn_feed (ld_buf s) t) in Hround.
    assert (bytes_ok (turn_feed (ld_buf s) t).2) as Hb' by (by apply bytes_ok_reads).
    eapply does_bind; [exact Hround|]. intros es [e s1] (R1 & R2 & R3 & R4). cbn [fst snd] in *.
    rewrite He. destruct (reads_fine (turn_reads t)).
    + destruct e as [[| |]|]; [|apply does_ret; rewrite app_nil_r; (split; [done|]); intros Hn; by destruct (R4 Hn)..].
      eapply does_mono; [|apply IH; [by rewrite R2|done]]. intros es2 r [H1 H2]. split; [by apply Forall_app|].
      rewrite popped_app. intros Hn.
      destruct R4 as (_ & R5 & pushed & R6 & R7); [intros H; by apply Hn, too_many_before|].
      destruct H2 as (H3 & H4 & H5).
      { intros H. apply Hn. eapply too_many_less, too_many_later, H; [|exact R5]. lia. }
      split; [done|]. split.
      * exists es, es2. split; [done|]. split; [|by rewrite <- R2]. exists pushed, (drained (popped es)).
        rewrite Ep, He. do 2 (split; [done|]). by exists (popped es).
      * rewrite H5, (proj1 R5), concat_app, app_assoc. done.
    + destruct R4 as (-> & R5 & R6). apply does_ret. rewrite app_nil_r. split; [done|]. intros _. split; [done|].
      rewrite (popped_pushed _ _ R6). cbn [concat]. rewrite app_nil_r. split; [|done].
      cbn [relay_events]. exists es, []. rewrite app_nil_r. split; [done|]. split; [|done].
      exists es, []. rewrite app_nil_r, Ep, He. done.
Qed.

(** ** The invariant of the driver *)

Lemma safe_push_rx_frame f :
  pushable f -> safe (wf depth) (fun _ => True) (push_rx_frame (K := K) f).
Proof.
  intros [Hb Hl]. unfold push_rx_frame. apply safe_if; intros _; [done|]. apply safe_seq; [|done].
  rewrite io_of_frame by lia. apply (device_op_safe depth (Push f)); [done|]. split; [done|lia].
Qed.

Lemma safe_rx_loop rs s :
  bytes_ok (ld_buf s) -> Forall bytes_ok (uart_data rs) ->
  safe (wf depth) (fun r => bytes_ok (ld_buf r.2)) (rx_loop (K := K) rs s).
Proof.
  revert s. induction rs as [|[data| | |e] rs IH]; intros s Hb HF;
    cbn [rx_loop uart_data] in *; [done| |by apply IH|done..].
  apply Forall_cons_1 in HF as [Hd HF]. assert (bytes_ok (ld_buf s ++ data)) as Hbd by by apply bytes_ok_app.
  pose proof (link_frames_pushable (S (length (ld_buf s ++ data))) (ld_buf s ++ data) Hbd) as Hp.
  unfold LinkFramer_feed. eapply (safe_bind _ (fun s' => bytes_ok (ld_buf s'))); [|intros s1 Hs1; by apply IH].
  set (r := link_assemble _ _) in *. assert (bytes_ok (ld_buf (s <| ld_buf := r.2 |>))) as Hb0.
  { change (bytes_ok r.2). unfold r. rewrite (link_assemble_frames _ _ Hbd). by apply bytes_ok_kept. }
  revert Hb0. generalize (s <| ld_buf := r.2 |>). clear Hb. induction Hp as [|f fs Hf _ IHf]; intros s0 Hb0; [done|].
  cbn [forward_all]. eapply (safe_bind _ (fun s' => bytes_ok (ld_buf s'))); [|intros s1 Hs1; by apply IHf].
  unfold forward_rx. apply safe_seq; [by apply safe_push_rx_frame|]. intros e. by destruct (e =? 0).
Qed.

Lemma safe_tx_loop fuel s :
  bytes_ok (ld_buf s) -> safe (wf depth) (fun r => bytes_ok (ld_buf r.2)) (tx_loop (K := K) fuel s).
Proof.
  revert s. induction fuel as [|fuel IH]; intros s Hb; [done|]. cbn [tx_loop]. apply safe_seq.
  { unfold pop_tx_frame. apply safe_seq; [|done]. by apply (device_op_safe depth Pop). }
  intros r. apply safe_if; intros _.
  - assert (bytes_ok (ld_buf (forward_tx s (field 0 4 r.2) (slice 4 (Z.to_nat SAFETY_MAX_FRAME_SIZE) r.2)).2)) as H.
    { unfold forward_tx. by repeat case_match. }
    destruct (forward_tx _ _ _) as [[| |] s1]; [done..|]. by apply IH.
  - apply safe_if; intros _; [done|]. apply safe_if; intros _; [by apply IH|done].
Qed.

Lemma safe_linkd_loop duration start fuel turns s :
  bytes_ok (ld_buf s) -> Forall turn_ok turns ->
  safe (wf depth) (fun _ => True) (linkd_loop (K := K) duration start fuel turns s).
Proof.
  intros Hb HT. revert s Hb. induction HT as [|t turns Ht _ IH]; intros s Hb; [done|]. cbn [linkd_loop].
  apply safe_if; intros _; [done|]. apply safe_if; intros _; [done|].
  unfold turn_ok, turn_reads in Ht. destruct (tn_poll t) as [| |pollin]; [by apply IH|done|].
  eapply (safe_bind _ (fun r : option tx_end * linkd => bytes_ok (ld_buf r.2))).
  - unfold link_round. eapply (safe_bind _ (fun r : bool * linkd => bytes_ok (ld_buf r.2))).
    + destruct pollin; [by apply safe_rx_loop|done].
    + intros [b s1] Hs1. apply safe_if; intros _; [|done].
      eapply safe_bind; [by apply safe_tx_loop|]. by intros r Hr.
  - intros [[[| |]|] s1] Hs1; [by apply IH|done..].
Qed.

End Steps.

Lemma popped_cons e es : popped (e :: es) = popped [e] ++ popped es.
Proof. apply (popped_app [e]). Qed.

Lemma own_cons b e hist : own ((b, e) :: hist) = if b : bool then e :: own hist else own hist.
Proof. unfold own. rewrite filter_cons. destruct b; [rewrite decide_True by done|rewrite decide_False by done]; done. Qed.
Lemma theirs_cons b e hist : theirs ((b, e) :: hist) = if b : bool then theirs hist else e :: theirs hist.
Proof. unfold theirs. rewrite filter_cons. destruct b; [rewrite decide_False by done|rewrite decide_True by done]; done. Qed.

(** The daemon pops what was queued or written by the others. *)
Lemma own_popped depth hist l l' :
  happened depth hist.*2 l l' -> relays (own hist) ->
  (length (popped (own hist)) <= length (l_tx l) + length (theirs hist))%nat.
Proof.
  intros H Hr.
  assert (length (popped (own hist)) <= length (popped hist.*2))%nat as H1.
  { clear. induction hist as [|[b e] hist IH]; [done|]. rewrite own_cons, fmap_cons, (popped_cons _ (hist.*2)).
    destruct b; rewrite ?(popped_cons e (own hist)), !length_app; cbn [snd]; lia. }
  assert (length (filter (fun e => is_write e = true) hist.*2) <= length (theirs hist))%nat as H2.
  { clear - Hr. induction hist as [|[b e] hist IH]; [done|]. rewrite own_cons in Hr. rewrite theirs_cons, fmap_cons, filter_cons.
    destruct b; cbn [snd].
    - apply Forall_cons_1 in Hr as [He Hr]. rewrite decide_False by congruence. by apply IH.
    - specialize (IH Hr). case_decide; cbn [length]; lia. }
  pose proof (popped_bound depth _ _ _ H). lia.
Qed.

Lemma turns_ended duration start turns :
  0 < duration -> Exists (fun t => duration <= tn_now t - start) turns ->
  exists code, (turns_taken duration start turns).2 = LdReturned code.
Proof.
  intros Hd. induction 1 as [t turns Ht|t turns _ IH]; cbn [turns_taken].
  - replace (time_up duration start (tn_now t)) with true by (unfold time_up; lia). rewrite orb_true_r. by eexists.
  - destruct (_ || _); [by eexists|]. destruct (turn_end t); [by eexists|exact IH].
Qed.

Module LinkdRunProps.

(** C25. The link daemon is a relay, whatever else runs in the driver: let the
    main loop run on a well-formed device beside any threads that are in the
    driver (reads, writes, polls, ioctls, the watchdog, the recovery work), all
    their critical sections and the daemon's interleaved by any schedule, and
    then to its end.  For any pieces the UART delivers, any short writes and any
    results of [poll] and the reads, what happened on the two bounded queues is
    one sequence of operations, each with the result the abstract queues give it
    at that point, at most one by the others per step they took; the daemon's
    own are these: in each iteration the frames that the supervisor's assembler
    would find in the stream so far are pushed, each once and in order, and the
    TX queue is popped until a pop finds it empty.  The frames popped, and
    nothing else, go out on the UART, back to back.  A failing [poll] or read
    ends the loop with 1, the flag or the duration with 0; and it has ended once
    the clock shows that the duration is over. *)
Theorem link_daemon_refines {K : KernelApi safety_fifo_slot} {KO : KernelOk K}
    depth duration start fuel turns (s : linkd) (w : world K) others sched :
  0 <= depth -> wf depth w -> bytes_ok (ld_buf s) -> Forall never_fails (ld_writes s) -> Forall turn_ok turns ->
  Forall driver_entry others ->
  let n := (length (l_tx (link_of w)) + others_steps sched)%nat in
  (n < fuel)%nat -> (272 * n <= moving (ld_writes s))%nat ->
  let taken := turns_taken duration start turns in
  exists hist e s' w',
    finish (exec sched (threads (linkd_loop duration start fuel turns s) others, w)) = Some (Some (e, s'), w') /\
    happened depth hist.*2 (link_of w) (link_of w') /\
    (length (theirs hist) <= others_steps sched)%nat /\
    relay_events (ld_buf s) taken.1 (own hist) (ld_buf s') /\
    ld_uart s' = ld_uart s ++ concat (popped (own hist)) /\ e = taken.2 /\
    (0 < duration -> Exists (fun t => duration <= tn_now t - start) turns -> exists code, e = LdReturned code).
Proof.
  intros Hd Hwf Hb Hws HT Hothers n Hfuel Hm taken.
  destruct (finish_happened depth (fun es r => relays es /\ (exists x, r = Some x /\ (~ too_many fuel s (popped es) ->
      x.1 = taken.2 /\ relay_events (ld_buf s) taken.1 es (ld_buf x.2) /\ ld_uart x.2 = ld_uart s ++ concat (popped es))))
    (daemon_thread (linkd_loop duration start fuel turns s)) (other_thread <$> others) sched w Hwf)
    as (hist & r & w' & H1 & H2 & H3 & H4 & [e s'] & -> & H5).
  - eapply does_bind; [by apply does_linkd_loop|]. intros es x [R1 R2]. apply does_ret. rewrite app_nil_r.
    split; [done|]. by exists x.
  - apply safe_seq; [by apply safe_linkd_loop|done].
  - apply Forall_fmap. eapply Forall_impl; [exact Hothers|]. intros p Hp. cbn. split.
    + apply opwise_seq; [by apply opwise_entry|done].
    + apply safe_seq; [by apply driver_entry_safe|done].
  - destruct H5 as (H6 & H7 & H8).
    { pose proof (own_popped depth hist _ _ H2 H4) as Hp. pose proof (popped_size (own hist)) as Hs.
      unfold n in *. intros [H|H]; lia. }
    exists hist, e, s', w'. do 3 (split; [done|]). split; [done|]. split; [done|]. split; [done|].
    cbn in H6. subst e. by apply turns_ended.
Qed.

(** ** A concrete run *)

(** The UART takes one byte at a time. *)
Definition demo_daemon : linkd := linkd_start (concat (replicate 820 [Wrote 1; WAgain; Wrote 0])).

(** One heartbeat and the first bytes of another; [poll] is interrupted; the rest
    arrives; then the time is up. *)
Definition demo_turns : list linkd_turn :=
  [mkTurn true 0 (PollOk true) [RData (sim_heartbeat ++ take 10 sim_heartbeat)];
   mkTurn true 50 PollIntr [];
   mkTurn true 90 (PollOk true) [RIntr; RData (drop 10 sim_heartbeat)];
   mkTurn true 200 (PollOk false) []].

(** The supervisor reads a frame and writes a command. *)
Definition demo_others : list (prog (world SimK) unit) :=
  [_ ← safety_read true [] 272 true; mret tt;
   _ ← safety_write (Some sim_command) (Z.of_nat (length sim_command)); mret tt].

(** The daemon pushes the first heartbeat, the supervisor reads it, the daemon
    goes on and finds nothing to send, and only then the command is queued. *)
Definition demo_sched : list nat := [0; 0; 0; 1; 1; 0; 0; 0; 0; 0; 0; 2]%nat.

Definition demo_run := finish (exec demo_sched (threads (linkd_loop 150 0 15 demo_turns demo_daemon) demo_others, sim_world)).

Lemma demo_turns_ok : Forall turn_ok demo_turns.
Proof.
  assert (turn_ok (mkTurn true 0 (PollOk true) [RData (sim_heartbeat ++ take 10 sim_heartbeat)])) as H1.
  { change (Forall bytes_ok [sim_heartbeat ++ take 10 sim_heartbeat]). apply Forall_singleton, bytes_ok_app.
    split; [|apply bytes_ok_take]; apply sim_heartbeat_ok. }
  assert (turn_ok (mkTurn true 90 (PollOk true) [RIntr; RData (drop 10 sim_heartbeat)])) as H2.
  { change (Forall bytes_ok [drop 10 sim_heartbeat]). apply Forall_singleton, bytes_ok_drop, sim_heartbeat_ok. }
  apply Forall_cons_2; [exact H1|]. apply Forall_cons_2; [apply Forall_nil_2|].
  apply Forall_cons_2; [exact H2|]. apply Forall_cons_2; [apply Forall_nil_2|apply Forall_nil_2].
Qed.

Lemma demo_others_ok : Forall driver_entry demo_others.
Proof.
  apply Forall_cons_2; [apply entry_read|]. apply Forall_cons_2; [|apply Forall_nil_2]. apply entry_write.
  intros l Hl. injection Hl as <-. split; [apply sim_command_ok|reflexivity].
Qed.

(** What comes out of it. *)
Lemma demo_outcome :
  match demo_run with
  | Some (Some (e, s'), w') => (e, ld_uart s', link_of w') = (LdReturned 0, sim_command, mkLink [sim_heartbeat] [])
  | _ => False
  end.
Proof. vm_compute. reflexivity. Qed.

Lemma link_daemon_refines_witness :
  exists hist s' w', demo_run = Some (Some (LdReturned 0, s'), w') /\
    relay_events [] (take 3 demo_turns) (own hist) (ld_buf s') /\ ld_uart s' = concat (popped (own hist)).
Proof.
  destruct (link_daemon_refines 4 150 0 15 demo_turns demo_daemon sim_world demo_others demo_sched)
    as (hist & e & s' & w' & H1 & _ & _ & H2 & H3 & H4 & _).
  - lia.
  - apply sim_wf.
  - constructor.
  - vm_compute. repeat constructor.
  - apply demo_turns_ok.
  - apply demo_others_ok.
  - apply Nat.ltb_lt. vm_compute. reflexivity.
  - apply Nat.leb_le. vm_compute. reflexivity.
  - subst e. exists hist, s', w'. split; [exact H1|]. split; [exact H2|exact H3].
Defined.

End LinkdRunProps.
