(* ===== verification/Offline.v ===== *)
(** * Offline runs: [main] of [safety-supervisord] in mock and replay mode

    [run_mock] and [run_replay] on the files of a disk, with what they print.
    [Replay] has the processing between reading and writing. *)

From Stdlib Require Import Ascii.
From stdpp Require Import gmap.
From S2P Require Import Prelude Protocol Supervisor Framing SupervisorLoop Logger LoggerSpec Replay ReplaySpec Cli ReplayProps.

(** ** Files *)

(** Which file a path names, and what may be done with it.  Two paths can name
    one file. *)
Class Paths := {
  file_of : string -> option positive;
  may_read : positive -> bool;
  may_write : positive -> bool;
}.

(** Contents of the files that exist. *)
Abbreviation disk := (gmap positive string).

(** What standard output shows when the lines are printed. *)
Definition printed (ls : list string) : string := foldr (fun l t => l +:+ str1 newline +:+ t) "" ls.

(** The bytes of a file. *)
Definition file_bytes (text : string) : list Z :=
  (fun c => Z.of_N (N_of_ascii c)) <$> String.list_ascii_of_string text.

Section Files.
Context {P : Paths}.

(** [std::ifstream in(path)], when it opens. *)
Definition open_in (path : string) (d : disk) : option positive :=
  i ← file_of path; if may_read i then _ ← d !! i; Some i else None.

(** [std::ofstream out(path, out | trunc)], when it opens: a file that was there
    is emptied at once. *)
Definition open_trunc (path : string) (d : disk) : option (positive * disk) :=
  i ← file_of path; if may_write i then Some (i, <[i := ""]> d) else None.

(** What is read from an open file. *)
Definition contents (i : positive) (d : disk) : string := default "" (d !! i).

(** ** Results *)

(** The process exits with a code and has printed something; or it ends by
    [std::terminate], which leaves an open output file in any state. *)
Inductive offline := Exited (code : Z) (out : string) (d : disk) | Aborted | LiveMode (a : Sv.Args).

(** ** Replay *)

Definition replay_summary (input_path out_path : string) (r : replay) : list string :=
  ["==== Replay Summary ====";
   "input              : " +:+ input_path;
   "output             : " +:+ out_path;
   "lines read         : " +:+ to_string (lines_total r);
   "rx_frame events    : " +:+ to_string (rx_frames r);
   "timeout events     : " +:+ to_string (timeouts r);
   "ignored events     : " +:+ to_string (ignored r);
   "valid transitions  : " +:+ to_string (transitions r);
   "final state        : " +:+ state_name (rp_fsm r);
   "------------------------";
   "state entry counts:"] ++
  ((fun s => "  " +:+ state_name s +:+ " : " +:+ to_string (default 0 (state_entry_counts r !! state_index s)))
     <$> [BOOTING; HEALTHY; DEGRADED; RECOVERING; FAILED; SAFE_MODE]) ++
  ["========================"].

(** The input is read only after the output has been opened. *)
Definition replay_main (input_path report_dir : string) (d : disk) : offline :=
  match open_in input_path d with
  | None => Exited 1 "" d
  | Some fin =>
      let out_path := report_dir +:+ "/replay_events.jsonl" in
      match open_trunc out_path d with
      | None => Exited 1 "" d
      | Some (fout, d) =>
          match run_replay (contents fin d) with
          | None => Aborted
          | Some r => Exited 0 (printed (replay_summary input_path out_path r)) (<[fout := rp_out r]> d)
          end
      end
  end.

(** ** Mock *)

(** The events are pushed one by one; after each the logger thread makes some
    steps. *)
Fixpoint logger_session (sched : list nat) (es : list LogEvent) (s : lg) : lg :=
  match es with
  | [] => s
  | e :: es => logger_session (tail sched) es (Nat.iter (hd 0%nat sched) lg_run (lg_push e s))
  end.

(** [LoggerWorker::stop]: the thread is told to stop and joined. *)
Definition logger_stop (s : lg) : lg := Nat.iter (lg_todo (lg_stop s)) lg_run (lg_stop s).

Definition mock_summary (input out_path : string) (frames : nat) (m : mock) : list string :=
  ["==== Mock Run Summary ====";
   "input            : " +:+ input;
   "report           : " +:+ out_path;
   "frames parsed    : " +:+ to_string (Z.of_nat frames);
   "nack (bad frames): " +:+ to_string (nack_count m);
   "final state      : " +:+ state_name (mk_fsm m);
   "=========================="].

(** The input is read and closed before the log is opened. *)
Definition mock_main (sched : list nat) (a : Sv.Args) (d : disk) : offline :=
  match open_in (Sv.mock_file a) d with
  | None => Exited 1 "" d
  | Some fin =>
      let data := file_bytes (contents fin d) in
      let out_path := Sv.report_dir a +:+ "/events.jsonl" in
      match open_trunc out_path d with
      | None => Exited 1 "" d
      | Some (fout, d) =>
          let m := run_mock (Sv.hb_timeout_ms a) data in
          let log := logger_stop (logger_session sched (mk_log m) lg_start) in
          Exited 0 (printed (mock_summary (Sv.mock_file a) out_path (length (FrameAssembler_feed [] data).1) m))
            (<[fout := lg_out log]> d)
      end
  end.

(** ** [main] *)

(** [main] with the name it was called by and its other arguments. *)
Definition supervisord (sched : list nat) (prog : string) (argv : list string) (d : disk) : offline :=
  match Sv.main_dispatch argv with
  | Sv.Return code => Exited code (if code =? 0 then printed (Sv.print_help prog) else "") d
  | Sv.Terminate => Aborted
  | Sv.RunReplay input report_dir => replay_main input report_dir d
  | Sv.RunMock a => mock_main sched a d
  | Sv.RunLive a => LiveMode a
  end.

End Files.

(** ** What the runs do *)

Lemma file_bytes_ok text : bytes_ok (file_bytes text).
Proof.
  unfold bytes_ok, file_bytes. induction (String.list_ascii_of_string text) as [|c l IH]; [constructor|].
  constructor; [|exact IH]. pose proof (N_ascii_bounded c). cbn. lia.
Qed.

(** Whatever the schedule, the session pushes the events and the thread does not
    exit before it is told to. *)
Lemma iter_running n s :
  lg_stopping s = false -> lg_pos s <> LgExited ->
  lg_stopping (Nat.iter n lg_run s) = false /\ lg_pos (Nat.iter n lg_run s) <> LgExited.
Proof.
  intros Hs Hp. induction n as [|n [IH1 IH2]]; [done|]. cbn [Nat.iter nat_rect].
  change (nat_rect _ s (fun _ => lg_run) n) with (Nat.iter n lg_run s).
  revert IH1 IH2. generalize (Nat.iter n lg_run s) as t. clear. intros t Hs Hp. unfold lg_run.
  destruct (lg_pos t) as [|[|e b]|] eqn:E; [|done|done|done].
  rewrite Hs. cbn [orb andb]. destruct (bool_decide _); cbn [negb]; [by rewrite E|done].
Qed.

Lemma session_reach sched es p s :
  lg_reach p s -> lg_stopping s = false -> lg_pos s <> LgExited ->
  let s' := logger_session sched es s in lg_reach (p ++ es) s' /\ lg_pos s' <> LgExited.
Proof.
  revert sched p s. induction es as [|e es IH]; intros sched p s Hr Hs Hp; cbn zeta; [by rewrite app_nil_r|].
  destruct (iter_running (hd 0%nat sched) (lg_push e s)) as [H1 H2]; [done|done|].
  cbn [logger_session]. rewrite cons_middle, app_assoc. apply IH; [|done|done].
  apply lg_reach_iter. by constructor.
Qed.

(** The log file holds what was pushed. *)
Lemma session_log sched es : lg_out (logger_stop (logger_session sched es lg_start)) = log_text es.
Proof.
  destruct (session_reach sched es [] lg_start) as [Hr Hp]; [constructor|done|done|].
  exact (proj2 (lg_finish es _ _ Hr Hp (Nat.le_refl _))).
Qed.

Section Runs.
Context {P : Paths}.

Lemma mock_main_run sched a d fin flog :
  open_in (Sv.mock_file a) d = Some fin ->
  file_of (Sv.report_dir a +:+ "/events.jsonl") = Some flog -> may_write flog = true ->
  let data := file_bytes (contents fin d) in
  let m := run_mock (Sv.hb_timeout_ms a) data in
  mock_main sched a d =
    Exited 0 (printed (mock_summary (Sv.mock_file a) (Sv.report_dir a +:+ "/events.jsonl")
                         (length (FrameAssembler_feed [] data).1) m))
      (<[flog := log_text (mk_log m)]> d).
Proof.
  intros Hin Hf Hw data m. unfold mock_main. rewrite Hin. unfold open_trunc. rewrite Hf. cbn [mbind option_bind].
  rewrite Hw. cbv beta iota zeta. by rewrite session_log, insert_insert_eq.
Qed.

Lemma replay_main_run input dir d fin fout r :
  open_in input d = Some fin ->
  file_of (dir +:+ "/replay_events.jsonl") = Some fout -> may_write fout = true ->
  run_replay (if decide (fin = fout) then "" else contents fin d) = Some r ->
  replay_main input dir d =
    Exited 0 (printed (replay_summary input (dir +:+ "/replay_events.jsonl") r)) (<[fout := rp_out r]> d).
Proof.
  intros Hin Hf Hw Hr. unfold replay_main. rewrite Hin. unfold open_trunc. rewrite Hf. cbn [mbind option_bind].
  rewrite Hw. cbv beta iota zeta. assert (contents fin (<[fout := ""]> d) = if decide (fin = fout) then "" else contents fin d) as ->.
  { unfold contents. case_decide as E; [by rewrite E, lookup_insert_eq|by rewrite lookup_insert_ne by done]. }
  rewrite Hr. by rewrite insert_insert_eq.
Qed.

Lemma open_in_file path d i : open_in path d = Some i -> file_of path = Some i /\ may_read i = true.
Proof.
  unfold open_in. destruct (file_of path) as [j|]; [|done]. cbn [mbind option_bind].
  destruct (may_read j) eqn:E; [|done]. destruct (d !! j); [|done]. intros [= <-]. done.
Qed.

(** A replay of its own output empties the file and reports success. *)
Lemma replay_onto_itself input dir d f :
  open_in input d = Some f -> file_of (dir +:+ "/replay_events.jsonl") = Some f -> may_write f = true ->
  replay_main input dir d =
    Exited 0 (printed (replay_summary input (dir +:+ "/replay_events.jsonl") replay_start)) (<[f := ""]> d).
Proof. intros Hin Hf Hw. by rewrite (replay_main_run input dir d f f replay_start) by (rewrite ?decide_True by done; done). Qed.

End Runs.

Module OfflineProps.

(** C31. A recording, its log and the replay of the log: called in mock mode on
    a file with no critical faults, however its logger thread is scheduled, the
    daemon exits with 0, having written the log of the frames and changed no
    other file, and its final state is HEALTHY once a heartbeat was accepted.
    Called then in replay mode on this log, by any path, it exits with 0 and
    leaves the log alone. The state changes it writes ([shown]) are those of the
    first run, all of them unless the last heartbeat accepted came more than
    the timeout after the one before ([ended_gap]): then exactly the last
    change, RECOVERING to HEALTHY, is missing, and the state it prints is
    RECOVERING. The other numbers it prints are those of the log: its lines,
    frames, timeouts and ignored events, and the transitions and the entries
    into each state among [shown]. *)
Theorem recording_replayed {P : Paths} (sched sched' : list nat) (prog : string) (argv argv' : list string)
    (a : Sv.Args) (input dir : string) (d : disk) (fin flog fout : positive) :
  Sv.main_dispatch argv = Sv.RunMock a ->
  open_in (Sv.mock_file a) d = Some fin ->
  let frames := (FrameAssembler_feed [] (file_bytes (contents fin d))).1 in
  Forall (fun f => ~ (pf_ok f = true /\ pf_type f = SAFETY_FRAME_FAULT_EVENT /\ 2 <= fault_severity f)) frames ->
  let log_path := Sv.report_dir a +:+ "/events.jsonl" in
  file_of log_path = Some flog -> may_write flog = true -> may_read flog = true ->
  Sv.main_dispatch argv' = Sv.RunReplay input dir -> file_of input = Some flog ->
  let out_path := dir +:+ "/replay_events.jsonl" in
  file_of out_path = Some fout -> may_write fout = true -> fout <> flog ->
  let m := run_mock (Sv.hb_timeout_ms a) (file_bytes (contents fin d)) in
  let late := ended_gap (Sv.hb_timeout_ms a) (heartbeats frames) in
  mk_fsm m = (if decide (heartbeats frames = []) then BOOTING else HEALTHY) /\
  exists (r : replay) (shown : list LogEvent),
    supervisord sched prog argv d =
      Exited 0 (printed (mock_summary (Sv.mock_file a) log_path (length frames) m)) (<[flog := log_text (mk_log m)]> d) /\
    supervisord sched' prog argv' (<[flog := log_text (mk_log m)]> d) =
      Exited 0 (printed (replay_summary input out_path r)) (<[fout := log_text shown]> (<[flog := log_text (mk_log m)]> d)) /\
    state_changes (mk_log m) = shown ++ (if late then [change_event RECOVERING HEARTBEAT_RESTORED] else []) /\
    rp_fsm r = (if late then RECOVERING else mk_fsm m) /\
    lines_total r = Z.of_nat (length (mk_log m)) /\
    rx_frames r = of_kind RX_FRAME (mk_log m) /\ timeouts r = of_kind TIMEOUT (mk_log m) /\
    ignored r = passed_over (mk_log m) /\ transitions r = Z.of_nat (length shown) /\
    (forall st, state_entry_counts r !! state_index st =
                Some (Z.of_nat (length (filter (fun e => to_state e = state_name st) shown)))).
Proof.
  intros Ha Hin frames Hf log_path Hlog Hw Hr Ha' Hin' out_path Hout Hw' Hne m late.
  destruct (mock_log_replayed (Sv.hb_timeout_ms a) _ (file_bytes_ok _) Hf)
    as (Hm & r & shown & Hrun & N1 & N2 & N3 & N4 & N5 & N6 & N7 & N8 & N9).
  fold m in Hm, Hrun, N1, N2, N3, N4, N5, N9. split; [exact Hm|]. exists r, shown. split; [|split; [|done]].
  - unfold supervisord. rewrite Ha. by apply mock_main_run.
  - unfold supervisord. rewrite Ha', <- N6. apply (replay_main_run _ _ _ flog); [|done|done|].
    + unfold open_in. rewrite Hin'. cbn [mbind option_bind]. by rewrite Hr, lookup_insert_eq.
    + rewrite decide_False by done. unfold contents. by rewrite lookup_insert_eq.
Qed.

(** Reports go to one directory; paths name files as written. *)
#[local] Instance DemoPaths : Paths := {|
  file_of path :=
    if decide (path = "rec.bin") then Some 1%positive
    else if decide (path = "reports/events.jsonl") then Some 2%positive
    else if decide (path = "reports/replay_events.jsonl") then Some 3%positive else None;
  may_read _ := true;
  may_write _ := true;
|}.

Definition demo_disk : disk :=
  {[ 1%positive := String.string_of_list_ascii ((fun b => ascii_of_N (Z.to_N b)) <$> ReplayProps.recording) ]}.

Lemma demo_recording :
  Forall (fun f => ~ (pf_ok f = true /\ pf_type f = SAFETY_FRAME_FAULT_EVENT /\ 2 <= fault_severity f))
    (FrameAssembler_feed [] (file_bytes (contents 1 demo_disk))).1.
Proof. apply (bool_decide_unpack _). by vm_compute. Qed.

Lemma demo_frames : length (FrameAssembler_feed [] (file_bytes (contents 1 demo_disk))).1 = 2%nat.
Proof. by vm_compute. Qed.

(** Its second heartbeat ends a gap. *)
Lemma demo_late :
  ended_gap 350 (heartbeats (FrameAssembler_feed [] (file_bytes (contents 1 demo_disk))).1) = true.
Proof. by vm_compute. Qed.

Lemma recording_replayed_witness :
  let m := run_mock 350 (file_bytes (contents 1 demo_disk)) in
  supervisord [2; 0; 7]%nat "safety-supervisord" ["--mock-device"; "rec.bin"] demo_disk =
    Exited 0 (printed (mock_summary "rec.bin" "reports/events.jsonl" 2 m)) (<[2%positive := log_text (mk_log m)]> demo_disk) /\
  exists r, rp_fsm r = RECOVERING.
Proof.
  destruct (recording_replayed [2; 0; 7]%nat [] "safety-supervisord" ["--mock-device"; "rec.bin"]
              ["--replay"; "reports/events.jsonl"] (Sv.mkArgs Sv.MOCK "/dev/safety_copro" "rec.bin" "" "reports" 350 0)
              "reports/events.jsonl" "reports" demo_disk 1 2 3)
    as (_ & r & shown & H1 & _ & _ & H2 & _); try exact eq_refl.
  - exact demo_recording.
  - done.
  - rewrite demo_frames in H1. split; [exact H1|]. exists r. cbn [Sv.hb_timeout_ms] in H2. by rewrite demo_late in H2.
Defined.

End OfflineProps.
