(* ===== verification/LinkdLog.v ===== *)
(** * The report of the link daemon: [log_event] of [safety-linkd/main.cpp]

    The text of [linkd_events.jsonl].  Strings are printed as they are, without
    escapes; the readers of the replay mode find the fields all the same. *)

From Stdlib Require Import Ascii.
From S2P Require Import Prelude Supervisor SupervisorLoop.
From S2P Require Import KernelApi Device Linkd Logger LoggerSpec.

(** [log_event] at time [now_ms]; the detail of a failure is its [strerror]. *)
Definition ld_event_text (strerror : Z -> string) (now_ms : Z) (e : ld_event) : string :=
  "{" +:+ int_key "ts_ms" +:+ to_string now_ms +:+
  "," +:+ string_key "kind" +:+ ev_kind e +:+
  q +:+ "," +:+ string_key "frame_type" +:+ ev_frame_type e +:+
  q +:+ "," +:+ int_key "seq" +:+ to_string (ev_seq e) +:+
  "," +:+ int_key "bytes" +:+ to_string (ev_bytes e) +:+
  "," +:+ string_key "detail" +:+ (if ev_errno e =? 0 then "" else strerror (ev_errno e)) +:+ q +:+ "}".

(** The file after a log with the times of its lines. *)
Definition linkd_report (strerror : Z -> string) (stamps : list Z) (log : list ld_event) : string :=
  foldr (fun te t => ld_event_text strerror te.1 te.2 +:+ str1 newline +:+ t) "" (zip stamps log).

(** Text that needs no escape. *)
Definition unescaped (c : ascii) : Prop := c <> quote /\ c <> backslash /\ (32 <= nat_of_ascii c)%nat.

#[global] Instance unescaped_dec c : Decision (unescaped c).
Proof. unfold unescaped. apply _. Defined.

Lemma escape_unescaped s : all_chars unescaped s -> json_escaped s = s.
Proof.
  induction s as [|c s IH]; [done|]. intros [(Hq & Hb & Hc) Hs]. cbn [json_escaped]. rewrite IH by done.
  unfold json_escape. do 2 (destruct (ascii_dec c _); [done|]).
  do 3 (destruct (ascii_dec c _) as [-> |]; [by apply Nat.leb_le in Hc|]).
  by rewrite (proj2 (Nat.ltb_ge _ _) Hc).
Qed.

Section Read.
Context (strerror : Z -> string) (now_ms : Z) (e : ld_event).
Hypotheses (Hkind : all_chars unescaped (ev_kind e)) (Htype : all_chars unescaped (ev_frame_type e))
           (Herr : all_chars unescaped (strerror (ev_errno e))).

Definition ld_detail : string := if ev_errno e =? 0 then "" else strerror (ev_errno e).

Definition ld_fields : list field :=
  [FInt "ts_ms" now_ms; FStr "kind" (ev_kind e); FStr "frame_type" (ev_frame_type e); FInt "seq" (ev_seq e);
   FInt "bytes" (ev_bytes e); FStr "detail" ld_detail].

Lemma ld_detail_unescaped : all_chars unescaped ld_detail.
Proof. unfold ld_detail. by destruct (_ =? 0). Qed.

Lemma unescaped_loggable s : all_chars unescaped s -> all_chars loggable s.
Proof. apply all_chars_impl. intros c (_ & _ & H). by left. Qed.

Lemma ld_text_fields : ld_event_text strerror now_ms e = "{" +:+ fields_text ld_fields.
Proof.
  unfold ld_event_text, ld_fields. cbn [fields_text field_text].
  rewrite !escape_unescaped by (done || apply ld_detail_unescaped). unfold int_key, string_key.
  by rewrite !str_app_assoc.
Qed.

#[local] Ltac field_at n :=
  rewrite ld_text_fields;
  first [apply (extract_string_field _ _ (take n ld_fields) (drop (S n) ld_fields))
        |apply (extract_int_field _ _ (take n ld_fields) (drop (S n) ld_fields))];
  [repeat constructor; discriminate|by split|].

(** Every field of a line is read back. *)
Lemma ld_event_read :
  - 2 ^ 63 <= now_ms < 2 ^ 63 -> - 2 ^ 31 <= ev_seq e < 2 ^ 31 -> 0 <= ev_bytes e < 2 ^ 32 ->
  let line := ld_event_text strerror now_ms e in
  extract_int line "ts_ms" = GotInt now_ms /\ extract_string line "kind" = Some (ev_kind e) /\
  extract_string line "frame_type" = Some (ev_frame_type e) /\ extract_int line "seq" = GotInt (ev_seq e) /\
  extract_int line "bytes" = GotInt (ev_bytes e) /\ extract_string line "detail" = Some ld_detail.
Proof.
  intros Hts Hseq Hbytes line. unfold line. split_and?.
  - field_at 0%nat. lia.
  - field_at 1%nat. by apply unescaped_loggable.
  - field_at 2%nat. by apply unescaped_loggable.
  - field_at 3%nat. lia.
  - field_at 4%nat. lia.
  - field_at 5%nat. apply unescaped_loggable, ld_detail_unescaped.
Qed.

End Read.
